(** * Shallow embedding of passlib.crypto.digest

    Source: [lib/passlib/crypto/digest.py].  The development follows the
    module top to bottom: name normalisation, constructor lookup, the
    [lookup_hash] resolver with its cache, [HashInfo], [compile_hmac],
    [pbkdf1] and [pbkdf2_hmac] with its builtin loop helpers.

    Conventions.  Octet strings are [list byte]; Python integers are [Z];
    Python [str] values are Rocq [string]s read as sequences of code points
    below 256; exceptions are the constructors of [exn], [Raised] standing for
    whatever a callable handed in from outside raises; module level state
    (the [_hash_info_cache] dictionary and the identity of the objects
    created) is threaded explicitly through the monad [M].  Everything that
    belongs to the interpreter or to [hashlib] rather than to this module is
    a field of the record [Platform].

    The second part of the development, the module [Registry], embeds
    [lib/passlib/registry.py] in the same style. *)

From Stdlib Require Import ZArith List Bool Ascii String Lia.
From Stdlib Require Import Strings.Byte.
From stdpp Require Import base decidable countable gmap strings sorting.
Import ListNotations.
Local Open Scope string_scope.
Local Open Scope Z_scope.

(** ** Exceptions *)

Inductive exn : Type :=
| ValueError (msg : string)
| OverflowError (msg : string)
| TypeError
| ExpectedTypeError (param : string)
| UnknownHashError (name : string)
| AssertionError
| NotImplementedError
| RuntimeError
| RecursionError
| ZeroDivisionError
| SyntaxError
| StructError
| Raised (what : string).

Inductive Result (A : Type) : Type :=
| Ok (a : A)
| Err (e : exn).
Arguments Ok {A} a.
Arguments Err {A} e.

(** [isinstance(e, ValueError)], what [except ValueError] catches:
    [passlib.exc.UnknownHashError] derives from [ValueError]; none of the
    other classes does, and [Raised] stands for classes outside that
    hierarchy. *)
Definition is_ValueError (e : exn) : bool :=
  match e with
  | ValueError _ | UnknownHashError _ => true
  | _ => false
  end.

(** ** Octet strings and integers *)

Abbreviation bytes := (list byte).

Definition Z_of_byte (b : byte) : Z := Z.of_N (Byte.to_N b).

Definition byte_of_Z (z : Z) : byte :=
  match Byte.of_N (Z.to_N (z mod 256)) with
  | Some b => b
  | None => x00
  end.

(** [a ^ b] on two octets. *)
Definition bxor (a b : byte) : byte := byte_of_Z (Z.lxor (Z_of_byte a) (Z_of_byte b)).

(** [int.from_bytes(digest, "big")]. *)
Definition from_bytes_big (digest : bytes) : Z :=
  fold_left (fun acc b => Z.lor (Z.shiftl acc 8) (Z_of_byte b)) digest 0.

(** The [n] low octets of [z], least significant first. *)
Fixpoint octets_le (n : nat) (z : Z) : bytes :=
  match n with
  | O => []
  | S k => byte_of_Z (Z.land z 255) :: octets_le k (Z.shiftr z 8)
  end.

(** [accum.to_bytes(length, "big")]: a negative length is a [ValueError], an
    integer that is negative or does not fit is an [OverflowError]. *)
Definition to_bytes_big (accum : Z) (length : Z) : Result bytes :=
  if length <? 0 then Err (ValueError "length argument must be non-negative")
  else if (accum <? 0) || (2 ^ (8 * length) <=? accum)
  then Err (OverflowError "int too big to convert")
  else Ok (rev (octets_le (Z.to_nat length) accum)).

(** [Struct(">L").pack(i)]: four octets, most significant first; values outside
    the unsigned 32 bit range raise [struct.error]. *)
Definition _pack_uint32 (i : Z) : Result bytes :=
  if (i <? 0) || (2 ^ 32 <=? i) then Err StructError
  else Ok (rev (octets_le 4 i)).

(** [b'\x00' * n]; a count below one gives the empty string. *)
Definition zeros (n : Z) : bytes := repeat x00 (Z.to_nat n).

(** [block[:keylen]] for a slice bound that may be negative. *)
Definition slice_to (block : bytes) (keylen : Z) : bytes :=
  if keylen <? 0
  then firstn (Nat.sub (List.length block) (Z.to_nat (- keylen))) block
  else firstn (Z.to_nat keylen) block.

(** [join_byte_values((x ^ mask) for x in irange(256))]. *)
Definition trans_table (mask : Z) : bytes :=
  map (fun x => byte_of_Z (Z.lxor (Z.of_nat x) mask)) (seq 0 256).

(** [key.translate(table)]. *)
Definition translate (table : bytes) (key : bytes) : bytes :=
  map (fun b => nth (Z.to_nat (Z_of_byte b)) table x00) key.

Definition MAX_UINT32 : Z := Z.shiftl 1 32 - 1.
Definition MAX_UINT64 : Z := Z.shiftl 1 64 - 1.

(** ** Hash objects

    A [hashlib] style algorithm is given by its reported name and sizes and by
    the digest function on complete messages.  A hash object is the algorithm
    together with the octets fed so far: [update] appends, [copy] duplicates,
    [digest] hashes what has been fed and leaves the object as it is. *)

Record HashAlg : Type := {
  alg_name : string;
  alg_digest_size : Z;
  alg_block_size : Z;
  alg_H : bytes -> bytes
}.

Record hashobj : Type := {
  ho_alg : HashAlg;
  ho_fed : bytes
}.

Definition hash_new (alg : HashAlg) (msg : bytes) : hashobj :=
  {| ho_alg := alg; ho_fed := msg |}.
Definition hash_update (h : hashobj) (msg : bytes) : hashobj :=
  {| ho_alg := ho_alg h; ho_fed := ho_fed h ++ msg |}.
Definition hash_copy (h : hashobj) : hashobj := h.
Definition hash_digest (h : hashobj) : bytes := alg_H (ho_alg h) (ho_fed h).

(** ** Strings

    The [str] methods and the two regular expressions used by
    [_get_hash_aliases], on strings of code points below 256. *)

Definition code (c : ascii) : nat := nat_of_ascii c.

Definition between (lo hi n : nat) : bool := Nat.leb lo n && Nat.leb n hi.

(** [c.isspace()]. *)
Definition isspace (c : ascii) : bool :=
  between 9 13 (code c) || between 28 32 (code c)
  || Nat.eqb (code c) 133 || Nat.eqb (code c) 160.

(** [c.lower()]. *)
Definition lower_char (c : ascii) : ascii :=
  if between 65 90 (code c) || between 192 214 (code c) || between 216 222 (code c)
  then ascii_of_nat (code c + 32) else c.

Fixpoint map_string (f : ascii -> ascii) (s : string) : string :=
  match s with
  | EmptyString => EmptyString
  | String c s' => String (f c) (map_string f s')
  end.

Definition lower (s : string) : string := map_string lower_char s.

Fixpoint lstrip (s : string) : string :=
  match s with
  | EmptyString => EmptyString
  | String c s' => if isspace c then lstrip s' else s
  end.

Fixpoint rstrip (s : string) : string :=
  match s with
  | EmptyString => EmptyString
  | String c s' =>
      match rstrip s' with
      | EmptyString => if isspace c then EmptyString else String c EmptyString
      | r => String c r
      end
  end.

Definition strip (s : string) : string := rstrip (lstrip s).

(** [re.sub("[_ /]", "-", s)]. *)
Definition sub_separators (s : string) : string :=
  map_string (fun c => if Ascii.eqb c "_" || Ascii.eqb c " " || Ascii.eqb c "/"
                       then "-"%char else c) s.

(** [s.replace("-", "_")]. *)
Definition replace_hyphens (s : string) : string :=
  map_string (fun c => if Ascii.eqb c "-" then "_"%char else c) s.

Fixpoint startswith (p s : string) : bool :=
  match p, s with
  | EmptyString, _ => true
  | String a p', String b s' => Ascii.eqb a b && startswith p' s'
  | String _ _, EmptyString => false
  end.

Fixpoint drop_chars (n : nat) (s : string) : string :=
  match n, s with
  | O, _ => s
  | S k, String _ s' => drop_chars k s'
  | S _, EmptyString => EmptyString
  end.

Fixpoint take_chars (n : nat) (s : string) : string :=
  match n, s with
  | O, _ => EmptyString
  | S k, String c s' => String c (take_chars k s')
  | S _, EmptyString => EmptyString
  end.

Definition endswith (p s : string) : bool :=
  Nat.leb (String.length p) (String.length s)
  && String.eqb (drop_chars (String.length s - String.length p) s) p.

(** [x in row] for a tuple of strings. *)
Fixpoint str_in (x : string) (row : list string) : bool :=
  match row with
  | [] => false
  | y :: row' => String.eqb x y || str_in x row'
  end.

(** *** The pattern [(?i)^(?P<name>[a-z]+)-?(?P<rev>\d)?-?(?P<size>\d{3,4})?$]

    The matcher tries the alternatives in the order of the backtracking
    engine: every optional item is first taken, then skipped; [{3,4}] tries
    four digits before three.  The letters are taken greedily and never given
    back, because nothing that follows them in the pattern can match a
    letter. *)

Definition is_letter (c : ascii) : bool :=
  between 97 122 (code c) || between 65 90 (code c).

Definition is_digit (c : ascii) : bool := between 48 57 (code c).

Fixpoint span_letters (s : string) : string * string :=
  match s with
  | EmptyString => (EmptyString, EmptyString)
  | String c s' =>
      if is_letter c
      then let (l, r) := span_letters s' in (String c l, r)
      else (EmptyString, s)
  end.

Fixpoint all_digits (s : string) : bool :=
  match s with
  | EmptyString => true
  | String c s' => is_digit c && all_digits s'
  end.

(** [$]: the end of the string, or just before a final newline. *)
Definition at_end (s : string) : bool :=
  String.eqb s "" || String.eqb s (String (ascii_of_nat 10) "").

Definition or_else {A : Type} (x y : option A) : option A :=
  match x with Some _ => x | None => y end.

(** [(\d{n})$] on [s]. *)
Definition digits_then_end (n : nat) (s : string) : option (option string) :=
  if Nat.eqb (String.length (take_chars n s)) n
     && all_digits (take_chars n s) && at_end (drop_chars n s)
  then Some (Some (take_chars n s)) else None.

(** [(\d{3,4})?$]. *)
Definition match_size (s : string) : option (option string) :=
  or_else (digits_then_end 4 s)
    (or_else (digits_then_end 3 s) (if at_end s then Some None else None)).

(** [-?] followed by the continuation [k]. *)
Definition opt_hyphen {A : Type} (k : string -> option A) (s : string) : option A :=
  match s with
  | String "-"%char s' => or_else (k s') (k s)
  | _ => k s
  end.

(** [(\d)?] followed by the continuation [k]. *)
Definition opt_digit {A : Type} (k : option string -> string -> option A)
    (s : string) : option A :=
  match s with
  | String c s' =>
      if is_digit c then or_else (k (Some (String c "")) s') (k None s) else k None s
  | EmptyString => k None s
  end.

(** [m.group("name", "rev", "size")] of a match, [None] when there is none. *)
Definition re_match_name (s : string)
  : option (string * option string * option string) :=
  let (letters, rest) := span_letters s in
  if String.eqb letters "" then None
  else opt_hyphen
         (opt_digit (fun rev =>
            opt_hyphen (fun t =>
              match match_size t with
              | Some size => Some (letters, rev, size)
              | None => None
              end))) rest.

(** ** Hash names *)

(** Rows are [(hashlib/ssl name, iana name or standin, other known aliases ...)]. *)
Definition _known_hash_names : list (list string) := [
  ["md2"; "md2"];
  ["md5"; "md5"];
  ["sha1"; "sha-1"];
  ["sha224"; "sha-224"; "sha2-224"];
  ["sha256"; "sha-256"; "sha2-256"];
  ["sha384"; "sha-384"; "sha2-384"];
  ["sha512"; "sha-512"; "sha2-512"];
  ["md4"; "md4"];
  ["sha"; "sha-0"; "sha0"];
  ["ripemd"; "ripemd"];
  ["ripemd160"; "ripemd-160"]
]%string.

(** The inner helper [check_table]: the first row that lists [name]. *)
Fixpoint check_table_in (table : list (list string)) (name : string)
  : option (list string) :=
  match table with
  | [] => None
  | row :: table' => if str_in name row then Some row else check_table_in table' name
  end.

Definition check_table (name : string) : option (list string) :=
  check_table_in _known_hash_names name.

(** The first lines of [_get_hash_aliases]: trimming, lower case, separators,
    and the SCRAM prefix and suffix. *)
Definition clean_name (name : string) : string :=
  let name := sub_separators (lower (strip name)) in
  if startswith "scram-" name then
    let name := drop_chars 6 name in
    if endswith "-plus" name
    then take_chars (String.length name - 5) name
    else name
  else name.

(** The rest of [_get_hash_aliases], from the cleaned name on.  A non-empty
    row of the table is truthy, so [if result: return result] returns every
    row found. *)
Definition aliases_of_clean (name : string) : list string :=
  match check_table name with
  | Some result => result
  | None =>
      match re_match_name name with
      | Some (iana_name, rev, size) =>
          let iana_name :=
            match rev with Some r => iana_name ++ r | None => iana_name end%string in
          let hashlib_name := iana_name in
          let '(iana_name, hashlib_name) :=
            match size with
            | Some sz =>
                (iana_name ++ "-" ++ sz,
                 (match rev with Some _ => hashlib_name ++ "_" | None => hashlib_name end)
                   ++ sz)%string
            | None => (iana_name, hashlib_name)
            end in
          match check_table iana_name with
          | Some result => result
          | None => [hashlib_name; iana_name]
          end
      | None =>
          let iana_name := name in
          let hashlib_name := replace_hyphens name in
          [hashlib_name; iana_name]
      end
  end.

Definition _get_hash_aliases (name : string) : list string :=
  aliases_of_clean (clean_name name).

(** ** Constructors, the platform, and the module state *)

Local Open Scope list_scope.

(** A digest constructor is a Python callable, compared by identity ([is],
    and as a dictionary key).  Either it exists independently of this module
    (an attribute of [hashlib], the builtin [md4], a callable handed in by a
    caller), or it is one of the [const] closures that [_get_hash_const]
    builds around [hashlib.new]; each such closure is a new object. *)
Inductive const : Type :=
| StaticConst (id : nat)
| WrapperConst (serial : nat) (name : string).

#[global] Instance const_eq_dec : EqDecision const.
Proof. solve_decision. Defined.

(** Signature of an accelerated PBKDF2 provider:
    [(name, secret, salt, rounds, keylen)]. *)
Definition pbkdf2_fn : Type :=
  string -> bytes -> bytes -> Z -> option Z -> Result bytes.

(** Everything the module takes from its surroundings. *)
Record Platform : Type := {
  (** [lib.passlib.utils.compat.PY3] *)
  PY3 : bool;
  (** [os.environ.get("PASSLIB_PBKDF2_BACKEND")] *)
  environ_backend : option string;
  (** [lib.passlib.utils.sys_bits] *)
  sys_bits : Z;
  (** native byte order of [struct], for the ["="] formats *)
  little_endian : bool;
  (** depth of nested calls after which the interpreter raises *)
  recursion_limit : nat;
  (** [getattr(hashlib, name)]; [None] stands for [AttributeError] *)
  hashlib_getattr : string -> option nat;
  (** [hashlib.new(name, ...)]; [None] stands for [ValueError] *)
  hashlib_new : string -> option HashAlg;
  (** [lib.passlib.crypto._md4.md4] *)
  builtin_md4 : nat;
  (** what calling a pre-existing callable gives: a hash object of some
      algorithm, or an exception of its own *)
  call_static : nat -> HashAlg + string;
  (** [fastpbkdf2.pbkdf2_hmac], when it can be imported *)
  fastpbkdf2_pbkdf2_hmac : option pbkdf2_fn;
  (** [hashlib.pbkdf2_hmac], when it can be imported, with the answer to
      [__module__ == "hashlib"] *)
  hashlib_pbkdf2_hmac : option (bool * pbkdf2_fn);
  (** [lib.passlib.utils.int_to_bytes], used by the hexlify helper only *)
  int_to_bytes : Z -> Z -> Result bytes
}.

(** Record containing information about a given hash algorithm.  [oid] is the
    identity of the instance: two records are the same object exactly when
    their [oid]s agree. *)
Record HashInfo : Type := {
  oid : nat;
  name : string;
  iana_name : string;
  aliases : list string;
  info_const : option const;
  digest_size : option Z;
  block_size : option Z
}.

#[global] Instance HashInfo_eq_dec : EqDecision HashInfo.
Proof. solve_decision. Defined.

(** [HashInfo._as_tuple]; through [SequenceMixin] it is what [==] compares. *)
Definition _as_tuple (info : HashInfo) : option const * option Z * option Z :=
  (info_const info, digest_size info, block_size info).

(** Keys of [_hash_info_cache]: names and constructors. *)
Inductive key : Type :=
| KName (s : string)
| KConst (c : const).

#[global] Instance key_eq_dec : EqDecision key.
Proof. solve_decision. Defined.

#[global] Instance key_countable : Countable key.
Proof.
  refine (inj_countable'
    (fun k => match k with
              | KName s => inl s
              | KConst (StaticConst n) => inr (inl n)
              | KConst (WrapperConst n s) => inr (inr (n, s))
              end)
    (fun x => match x with
              | inl s => KName s
              | inr (inl n) => KConst (StaticConst n)
              | inr (inr (n, s)) => KConst (WrapperConst n s)
              end) _).
  intros [s | [n | n s]]; reflexivity.
Defined.

Record State : Type := {
  (** [_hash_info_cache] *)
  cache : gmap key HashInfo;
  (** number of objects this module has created so far *)
  next_object : nat
}.

Definition initial_state : State := {| cache := ∅; next_object := 0 |}.

(** Computations that read and write the module state and may raise.  The
    state survives an exception. *)
Definition M (A : Type) : Type := State -> Result A * State.

Definition ret {A : Type} (a : A) : M A := fun st => (Ok a, st).
Definition raise {A : Type} (e : exn) : M A := fun st => (Err e, st).
Definition bind {A B : Type} (m : M A) (k : A -> M B) : M B :=
  fun st => match m st with
            | (Ok a, st') => k a st'
            | (Err e, st') => (Err e, st')
            end.
Definition lift {A : Type} (r : Result A) : M A := fun st => (r, st).
Definition assert (b : bool) : M unit :=
  if b then ret tt else raise AssertionError.

Notation "x <- m ;; k" := (bind m (fun x => k))
  (at level 100, m at level 99, right associativity).
Notation "m ;;; k" := (bind m (fun _ => k))
  (at level 100, right associativity).

Definition cache_get (k : key) : M (option HashInfo) :=
  fun st => (Ok (cache st !! k), st).
Definition cache_set (k : key) (info : HashInfo) : M unit :=
  fun st => (Ok tt, {| cache := <[k := info]> (cache st); next_object := next_object st |}).
Definition new_object : M nat :=
  fun st => (Ok (next_object st),
             {| cache := cache st; next_object := S (next_object st) |}).

Section Resolver.

Variable P : Platform.

(** [const(msg)]. *)
Definition call_const (c : const) (msg : bytes) : Result hashobj :=
  match c with
  | StaticConst id =>
      match call_static P id with
      | inl alg => Ok (hash_new alg msg)
      | inr what => Err (Raised what)
      end
  | WrapperConst _ nm =>
      match hashlib_new P nm with
      | Some alg => Ok (hash_new alg msg)
      | None => Err (ValueError "unsupported hash type")
      end
  end.

(** [_get_hash_const]: the [hashlib] attribute, else a new wrapper around
    [hashlib.new], else the builtin [md4], else [None]. *)
Definition _get_hash_const (nm : string) : M (option const) :=
  match
    (if negb (startswith "_" nm) && negb (str_in nm ["new"; "algorithms"]%string)
     then hashlib_getattr P nm else None)
  with
  | Some id => ret (Some (StaticConst id))
  | None =>
      match hashlib_new P nm with
      | Some _ =>
          serial <- new_object ;;
          ret (Some (WrapperConst serial nm))
      | None =>
          if String.eqb nm "md4"
          then ret (Some (StaticConst (builtin_md4 P)))
          else ret None
      end
  end.

(** [HashInfo.__init__].  The warning about an inconsistent self-reported
    name has no effect on the result. *)
Definition HashInfo_init (c : option const) (names : list string) : M HashInfo :=
  match c with
  | None =>
      o <- new_object ;;
      ret {| oid := o; name := nth 0 names ""; iana_name := nth 1 names "";
             aliases := skipn 2 names; info_const := None;
             digest_size := None; block_size := None |}
  | Some c' =>
      hash <- lift (call_const c' []) ;;
      if Z.of_nat (List.length (hash_digest hash)) =? alg_digest_size (ho_alg hash)
      then
        o <- new_object ;;
        ret {| oid := o; name := nth 0 names ""; iana_name := nth 1 names "";
               aliases := skipn 2 names; info_const := Some c';
               digest_size := Some (alg_digest_size (ho_alg hash));
               block_size := Some (alg_block_size (ho_alg hash)) |}
      else raise RuntimeError
  end.

(** What [lookup_hash] is asked to resolve. *)
Inductive digest_arg : Type :=
| DName (s : string)
| DInfo (info : HashInfo)
| DConst (c : const)
| DOther.

(** [cache[digest]] with [KeyError] and [TypeError] caught: a [HashInfo] is
    unhashable, any other value is simply absent. *)
Definition cache_lookup (digest : digest_arg) : M (option HashInfo) :=
  match digest with
  | DName s => cache_get (KName s)
  | DConst c => cache_get (KConst c)
  | DInfo _ | DOther => ret None
  end.

(** [cache.get(name) in [None, info]]. *)
Definition none_or_same (cached : option HashInfo) (info : HashInfo) : bool :=
  match cached with
  | None => true
  | Some other =>
      bool_decide (oid other = oid info) || bool_decide (_as_tuple other = _as_tuple info)
  end.

(** The loop that populates the cache by name. *)
Fixpoint cache_names (names : list string) (info : HashInfo) : M unit :=
  match names with
  | [] => ret tt
  | nm :: rest =>
      if String.eqb nm "" then cache_names rest info
      else
        cached <- cache_get (KName nm) ;;
        assert (none_or_same cached info) ;;;
        cache_set (KName nm) info ;;;
        cache_names rest info
  end.

(** The tail of [lookup_hash]: create the instance and populate the cache. *)
Definition create_and_cache (c : const) (name_list : list string)
    (cache_by_name : bool) : M HashInfo :=
  info <- HashInfo_init (Some c) name_list ;;
  cache_set (KConst c) info ;;;
  (if cache_by_name then cache_names name_list info else ret tt) ;;;
  ret info.

(** [lookup_hash(digest, return_unknown)].  [depth] is the number of nested
    calls still allowed. *)
Fixpoint lookup_hash_rec (depth : nat) (digest : digest_arg) (return_unknown : bool)
  : M HashInfo :=
  match depth with
  | O => raise RecursionError
  | S depth' =>
      cached <- cache_lookup digest ;;
      match cached with
      | Some info => ret info
      | None =>
          match digest with
          | DName s =>
              let name_list := _get_hash_aliases s in
              let nm := nth 0 name_list "" in
              assert (negb (String.eqb nm "")) ;;;
              if negb (String.eqb nm s) then
                info <- lookup_hash_rec depth' (DName nm) return_unknown ;;
                match info_const info with
                | None => assert return_unknown ;;; ret info
                | Some _ => cache_set (KName s) info ;;; ret info
                end
              else
                c <- _get_hash_const nm ;;
                match c with
                | None =>
                    if return_unknown then HashInfo_init None name_list
                    else raise (UnknownHashError nm)
                | Some c' => create_and_cache c' name_list true
                end
          | DInfo info => ret info
          | DConst c =>
              hash <- lift (call_const c []) ;;
              let name_list := _get_hash_aliases (alg_name (ho_alg hash)) in
              let nm := nth 0 name_list "" in
              other_const <- _get_hash_const nm ;;
              let cache_by_name :=
                match other_const with
                | None => true
                | Some oc => bool_decide (oc = c)
                end in
              create_and_cache c name_list cache_by_name
          | DOther => raise (ExpectedTypeError "digest")
          end
      end
  end.

Definition lookup_hash (digest : digest_arg) (return_unknown : bool) : M HashInfo :=
  lookup_hash_rec (recursion_limit P) digest return_unknown.

(** ** HMAC *)

(** Translation tables used by [compile_hmac]. *)
Definition _TRANS_5C : bytes := trans_table 92.
Definition _TRANS_36 : bytes := trans_table 54.

(** The single-shot closure [hmac(msg)] over the two seeded hash objects. *)
Definition hmac_single (inner_seed outer_seed : hashobj) (msg : bytes) : bytes :=
  let inner := hash_copy inner_seed in
  let inner := hash_update inner msg in
  let outer := hash_copy outer_seed in
  let outer := hash_update outer (hash_digest inner) in
  hash_digest outer.

(** What the multipart closure [hmac()] hands out: [inner.update] and
    [finalize] share the hash object [inner]; [finalize] also holds the outer
    seed. *)
Record multipart : Type := {
  mp_inner : hashobj;
  mp_outer_seed : hashobj
}.

Definition hmac_multi (inner_seed outer_seed : hashobj) (_ : unit) : multipart :=
  {| mp_inner := hash_copy inner_seed; mp_outer_seed := outer_seed |}.

(** [update(chunk)], that is [inner.update(chunk)]. *)
Definition mp_update (m : multipart) (chunk : bytes) : multipart :=
  {| mp_inner := hash_update (mp_inner m) chunk; mp_outer_seed := mp_outer_seed m |}.

(** [finalize()]: the digest, and the closure state after the call. *)
Definition mp_finalize (m : multipart) : bytes * multipart :=
  let outer := hash_copy (mp_outer_seed m) in
  let outer := hash_update outer (hash_digest (mp_inner m)) in
  (hash_digest outer, m).

Inductive compiled_hmac : Type :=
| SingleShot (hmac : bytes -> bytes) (digest_info : HashInfo)
| Multipart (hmac : unit -> multipart) (digest_info : HashInfo).

(** The key preparation of [compile_hmac]. *)
Definition prepare_key (c : const) (digest_sz block_sz : Z) (key : bytes)
  : Result bytes :=
  let klen := Z.of_nat (List.length key) in
  match (if klen >? block_sz
         then match call_const c key with
              | Ok h => Ok (hash_digest h, digest_sz)
              | Err e => Err e
              end
         else Ok (key, klen)) with
  | Err e => Err e
  | Ok (key, klen) =>
      if klen <? block_sz then Ok (key ++ zeros (block_sz - klen)) else Ok key
  end.

Definition compile_hmac (digest : digest_arg) (key : bytes) (multipart : bool)
  : M compiled_hmac :=
  digest_info <- lookup_hash digest false ;;
  match info_const digest_info, digest_size digest_info, block_size digest_info with
  | Some c, Some digest_sz, Some block_sz =>
      assert (block_sz >=? 16) ;;;
      key <- lift (prepare_key c digest_sz block_sz key) ;;
      inner_seed <- lift (call_const c (translate _TRANS_36 key)) ;;
      outer_seed <- lift (call_const c (translate _TRANS_5C key)) ;;
      if multipart
      then ret (Multipart (hmac_multi inner_seed outer_seed) digest_info)
      else ret (SingleShot (hmac_single inner_seed outer_seed) digest_info)
  | _, _, _ =>
      (* [None >= 16] *)
      raise TypeError
  end.

(** ** PBKDF1 *)

Fixpoint pbkdf1_loop (c : const) (n : nat) (block : bytes) : Result bytes :=
  match n with
  | O => Ok block
  | S k =>
      match call_const c block with
      | Ok h => pbkdf1_loop c k (hash_digest h)
      | Err e => Err e
      end
  end.

Definition pbkdf1 (digest : digest_arg) (secret salt : bytes) (rounds : Z)
    (keylen : option Z) : M bytes :=
  info <- lookup_hash digest false ;;
  if rounds <? 1 then raise (ValueError "rounds must be at least 1")
  else
    keylen <-
      match keylen with
      | None => ret (digest_size info)
      | Some k =>
          if k <? 0 then raise (ValueError "keylen must be at least 0")
          else match digest_size info with
               | None => raise TypeError
               | Some ds =>
                   if k >? ds
                   then raise (ValueError "keylength too large for digest")
                   else ret (Some k)
               end
      end ;;
    match info_const info with
    | None => raise TypeError
    | Some c =>
        block <- lift (pbkdf1_loop c (Z.to_nat rounds) (secret ++ salt)) ;;
        ret (match keylen with
             | Some k => slice_to block k
             | None => block
             end)
    end.

(** ** PBKDF2 *)

(** [_force_backend = os.environ.get("PASSLIB_PBKDF2_BACKEND") or "any"]. *)
Definition _force_backend : string :=
  match environ_backend P with
  | Some s => if String.eqb s "" then "any" else s
  | None => "any"
  end.

Inductive builtin : Type := FromBytes | Unpack | Hexlify.

(** Which of the three module level branches defines [_get_pbkdf2_looper];
    [None] when the [assert] of the last branch fails. *)
Definition builtin_helper : option builtin :=
  if PY3 P && str_in _force_backend ["any"; "from-bytes"]%string then Some FromBytes
  else if str_in _force_backend ["any"; "unpack"; "from-bytes"]%string then Some Unpack
  else if str_in _force_backend ["any"; "hexlify"]%string then Some Hexlify
  else None.

Definition _builtin_backend : option string :=
  match builtin_helper with
  | Some FromBytes => Some "from-bytes"
  | Some Unpack => Some "unpack"
  | Some Hexlify => Some "hexlify"
  | None => None
  end%string.

(** The helper for the benchmark script: the accelerated providers are
    dropped when the builtin one was asked for by name. *)
Definition builtin_forced : bool :=
  match _builtin_backend with
  | Some b => String.eqb _force_backend b
  | None => false
  end.

Definition _fast_pbkdf2_hmac : option pbkdf2_fn :=
  if builtin_forced then None else fastpbkdf2_pbkdf2_hmac P.

Definition _stdlib_pbkdf2_hmac : option pbkdf2_fn :=
  if builtin_forced then None
  else match hashlib_pbkdf2_hmac P with
       | Some (is_pure_python, f) => if is_pure_python then None else Some f
       | None => None
       end.

(** The two [supported_by_...] properties of [HashInfo]: [None] without the
    provider, else whether the probe call raises [ValueError] or one of its
    subclasses.  The probe is a function of the name alone, so the
    memoisation on the instance is not observable and is left out. *)
Definition supported_by (backend : option pbkdf2_fn) (info : HashInfo)
  : Result (option bool) :=
  match backend with
  | None => Ok None
  | Some f =>
      match f (name info) [x70] [x73] 1 None with
      | Ok _ => Ok (Some true)
      | Err e => if is_ValueError e then Ok (Some false) else Err e
      end
  end.

Definition truthy (b : option bool) : bool :=
  match b with Some true => true | _ => false end.

(** The type of the loop helpers: [helper(keyed_hmac, digest, rounds)]. *)
Definition looper : Type := (bytes -> bytes) -> bytes -> Z -> Result bytes.

(** *** from-bytes helper *)

Fixpoint from_bytes_loop (keyed_hmac : bytes -> bytes) (n : nat)
    (digest : bytes) (accum : Z) : Z :=
  match n with
  | O => accum
  | S k =>
      let digest := keyed_hmac digest in
      from_bytes_loop keyed_hmac k digest (Z.lxor accum (from_bytes_big digest))
  end.

Definition _pbkdf2_looper (digest_sz : Z) : looper :=
  fun keyed_hmac digest rounds =>
    let accum := from_bytes_big digest in
    let accum := from_bytes_loop keyed_hmac (Z.to_nat (rounds - 1)) digest accum in
    to_bytes_big accum digest_sz.

(** *** unpack helper *)

(** A [struct] format with the ["="] prefix, as the list of the widths in
    octets of its fields ([Q] is 8, [I] is 4). *)
Definition lanes_Q (count : Z) : list nat := repeat 8%nat (Z.to_nat count).
Definition lanes_I (count : Z) : list nat := repeat 4%nat (Z.to_nat count).

Definition struct_size (fmt : list nat) : nat := fold_right Nat.add 0%nat fmt.

Definition native_int (lane : bytes) : Z :=
  if little_endian P then from_bytes_big (rev lane) else from_bytes_big lane.

Definition native_octets (width : nat) (v : Z) : bytes :=
  if little_endian P then octets_le width v else rev (octets_le width v).

Fixpoint unpack_lanes (fmt : list nat) (data : bytes) : list Z :=
  match fmt with
  | [] => []
  | w :: fmt' => native_int (firstn w data) :: unpack_lanes fmt' (skipn w data)
  end.

(** [struct.unpack(data)]. *)
Definition struct_unpack (fmt : list nat) (data : bytes) : Result (list Z) :=
  if Nat.eqb (List.length data) (struct_size fmt)
  then Ok (unpack_lanes fmt data) else Err StructError.

Fixpoint pack_lanes (fmt : list nat) (vals : list Z) : Result bytes :=
  match fmt, vals with
  | [], [] => Ok []
  | w :: fmt', v :: vals' =>
      if (v <? 0) || (2 ^ (8 * Z.of_nat w) <=? v) then Err StructError
      else match pack_lanes fmt' vals' with
           | Ok r => Ok (native_octets w v ++ r)
           | Err e => Err e
           end
  | _, _ => Err StructError
  end.

(** [acc_i ^= dig_i] for every lane. *)
Fixpoint xor_lanes (acc dig : list Z) : list Z :=
  match acc, dig with
  | a :: acc', d :: dig' => Z.lxor a d :: xor_lanes acc' dig'
  | _, _ => []
  end.

Fixpoint unpack_loop (fmt : list nat) (keyed_hmac : bytes -> bytes) (n : nat)
    (digest : bytes) (acc : list Z) : Result (list Z) :=
  match n with
  | O => Ok acc
  | S k =>
      let digest := keyed_hmac digest in
      match struct_unpack fmt digest with
      | Ok dig => unpack_loop fmt keyed_hmac k digest (xor_lanes acc dig)
      | Err e => Err e
      end
  end.

(** The generated [helper].  With a single lane the generated assignment
    [acc_0 = unpack_digest(digest)] binds the whole tuple, so that the first
    [^=] (or, without any round left, [struct.pack]) raises. *)
Definition unpack_helper (fmt : list nat) : looper :=
  fun keyed_hmac digest rounds =>
    match struct_unpack fmt digest with
    | Err e => Err e
    | Ok acc =>
        if Nat.eqb (List.length fmt) 1 then
          if 1 <? rounds
          then match struct_unpack fmt (keyed_hmac digest) with
               | Ok _ => Err TypeError
               | Err e => Err e
               end
          else Err StructError
        else
          match unpack_loop fmt keyed_hmac (Z.to_nat (rounds - 1)) digest acc with
          | Ok acc => pack_lanes fmt acc
          | Err e => Err e
          end
    end.

Definition _have_64_bit : bool := sys_bits P >=? 64.

(** [_get_pbkdf2_looper] of the unpack branch.  [_looper_cache] memoises a
    function of [digest_size] alone and is left out.  Without any lane the
    generated source does not compile. *)
Definition _get_pbkdf2_looper_unpack (digest_sz : Z) : Result looper :=
  match
    (if _have_64_bit && (Z.land digest_sz 7 =? 0)
     then Ok (lanes_Q (Z.shiftr digest_sz 3))
     else if Z.land digest_sz 3 =? 0 then
       if _have_64_bit
       then Ok (lanes_Q (Z.shiftr digest_sz 3) ++ [4%nat])
       else Ok (lanes_I (Z.shiftr digest_sz 2))
     else Err NotImplementedError)
  with
  | Err e => Err e
  | Ok fmt =>
      if Nat.eqb (List.length fmt) 0 then Err SyntaxError
      else Ok (unpack_helper fmt)
  end.

(** *** hexlify helper *)

Fixpoint hexlify_loop (keyed_hmac : bytes -> bytes) (n : nat)
    (digest : bytes) (accum : Z) : Result (bytes * Z) :=
  match n with
  | O => Ok (digest, accum)
  | S k =>
      let digest := keyed_hmac digest in
      match digest with
      | [] => Err (ValueError "invalid literal for int() with base 16")
      | _ => hexlify_loop keyed_hmac k digest (Z.lxor accum (from_bytes_big digest))
      end
  end.

Definition _pbkdf2_looper_hexlify : looper :=
  fun keyed_hmac digest rounds =>
    match digest with
    | [] => Err (ValueError "invalid literal for int() with base 16")
    | _ =>
        match hexlify_loop keyed_hmac (Z.to_nat (rounds - 1)) digest
                (from_bytes_big digest) with
        | Ok (digest, accum) => int_to_bytes P accum (Z.of_nat (List.length digest))
        | Err e => Err e
        end
    end.

Definition _get_pbkdf2_looper (digest_sz : Z) : Result looper :=
  match builtin_helper with
  | Some FromBytes => Ok (_pbkdf2_looper digest_sz)
  | Some Unpack => _get_pbkdf2_looper_unpack digest_sz
  | Some Hexlify => Ok _pbkdf2_looper_hexlify
  | None => Err AssertionError
  end.

(** [irange(1, block_count + 1)]. *)
Definition block_indices (block_count : Z) : list Z :=
  map (fun k => 1 + Z.of_nat k) (seq 0 (Z.to_nat block_count)).

(** The generator handed to [join_bytes], evaluated block by block. *)
Fixpoint join_blocks (calc_block : looper) (keyed_hmac : bytes -> bytes)
    (salt : bytes) (rounds : Z) (indices : list Z) : Result bytes :=
  match indices with
  | [] => Ok []
  | i :: rest =>
      match _pack_uint32 i with
      | Err e => Err e
      | Ok ctr =>
          match calc_block keyed_hmac (keyed_hmac (salt ++ ctr)) rounds with
          | Err e => Err e
          | Ok blk =>
              match join_blocks calc_block keyed_hmac salt rounds rest with
              | Ok r => Ok (blk ++ r)
              | Err e => Err e
              end
          end
      end
  end.

(** Python's [+] and [//] on values that may be [None]. *)
Definition block_count_of (keylen digest_sz : option Z) : Result Z :=
  match keylen, digest_sz with
  | Some k, Some ds =>
      if ds =? 0 then Err ZeroDivisionError else Ok ((k + ds - 1) / ds)
  | _, _ => Err TypeError
  end.

Definition pbkdf2_hmac (digest : digest_arg) (secret salt : bytes) (rounds : Z)
    (keylen : option Z) : M bytes :=
  digest_info <- lookup_hash digest false ;;
  let digest_sz := digest_size digest_info in
  if rounds <? 1 then raise (ValueError "rounds must be at least 1")
  else
    keylen <-
      match keylen with
      | None => ret digest_sz
      | Some k =>
          if k <? 1 then raise (ValueError "keylen must be at least 1")
          else ret (Some k)
      end ;;
    block_count <- lift (block_count_of keylen digest_sz) ;;
    if block_count >? MAX_UINT32
    then raise (OverflowError "keylen too long for digest")
    else
      fast <- lift (supported_by _fast_pbkdf2_hmac digest_info) ;;
      match _fast_pbkdf2_hmac, truthy fast with
      | Some f, true => lift (f (name digest_info) secret salt rounds keylen)
      | _, _ =>
          std <- lift (supported_by _stdlib_pbkdf2_hmac digest_info) ;;
          match _stdlib_pbkdf2_hmac, truthy std with
          | Some f, true => lift (f (name digest_info) secret salt rounds keylen)
          | _, _ =>
              compiled <- compile_hmac digest secret false ;;
              match compiled, digest_sz with
              | SingleShot keyed_hmac _, Some ds =>
                  calc_block <- lift (_get_pbkdf2_looper ds) ;;
                  joined <- lift (join_blocks calc_block keyed_hmac salt rounds
                                    (block_indices block_count)) ;;
                  ret (match keylen with
                       | Some k => slice_to joined k
                       | None => joined
                       end)
              | _, _ => raise TypeError
              end
          end
      end.

End Resolver.

(** ** Reference definitions

    Written from the standards the specification refers to, independently of
    the code above: HMAC with its key schedule, and PBKDF2 over an arbitrary
    pseudorandom function. *)

(** Octet-wise XOR of two strings. *)
Fixpoint xor_bytes (a b : bytes) : bytes :=
  match a, b with
  | x :: a', y :: b' => bxor x y :: xor_bytes a' b'
  | _, _ => []
  end.

Definition ipad : byte := x36.
Definition opad : byte := x5c.

(** The key schedule: a key longer than the block is replaced by its digest;
    the key is then filled up with zero octets to the block size. *)
Definition hmac_key_schedule (alg : HashAlg) (key : bytes) : bytes :=
  let k0 := if Z.of_nat (List.length key) >? alg_block_size alg
            then alg_H alg key else key in
  k0 ++ zeros (alg_block_size alg - Z.of_nat (List.length k0)).

(** [H((K xor opad) || H((K xor ipad) || message))]. *)
Definition HMAC_spec (alg : HashAlg) (key message : bytes) : bytes :=
  let k := hmac_key_schedule alg key in
  alg_H alg (map (bxor opad) k ++ alg_H alg (map (bxor ipad) k ++ message)).

(** [U_1 = prf(salt || be32(i))], [U_{j+1} = prf(U_j)]; [pbkdf2_U] is [U_{j+1}]. *)
Fixpoint pbkdf2_U (prf : bytes -> bytes) (salt : bytes) (i : Z) (j : nat) : bytes :=
  match j with
  | O => prf (salt ++ rev (octets_le 4 i))
  | S j' => prf (pbkdf2_U prf salt i j')
  end.

(** [T_i = U_1 xor ... xor U_rounds]; [pbkdf2_T ... n] folds [n + 1] of them. *)
Fixpoint pbkdf2_T (prf : bytes -> bytes) (salt : bytes) (i : Z) (n : nat) : bytes :=
  match n with
  | O => pbkdf2_U prf salt i 0
  | S n' => xor_bytes (pbkdf2_T prf salt i n') (pbkdf2_U prf salt i n)
  end.

(** [T_1 || ... || T_block_count], cut to [keylen] octets. *)
Definition PBKDF2_spec (prf : bytes -> bytes) (salt : bytes) (rounds keylen : Z)
    (block_count : Z) : bytes :=
  firstn (Z.to_nat keylen)
    (concat (map (fun i => pbkdf2_T prf salt i (Z.to_nat (rounds - 1)))
                 (block_indices block_count))).

(** The contract of a [hashlib] algorithm that the descriptor relies on:
    every digest has [digest_size] octets. *)
Definition digest_len_ok (alg : HashAlg) : Prop :=
  forall m, Z.of_nat (List.length (alg_H alg m)) = alg_digest_size alg.

(** ** A small platform for examples *)

Module Toy.

(** A checksum that fills [n] octets. *)
Definition checksum (m : bytes) : Z :=
  fold_left (fun acc b => (acc * 31 + Z_of_byte b + 7) mod 2 ^ 64) m 5381.

Fixpoint spread (n : nat) (z : Z) : bytes :=
  match n with
  | O => []
  | S k =>
      byte_of_Z (Z.shiftr z 29 + Z.of_nat n)
        :: spread k ((z * 6364136223846793005 + 1442695040888963407) mod 2 ^ 64)
  end.

Definition toy_alg (nm : string) (dsize bsize : Z) : HashAlg :=
  {| alg_name := nm; alg_digest_size := dsize; alg_block_size := bsize;
     alg_H := fun m => spread (Z.to_nat dsize) (checksum m) |}.

Definition sha256 : HashAlg := toy_alg "sha256" 32 64.
Definition odd : HashAlg := toy_alg "odd" 2 16.
Definition narrow : HashAlg := toy_alg "narrow" 4 8.
Definition wide : HashAlg := toy_alg "wide" 20 16.
Definition eight : HashAlg := toy_alg "eight" 8 16.
Definition ripemd160 : HashAlg := toy_alg "ripemd160" 20 64.

Definition attr (nm : string) : option nat :=
  if String.eqb nm "sha256" then Some 1%nat
  else if String.eqb nm "odd" then Some 2%nat
  else if String.eqb nm "narrow" then Some 3%nat
  else if String.eqb nm "wide" then Some 4%nat
  else if String.eqb nm "eight" then Some 5%nat
  else None.

Definition call (id : nat) : HashAlg + string :=
  match id with
  | 1%nat => inl sha256
  | 2%nat => inl odd
  | 3%nat => inl narrow
  | 4%nat => inl wide
  | 5%nat => inl eight
  | _ => inr "TypeError"
  end.

Definition new (nm : string) : option HashAlg :=
  if String.eqb nm "ripemd160" then Some ripemd160 else None.

(** Python 3 on a 64 bit little-endian machine, no accelerated provider. *)
Definition py3 : Platform :=
  {| PY3 := true; environ_backend := None; sys_bits := 64; little_endian := true;
     recursion_limit := 1000; hashlib_getattr := attr; hashlib_new := new;
     builtin_md4 := 0; call_static := call;
     fastpbkdf2_pbkdf2_hmac := None; hashlib_pbkdf2_hmac := None;
     int_to_bytes := to_bytes_big |}.

(** The same machine with the unpack helper selected. *)
Definition unpack : Platform :=
  {| PY3 := true; environ_backend := Some "unpack"; sys_bits := 64;
     little_endian := true;
     recursion_limit := 1000; hashlib_getattr := attr; hashlib_new := new;
     builtin_md4 := 0; call_static := call;
     fastpbkdf2_pbkdf2_hmac := None; hashlib_pbkdf2_hmac := None;
     int_to_bytes := to_bytes_big |}.

(** The first machine with one more callable, number 7, which is not an
    attribute of [hashlib] and builds hash objects that report ["sha256"]. *)
Definition mocked : Platform :=
  {| PY3 := true; environ_backend := None; sys_bits := 64; little_endian := true;
     recursion_limit := 1000; hashlib_getattr := attr; hashlib_new := new;
     builtin_md4 := 0;
     call_static := fun id => if Nat.eqb id 7 then inl sha256 else call id;
     fastpbkdf2_pbkdf2_hmac := None; hashlib_pbkdf2_hmac := None;
     int_to_bytes := to_bytes_big |}.

(** The descriptor of ["sha256"] on these platforms, and the module state
    once it has been resolved. *)
Definition sha256_info : HashInfo :=
  {| oid := 0; name := "sha256"; iana_name := "sha-256"; aliases := ["sha2-256"];
     info_const := Some (StaticConst 1); digest_size := Some 32;
     block_size := Some 64 |}.

Definition odd_info : HashInfo :=
  {| oid := 0; name := "odd"; iana_name := "odd"; aliases := [];
     info_const := Some (StaticConst 2); digest_size := Some 2;
     block_size := Some 16 |}.

Definition resolved (P : Platform) (nm : string) : State :=
  snd (lookup_hash P (DName nm) false initial_state).

(** A provider that accepts every name. *)
Definition provider : pbkdf2_fn := fun _ _ _ _ _ => Ok [].

End Toy.

(** ** Auxiliary definitions for the proofs *)

(** Value of an octet string read least significant octet first. *)
Fixpoint le_value (l : bytes) : Z :=
  match l with
  | [] => 0
  | b :: l' => Z.lor (Z_of_byte b) (Z.shiftl (le_value l') 8)
  end.

(** [prf] applied [j] times. *)
Fixpoint iter_prf (prf : bytes -> bytes) (j : nat) (d : bytes) : bytes :=
  match j with
  | O => d
  | S j' => prf (iter_prf prf j' d)
  end.

(** The accumulator of the loop helpers, on octet strings. *)
Fixpoint xor_iter (prf : bytes -> bytes) (n : nat) (digest acc : bytes) : bytes :=
  match n with
  | O => acc
  | S k => xor_iter prf k (prf digest) (xor_bytes acc (prf digest))
  end.

(** A descriptor with a constructor: [c] builds hash objects of [alg], and
    the sizes recorded in the descriptor are those of [alg]. *)
Definition constructs (P : Platform) (c : const) (alg : HashAlg) : Prop :=
  call_const P c [] = Ok (hash_new alg []).

Definition describes (P : Platform) (info : HashInfo) (alg : HashAlg) : Prop :=
  exists c, info_const info = Some c /\ constructs P c alg
    /\ digest_size info = Some (alg_digest_size alg)
    /\ block_size info = Some (alg_block_size alg).

(** Calls made on the pair handed out by a multipart [hmac()]. *)
Inductive mp_op : Type :=
| OpUpdate (chunk : bytes)
| OpFinalize.

(** Runs the calls in order; returns what the [finalize] calls returned and
    the closure state at the end. *)
Fixpoint mp_run (m : multipart) (ops : list mp_op) : list bytes * multipart :=
  match ops with
  | [] => ([], m)
  | OpUpdate chunk :: ops' => mp_run (mp_update m chunk) ops'
  | OpFinalize :: ops' =>
      let (d, m') := mp_finalize m in
      let (ds, m'') := mp_run m' ops' in
      (d :: ds, m'')
  end.

(** What the same calls should return: at each [finalize], the single-shot
    MAC of all chunks fed so far, [sofar] being those fed before [ops]. *)
Fixpoint mp_expected (hmac : bytes -> bytes) (sofar : bytes) (ops : list mp_op)
  : list bytes :=
  match ops with
  | [] => []
  | OpUpdate chunk :: ops' => mp_expected hmac (sofar ++ chunk) ops'
  | OpFinalize :: ops' => hmac sofar :: mp_expected hmac sofar ops'
  end.

(** No accelerated provider takes the descriptor: both probes run without an
    exception and neither answers yes, so that [pbkdf2_hmac] reaches its own
    implementation. *)
Definition builtin_path (P : Platform) (info : HashInfo) : Prop :=
  (exists a, supported_by (_fast_pbkdf2_hmac P) info = Ok a /\ truthy a = false)
  /\ (exists b, supported_by (_stdlib_pbkdf2_hmac P) info = Ok b /\ truthy b = false).

(** The platform [P] with other PBKDF2 providers and another choice of the
    builtin helper; the [hashlib] side stays as it is. *)
Definition with_backends (P : Platform) (py3 : bool) (env : option string)
    (fast : option pbkdf2_fn) (std : option (bool * pbkdf2_fn)) : Platform :=
  {| PY3 := py3; environ_backend := env; sys_bits := sys_bits P;
     little_endian := little_endian P; recursion_limit := recursion_limit P;
     hashlib_getattr := hashlib_getattr P; hashlib_new := hashlib_new P;
     builtin_md4 := builtin_md4 P; call_static := call_static P;
     fastpbkdf2_pbkdf2_hmac := fast; hashlib_pbkdf2_hmac := std;
     int_to_bytes := int_to_bytes P |}.

(** The digest applied [n] times. *)
Fixpoint iter_digest (alg : HashAlg) (n : nat) (block : bytes) : bytes :=
  match n with
  | O => block
  | S k => alg_H alg (iter_digest alg k block)
  end.

(** The descriptor that a tolerant lookup builds for a name without
    constructor, as the object number [o]. *)
Definition dummy_info (o : nat) (names : list string) : HashInfo :=
  {| oid := o; name := nth 0 names ""; iana_name := nth 1 names "";
     aliases := skipn 2 names; info_const := None;
     digest_size := None; block_size := None |}.

(** The state after one more object has been created. *)
Definition one_more_object (st : State) : State :=
  {| cache := cache st; next_object := S (next_object st) |}.

(** ** Spellings of a name

    [spelling n v] holds when [v] is [n] written with any mixture of upper
    and lower case and with any of [_], space, [/] or [-] where [n] has a
    hyphen; [written_as n v] allows white space around it as well. *)

(** What [re.sub("[_ /]", "-", ...)] does to one character. *)
Definition sub_char (c : ascii) : ascii :=
  if Ascii.eqb c "_" || Ascii.eqb c " " || Ascii.eqb c "/" then "-"%char else c.

Definition separator (c : ascii) : bool :=
  Ascii.eqb c "_" || Ascii.eqb c " " || Ascii.eqb c "/" || Ascii.eqb c "-".

Definition char_variant (c c' : ascii) : bool :=
  Ascii.eqb (lower_char c') c || (Ascii.eqb c "-" && separator c').

Fixpoint spelling (n v : string) : bool :=
  match n, v with
  | EmptyString, EmptyString => true
  | String c n', String c' v' => char_variant c c' && spelling n' v'
  | _, _ => false
  end.

Fixpoint all_space (s : string) : bool :=
  match s with
  | EmptyString => true
  | String c s' => isspace c && all_space s'
  end.

Definition written_as (n v : string) : Prop :=
  exists pre v0 post,
    v = (pre ++ v0 ++ post)%string
    /\ all_space pre = true /\ all_space post = true /\ spelling n v0 = true.

(** Names made of lower case letters, digits and inner hyphens. *)
Definition edge_char (c : ascii) : bool := between 97 122 (code c) || is_digit c.
Definition name_char (c : ascii) : bool := edge_char c || Ascii.eqb c "-".

Fixpoint all_name_chars (s : string) : bool :=
  match s with
  | EmptyString => true
  | String c s' => name_char c && all_name_chars s'
  end.

Definition first_ok (s : string) : bool :=
  match s with
  | String c _ => edge_char c
  | EmptyString => false
  end.

Fixpoint last_ok (s : string) : bool :=
  match s with
  | EmptyString => false
  | String c EmptyString => edge_char c
  | String _ s' => last_ok s'
  end.

Definition plain_name (s : string) : bool :=
  all_name_chars s && first_ok s && last_ok s.

(** Every name of the table is plain, carries no SCRAM prefix, and is
    normalised to the row it stands in. *)
Definition table_row_ok (row : list string) : bool :=
  forallb (fun n => plain_name n && negb (startswith "scram-" n)
                    && bool_decide (aliases_of_clean n = row)) row.

(** ** [norm_hash_name]

    [norm_hash_name(name, format)]; the argument is called [hash] here, as
    [name] is the field of [HashInfo].  The warning for a descriptor without
    constructor has no effect on the result. *)
Definition norm_hash_name (P : Platform) (hash : digest_arg) (format : string)
  : M string :=
  info <- lookup_hash P hash true ;;
  if String.eqb format "hashlib" then ret (name info)
  else if String.eqb format "iana" then ret (iana_name info)
  else raise (ValueError "unknown format").

(** No descriptor without constructor is cached. *)
Definition no_dummy (st : State) : Prop :=
  forall k info, cache st !! k = Some info -> info_const info <> None.

(** How the module state may change: no key of the cache is lost, every new
    or changed entry is a descriptor with a constructor, and objects are
    only created. *)
Definition cache_grows (st st' : State) : Prop :=
  (forall k, is_Some (cache st !! k) -> is_Some (cache st' !! k))
  /\ (forall k i, cache st' !! k = Some i ->
        cache st !! k = Some i \/ info_const i <> None)
  /\ (next_object st <= next_object st')%nat.


(** One call of an entry point of the module, whatever it returns. *)
Inductive step (P : Platform) : State -> State -> Prop :=
| step_lookup_hash digest flag st r st' :
    lookup_hash P digest flag st = (r, st') -> step P st st'
| step_norm_hash_name hash format st r st' :
    norm_hash_name P hash format st = (r, st') -> step P st st'
| step_compile_hmac digest key mp st r st' :
    compile_hmac P digest key mp st = (r, st') -> step P st st'
| step_pbkdf1 digest secret salt rounds keylen st r st' :
    pbkdf1 P digest secret salt rounds keylen st = (r, st') -> step P st st'
| step_pbkdf2_hmac digest secret salt rounds keylen st r st' :
    pbkdf2_hmac P digest secret salt rounds keylen st = (r, st') -> step P st st'.

(** The states of a process that starts with an empty cache. *)
Inductive reachable (P : Platform) : State -> Prop :=
| reachable_initial : reachable P initial_state
| reachable_step st st' : reachable P st -> step P st st' -> reachable P st'.

(** ** The list of active PBKDF2 backends *)

(** [PBKDF2_BACKENDS]; [None] when the [assert] of the last module level
    branch fails, so that the module cannot be imported. *)
Definition PBKDF2_BACKENDS (P : Platform) : option (list string) :=
  match _builtin_backend P with
  | None => None
  | Some b =>
      Some (match _fast_pbkdf2_hmac P with
            | Some _ => ["fastpbkdf2"%string]
            | None => []
            end
            ++ match _stdlib_pbkdf2_hmac P with
               | Some _ => ["hashlib-ssl"%string]
               | None => []
               end
            ++ [String.append "builtin-" b])%list
  end.

(** ** Characters of a name *)

Fixpoint string_forall (p : ascii -> bool) (s : string) : bool :=
  match s with
  | EmptyString => true
  | String c s' => p c && string_forall p s'
  end.

(** [s] holds none of the characters [cs]. *)
Definition no_char_of (cs : list ascii) (s : string) : bool :=
  string_forall (fun c => negb (existsb (Ascii.eqb c) cs)) s.

(** What the groups of a match are made of. *)
Definition groups_ok (g : string * option string * option string) : Prop :=
  let '(letters, rev, size) := g in
  string_forall is_letter letters = true
  /\ match rev with Some r => string_forall is_digit r = true | None => True end
  /\ match size with Some sz => string_forall is_digit sz = true | None => True end.

(** A row has two names or more, without the characters that the
    normalisation removes. *)
Definition row_shape (row : list string) : bool :=
  Nat.leb 2 (List.length row)
  && no_char_of ["-"; " "; "/"]%char (nth 0 row "")
  && no_char_of ["_"; " "; "/"]%char (nth 1 row "").


(** ** One more machine for examples *)

(** A 32 bit machine with the unpack helper selected. *)
Definition toy_unpack32 : Platform :=
  {| PY3 := true; environ_backend := Some "unpack"%string; sys_bits := 32;
     little_endian := false;
     recursion_limit := 1000; hashlib_getattr := Toy.attr; hashlib_new := Toy.new;
     builtin_md4 := 0; call_static := Toy.call;
     fastpbkdf2_pbkdf2_hmac := None; hashlib_pbkdf2_hmac := None;
     int_to_bytes := to_bytes_big |}.

(** The first machine with room for a single call of [lookup_hash]. *)
Definition toy_one_call : Platform :=
  {| PY3 := true; environ_backend := None; sys_bits := 64; little_endian := true;
     recursion_limit := 1; hashlib_getattr := Toy.attr; hashlib_new := Toy.new;
     builtin_md4 := 0; call_static := Toy.call;
     fastpbkdf2_pbkdf2_hmac := None; hashlib_pbkdf2_hmac := None;
     int_to_bytes := to_bytes_big |}.

(** ** The chain of normal forms

    [normal_chain st k s n]: the lookup of [s] goes through [k] nested calls
    down to the name [n]; none of the names on the way is cached, each has a
    non-empty normal form under which it is looked up next, and [n] is its
    own normal form. *)
Fixpoint normal_chain (st : State) (k : nat) (s n : string) : Prop :=
  cache st !! KName s = None
  /\ nth 0 (_get_hash_aliases s) "" <> ""%string
  /\ match k with
     | O => nth 0 (_get_hash_aliases s) "" = s /\ n = s
     | S k' =>
         nth 0 (_get_hash_aliases s) "" <> s
         /\ normal_chain st k' (nth 0 (_get_hash_aliases s) "") n
     end.

(** * Shallow embedding of passlib.registry

    Source: [lib/passlib/registry.py].  The registry is two dictionaries:
    [_handlers], the attribute dictionary of the proxy object, from names to
    loaded handlers, and [_locations], from names to the import path of a
    handler that is loaded on demand.  A Python object is the record of what
    the registry reads from it: whether [is_crypt_handler] accepts it, its
    truth value, and its [name] attribute (read only from accepted objects);
    [oid] tells apart objects that agree on these, so that [is] is equality
    of records.  The import machinery is a field of [Env]: importing a
    module runs code that may itself call the registry, hence it maps a
    state to a state.  Warnings are collected in the state.  The messages of
    the exceptions are given without the formatted name. *)

Module Registry.

Declare Scope registry_scope.
Local Open Scope registry_scope.

Inductive exn : Type :=
| ValueError (msg : string)
| KeyError (msg : string)
| ExpectedTypeError (param : string)
| AssertionError
| AttributeError (msg : string)
| Raised (what : string).

Inductive Result (A : Type) : Type :=
| Ok (a : A)
| Err (e : exn).

Arguments Ok {A} a.
Arguments Err {A} e.

Record object : Type := {
  oid : nat;
  is_crypt_handler : bool;
  truth : bool;
  name : string
}.

#[global] Instance object_eq_dec : EqDecision object.
Proof. solve_decision. Defined.

(** Python's [None]. *)
Definition None_ : object :=
  {| oid := 0; is_crypt_handler := false; truth := false; name := "" |}.

(** An imported module: [getattr(mod, attr)], [None] for [AttributeError]. *)
Definition module_ : Type := string -> option object.

Record State : Type := {
  _handlers : gmap string object;
  _locations : gmap string string;
  warnings : list (string * string)
}.

Record Env : Type := {
  import_ : string -> State -> Result module_ * State
}.

(** The handlers built into passlib. *)
Definition builtin_locations : list (string * string) := [
  ("apr_md5_crypt", "passlib.handlers.md5_crypt");
  ("argon2", "passlib.handlers.argon2");
  ("atlassian_pbkdf2_sha1", "passlib.handlers.pbkdf2");
  ("bcrypt", "passlib.handlers.bcrypt");
  ("bcrypt_sha256", "passlib.handlers.bcrypt");
  ("bigcrypt", "passlib.handlers.des_crypt");
  ("bsd_nthash", "passlib.handlers.windows");
  ("bsdi_crypt", "passlib.handlers.des_crypt");
  ("cisco_pix", "passlib.handlers.cisco");
  ("cisco_asa", "passlib.handlers.cisco");
  ("cisco_type7", "passlib.handlers.cisco");
  ("cta_pbkdf2_sha1", "passlib.handlers.pbkdf2");
  ("crypt16", "passlib.handlers.des_crypt");
  ("des_crypt", "passlib.handlers.des_crypt");
  ("django_argon2", "passlib.handlers.django");
  ("django_bcrypt", "passlib.handlers.django");
  ("django_bcrypt_sha256", "passlib.handlers.django");
  ("django_pbkdf2_sha256", "passlib.handlers.django");
  ("django_pbkdf2_sha1", "passlib.handlers.django");
  ("django_salted_sha1", "passlib.handlers.django");
  ("django_salted_md5", "passlib.handlers.django");
  ("django_des_crypt", "passlib.handlers.django");
  ("django_disabled", "passlib.handlers.django");
  ("dlitz_pbkdf2_sha1", "passlib.handlers.pbkdf2");
  ("fshp", "passlib.handlers.fshp");
  ("grub_pbkdf2_sha512", "passlib.handlers.pbkdf2");
  ("hex_md4", "passlib.handlers.digests");
  ("hex_md5", "passlib.handlers.digests");
  ("hex_sha1", "passlib.handlers.digests");
  ("hex_sha256", "passlib.handlers.digests");
  ("hex_sha512", "passlib.handlers.digests");
  ("htdigest", "passlib.handlers.digests");
  ("ldap_plaintext", "passlib.handlers.ldap_digests");
  ("ldap_md5", "passlib.handlers.ldap_digests");
  ("ldap_sha1", "passlib.handlers.ldap_digests");
  ("ldap_hex_md5", "passlib.handlers.roundup");
  ("ldap_hex_sha1", "passlib.handlers.roundup");
  ("ldap_salted_md5", "passlib.handlers.ldap_digests");
  ("ldap_salted_sha1", "passlib.handlers.ldap_digests");
  ("ldap_des_crypt", "passlib.handlers.ldap_digests");
  ("ldap_bsdi_crypt", "passlib.handlers.ldap_digests");
  ("ldap_md5_crypt", "passlib.handlers.ldap_digests");
  ("ldap_bcrypt", "passlib.handlers.ldap_digests");
  ("ldap_sha1_crypt", "passlib.handlers.ldap_digests");
  ("ldap_sha256_crypt", "passlib.handlers.ldap_digests");
  ("ldap_sha512_crypt", "passlib.handlers.ldap_digests");
  ("ldap_pbkdf2_sha1", "passlib.handlers.pbkdf2");
  ("ldap_pbkdf2_sha256", "passlib.handlers.pbkdf2");
  ("ldap_pbkdf2_sha512", "passlib.handlers.pbkdf2");
  ("lmhash", "passlib.handlers.windows");
  ("md5_crypt", "passlib.handlers.md5_crypt");
  ("msdcc", "passlib.handlers.windows");
  ("msdcc2", "passlib.handlers.windows");
  ("mssql2000", "passlib.handlers.mssql");
  ("mssql2005", "passlib.handlers.mssql");
  ("mysql323", "passlib.handlers.mysql");
  ("mysql41", "passlib.handlers.mysql");
  ("nthash", "passlib.handlers.windows");
  ("oracle10", "passlib.handlers.oracle");
  ("oracle11", "passlib.handlers.oracle");
  ("pbkdf2_sha1", "passlib.handlers.pbkdf2");
  ("pbkdf2_sha256", "passlib.handlers.pbkdf2");
  ("pbkdf2_sha512", "passlib.handlers.pbkdf2");
  ("phpass", "passlib.handlers.phpass");
  ("plaintext", "passlib.handlers.misc");
  ("postgres_md5", "passlib.handlers.postgres");
  ("roundup_plaintext", "passlib.handlers.roundup");
  ("scram", "passlib.handlers.scram");
  ("scrypt", "passlib.handlers.scrypt");
  ("sha1_crypt", "passlib.handlers.sha1_crypt");
  ("sha256_crypt", "passlib.handlers.sha2_crypt");
  ("sha512_crypt", "passlib.handlers.sha2_crypt");
  ("sun_md5_crypt", "passlib.handlers.sun_md5_crypt");
  ("unix_disabled", "passlib.handlers.misc");
  ("unix_fallback", "passlib.handlers.misc")
]%string.

Definition initial_state : State :=
  {| _handlers := ∅; _locations := list_to_map builtin_locations; warnings := [] |}.

(** ** The monad of the module *)

Definition M (A : Type) : Type := State -> Result A * State.

Definition ret {A : Type} (a : A) : M A := fun st => (Ok a, st).
Definition raise {A : Type} (e : exn) : M A := fun st => (Err e, st).
Definition bind {A B : Type} (m : M A) (k : A -> M B) : M B :=
  fun st =>
    match m st with
    | (Ok a, st') => k a st'
    | (Err e, st') => (Err e, st')
    end.
Definition lift {A : Type} (r : Result A) : M A := fun st => (r, st).

Notation "x <- m ;; k" := (bind m (fun x => k))
  (at level 100, m at level 99, right associativity) : registry_scope.
Notation "m ;;; k" := (bind m (fun _ => k))
  (at level 100, right associativity) : registry_scope.

Definition get_handler (name : string) : M (option object) :=
  fun st => (Ok (_handlers st !! name), st).
Definition set_handler (name : string) (o : object) : M unit :=
  fun st => (Ok tt, {| _handlers := <[name := o]> (_handlers st);
                       _locations := _locations st; warnings := warnings st |}).
Definition get_location (name : string) : M (option string) :=
  fun st => (Ok (_locations st !! name), st).
Definition set_location (name path : string) : M unit :=
  fun st => (Ok tt, {| _handlers := _handlers st;
                       _locations := <[name := path]> (_locations st);
                       warnings := warnings st |}).
Definition warn (name alt : string) : M unit :=
  fun st => (Ok tt, {| _handlers := _handlers st; _locations := _locations st;
                       warnings := warnings st ++ [(name, alt)] |}).

(** ** Names *)

Definition lower_letter (c : ascii) : bool := between 97 122 (code c).
Definition last_char (c : ascii) : bool := lower_letter c || is_digit c.
Definition word_char (c : ascii) : bool := last_char c || Ascii.eqb c "_".

(** [_name_re = re.compile("^[a-z][a-z0-9_]+[a-z0-9]$")], after the first
    character: [one] tells whether [[a-z0-9_]+] has taken a character. *)
Fixpoint name_re_tail (one : bool) (s : string) : bool :=
  match s with
  | EmptyString => false
  | String c s' =>
      (word_char c && name_re_tail true s') || (one && last_char c && at_end s')
  end.

Definition _name_re_match (s : string) : bool :=
  match s with
  | String c s' => lower_letter c && name_re_tail false s'
  | EmptyString => false
  end.

Definition _forbidden_names : list string :=
  ["onload"; "policy"; "context"; "all"; "default"; "none"; "auto"]%string.

(** [sub in s]. *)
Fixpoint contains (sub s : string) : bool :=
  startswith sub s
  || match s with
     | String _ s' => contains sub s'
     | EmptyString => false
     end.

Definition _validate_handler_name (name : string) : Result bool :=
  if String.eqb name "" then Err (ValueError "handler name cannot be empty")
  else if negb (String.eqb (lower name) name)
  then Err (ValueError "name must be lower-case")
  else if negb (_name_re_match name) then Err (ValueError "invalid name")
  else if contains "__" name
  then Err (ValueError "name may not contain double-underscores")
  else if str_in name _forbidden_names
  then Err (ValueError "that name is not allowed")
  else Ok true.

(** ** Paths *)

(** [s.count(c)]. *)
Fixpoint count_char (c : ascii) (s : string) : nat :=
  match s with
  | EmptyString => 0%nat
  | String x s' => ((if Ascii.eqb x c then 1 else 0) + count_char c s')%nat
  end.

(** [s[s.index(c):]] when [c] is in [s]. *)
Fixpoint from_first (c : ascii) (s : string) : string :=
  match s with
  | EmptyString => EmptyString
  | String x s' => if Ascii.eqb x c then s else from_first c s'
  end.

(** [s.split(c)] for a string with one [c]: the parts before and after it. *)
Fixpoint before_first (c : ascii) (s : string) : string :=
  match s with
  | EmptyString => EmptyString
  | String x s' => if Ascii.eqb x c then EmptyString else String x (before_first c s')
  end.

Definition after_first (c : ascii) (s : string) : string :=
  drop_chars 1 (from_first c s).

Definition register_crypt_handler_path (name path : string) : M unit :=
  lift (_validate_handler_name name) ;;;
  if startswith "." path then raise (ValueError "path cannot start with '.'")
  else
    (if contains ":" path then
       if Nat.ltb 1 (count_char ":" path)
       then raise (ValueError "path cannot have more than one ':'")
       else if contains "." (from_first ":" path)
       then raise (ValueError "path cannot have '.' to right of ':'")
       else ret tt
     else ret tt) ;;;
    set_location name path.

(** ** Handlers *)

Definition register_crypt_handler (handler : object) (force : bool)
    (_attr : option string) : M unit :=
  if negb (is_crypt_handler handler) then raise (ExpectedTypeError "handler")
  else if negb (truth handler) then raise AssertionError
  else
    let name := name handler in
    lift (_validate_handler_name name) ;;;
    if match _attr with
       | Some a => negb (String.eqb a "") && negb (String.eqb a name)
       | None => false
       end
    then raise (ValueError "handlers must be stored only under their own name")
    else
      other <- get_handler name ;;
      match other with
      | Some o =>
          if truth o then
            if bool_decide (o = handler) then ret tt
            else if force then set_handler name handler
            else raise (KeyError "another handler has already been registered")
          else set_handler name handler
      | None => set_handler name handler
      end.

(** The end of [get_crypt_handler]: [default] is [None] for [_UNSET]. *)
Definition or_default (msg : string) (default : option object) : M object :=
  match default with
  | None => raise (KeyError msg)
  | Some d => ret d
  end.

Section Loading.

Variable E : Env.

(** The lazy load of [get_crypt_handler], for a name with a path. *)
Definition load_handler (name path : string) : M object :=
  parts <- (if contains ":" path then
              if Nat.eqb (count_char ":" path) 1
              then ret (before_first ":" path, after_first ":" path)
              else raise (ValueError "too many values to unpack")
            else ret (path, name)) ;;
  let '(modname, modattr) := parts in
  mod_ <- import_ E modname ;;
  handler <- get_handler name ;;
  match handler with
  | Some o =>
      if truth o then
        if is_crypt_handler o then ret o else raise AssertionError
      else
        match mod_ modattr with
        | None => raise (AttributeError modattr)
        | Some h => register_crypt_handler h false (Some name) ;;; ret h
        end
  | None =>
      match mod_ modattr with
      | None => raise (AttributeError modattr)
      | Some h => register_crypt_handler h false (Some name) ;;; ret h
      end
  end.

Definition get_crypt_handler (name : string) (default : option object) : M object :=
  if startswith "_" name then or_default "invalid handler name" default
  else
    loaded <- get_handler name ;;
    match loaded with
    | Some o => ret o
    | None =>
        let alt := lower (replace_hyphens name) in
        found <- (if negb (String.eqb alt name)
                  then warn name alt ;;; o <- get_handler alt ;; ret (alt, o)
                  else ret (name, None)) ;;
        let '(name, loaded) := found in
        match loaded with
        | Some o => ret o
        | None =>
            path <- get_location name ;;
            match path with
            | Some p =>
                if String.eqb p ""
                then or_default "no crypt handler found for algorithm" default
                else load_handler name p
            | None => or_default "no crypt handler found for algorithm" default
            end
        end
    end.

(** ** The proxy object [passlib.hash] *)

(** [_PasslibRegistryProxy.__getattr__], called for an attribute that is not
    in the dictionary of the proxy. *)
Definition proxy_getattr (attr : string) : M object :=
  if startswith "_" attr then raise (AttributeError "missing attribute")
  else
    handler <- get_crypt_handler attr (Some None_) ;;
    if truth handler then ret handler
    else raise (AttributeError "unknown password hash").

End Loading.

(** [_PasslibRegistryProxy.__setattr__]. *)
Definition proxy_setattr (attr : string) (value : object) : M unit :=
  if startswith "_" attr then set_handler attr value
  else register_crypt_handler value false (Some attr).

(** ** Listing and unloading *)

(** The order of [str]: by code point, a prefix first. *)
Fixpoint string_leb (a b : string) : bool :=
  match a, b with
  | EmptyString, _ => true
  | String _ _, EmptyString => false
  | String x a', String y b' =>
      Nat.ltb (code x) (code y) || (Nat.eqb (code x) (code y) && string_leb a' b')
  end.

Definition string_le (a b : string) : Prop := string_leb a b = true.

#[global] Instance string_le_dec (a b : string) : Decision (string_le a b).
Proof. unfold string_le. solve_decision. Defined.

(** [sorted] of a set of names. *)
Definition sorted (names : gset string) : list string :=
  merge_sort string_le (elements names).

Definition list_crypt_handlers (loaded_only : bool) : M (list string) :=
  fun st =>
    let names := dom (_handlers st) in
    let names := if loaded_only then names else names ∪ dom (_locations st) in
    (Ok (sorted (filter (fun name => startswith "_" name = false) names)), st).

Definition _has_crypt_handler (name : string) (loaded_only : bool) : M bool :=
  fun st =>
    (Ok (bool_decide (is_Some (_handlers st !! name))
         || (negb loaded_only && bool_decide (is_Some (_locations st !! name)))), st).

Definition _unload_handler_name (name : string) (locations : bool) : M unit :=
  fun st =>
    (Ok tt, {| _handlers := delete name (_handlers st);
               _locations := if locations then delete name (_locations st)
                             else _locations st;
               warnings := warnings st |}).

(** ** Reference predicates *)

Definition newline : string := String (ascii_of_nat 10) "".

Definition first_is (p : ascii -> bool) (s : string) : bool :=
  match s with
  | String c _ => p c
  | EmptyString => false
  end.

Fixpoint last_is (p : ascii -> bool) (s : string) : bool :=
  match s with
  | EmptyString => false
  | String c EmptyString => p c
  | String _ s' => last_is p s'
  end.

(** The names that the docstring of [_validate_handler_name] describes: three
    characters or more, a letter first, then letters, digits and single
    underscores, no underscore last, and not a reserved word; the pattern
    lets one newline follow. *)
Definition valid_handler_name (name : string) : Prop :=
  exists core,
    (name = core \/ name = (core ++ newline)%string)
    /\ (3 <= String.length core)%nat
    /\ first_is lower_letter core = true
    /\ string_forall word_char core = true
    /\ last_is last_char core = true
    /\ contains "__" name = false
    /\ ~ In name _forbidden_names.

(** The paths that [register_crypt_handler_path] lets through: no leading
    dot, at most one colon, and no dot from the colon on. *)
Definition path_ok (path : string) : bool :=
  negb (startswith "." path)
  && Nat.leb (count_char ":" path) 1
  && negb (contains "." (from_first ":" path)).

(** The state with one more location. *)
Definition with_location (st : State) (name path : string) : State :=
  {| _handlers := _handlers st; _locations := <[name := path]> (_locations st);
     warnings := warnings st |}.

(** The state with one more handler. *)
Definition with_handler (st : State) (name : string) (o : object) : State :=
  {| _handlers := <[name := o]> (_handlers st); _locations := _locations st;
     warnings := warnings st |}.

(** No name occurs twice. *)
Fixpoint distinct (names : list string) : bool :=
  match names with
  | [] => true
  | n :: rest => negb (str_in n rest) && distinct rest
  end.

(** What holds of every entry of the table of built-in handlers. *)
Definition builtin_entry_ok (entry : string * string) : bool :=
  match _validate_handler_name (fst entry) with
  | Ok true => true
  | _ => false
  end
  && path_ok (snd entry) && negb (contains ":" (snd entry))
  && negb (String.eqb (snd entry) "").

(** The state with one more warning. *)
Definition with_warning (st : State) (name alt : string) : State :=
  {| _handlers := _handlers st; _locations := _locations st;
     warnings := warnings st ++ [(name, alt)] |}.

(** [name.replace("-", "_").lower()]. *)
Definition normal_form (name : string) : string := lower (replace_hyphens name).

(** ** A small world for examples *)

Definition handler_ (n : nat) (nm : string) : object :=
  {| oid := n; is_crypt_handler := true; truth := true; name := nm |}.

(** No module can be imported. *)
Definition no_import : Env :=
  {| import_ := fun _ st => (Err (Raised "ImportError"), st) |}.

(** One module can be imported; it has one attribute and importing it does
    not touch the registry. *)
Definition one_module (modname attr : string) (h : object) : Env :=
  {| import_ := fun m st =>
       if String.eqb m modname
       then (Ok (fun a => if String.eqb a attr then Some h else None), st)
       else (Err (Raised "ImportError"), st) |}.

(** ** The registry as its own functions leave it *)

(** Every object loaded under a public name is a true handler that carries
    that name, and every name with a path is a valid handler name with a
    path that [register_crypt_handler_path] lets through. *)
Definition registry_ok (st : State) : Prop :=
  (forall k o,
     _handlers st !! k = Some o -> startswith "_" k = false ->
     is_crypt_handler o = true /\ truth o = true /\ name o = k
     /\ valid_handler_name k)
  /\ (forall k p,
        _locations st !! k = Some p -> valid_handler_name k /\ path_ok p = true).

(** Importing a module runs code that uses the registry through its
    functions only. *)
Definition import_ok (E : Env) : Prop :=
  forall modname st r st',
    registry_ok st -> import_ E modname st = (r, st') -> registry_ok st'.

(** One call of a function of the module, or one access to the proxy,
    whatever it returns. *)
Inductive step (E : Env) : State -> State -> Prop :=
| step_register_crypt_handler_path name path st r st' :
    register_crypt_handler_path name path st = (r, st') -> step E st st'
| step_register_crypt_handler handler force _attr st r st' :
    register_crypt_handler handler force _attr st = (r, st') -> step E st st'
| step_get_crypt_handler name default st r st' :
    get_crypt_handler E name default st = (r, st') -> step E st st'
| step_list_crypt_handlers loaded_only st r st' :
    list_crypt_handlers loaded_only st = (r, st') -> step E st st'
| step_has_crypt_handler name loaded_only st r st' :
    _has_crypt_handler name loaded_only st = (r, st') -> step E st st'
| step_unload_handler_name name locations st r st' :
    _unload_handler_name name locations st = (r, st') -> step E st st'
| step_proxy_getattr attr st r st' :
    proxy_getattr E attr st = (r, st') -> step E st st'
| step_proxy_setattr attr value st r st' :
    proxy_setattr attr value st = (r, st') -> step E st st'.

(** The states of a process that has just imported the module. *)
Inductive reachable (E : Env) : State -> Prop :=
| reachable_initial : reachable E initial_state
| reachable_step st st' : reachable E st -> step E st st' -> reachable E st'.

End Registry.

(** * Proofs *)

(** ** Octets and integers *)

Lemma Z_of_byte_range (b : byte) : 0 <= Z_of_byte b < 256.
Proof.
  unfold Z_of_byte. pose proof (Byte.to_N_bounded b). lia.
Qed.

Lemma byte_of_Z_of_byte (b : byte) : byte_of_Z (Z_of_byte b) = b.
Proof.
  unfold byte_of_Z. rewrite Z.mod_small by apply Z_of_byte_range.
  unfold Z_of_byte. rewrite N2Z.id, Byte.of_to_N. reflexivity.
Qed.

Lemma Z_of_byte_of_Z (z : Z) : Z_of_byte (byte_of_Z z) = z mod 256.
Proof.
  unfold byte_of_Z, Z_of_byte.
  assert (Hr : 0 <= z mod 256 < 256) by (apply Z.mod_pos_bound; lia).
  destruct (Byte.of_N (Z.to_N (z mod 256))) as [b|] eqn:E.
  - apply Byte.to_of_N in E. rewrite E. lia.
  - apply Byte.of_N_None_iff in E. lia.
Qed.

Lemma Z_of_byte_inj (a b : byte) : Z_of_byte a = Z_of_byte b -> a = b.
Proof.
  intros H. rewrite <- (byte_of_Z_of_byte a), <- (byte_of_Z_of_byte b).
  now rewrite H.
Qed.

Lemma small_testbit (z : Z) (n : Z) :
  0 <= z < 256 -> 8 <= n -> Z.testbit z n = false.
Proof.
  intros Hz Hn. destruct (Z.eq_dec z 0) as [->|Hne].
  - apply Z.testbit_0_l.
  - apply Z.bits_above_log2; [lia|].
    assert (Z.log2 z < 8) by (apply Z.log2_lt_pow2; lia). lia.
Qed.

Lemma small_of_bits (z : Z) :
  0 <= z -> (forall n, 8 <= n -> Z.testbit z n = false) -> z < 256.
Proof.
  intros Hz Hb.
  assert (E : z = z mod 2 ^ 8).
  { rewrite <- Z.land_ones by lia. apply Z.bits_inj'. intros n Hn.
    rewrite Z.land_spec. destruct (Z_lt_le_dec n 8).
    - rewrite Z.ones_spec_low by lia. now rewrite andb_true_r.
    - rewrite Hb by lia. reflexivity. }
  rewrite E. apply Z.mod_pos_bound. lia.
Qed.

Lemma lxor_small (a b : Z) :
  0 <= a < 256 -> 0 <= b < 256 -> 0 <= Z.lxor a b < 256.
Proof.
  intros Ha Hb. split.
  - apply Z.lxor_nonneg. lia.
  - apply small_of_bits.
    + apply Z.lxor_nonneg. lia.
    + intros n Hn. rewrite Z.lxor_spec, !small_testbit by assumption. reflexivity.
Qed.

Lemma Z_of_byte_bxor (a b : byte) :
  Z_of_byte (bxor a b) = Z.lxor (Z_of_byte a) (Z_of_byte b).
Proof.
  unfold bxor. rewrite Z_of_byte_of_Z. apply Z.mod_small.
  apply lxor_small; apply Z_of_byte_range.
Qed.

Lemma bxor_comm (a b : byte) : bxor a b = bxor b a.
Proof. unfold bxor. now rewrite Z.lxor_comm. Qed.

(** The translation tables compute the XOR with the pad octets. *)
Lemma trans_table_nth (mask : Z) (b : byte) :
  nth (Z.to_nat (Z_of_byte b)) (trans_table mask) x00
  = byte_of_Z (Z.lxor (Z_of_byte b) mask).
Proof.
  unfold trans_table. pose proof (Z_of_byte_range b) as Hb.
  rewrite (nth_indep _ x00 (byte_of_Z (Z.lxor (Z.of_nat 0) mask)))
    by (rewrite length_map, length_seq; lia).
  rewrite (map_nth (fun x => byte_of_Z (Z.lxor (Z.of_nat x) mask))).
  rewrite seq_nth by lia. simpl. now rewrite Z2Nat.id by lia.
Qed.

Lemma translate_36 (key : bytes) : translate _TRANS_36 key = map (bxor ipad) key.
Proof.
  unfold translate, _TRANS_36. apply map_ext. intros b.
  rewrite trans_table_nth, bxor_comm. reflexivity.
Qed.

Lemma translate_5C (key : bytes) : translate _TRANS_5C key = map (bxor opad) key.
Proof.
  unfold translate, _TRANS_5C. apply map_ext. intros b.
  rewrite trans_table_nth, bxor_comm. reflexivity.
Qed.

Lemma le_value_nonneg (l : bytes) : 0 <= le_value l.
Proof.
  induction l as [|b l IH]; simpl; [lia|].
  apply Z.lor_nonneg. split; [apply Z_of_byte_range|].
  apply Z.shiftl_nonneg. exact IH.
Qed.

Lemma lor_shiftl_low (b x : Z) :
  0 <= b < 256 -> Z.land (Z.lor b (Z.shiftl x 8)) 255 = b.
Proof.
  intros Hb. change 255 with (Z.ones 8). apply Z.bits_inj'. intros n Hn.
  rewrite Z.land_spec, Z.lor_spec. destruct (Z_lt_le_dec n 8).
  - rewrite Z.ones_spec_low, Z.shiftl_spec_low by lia.
    now rewrite orb_false_r, andb_true_r.
  - rewrite Z.ones_spec_high, small_testbit by lia. now rewrite andb_false_r.
Qed.

Lemma lor_shiftl_high (b x : Z) :
  0 <= b < 256 -> Z.shiftr (Z.lor b (Z.shiftl x 8)) 8 = x.
Proof.
  intros Hb. apply Z.bits_inj'. intros n Hn.
  rewrite Z.shiftr_spec, Z.lor_spec, Z.shiftl_spec by lia.
  rewrite small_testbit by lia. simpl. f_equal. lia.
Qed.

Lemma lor_shiftl_add (b x : Z) :
  0 <= b < 256 -> Z.lor b (Z.shiftl x 8) = b + 256 * x.
Proof.
  intros Hb.
  assert (Hd : Z.land b (Z.shiftl x 8) = 0).
  { apply Z.bits_inj'. intros n Hn. rewrite Z.land_spec, Z.bits_0.
    destruct (Z_lt_le_dec n 8).
    - rewrite Z.shiftl_spec_low by lia. apply andb_false_r.
    - now rewrite small_testbit by lia. }
  rewrite <- Z.lxor_lor by exact Hd. rewrite <- Z.add_nocarry_lxor by exact Hd.
  rewrite Z.shiftl_mul_pow2 by lia. change (2 ^ 8) with 256. lia.
Qed.

Lemma le_value_bound (l : bytes) : le_value l < 2 ^ (8 * Z.of_nat (List.length l)).
Proof.
  induction l as [|b l IH]; simpl List.length; [simpl; lia|].
  cbn [le_value]. pose proof (Z_of_byte_range b) as Hb.
  rewrite lor_shiftl_add by exact Hb.
  replace (8 * Z.of_nat (S (List.length l))) with (8 + 8 * Z.of_nat (List.length l)) by lia.
  rewrite Z.pow_add_r by lia. change (2 ^ 8) with 256.
  pose proof (le_value_nonneg l). nia.
Qed.

Lemma octets_le_length (n : nat) (z : Z) : List.length (octets_le n z) = n.
Proof. revert z. induction n as [|n IH]; intros z; simpl; [reflexivity|]. now rewrite IH. Qed.

Lemma octets_le_value (l : bytes) : octets_le (List.length l) (le_value l) = l.
Proof.
  induction l as [|b l IH]; [reflexivity|].
  cbn [List.length octets_le le_value]. pose proof (Z_of_byte_range b) as Hb.
  rewrite lor_shiftl_low, lor_shiftl_high by exact Hb.
  now rewrite byte_of_Z_of_byte, IH.
Qed.

Lemma xor_bytes_length (a b : bytes) :
  List.length a = List.length b -> List.length (xor_bytes a b) = List.length a.
Proof.
  revert b. induction a as [|x a IH]; intros [|y b] H; simpl in *; try lia.
  now rewrite IH by lia.
Qed.

Lemma le_value_xor (a b : bytes) :
  List.length a = List.length b ->
  le_value (xor_bytes a b) = Z.lxor (le_value a) (le_value b).
Proof.
  revert b. induction a as [|x a IH]; intros [|y b] H; simpl in H; try lia.
  - reflexivity.
  - cbn [xor_bytes le_value]. rewrite IH by lia. rewrite Z_of_byte_bxor.
    pose proof (Z_of_byte_range x) as Hx. pose proof (Z_of_byte_range y) as Hy.
    apply Z.bits_inj'. intros n Hn.
    rewrite !Z.lxor_spec, !Z.lor_spec, !Z.lxor_spec.
    destruct (Z_lt_le_dec n 8).
    + rewrite !Z.shiftl_spec_low by lia. now rewrite !orb_false_r.
    + rewrite !Z.shiftl_spec by lia. rewrite Z.lxor_spec.
      now rewrite !small_testbit by lia.
Qed.

Lemma from_bytes_big_snoc (l : bytes) (b : byte) :
  from_bytes_big (l ++ [b]) = Z.lor (Z.shiftl (from_bytes_big l) 8) (Z_of_byte b).
Proof. unfold from_bytes_big. now rewrite fold_left_app. Qed.

Lemma from_bytes_big_le (l : bytes) : from_bytes_big l = le_value (rev l).
Proof.
  induction l as [|b l IH] using rev_ind; [reflexivity|].
  rewrite from_bytes_big_snoc, rev_app_distr. cbn [rev app le_value].
  now rewrite IH, Z.lor_comm.
Qed.

Lemma xor_bytes_rev (a b : bytes) :
  List.length a = List.length b -> xor_bytes (rev a) (rev b) = rev (xor_bytes a b).
Proof.
  revert b. induction a as [|x a IH] using rev_ind; intros b H.
  - destruct b; [reflexivity|simpl in H; lia].
  - destruct b as [|y b _] using rev_ind.
    + rewrite length_app in H. simpl in H. lia.
    + rewrite !length_app in H. simpl in H.
      assert (Hl : List.length a = List.length b) by lia.
      rewrite !rev_app_distr. cbn [rev app xor_bytes]. rewrite IH by exact Hl.
      clear IH H. f_equal.
      revert b Hl. induction a as [|u a IHa]; intros [|v b] Hl; simpl in Hl; try lia.
      * reflexivity.
      * cbn [app xor_bytes rev]. now rewrite <- IHa by lia.
Qed.

(** XOR of the integers read from two digests of the same size is the integer
    read from their octet-wise XOR. *)
Lemma from_bytes_big_xor (a b : bytes) :
  List.length a = List.length b ->
  Z.lxor (from_bytes_big a) (from_bytes_big b) = from_bytes_big (xor_bytes a b).
Proof.
  intros H. rewrite !from_bytes_big_le, <- xor_bytes_rev by exact H.
  symmetry. apply le_value_xor. now rewrite !length_rev.
Qed.

(** Writing the integer read from a digest back gives the digest. *)
Lemma to_bytes_big_from (l : bytes) (n : Z) :
  Z.of_nat (List.length l) = n -> to_bytes_big (from_bytes_big l) n = Ok l.
Proof.
  intros <-. unfold to_bytes_big.
  destruct (Z.ltb_spec (Z.of_nat (List.length l)) 0) as [?|_]; [lia|].
  rewrite from_bytes_big_le.
  pose proof (le_value_nonneg (rev l)) as H0.
  pose proof (le_value_bound (rev l)) as H1. rewrite length_rev in H1.
  destruct (Z.ltb_spec (le_value (rev l)) 0) as [?|_]; [lia|].
  destruct (Z.leb_spec (2 ^ (8 * Z.of_nat (List.length l))) (le_value (rev l))) as [?|_]; [lia|].
  simpl. rewrite Nat2Z.id. rewrite <- (length_rev l) at 1.
  now rewrite octets_le_value, rev_involutive.
Qed.

(** ** HMAC *)

Lemma constructs_call (P : Platform) (c : const) (alg : HashAlg) (msg : bytes) :
  constructs P c alg -> call_const P c msg = Ok (hash_new alg msg).
Proof.
  unfold constructs, call_const. destruct c as [id|serial nm].
  - destruct (call_static P id); intros H; inversion H; reflexivity.
  - destruct (hashlib_new P nm); intros H; inversion H; reflexivity.
Qed.

Lemma zeros_length (n : Z) : List.length (zeros n) = Z.to_nat n.
Proof. apply repeat_length. Qed.

(** The key prepared by [compile_hmac] is the key of the standard schedule,
    as long as digests have the declared size. *)
Lemma prepare_key_schedule (P : Platform) (c : const) (alg : HashAlg) (key : bytes) :
  constructs P c alg -> digest_len_ok alg ->
  prepare_key P c (alg_digest_size alg) (alg_block_size alg) key
  = Ok (hmac_key_schedule alg key).
Proof.
  intros Hc Hlen. unfold prepare_key, hmac_key_schedule.
  rewrite (constructs_call _ _ _ _ Hc).
  destruct (Z.of_nat (List.length key) >? alg_block_size alg) eqn:E.
  - unfold hash_digest, hash_new; simpl. rewrite (Hlen key).
    destruct (Z.ltb_spec (alg_digest_size alg) (alg_block_size alg)) as [Hlt|Hge].
    + reflexivity.
    + unfold zeros. replace (Z.to_nat _) with 0%nat by lia. simpl.
      now rewrite app_nil_r.
  - destruct (Z.ltb_spec (Z.of_nat (List.length key)) (alg_block_size alg)) as [Hlt|Hge].
    + reflexivity.
    + unfold zeros. replace (Z.to_nat _) with 0%nat by lia. simpl.
      now rewrite app_nil_r.
Qed.

Lemma hmac_key_schedule_length (alg : HashAlg) (key : bytes) :
  digest_len_ok alg -> alg_digest_size alg <= alg_block_size alg ->
  Z.of_nat (List.length (hmac_key_schedule alg key)) = alg_block_size alg.
Proof.
  intros Hlen Hle. unfold hmac_key_schedule.
  rewrite length_app, zeros_length.
  destruct (Z.gtb_spec (Z.of_nat (List.length key)) (alg_block_size alg)) as [Hgt|Hngt].
  - rewrite Nat2Z.inj_add, (Hlen key). lia.
  - lia.
Qed.

Lemma hmac_single_spec (alg : HashAlg) (k msg : bytes) :
  hmac_single (hash_new alg (map (bxor ipad) k)) (hash_new alg (map (bxor opad) k)) msg
  = alg_H alg (map (bxor opad) k ++ alg_H alg (map (bxor ipad) k ++ msg)).
Proof. reflexivity. Qed.

(** [compile_hmac] on a descriptor of [alg], in either mode. *)
Lemma compile_hmac_describes (P : Platform) (digest : digest_arg) (key : bytes)
    (mp : bool) (st st1 : State) (info : HashInfo) (alg : HashAlg) :
  lookup_hash P digest false st = (Ok info, st1) ->
  describes P info alg -> digest_len_ok alg -> 16 <= alg_block_size alg ->
  let k := hmac_key_schedule alg key in
  let inner_seed := hash_new alg (map (bxor ipad) k) in
  let outer_seed := hash_new alg (map (bxor opad) k) in
  compile_hmac P digest key mp st
  = (Ok (if mp then Multipart (hmac_multi inner_seed outer_seed) info
         else SingleShot (hmac_single inner_seed outer_seed) info), st1).
Proof.
  intros Hl (c & Hc & Hcons & Hds & Hbs) Hlen H16. cbv zeta.
  unfold compile_hmac, bind. rewrite Hl, Hc, Hds, Hbs.
  unfold assert. destruct (Z.geb_spec (alg_block_size alg) 16) as [_|?]; [|lia].
  unfold ret, lift. rewrite (prepare_key_schedule P c alg key Hcons Hlen).
  rewrite !(constructs_call P c alg _ Hcons), translate_36, translate_5C.
  destruct mp; reflexivity.
Qed.

Lemma toy_spread_length (n : nat) (z : Z) : List.length (Toy.spread n z) = n.
Proof. revert z. induction n as [|n IH]; intros z; simpl; [reflexivity|]. now rewrite IH. Qed.

Lemma toy_digest_len_ok (nm : string) (dsize bsize : Z) :
  0 <= dsize -> digest_len_ok (Toy.toy_alg nm dsize bsize).
Proof. intros H m. simpl. rewrite toy_spread_length. lia. Qed.

Lemma mp_run_expected (i o : hashobj) (ops : list mp_op) (sofar : bytes) :
  fst (mp_run {| mp_inner := {| ho_alg := ho_alg i; ho_fed := ho_fed i ++ sofar |};
                 mp_outer_seed := o |} ops)
  = mp_expected (hmac_single i o) sofar ops.
Proof.
  revert sofar. induction ops as [|[chunk|] ops IH]; intros sofar.
  - reflexivity.
  - cbn [mp_run mp_expected]. rewrite <- IH. unfold mp_update, hash_update. simpl.
    now rewrite app_assoc.
  - cbn [mp_run mp_expected]. unfold mp_finalize.
    specialize (IH sofar). destruct (mp_run _ ops) as [ds m''] eqn:E.
    simpl in *. now rewrite IH.
Qed.

Lemma hmac_multi_start (i o : hashobj) :
  hmac_multi i o tt
  = {| mp_inner := {| ho_alg := ho_alg i; ho_fed := ho_fed i ++ [] |};
       mp_outer_seed := o |}.
Proof. unfold hmac_multi, hash_copy. destruct i. simpl. now rewrite app_nil_r. Qed.

(** C3 (as amended).  For a descriptor of an algorithm whose digests have the
    declared size, with [block_size >= 16] and [digest_size <= block_size]:
    [compile_hmac] prepares the key by the standard schedule, the prepared
    key has exactly [block_size] octets, and the single-shot function it
    returns feeds the message to a copy of the inner state seeded with
    [key xor 0x36], feeds that digest to a copy of the outer state seeded
    with [key xor 0x5c], and so computes the standard HMAC. *)
Theorem compile_hmac_single_shot (P : Platform) (digest : digest_arg) (key : bytes)
    (st st1 : State) (info : HashInfo) (alg : HashAlg) :
  lookup_hash P digest false st = (Ok info, st1) ->
  describes P info alg -> digest_len_ok alg ->
  16 <= alg_block_size alg -> alg_digest_size alg <= alg_block_size alg ->
  exists (c : const) (k : bytes) (mac : bytes -> bytes),
    info_const info = Some c
    /\ prepare_key P c (alg_digest_size alg) (alg_block_size alg) key = Ok k
    /\ k = hmac_key_schedule alg key
    /\ Z.of_nat (List.length k) = alg_block_size alg
    /\ compile_hmac P digest key false st = (Ok (SingleShot mac info), st1)
    /\ (forall msg,
          mac msg
          = hash_digest
              (hash_update (hash_copy (hash_new alg (map (bxor opad) k)))
                 (hash_digest
                    (hash_update (hash_copy (hash_new alg (map (bxor ipad) k))) msg))))
    /\ (forall msg, mac msg = HMAC_spec alg key msg).
Proof.
  intros Hl Hd Hlen H16 Hle.
  pose proof (compile_hmac_describes P digest key false st st1 info alg Hl Hd Hlen H16) as Hc.
  destruct Hd as (c & Hc1 & Hcons & _ & _).
  exists c, (hmac_key_schedule alg key). eexists. split; [exact Hc1|].
  split; [now apply prepare_key_schedule|]. split; [reflexivity|].
  split; [now apply hmac_key_schedule_length|].
  split; [exact Hc|]. split; intros msg; reflexivity.
Qed.

Lemma compile_hmac_single_shot_witness :
  exists (c : const) (k : bytes) (mac : bytes -> bytes),
    info_const
      {| oid := 0; name := "sha256"; iana_name := "sha-256"; aliases := ["sha2-256"];
         info_const := Some (StaticConst 1); digest_size := Some 32;
         block_size := Some 64 |} = Some c
    /\ prepare_key Toy.py3 c 32 64 [x6b; x65; x79] = Ok k
    /\ k = hmac_key_schedule Toy.sha256 [x6b; x65; x79]
    /\ Z.of_nat (List.length k) = 64
    /\ compile_hmac Toy.py3 (DName "sha256") [x6b; x65; x79] false initial_state
       = (Ok (SingleShot mac
                {| oid := 0; name := "sha256"; iana_name := "sha-256";
                   aliases := ["sha2-256"]; info_const := Some (StaticConst 1);
                   digest_size := Some 32; block_size := Some 64 |}),
          snd (lookup_hash Toy.py3 (DName "sha256") false initial_state))
    /\ (forall msg,
          mac msg
          = hash_digest
              (hash_update (hash_copy (hash_new Toy.sha256 (map (bxor opad) k)))
                 (hash_digest
                    (hash_update (hash_copy (hash_new Toy.sha256 (map (bxor ipad) k))) msg))))
    /\ (forall msg, mac msg = HMAC_spec Toy.sha256 [x6b; x65; x79] msg).
Proof.
  apply (compile_hmac_single_shot Toy.py3 (DName "sha256") [x6b; x65; x79]
           initial_state _ _ Toy.sha256).
  - vm_compute. reflexivity.
  - exists (StaticConst 1). repeat split.
  - apply toy_digest_len_ok. lia.
  - simpl. lia.
  - simpl. lia.
Defined.

(** C3, the claim as stated, fails: with [block_size = 16] and
    [digest_size = 20] a key of 17 octets is replaced by its digest of 20
    octets, and the key that seeds the two states is 20 octets long, not 16. *)
Lemma compile_hmac_key_not_block_size :
  16 <= alg_block_size Toy.wide
  /\ constructs Toy.py3 (StaticConst 4) Toy.wide
  /\ exists k,
       prepare_key Toy.py3 (StaticConst 4) (alg_digest_size Toy.wide)
         (alg_block_size Toy.wide) (repeat x61 17) = Ok k
       /\ Z.of_nat (List.length k) = 20
       /\ Z.of_nat (List.length k) <> alg_block_size Toy.wide.
Proof.
  split; [simpl; lia|]. split; [reflexivity|].
  eexists. split; [vm_compute; reflexivity|]. split; [reflexivity|]. simpl. lia.
Qed.

(** C4.  For every descriptor, key and state, compiling in multipart mode
    succeeds exactly when compiling in single-shot mode does (with the same
    error otherwise), and then: [update] on two chunks followed by
    [finalize] gives the single-shot MAC of their concatenation; and for any
    sequence of [update] and [finalize] calls, every [finalize] returns the
    single-shot MAC of the chunks fed so far, so that a [finalize] does not
    disturb the calls that follow. *)
Theorem multipart_matches_single_shot (P : Platform) (digest : digest_arg)
    (key : bytes) (st : State) :
  match compile_hmac P digest key false st, compile_hmac P digest key true st with
  | (Ok (SingleShot hmac _), s1), (Ok (Multipart mhmac _), s2) =>
      s1 = s2
      /\ (forall a b,
            fst (mp_finalize (mp_update (mp_update (mhmac tt) a) b)) = hmac (a ++ b))
      /\ (forall ops, fst (mp_run (mhmac tt) ops) = mp_expected hmac [] ops)
  | (Err e1, s1), (Err e2, s2) => e1 = e2 /\ s1 = s2
  | _, _ => False
  end.
Proof.
  unfold compile_hmac, bind.
  destruct (lookup_hash P digest false st) as [[info|e] s]; [|split; reflexivity].
  destruct (info_const info) as [c|]; [|split; reflexivity].
  destruct (digest_size info) as [ds|]; [|split; reflexivity].
  destruct (block_size info) as [bs|]; [|split; reflexivity].
  unfold assert. destruct (bs >=? 16); [|split; reflexivity].
  unfold ret, lift, raise.
  destruct (prepare_key P c ds bs key) as [k|e]; [|split; reflexivity].
  destruct (call_const P c (translate _TRANS_36 k)) as [i|e]; [|split; reflexivity].
  destruct (call_const P c (translate _TRANS_5C k)) as [o|e]; [|split; reflexivity].
  split; [reflexivity|]. split.
  - intros a b. unfold mp_finalize, mp_update, hmac_multi, hmac_single, hash_update,
      hash_copy, hash_digest. simpl. now rewrite app_assoc.
  - intros ops. rewrite hmac_multi_start. apply mp_run_expected.
Qed.

(** Both modes do succeed on a descriptor with [block_size >= 16]. *)
Example multipart_example :
  exists info s,
    let k := hmac_key_schedule Toy.sha256 [x6b] in
    let i := hash_new Toy.sha256 (map (bxor ipad) k) in
    let o := hash_new Toy.sha256 (map (bxor opad) k) in
    compile_hmac Toy.py3 (DName "sha256") [x6b] false initial_state
      = (Ok (SingleShot (hmac_single i o) info), s)
    /\ compile_hmac Toy.py3 (DName "sha256") [x6b] true initial_state
      = (Ok (Multipart (hmac_multi i o) info), s).
Proof.
  assert (H : exists info s,
             lookup_hash Toy.py3 (DName "sha256") false initial_state = (Ok info, s)
             /\ describes Toy.py3 info Toy.sha256).
  { do 2 eexists. split; [vm_compute; reflexivity|].
    exists (StaticConst 1). repeat split. }
  destruct H as (info & s & Hl & Hd). exists info, s. cbv zeta.
  assert (Hlen : digest_len_ok Toy.sha256) by (apply toy_digest_len_ok; lia).
  assert (H16 : 16 <= alg_block_size Toy.sha256) by (simpl; lia).
  split.
  - exact (compile_hmac_describes _ _ [x6b] false _ _ _ _ Hl Hd Hlen H16).
  - exact (compile_hmac_describes _ _ [x6b] true _ _ _ _ Hl Hd Hlen H16).
Qed.

(** ** The resolver: what a successful lookup leaves in the cache *)

Ltac unfold_monad :=
  unfold bind, ret, raise, lift, assert, cache_get, cache_set, new_object in *.

Lemma cache_names_spec (names : list string) (info : HashInfo) (st st' : State)
    (r : Result unit) :
  cache_names names info st = (r, st') ->
  next_object st' = next_object st
  /\ (forall c, cache st' !! KConst c = cache st !! KConst c)
  /\ (r = Ok tt ->
      forall n, cache st' !! KName n
                = if str_in n names && negb (String.eqb n "")
                  then Some info else cache st !! KName n).
Proof.
  revert st. induction names as [|nm rest IH]; intros st H.
  - simpl in H. unfold_monad. inversion H; subst. repeat split; try reflexivity.
  - cbn [cache_names] in H. destruct (String.eqb_spec nm "") as [->|Hnm].
    + destruct (IH _ H) as (Hn & Hc & Hk). repeat split; try assumption.
      intros Hr n. rewrite (Hk Hr n). cbn [str_in].
      destruct (String.eqb_spec n "") as [->|Hne]; simpl.
      * now rewrite andb_false_r.
      * reflexivity.
    + unfold_monad. destruct (none_or_same (cache st !! KName nm) info).
      * destruct (IH _ H) as (Hn & Hc & Hk). simpl in *.
        split; [exact Hn|]. split.
        { intros c. rewrite Hc. now rewrite lookup_insert_ne by discriminate. }
        intros Hr n. rewrite (Hk Hr n). cbn [str_in].
        destruct (String.eqb_spec n nm) as [->|Hne].
        { simpl. destruct (String.eqb_spec nm "") as [?|_]; [contradiction|].
          simpl. rewrite lookup_insert_eq. now destruct (str_in nm rest). }
        { simpl. destruct (str_in n rest && negb (n =? ""))%string; [reflexivity|].
          rewrite lookup_insert_ne; [reflexivity|]. intros E. inversion E. congruence. }
      * inversion H; subst. repeat split; try reflexivity. discriminate.
Qed.

Lemma HashInfo_init_spec (P : Platform) (c : option const) (names : list string)
    (st st' : State) (info : HashInfo) :
  HashInfo_init P c names st = (Ok info, st') ->
  cache st' = cache st /\ next_object st' = S (next_object st)
  /\ oid info = next_object st /\ info_const info = c
  /\ name info = nth 0 names "" /\ iana_name info = nth 1 names ""
  /\ aliases info = skipn 2 names.
Proof.
  unfold HashInfo_init. destruct c as [c|]; unfold_monad.
  - destruct (call_const P c []) as [h|e]; [|discriminate].
    destruct (_ =? _); [|discriminate].
    intros H; inversion H; subst; simpl. repeat split.
  - intros H; inversion H; subst; simpl. repeat split.
Qed.

Lemma HashInfo_init_err (P : Platform) (c : option const) (names : list string)
    (st st' : State) (e : exn) :
  HashInfo_init P c names st = (Err e, st') -> st' = st.
Proof.
  unfold HashInfo_init. destruct c as [c|]; unfold_monad.
  - destruct (call_const P c []) as [h|e']; [|now inversion 1].
    destruct (_ =? _); now inversion 1.
  - discriminate.
Qed.

Lemma create_and_cache_spec (P : Platform) (c : const) (names : list string)
    (by_name : bool) (st st' : State) (info : HashInfo) :
  create_and_cache P c names by_name st = (Ok info, st') ->
  info_const info = Some c /\ oid info = next_object st
  /\ name info = nth 0 names ""
  /\ next_object st' = S (next_object st)
  /\ (forall c', cache st' !! KConst c'
                 = if bool_decide (c' = c) then Some info else cache st !! KConst c')
  /\ (forall n, cache st' !! KName n
                = if by_name && str_in n names && negb (String.eqb n "")
                  then Some info else cache st !! KName n).
Proof.
  unfold create_and_cache. unfold bind at 1.
  destruct (HashInfo_init P (Some c) names st) as [[i|e] s0] eqn:Hi; [|discriminate].
  apply HashInfo_init_spec in Hi. destruct Hi as (Hc0 & Hn0 & Ho & Hic & Hnm & _).
  unfold bind at 1. unfold cache_set at 1. unfold bind at 1.
  destruct by_name.
  - destruct (cache_names names i _) as [[[]|e] s1] eqn:Hcn; [|discriminate].
    unfold ret. intros H; inversion H; subst.
    apply cache_names_spec in Hcn. simpl in Hcn. destruct Hcn as (Hn1 & Hc1 & Hk1).
    repeat split; try assumption; try lia.
    + intros c'. rewrite Hc1, Hc0. case_bool_decide as E.
      * subst. apply lookup_insert_eq.
      * apply lookup_insert_ne. congruence.
    + intros n. rewrite (Hk1 eq_refl n). simpl.
      destruct (_ && _); [reflexivity|]. rewrite lookup_insert_ne by discriminate.
      now rewrite Hc0.
  - unfold ret. intros H; inversion H; subst. simpl.
    repeat split; try assumption.
    + intros c'. rewrite Hc0. case_bool_decide as E.
      * subst. apply lookup_insert_eq.
      * apply lookup_insert_ne. congruence.
    + intros n. rewrite lookup_insert_ne by discriminate. now rewrite Hc0.
Qed.

Lemma str_in_hd (names : list string) :
  nth 0 names "" <> "" -> str_in (nth 0 names "") names = true.
Proof.
  destruct names as [|n names]; simpl; [congruence|].
  intros _. now rewrite String.eqb_refl.
Qed.

(** A successful strict lookup leaves its result in the cache under the
    value that was looked up, unless that value was a descriptor. *)
Lemma lookup_hash_rec_cached (P : Platform) (depth : nat) (digest : digest_arg)
    (st st' : State) (info : HashInfo) :
  lookup_hash_rec P depth digest false st = (Ok info, st') ->
  match digest with
  | DName s => cache st' !! KName s = Some info
  | DConst c => cache st' !! KConst c = Some info
  | DInfo i => i = info /\ st' = st
  | DOther => False
  end.
Proof.
  destruct depth as [|d]; [discriminate|].
  cbn [lookup_hash_rec]. unfold bind at 1.
  destruct digest as [s|i|c|]; cbn [cache_lookup].
  - unfold cache_get at 1. destruct (cache st !! KName s) as [i0|] eqn:Hc.
    + unfold ret. intros H; inversion H; subst. exact Hc.
    + unfold bind at 1.
      destruct (String.eqb_spec (nth 0 (_get_hash_aliases s) "") "") as [E0|Hne0];
        [discriminate|]. cbn [negb]. unfold assert at 1, ret at 1.
      destruct (String.eqb_spec (nth 0 (_get_hash_aliases s) "") s) as [E|Hne]; cbn [negb].
      * unfold bind at 1.
        destruct (_get_hash_const P _ st) as [[[c|]|e] s0] eqn:Hg; try discriminate.
        intros H. apply create_and_cache_spec in H.
        destruct H as (_ & _ & _ & _ & _ & Hk). rewrite Hk. simpl.
        rewrite <- E at 1. rewrite str_in_hd by exact Hne0.
        rewrite <- E in Hne0.
        destruct (String.eqb_spec s "") as [->|_]; [|reflexivity].
        rewrite E in Hne0. contradiction.
      * unfold bind at 1.
        destruct (lookup_hash_rec P d _ false st) as [[i1|e] s1]; [|discriminate].
        destruct (info_const i1); unfold_monad; [|discriminate].
        intros H; inversion H; subst. simpl. apply lookup_insert_eq.
  - unfold ret. intros H; inversion H; subst. split; reflexivity.
  - unfold cache_get at 1. destruct (cache st !! KConst c) as [i0|] eqn:Hc.
    + unfold ret. intros H; inversion H; subst. exact Hc.
    + unfold bind at 1, lift at 1.
      destruct (call_const P c []) as [h|e]; [|discriminate].
      unfold bind at 1.
      destruct (_get_hash_const P _ st) as [[oc|e] s0]; [|discriminate].
      intros H. apply create_and_cache_spec in H.
      destruct H as (_ & _ & _ & _ & Hk & _). rewrite Hk.
      now rewrite bool_decide_eq_true_2.
  - unfold ret, raise. discriminate.
Qed.

(** Looking the same value up again returns the same instance and changes
    nothing. *)
Lemma lookup_hash_rec_again (P : Platform) (depth depth' : nat) (digest : digest_arg)
    (flag : bool) (st st' : State) (info : HashInfo) :
  lookup_hash_rec P depth digest false st = (Ok info, st') ->
  lookup_hash_rec P (S depth') digest flag st' = (Ok info, st').
Proof.
  intros H. apply lookup_hash_rec_cached in H.
  cbn [lookup_hash_rec]. unfold bind at 1.
  destruct digest as [s|i|c|]; cbn [cache_lookup]; unfold cache_get, ret.
  - now rewrite H.
  - destruct H as [-> ->]. reflexivity.
  - now rewrite H.
  - contradiction.
Qed.

Lemma lookup_hash_again (P : Platform) (digest : digest_arg) (flag : bool)
    (st st' : State) (info : HashInfo) :
  lookup_hash P digest false st = (Ok info, st') ->
  lookup_hash P digest flag st' = (Ok info, st').
Proof.
  unfold lookup_hash. destruct (recursion_limit P) as [|d] eqn:E; [discriminate|].
  apply lookup_hash_rec_again.
Qed.

(** ** PBKDF2: the loop helpers *)

Lemma iter_prf_shift (prf : bytes -> bytes) (n : nat) (d : bytes) :
  iter_prf prf (S n) d = iter_prf prf n (prf d).
Proof. induction n as [|n IH]; [reflexivity|]. cbn [iter_prf] in *. now rewrite IH. Qed.

Lemma xor_iter_succ (prf : bytes -> bytes) (n : nat) (d acc : bytes) :
  xor_iter prf (S n) d acc = xor_bytes (xor_iter prf n d acc) (iter_prf prf (S n) d).
Proof.
  revert d acc. induction n as [|n IH]; intros d acc; [reflexivity|].
  change (xor_iter prf (S (S n)) d acc)
    with (xor_iter prf (S n) (prf d) (xor_bytes acc (prf d))).
  rewrite IH. rewrite (iter_prf_shift prf (S n) d). reflexivity.
Qed.

Lemma pbkdf2_U_iter (prf : bytes -> bytes) (salt : bytes) (i : Z) (j : nat) :
  pbkdf2_U prf salt i j = iter_prf prf j (prf (salt ++ rev (octets_le 4 i))).
Proof. induction j as [|j IH]; [reflexivity|]. cbn [pbkdf2_U iter_prf]. now rewrite IH. Qed.

Lemma pbkdf2_T_xor_iter (prf : bytes -> bytes) (salt : bytes) (i : Z) (n : nat) :
  pbkdf2_T prf salt i n
  = xor_iter prf n (prf (salt ++ rev (octets_le 4 i))) (prf (salt ++ rev (octets_le 4 i))).
Proof.
  induction n as [|n IH]; [reflexivity|].
  rewrite xor_iter_succ. cbn [pbkdf2_T]. now rewrite IH, pbkdf2_U_iter.
Qed.

Section Loop.

Variable prf : bytes -> bytes.
Variable len : nat.
Hypothesis prf_len : forall m, List.length (prf m) = len.

Lemma xor_iter_length (n : nat) (d acc : bytes) :
  List.length acc = len -> List.length (xor_iter prf n d acc) = len.
Proof using prf_len.
  revert d acc. induction n as [|n IH]; intros d acc H; [exact H|].
  cbn [xor_iter]. apply IH. rewrite xor_bytes_length; [exact H|].
  now rewrite prf_len.
Qed.

Lemma from_bytes_loop_xor (n : nat) (d acc : bytes) :
  List.length acc = len ->
  from_bytes_loop prf n d (from_bytes_big acc) = from_bytes_big (xor_iter prf n d acc).
Proof using prf_len.
  revert d acc. induction n as [|n IH]; intros d acc H; [reflexivity|].
  cbn [from_bytes_loop xor_iter].
  rewrite from_bytes_big_xor by (now rewrite prf_len).
  apply IH. rewrite xor_bytes_length; [exact H|]. now rewrite prf_len.
Qed.

(** The from-bytes helper returns the octet-wise XOR of the chain of MACs. *)
Lemma _pbkdf2_looper_xor (d : bytes) (rounds : Z) :
  List.length d = len ->
  _pbkdf2_looper (Z.of_nat len) prf d rounds
  = Ok (xor_iter prf (Z.to_nat (rounds - 1)) d d).
Proof using prf_len.
  intros H. unfold _pbkdf2_looper. rewrite from_bytes_loop_xor by exact H.
  apply to_bytes_big_from. now rewrite xor_iter_length.
Qed.

End Loop.

Lemma block_indices_range (bc i : Z) : In i (block_indices bc) -> 1 <= i <= bc.
Proof.
  unfold block_indices. rewrite in_map_iff. intros (k & <- & Hk).
  apply in_seq in Hk. lia.
Qed.

Lemma join_blocks_map (calc_block : looper) (prf : bytes -> bytes) (salt : bytes)
    (rounds : Z) (f : Z -> bytes) (indices : list Z) :
  (forall i, In i indices -> 0 <= i < 2 ^ 32) ->
  (forall i, calc_block prf (prf (salt ++ rev (octets_le 4 i))) rounds = Ok (f i)) ->
  join_blocks calc_block prf salt rounds indices = Ok (concat (map f indices)).
Proof.
  intros Hr Hc. induction indices as [|i rest IH]; [reflexivity|].
  cbn [join_blocks map concat]. unfold _pack_uint32.
  assert (Hi : 0 <= i < 2 ^ 32) by (apply Hr; now left).
  destruct (Z.ltb_spec i 0) as [?|_]; [lia|].
  destruct (Z.leb_spec (2 ^ 32) i) as [?|_]; [lia|]. cbn [orb].
  rewrite Hc, IH; [reflexivity|]. intros j Hj. apply Hr. now right.
Qed.


(** ** PBKDF2: the unpack helper *)

Lemma xor_bytes_firstn (n : nat) (a b : bytes) :
  firstn n (xor_bytes a b) = xor_bytes (firstn n a) (firstn n b).
Proof.
  revert a b. induction n as [|n IH]; intros [|x a] [|y b]; simpl; try reflexivity.
  now rewrite IH.
Qed.

Lemma xor_bytes_skipn (n : nat) (a b : bytes) :
  List.length a = List.length b ->
  skipn n (xor_bytes a b) = xor_bytes (skipn n a) (skipn n b).
Proof.
  revert a b. induction n as [|n IH]; intros [|x a] [|y b] H; simpl in *;
    try reflexivity; try lia.
  apply IH. lia.
Qed.

Lemma land_3_mod_4 (z : Z) : Z.land z 3 = z mod 4.
Proof. change 3 with (Z.ones 2). rewrite Z.land_ones by lia. reflexivity. Qed.

Lemma land_7_mod_8 (z : Z) : Z.land z 7 = z mod 8.
Proof. change 7 with (Z.ones 3). rewrite Z.land_ones by lia. reflexivity. Qed.

Section Unpack.

Variable P : Platform.

Lemma native_int_xor (a b : bytes) :
  List.length a = List.length b ->
  Z.lxor (native_int P a) (native_int P b) = native_int P (xor_bytes a b).
Proof using Type.
  intros H. unfold native_int. destruct (little_endian P).
  - rewrite from_bytes_big_xor by (now rewrite !length_rev).
    now rewrite xor_bytes_rev.
  - now apply from_bytes_big_xor.
Qed.

Lemma native_int_range (lane : bytes) :
  0 <= native_int P lane < 2 ^ (8 * Z.of_nat (List.length lane)).
Proof using Type.
  unfold native_int. destruct (little_endian P); rewrite from_bytes_big_le.
  - rewrite rev_involutive. split; [apply le_value_nonneg|apply le_value_bound].
  - rewrite <- (length_rev lane). split; [apply le_value_nonneg|apply le_value_bound].
Qed.

Lemma native_octets_int (lane : bytes) :
  native_octets P (List.length lane) (native_int P lane) = lane.
Proof using Type.
  unfold native_octets, native_int. destruct (little_endian P);
    rewrite from_bytes_big_le.
  - rewrite rev_involutive. apply octets_le_value.
  - rewrite <- (length_rev lane). now rewrite octets_le_value, rev_involutive.
Qed.

Lemma unpack_lanes_xor (fmt : list nat) (a b : bytes) :
  List.length a = List.length b ->
  xor_lanes (unpack_lanes P fmt a) (unpack_lanes P fmt b)
  = unpack_lanes P fmt (xor_bytes a b).
Proof using Type.
  revert a b. induction fmt as [|w fmt IH]; intros a b H; [reflexivity|].
  cbn [unpack_lanes xor_lanes].
  rewrite native_int_xor by (rewrite !length_firstn; lia).
  rewrite IH by (rewrite !length_skipn; lia).
  now rewrite xor_bytes_firstn, xor_bytes_skipn.
Qed.

Lemma pack_unpack_lanes (fmt : list nat) (a : bytes) :
  List.length a = struct_size fmt ->
  pack_lanes P fmt (unpack_lanes P fmt a) = Ok a.
Proof using Type.
  revert a. induction fmt as [|w fmt IH]; intros a H; cbn [struct_size fold_right] in H.
  - destruct a; [reflexivity|discriminate].
  - cbn [unpack_lanes pack_lanes].
    assert (Hw : List.length (firstn w a) = w) by (rewrite length_firstn; lia).
    pose proof (native_int_range (firstn w a)) as Hr. rewrite Hw in Hr.
    destruct (Z.ltb_spec (native_int P (firstn w a)) 0) as [?|_]; [lia|].
    destruct (Z.leb_spec (2 ^ (8 * Z.of_nat w)) (native_int P (firstn w a))) as [?|_];
      [lia|]. cbn [orb].
    rewrite IH by (rewrite length_skipn; fold (struct_size fmt) in H; lia).
    rewrite <- Hw at 1. rewrite native_octets_int. now rewrite firstn_skipn.
Qed.

Variable prf : bytes -> bytes.
Variable fmt : list nat.
Hypothesis prf_len : forall m, List.length (prf m) = struct_size fmt.

Lemma unpack_loop_xor (n : nat) (d acc : bytes) :
  List.length acc = struct_size fmt ->
  unpack_loop P fmt prf n d (unpack_lanes P fmt acc)
  = Ok (unpack_lanes P fmt (xor_iter prf n d acc)).
Proof using prf_len.
  revert d acc. induction n as [|n IH]; intros d acc H; [reflexivity|].
  cbn [unpack_loop xor_iter]. unfold struct_unpack.
  rewrite prf_len, Nat.eqb_refl.
  rewrite unpack_lanes_xor by (now rewrite prf_len).
  apply IH. rewrite xor_bytes_length; [exact H|]. now rewrite prf_len.
Qed.

(** With two lanes or more, the generated helper returns the octet-wise XOR
    of the chain of MACs. *)
Lemma unpack_helper_xor (d : bytes) (rounds : Z) :
  List.length fmt <> 1%nat -> List.length d = struct_size fmt ->
  unpack_helper P fmt prf d rounds = Ok (xor_iter prf (Z.to_nat (rounds - 1)) d d).
Proof using prf_len.
  intros Hl Hd. unfold unpack_helper, struct_unpack. rewrite Hd, Nat.eqb_refl.
  destruct (Nat.eqb_spec (List.length fmt) 1) as [?|_]; [contradiction|].
  rewrite unpack_loop_xor by exact Hd.
  apply pack_unpack_lanes. now apply xor_iter_length.
Qed.

End Unpack.

Lemma struct_size_repeat (w n : nat) : struct_size (repeat w n) = (n * w)%nat.
Proof.
  unfold struct_size. induction n as [|n IH]; cbn [repeat fold_right]; [reflexivity|].
  rewrite IH. reflexivity.
Qed.

Lemma struct_size_app (f g : list nat) :
  struct_size (f ++ g) = (struct_size f + struct_size g)%nat.
Proof.
  unfold struct_size. induction f as [|w f IH]; cbn [app fold_right]; [reflexivity|].
  rewrite IH. lia.
Qed.

(** For a digest size that is a multiple of 4 and at least 16, the unpack
    branch picks a format of two lanes or more that covers the digest. *)
Lemma _get_pbkdf2_looper_unpack_format (P : Platform) (ds : Z) :
  ds mod 4 = 0 -> 16 <= ds ->
  exists fmt,
    _get_pbkdf2_looper_unpack P ds = Ok (unpack_helper P fmt)
    /\ struct_size fmt = Z.to_nat ds /\ List.length fmt <> 1%nat.
Proof.
  intros Hmod Hds. unfold _get_pbkdf2_looper_unpack.
  rewrite land_3_mod_4, land_7_mod_8, Hmod.
  rewrite !Z.shiftr_div_pow2 by lia. change (2 ^ 3) with 8. change (2 ^ 2) with 4.
  pose proof (Z.div_mod ds 8 ltac:(lia)) as D8.
  pose proof (Z.mod_pos_bound ds 8 ltac:(lia)) as B8.
  pose proof (Z.div_mod ds 4 ltac:(lia)) as D4.
  destruct (_have_64_bit P).
  - destruct (Z.eqb_spec (ds mod 8) 0) as [E8|N8]; cbn [andb].
    + exists (lanes_Q (ds / 8)). unfold lanes_Q.
      assert (Hn : (2 <= Z.to_nat (ds / 8))%nat) by lia.
      rewrite repeat_length.
      destruct (Nat.eqb_spec (Z.to_nat (ds / 8)) 0) as [?|_]; [lia|].
      split; [reflexivity|]. split; [rewrite struct_size_repeat; lia|lia].
    + exists (lanes_Q (ds / 8) ++ [4%nat]). unfold lanes_Q.
      assert (Hn : (2 <= Z.to_nat (ds / 8))%nat) by lia.
      cbn [Z.eqb]. rewrite length_app, repeat_length. cbn [List.length].
      destruct (Nat.eqb_spec (Z.to_nat (ds / 8) + 1) 0) as [?|_]; [lia|].
      split; [reflexivity|]. split; [|lia].
      rewrite struct_size_app, struct_size_repeat. cbn.
      assert (ds mod 8 = 4) by lia. lia.
  - cbn [andb Z.eqb]. exists (lanes_I (ds / 4)). unfold lanes_I.
    assert (Hn : (4 <= Z.to_nat (ds / 4))%nat) by lia.
    rewrite repeat_length.
    destruct (Nat.eqb_spec (Z.to_nat (ds / 4)) 0) as [?|_]; [lia|].
    split; [reflexivity|]. split; [rewrite struct_size_repeat; lia|lia].
Qed.
Lemma hmac_single_length (alg : HashAlg) (i o : bytes) (m : bytes) :
  digest_len_ok alg -> 0 <= alg_digest_size alg ->
  List.length (hmac_single (hash_new alg i) (hash_new alg o) m)
  = Z.to_nat (alg_digest_size alg).
Proof.
  intros Hlen _. unfold hmac_single, hash_digest, hash_update, hash_copy, hash_new.
  simpl. rewrite <- (Hlen (o ++ alg_H alg (i ++ m))). now rewrite Nat2Z.id.
Qed.

(** Whichever of the two helpers is selected, it returns the octet-wise XOR
    of the chain of MACs. *)
Lemma builtin_looper_xor (P : Platform) (ds : Z) (mac : bytes -> bytes) :
  builtin_helper P = Some FromBytes
  \/ (builtin_helper P = Some Unpack /\ ds mod 4 = 0 /\ 16 <= ds) ->
  0 <= ds ->
  (forall m, List.length (mac m) = Z.to_nat ds) ->
  exists calc_block,
    _get_pbkdf2_looper P ds = Ok calc_block
    /\ forall d rounds,
         List.length d = Z.to_nat ds ->
         calc_block mac d rounds = Ok (xor_iter mac (Z.to_nat (rounds - 1)) d d).
Proof.
  intros [Hbh|(Hbh & Hmod & H16)] Hds Hmac; unfold _get_pbkdf2_looper; rewrite Hbh.
  - exists (_pbkdf2_looper ds). split; [reflexivity|]. intros d rounds Hd.
    rewrite <- (Z2Nat.id ds) at 1 by exact Hds.
    now apply _pbkdf2_looper_xor.
  - destruct (_get_pbkdf2_looper_unpack_format P ds Hmod H16) as (fmt & Hf & Hsz & Hl).
    exists (unpack_helper P fmt). split; [exact Hf|]. intros d rounds Hd.
    apply unpack_helper_xor; [intros m; now rewrite Hmac | exact Hl | congruence].
Qed.

(** The unpack helper gives the same key on the toy platform. *)
Example pbkdf2_hmac_unpack_example :
  fst (pbkdf2_hmac Toy.unpack (DName "sha256") [x70] [x73] 2 (Some 40) initial_state)
  = Ok (PBKDF2_spec (HMAC_spec Toy.sha256 [x70]) [x73] 2 40 2).
Proof. vm_compute. reflexivity. Qed.

(** With a single lane (a [digest_size] of 8 on a 64 bit machine) the
    generated helper binds the unpacked tuple itself to [acc_0], and the
    first [acc_0 ^= dig_0] raises [TypeError]; without a second round
    [struct.pack] raises. *)
Example pbkdf2_hmac_unpack_single_lane :
  fst (pbkdf2_hmac Toy.unpack (DName "eight") [x70] [x73] 2 (Some 8) initial_state)
  = Err TypeError
  /\ fst (pbkdf2_hmac Toy.unpack (DName "eight") [x70] [x73] 1 (Some 8) initial_state)
     = Err StructError.
Proof. split; vm_compute; reflexivity. Qed.

(** C1, the claim as stated, fails: a descriptor with a constructor whose
    [block_size] is 8 makes [compile_hmac], and with it the builtin path of
    [pbkdf2_hmac], stop at [assert block_size >= 16]. *)
Lemma pbkdf2_hmac_small_block_size :
  describes Toy.py3
    {| oid := 0; name := "narrow"; iana_name := "narrow"; aliases := [];
       info_const := Some (StaticConst 3); digest_size := Some 4;
       block_size := Some 8 |} Toy.narrow
  /\ fst (lookup_hash Toy.py3 (DName "narrow") false initial_state)
     = Ok {| oid := 0; name := "narrow"; iana_name := "narrow"; aliases := [];
             info_const := Some (StaticConst 3); digest_size := Some 4;
             block_size := Some 8 |}
  /\ digest_len_ok Toy.narrow
  /\ builtin_helper Toy.py3 = Some FromBytes
  /\ (3 + alg_digest_size Toy.narrow - 1) / alg_digest_size Toy.narrow <= MAX_UINT32
  /\ fst (pbkdf2_hmac Toy.py3 (DName "narrow") [x70] [x73] 2 (Some 3) initial_state)
     = Err AssertionError.
Proof.
  split; [exists (StaticConst 3); repeat split|].
  split; [vm_compute; reflexivity|].
  split; [apply toy_digest_len_ok; lia|].
  split; [reflexivity|].
  split; [vm_compute; discriminate|].
  vm_compute. reflexivity.
Qed.

(** ** PBKDF2: validation *)

Lemma lookup_hash_rec_with_backends (P : Platform) (py3 : bool) (env : option string)
    (fast : option pbkdf2_fn) (std : option (bool * pbkdf2_fn))
    (depth : nat) (digest : digest_arg) (flag : bool) (st : State) :
  lookup_hash_rec (with_backends P py3 env fast std) depth digest flag st
  = lookup_hash_rec P depth digest flag st.
Proof.
  reflexivity.
Qed.

Lemma lookup_hash_with_backends (P : Platform) (py3 : bool) (env : option string)
    (fast : option pbkdf2_fn) (std : option (bool * pbkdf2_fn))
    (digest : digest_arg) (flag : bool) (st : State) :
  lookup_hash (with_backends P py3 env fast std) digest flag st
  = lookup_hash P digest flag st.
Proof. apply lookup_hash_rec_with_backends. Qed.

(** [(keylen + digest_size - 1) // digest_size] is the ceiling of
    [keylen / digest_size]. *)
Lemma block_count_ceiling (keylen ds : Z) :
  0 < ds ->
  let bc := (keylen + ds - 1) / ds in
  (bc - 1) * ds < keylen <= bc * ds.
Proof.
  intros Hds bc. subst bc.
  pose proof (Z.div_mod (keylen + ds - 1) ds ltac:(lia)) as Hdm.
  pose proof (Z.mod_pos_bound (keylen + ds - 1) ds Hds) as Hm. nia.
Qed.

(** C2.  On every platform, whatever providers it has and whichever builtin
    helper is selected, for a descriptor with a positive [digest_size]:
    [rounds < 1] is a [ValueError] whatever [keylen] is; otherwise an omitted
    [keylen] stands for [digest_size] and an explicit [keylen < 1] is a
    [ValueError]; otherwise [block_count] is the ceiling of
    [keylen / digest_size] and [block_count > 2^32 - 1] is an
    [OverflowError]. *)
Theorem pbkdf2_hmac_validation (P : Platform) (py3 : bool) (env : option string)
    (fast : option pbkdf2_fn) (std : option (bool * pbkdf2_fn))
    (digest : digest_arg) (secret salt : bytes) (rounds : Z)
    (st st1 : State) (info : HashInfo) (ds : Z) :
  lookup_hash P digest false st = (Ok info, st1) ->
  digest_size info = Some ds -> 0 < ds ->
  let P' := with_backends P py3 env fast std in
  (rounds < 1 ->
   forall keylen,
     pbkdf2_hmac P' digest secret salt rounds keylen st
     = (Err (ValueError "rounds must be at least 1"), st1))
  /\ (1 <= rounds ->
      pbkdf2_hmac P' digest secret salt rounds None st
      = pbkdf2_hmac P' digest secret salt rounds (Some ds) st)
  /\ (1 <= rounds ->
      forall k, k < 1 ->
        pbkdf2_hmac P' digest secret salt rounds (Some k) st
        = (Err (ValueError "keylen must be at least 1"), st1))
  /\ (1 <= rounds ->
      forall k, 1 <= k ->
        let block_count := (k + ds - 1) / ds in
        (block_count - 1) * ds < k <= block_count * ds
        /\ (block_count > 2 ^ 32 - 1 ->
            pbkdf2_hmac P' digest secret salt rounds (Some k) st
            = (Err (OverflowError "keylen too long for digest"), st1))).
Proof.
  intros Hl Hds Hpos P'.
  assert (Hl' : lookup_hash P' digest false st = (Ok info, st1))
    by (unfold P'; now rewrite lookup_hash_with_backends).
  repeat split.
  - intros Hr keylen. unfold pbkdf2_hmac, bind. rewrite Hl'.
    destruct (Z.ltb_spec rounds 1) as [_|?]; [reflexivity|lia].
  - intros Hr. unfold pbkdf2_hmac. unfold bind. rewrite Hl'.
    destruct (Z.ltb_spec rounds 1) as [?|_]; [lia|].
    rewrite Hds.
    destruct (Z.ltb_spec ds 1) as [?|_]; [lia|]. reflexivity.
  - intros Hr k Hk. unfold pbkdf2_hmac, bind. rewrite Hl'.
    destruct (Z.ltb_spec rounds 1) as [?|_]; [lia|].
    destruct (Z.ltb_spec k 1) as [_|?]; [reflexivity|lia].
  - apply block_count_ceiling; exact Hpos.
  - apply block_count_ceiling; exact Hpos.
  - intros Hbc. unfold pbkdf2_hmac. unfold bind at 1. rewrite Hl'.
    destruct (Z.ltb_spec rounds 1) as [?|_]; [lia|].
    unfold bind at 1. destruct (Z.ltb_spec k 1) as [?|_]; [lia|].
    unfold ret at 1. unfold bind at 1, lift at 1. rewrite Hds. cbn [block_count_of].
    destruct (Z.eqb_spec ds 0) as [?|_]; [lia|].
    change MAX_UINT32 with (2 ^ 32 - 1).
    destruct (Z.gtb_spec ((k + ds - 1) / ds) (2 ^ 32 - 1)) as [_|?]; [reflexivity|lia].
Qed.

Lemma pbkdf2_hmac_validation_witness :
  let P' := with_backends Toy.py3 false (Some "unpack") (Some Toy.provider)
              (Some (false, Toy.provider)) in
  (0 < 1 ->
   forall keylen,
     pbkdf2_hmac P' (DName "sha256") [x70] [x73] 0 keylen initial_state
     = (Err (ValueError "rounds must be at least 1"), Toy.resolved Toy.py3 "sha256"))
  /\ (1 <= 1 ->
      pbkdf2_hmac P' (DName "sha256") [x70] [x73] 1 None initial_state
      = pbkdf2_hmac P' (DName "sha256") [x70] [x73] 1 (Some 32) initial_state)
  /\ (1 <= 1 ->
      forall k, k < 1 ->
        pbkdf2_hmac P' (DName "sha256") [x70] [x73] 1 (Some k) initial_state
        = (Err (ValueError "keylen must be at least 1"), Toy.resolved Toy.py3 "sha256"))
  /\ (1 <= 1 ->
      forall k, 1 <= k ->
        let block_count := (k + 32 - 1) / 32 in
        (block_count - 1) * 32 < k <= block_count * 32
        /\ (block_count > 2 ^ 32 - 1 ->
            pbkdf2_hmac P' (DName "sha256") [x70] [x73] 1 (Some k) initial_state
            = (Err (OverflowError "keylen too long for digest"),
               Toy.resolved Toy.py3 "sha256"))).
Proof.
  pose proof (pbkdf2_hmac_validation Toy.py3 false (Some "unpack") (Some Toy.provider)
                (Some (false, Toy.provider)) (DName "sha256") [x70] [x73]) as H.
  cbv zeta in *.
  destruct (H 0 initial_state (Toy.resolved Toy.py3 "sha256") Toy.sha256_info 32)
    as (H1 & _); [vm_compute; reflexivity | reflexivity | lia |].
  destruct (H 1 initial_state (Toy.resolved Toy.py3 "sha256") Toy.sha256_info 32)
    as (_ & H2 & H3 & H4); [vm_compute; reflexivity | reflexivity | lia |].
  split; [exact H1|]. split; [exact H2|]. split; [exact H3|exact H4].
Defined.

(** Validation comes first even where a provider would accept the call. *)
Example pbkdf2_hmac_key_too_long :
  fst (pbkdf2_hmac
         (with_backends Toy.py3 true None (Some Toy.provider) None)
         (DName "sha256") [x70] [x73] 1 (Some (32 * 2 ^ 32)) initial_state)
  = Err (OverflowError "keylen too long for digest")
  /\ fst (pbkdf2_hmac
            (with_backends Toy.py3 true None (Some Toy.provider) None)
            (DName "sha256") [x70] [x73] 1 (Some (32 * (2 ^ 32 - 1))) initial_state)
     = Ok [].
Proof. split; vm_compute; reflexivity. Qed.

(** ** PBKDF1 *)

Lemma iter_digest_shift (alg : HashAlg) (n : nat) (block : bytes) :
  iter_digest alg (S n) block = iter_digest alg n (alg_H alg block).
Proof. induction n as [|n IH]; [reflexivity|]. cbn [iter_digest] in *. now rewrite IH. Qed.

Lemma pbkdf1_loop_iter (P : Platform) (c : const) (alg : HashAlg) (n : nat)
    (block : bytes) :
  constructs P c alg -> pbkdf1_loop P c n block = Ok (iter_digest alg n block).
Proof.
  intros Hc. revert block. induction n as [|n IH]; intros block; [reflexivity|].
  cbn [pbkdf1_loop]. rewrite (constructs_call P c alg block Hc).
  rewrite iter_digest_shift. apply IH.
Qed.

(** C7.  For a descriptor with a constructor: [rounds < 1] is a
    [ValueError]; otherwise an omitted [keylen] stands for [digest_size], an
    explicit [keylen] below 0 or above [digest_size] is a [ValueError], and
    any other [keylen] gives the first [keylen] octets of the digest applied
    [rounds] times to [secret || salt]. *)
Theorem pbkdf1_spec (P : Platform) (digest : digest_arg) (secret salt : bytes)
    (rounds : Z) (st st1 : State) (info : HashInfo) (alg : HashAlg) :
  lookup_hash P digest false st = (Ok info, st1) ->
  describes P info alg -> 0 <= alg_digest_size alg ->
  (rounds < 1 ->
   forall keylen,
     pbkdf1 P digest secret salt rounds keylen st
     = (Err (ValueError "rounds must be at least 1"), st1))
  /\ (1 <= rounds ->
      pbkdf1 P digest secret salt rounds None st
      = pbkdf1 P digest secret salt rounds (Some (alg_digest_size alg)) st)
  /\ (1 <= rounds ->
      forall k, k < 0 ->
        pbkdf1 P digest secret salt rounds (Some k) st
        = (Err (ValueError "keylen must be at least 0"), st1))
  /\ (1 <= rounds ->
      forall k, alg_digest_size alg < k ->
        pbkdf1 P digest secret salt rounds (Some k) st
        = (Err (ValueError "keylength too large for digest"), st1))
  /\ (1 <= rounds ->
      forall k, 0 <= k <= alg_digest_size alg ->
        pbkdf1 P digest secret salt rounds (Some k) st
        = (Ok (firstn (Z.to_nat k)
                 (iter_digest alg (Z.to_nat rounds) (secret ++ salt))), st1)).
Proof.
  intros Hl (c & Hc & Hcons & Hds & _) Hpos.
  repeat split.
  - intros Hr keylen. unfold pbkdf1, bind. rewrite Hl.
    destruct (Z.ltb_spec rounds 1) as [_|?]; [reflexivity|lia].
  - intros Hr. unfold pbkdf1, bind. rewrite Hl.
    destruct (Z.ltb_spec rounds 1) as [?|_]; [lia|]. rewrite Hds.
    destruct (Z.ltb_spec (alg_digest_size alg) 0) as [?|_]; [lia|].
    destruct (Z.gtb_spec (alg_digest_size alg) (alg_digest_size alg)) as [?|_]; [lia|].
    reflexivity.
  - intros Hr k Hk. unfold pbkdf1, bind. rewrite Hl.
    destruct (Z.ltb_spec rounds 1) as [?|_]; [lia|].
    destruct (Z.ltb_spec k 0) as [_|?]; [reflexivity|lia].
  - intros Hr k Hk. unfold pbkdf1, bind. rewrite Hl.
    destruct (Z.ltb_spec rounds 1) as [?|_]; [lia|].
    destruct (Z.ltb_spec k 0) as [?|_]; [lia|]. rewrite Hds.
    destruct (Z.gtb_spec k (alg_digest_size alg)) as [_|?]; [reflexivity|lia].
  - intros Hr k Hk. unfold pbkdf1, bind. rewrite Hl.
    destruct (Z.ltb_spec rounds 1) as [?|_]; [lia|].
    destruct (Z.ltb_spec k 0) as [?|_]; [lia|]. rewrite Hds.
    destruct (Z.gtb_spec k (alg_digest_size alg)) as [?|_]; [lia|].
    unfold ret at 1. rewrite Hc. unfold lift.
    rewrite (pbkdf1_loop_iter P c alg _ _ Hcons). unfold ret, slice_to.
    destruct (Z.ltb_spec k 0) as [?|_]; [lia|reflexivity].
Qed.

Lemma pbkdf1_spec_witness :
  (0 < 1 ->
   forall keylen,
     pbkdf1 Toy.py3 (DName "sha256") [x70] [x73] 0 keylen initial_state
     = (Err (ValueError "rounds must be at least 1"), Toy.resolved Toy.py3 "sha256"))
  /\ (1 <= 3 ->
      pbkdf1 Toy.py3 (DName "sha256") [x70] [x73] 3 None initial_state
      = pbkdf1 Toy.py3 (DName "sha256") [x70] [x73] 3 (Some 32) initial_state)
  /\ (1 <= 3 ->
      forall k, k < 0 ->
        pbkdf1 Toy.py3 (DName "sha256") [x70] [x73] 3 (Some k) initial_state
        = (Err (ValueError "keylen must be at least 0"), Toy.resolved Toy.py3 "sha256"))
  /\ (1 <= 3 ->
      forall k, 32 < k ->
        pbkdf1 Toy.py3 (DName "sha256") [x70] [x73] 3 (Some k) initial_state
        = (Err (ValueError "keylength too large for digest"),
           Toy.resolved Toy.py3 "sha256"))
  /\ (1 <= 3 ->
      forall k, 0 <= k <= 32 ->
        pbkdf1 Toy.py3 (DName "sha256") [x70] [x73] 3 (Some k) initial_state
        = (Ok (firstn (Z.to_nat k) (iter_digest Toy.sha256 3 [x70; x73])),
           Toy.resolved Toy.py3 "sha256")).
Proof.
  pose proof (pbkdf1_spec Toy.py3 (DName "sha256") [x70] [x73]) as H.
  assert (Hd : describes Toy.py3 Toy.sha256_info Toy.sha256)
    by (exists (StaticConst 1); repeat split).
  destruct (H 0 initial_state (Toy.resolved Toy.py3 "sha256") Toy.sha256_info Toy.sha256)
    as (H1 & _); [vm_compute; reflexivity | exact Hd | simpl; lia |].
  destruct (H 3 initial_state (Toy.resolved Toy.py3 "sha256") Toy.sha256_info Toy.sha256)
    as (_ & H2 & H3 & H4 & H5); [vm_compute; reflexivity | exact Hd | simpl; lia |].
  split; [exact H1|]. split; [exact H2|]. split; [exact H3|]. split; [exact H4|exact H5].
Defined.

(** ** PBKDF2: digest sizes and the builtin helpers *)

Lemma _get_pbkdf2_looper_unpack_unsupported (P : Platform) (ds : Z) :
  ds mod 4 <> 0 -> _get_pbkdf2_looper_unpack P ds = Err NotImplementedError.
Proof.
  intros H. unfold _get_pbkdf2_looper_unpack.
  rewrite land_3_mod_4, land_7_mod_8.
  assert (H8 : ds mod 8 <> 0).
  { intros E. apply H. 
    pose proof (Z.div_mod ds 8 ltac:(lia)) as D. rewrite E in D.
    replace ds with (4 * (2 * (ds / 8))) by lia.
    rewrite Z.mul_comm. apply Z.mod_mul. lia. }
  destruct (Z.eqb_spec (ds mod 8) 0) as [?|_]; [contradiction|].
  rewrite andb_false_r.
  destruct (Z.eqb_spec (ds mod 4) 0) as [?|_]; [contradiction|]. reflexivity.
Qed.

(** C9 (as amended).  Where the builtin helper is the unpack one, a
    descriptor whose [digest_size] is not a multiple of 4 makes
    [pbkdf2_hmac] fail with [NotImplementedError], for every otherwise valid
    secret, salt, rounds and keylen. *)
Theorem pbkdf2_hmac_unpack_digest_size (P : Platform) (digest : digest_arg)
    (secret salt : bytes) (rounds keylen : Z) (st st1 : State)
    (info : HashInfo) (alg : HashAlg) :
  lookup_hash P digest false st = (Ok info, st1) ->
  describes P info alg -> digest_len_ok alg ->
  16 <= alg_block_size alg ->
  0 < alg_digest_size alg ->
  1 <= rounds -> 1 <= keylen ->
  (keylen + alg_digest_size alg - 1) / alg_digest_size alg <= MAX_UINT32 ->
  builtin_path P info ->
  builtin_helper P = Some Unpack ->
  alg_digest_size alg mod 4 <> 0 ->
  pbkdf2_hmac P digest secret salt rounds (Some keylen) st
  = (Err NotImplementedError, st1).
Proof.
  intros Hl Hd Hlen H16 Hds Hr Hk Hbc ((a & Ha & Hta) & (b & Hb & Htb)) Hbh Hmod.
  pose proof (lookup_hash_again P digest false st st1 info Hl) as Hl1.
  pose proof (compile_hmac_describes P digest secret false st1 st1 info alg
                Hl1 Hd Hlen H16) as Hc. cbv zeta in Hc.
  destruct Hd as (c & Hc1 & Hcons & Hds1 & Hbs1).
  unfold pbkdf2_hmac. unfold bind at 1. rewrite Hl.
  destruct (Z.ltb_spec rounds 1) as [?|_]; [lia|].
  unfold bind at 1. destruct (Z.ltb_spec keylen 1) as [?|_]; [lia|].
  unfold ret at 1. unfold bind at 1, lift at 1. rewrite Hds1. cbn [block_count_of].
  destruct (Z.eqb_spec (alg_digest_size alg) 0) as [?|_]; [lia|].
  destruct (Z.gtb_spec ((keylen + alg_digest_size alg - 1) / alg_digest_size alg)
              MAX_UINT32) as [?|_]; [lia|].
  unfold bind at 1, lift at 1. rewrite Ha.
  destruct (_fast_pbkdf2_hmac P) as [f|]; try rewrite Hta;
    unfold bind at 1, lift at 1; rewrite Hb;
    destruct (_stdlib_pbkdf2_hmac P) as [g|]; try rewrite Htb;
    unfold bind at 1; rewrite Hc;
    unfold _get_pbkdf2_looper; rewrite Hbh;
    rewrite (_get_pbkdf2_looper_unpack_unsupported P _ Hmod); reflexivity.
Qed.

Lemma pbkdf2_hmac_unpack_digest_size_witness :
  pbkdf2_hmac Toy.unpack (DName "odd") [x70] [x73] 2 (Some 3) initial_state
  = (Err NotImplementedError, Toy.resolved Toy.unpack "odd").
Proof.
  apply (pbkdf2_hmac_unpack_digest_size Toy.unpack (DName "odd") [x70] [x73] 2 3
           initial_state _ Toy.odd_info Toy.odd).
  - vm_compute. reflexivity.
  - exists (StaticConst 2). repeat split.
  - apply toy_digest_len_ok. lia.
  - simpl. lia.
  - simpl. lia.
  - lia.
  - lia.
  - vm_compute. discriminate.
  - split; exists None; split; reflexivity.
  - reflexivity.
  - vm_compute. discriminate.
Defined.

(** C9, the claim as stated, fails: the from-bytes helper, which is the
    builtin path on Python 3, does not look at the digest size; with a
    [digest_size] of 2 [pbkdf2_hmac] returns a key. *)
Lemma pbkdf2_hmac_from_bytes_any_digest_size :
  builtin_helper Toy.py3 = Some FromBytes
  /\ builtin_path Toy.py3 Toy.odd_info
  /\ fst (lookup_hash Toy.py3 (DName "odd") false initial_state) = Ok Toy.odd_info
  /\ describes Toy.py3 Toy.odd_info Toy.odd
  /\ alg_digest_size Toy.odd mod 4 <> 0
  /\ exists k,
       fst (pbkdf2_hmac Toy.py3 (DName "odd") [x70] [x73] 2 (Some 3) initial_state)
       = Ok k
       /\ k = PBKDF2_spec (HMAC_spec Toy.odd [x70]) [x73] 2 3 2.
Proof.
  split; [reflexivity|].
  split; [split; exists None; split; reflexivity|].
  split; [vm_compute; reflexivity|].
  split; [exists (StaticConst 2); repeat split|].
  split; [vm_compute; discriminate|].
  eexists. split; vm_compute; reflexivity.
Qed.

(** ** The resolver: unknown names *)

Lemma _get_hash_const_cache (P : Platform) (nm : string) (st st' : State)
    (r : Result (option const)) :
  _get_hash_const P nm st = (r, st') ->
  cache st' = cache st /\ exists oc, r = Ok oc.
Proof.
  unfold _get_hash_const.
  destruct (negb (startswith "_" nm) && negb (str_in nm ["new"; "algorithms"])%string);
    [destruct (hashlib_getattr P nm) as [id|]|];
    try (unfold ret; intros H; inversion H; subst; split; [reflexivity|eauto]; fail);
    (destruct (hashlib_new P nm);
     [ unfold_monad; intros H; inversion H; subst; split; [reflexivity|eauto]
     | destruct (String.eqb nm "md4"); unfold ret; intros H; inversion H; subst;
       (split; [reflexivity|eauto]) ]).
Qed.

Lemma _get_hash_const_none (P : Platform) (nm : string) (st st' : State) :
  _get_hash_const P nm st = (Ok None, st') ->
  forall st1, _get_hash_const P nm st1 = (Ok None, st1).
Proof.
  unfold _get_hash_const.
  destruct (negb (startswith "_" nm) && negb (str_in nm ["new"; "algorithms"])%string);
    [destruct (hashlib_getattr P nm) as [id|]|];
    try (unfold ret; discriminate);
    (destruct (hashlib_new P nm);
     [ unfold_monad; discriminate
     | destruct (String.eqb nm "md4"); unfold ret; [discriminate|reflexivity] ]).
Qed.

Lemma cache_names_error (names : list string) (info : HashInfo) (st st' : State)
    (e : exn) :
  cache_names names info st = (Err e, st') -> e = AssertionError.
Proof.
  revert st. induction names as [|nm rest IH]; intros st; cbn [cache_names].
  - unfold ret. discriminate.
  - destruct (String.eqb nm ""); [apply IH|].
    unfold_monad. destruct (none_or_same _ _); [apply IH|].
    intros H; inversion H; reflexivity.
Qed.

Lemma create_and_cache_error (P : Platform) (c : const) (names : list string)
    (by_name : bool) (st st' : State) (e : exn) :
  create_and_cache P c names by_name st = (Err e, st') ->
  forall n, e <> UnknownHashError n.
Proof.
  unfold create_and_cache. unfold bind at 1. unfold HashInfo_init.
  unfold bind at 1, lift at 1.
  destruct (call_const P c []) as [h|e0] eqn:Hcall.
  - destruct (_ =? _).
    + unfold bind at 1, new_object at 1, ret at 1. unfold bind at 1, cache_set at 1.
      unfold bind at 1. destruct by_name.
      * destruct (cache_names _ _ _) as [[[]|e1] s1] eqn:Hcn.
        { unfold ret. discriminate. }
        { apply cache_names_error in Hcn. subst.
          intros H; inversion H; subst. discriminate. }
      * unfold ret. discriminate.
    + unfold raise. intros H; inversion H; subst. discriminate.
  - intros H; inversion H; subst. clear H.
    unfold call_const in Hcall. destruct c as [id|serial nm].
    + destruct (call_static P id); inversion Hcall; subst. discriminate.
    + destruct (hashlib_new P nm); inversion Hcall; subst. discriminate.
Qed.

(** A strict lookup that ends in [UnknownHashError] went down the chain of
    normalised names to a name without constructor, touching nothing; from
    any state with the same cache it fails again, and the tolerant lookup
    builds a new dummy descriptor and leaves the cache alone. *)
Lemma unknown_chain (P : Platform) (depth : nat) :
  forall (s : string) (st st0 : State) (n : string),
  lookup_hash_rec P depth (DName s) false st = (Err (UnknownHashError n), st0) ->
  n <> "" /\ nth 0 (_get_hash_aliases n) "" = n
  /\ (forall st1, _get_hash_const P n st1 = (Ok None, st1))
  /\ forall st1, cache st1 = cache st ->
       lookup_hash_rec P depth (DName s) false st1 = (Err (UnknownHashError n), st1)
       /\ lookup_hash_rec P depth (DName s) true st1
          = (Ok (dummy_info (next_object st1) (_get_hash_aliases n)),
             one_more_object st1).
Proof.
  induction depth as [|d IH]; intros s st st0 n; [discriminate|].
  cbn [lookup_hash_rec]. unfold bind at 1. cbn [cache_lookup]. unfold cache_get at 1.
  destruct (cache st !! KName s) as [i|] eqn:Hmiss; [unfold ret; discriminate|].
  unfold bind at 1.
  destruct (String.eqb_spec (nth 0 (_get_hash_aliases s) "") "") as [E0|Hne0];
    cbn [negb]; unfold assert at 1; [unfold raise; discriminate|].
  unfold ret at 1.
  destruct (String.eqb_spec (nth 0 (_get_hash_aliases s) "") s) as [E|Hne]; cbn [negb].
  - (* the name is its own normal form *)
    unfold bind at 1.
    destruct (_get_hash_const P _ st) as [[[c|]|e] s0] eqn:Hg.
    + intros H. exfalso. exact (create_and_cache_error _ _ _ _ _ _ _ H n eq_refl).
    + unfold raise. intros H; inversion H; subst n. clear H.
      rewrite E in Hg, Hne0 |- *.
      pose proof (_get_hash_const_none _ _ _ _ Hg) as Hnone.
      split; [exact Hne0|]. split; [exact E|]. split; [exact Hnone|].
      intros st1 Hc1. cbn [lookup_hash_rec cache_lookup].
      unfold bind, cache_get, assert, ret. rewrite Hc1, Hmiss, Hnone.
      split; [reflexivity|].
      unfold HashInfo_init, bind, new_object, ret, dummy_info, one_more_object.
      reflexivity.
    + apply _get_hash_const_cache in Hg. destruct Hg as [_ [oc Hoc]]. discriminate.
  - (* the normal form is looked up first *)
    unfold bind at 1.
    destruct (lookup_hash_rec P d (DName _) false st) as [[i|e] s1] eqn:Hrec.
    + destruct (info_const i); unfold_monad; discriminate.
    + intros H; inversion H; subst e s1. clear H.
      destruct (IH _ _ _ _ Hrec) as (Hn & Hfix & Hnone & Hst).
      split; [exact Hn|]. split; [exact Hfix|]. split; [exact Hnone|].
      intros st1 Hc1. destruct (Hst st1 Hc1) as [Hs Ht].
      cbn [lookup_hash_rec cache_lookup].
      unfold bind, cache_get, assert, ret. rewrite Hc1, Hmiss.
      rewrite Hs, Ht. split; reflexivity.
Qed.

Lemma tolerant_not_unknown (P : Platform) (depth : nat) :
  forall (digest : digest_arg) (st st' : State) (e : exn),
  lookup_hash_rec P depth digest true st = (Err e, st') ->
  forall n, e <> UnknownHashError n.
Proof.
  induction depth as [|d IH]; intros digest st st' e.
  - cbn. unfold raise. intros H; inversion H; subst. discriminate.
  - cbn [lookup_hash_rec]. unfold bind at 1.
    destruct (cache_lookup digest st) as [[[i|]|e0] s0] eqn:Hcl.
    + unfold ret. discriminate.
    + destruct digest as [s|i|c|].
      * unfold bind at 1. unfold assert at 1.
        destruct (negb (nth 0 (_get_hash_aliases s) "" =? "")%string);
          [|unfold raise; intros H; inversion H; subst; discriminate].
        unfold ret at 1.
        destruct (negb (nth 0 (_get_hash_aliases s) "" =? s)%string).
        { unfold bind at 1.
          destruct (lookup_hash_rec P d _ true s0) as [[i|e1] s1] eqn:Hrec.
          - destruct (info_const i); unfold_monad; discriminate.
          - intros H; inversion H; subst. eapply IH. exact Hrec. }
        { unfold bind at 1.
          destruct (_get_hash_const P _ s0) as [[[c|]|e1] s1] eqn:Hg.
          - intros H. eapply create_and_cache_error. exact H.
          - unfold HashInfo_init, bind, new_object, ret. discriminate.
          - apply _get_hash_const_cache in Hg. destruct Hg as [_ [oc Hoc]].
            discriminate. }
      * unfold ret. discriminate.
      * unfold bind at 1, lift at 1.
        destruct (call_const P c []) as [h|e1] eqn:Hcall.
        { unfold bind at 1.
          destruct (_get_hash_const P _ s0) as [[oc|e2] s1] eqn:Hg.
          - intros H. eapply create_and_cache_error. exact H.
          - apply _get_hash_const_cache in Hg. destruct Hg as [_ [oc Hoc]].
            discriminate. }
        { intros H; inversion H; subst. clear H.
          unfold call_const in Hcall. destruct c as [id|serial nm].
          - destruct (call_static P id); inversion Hcall; subst. discriminate.
          - destruct (hashlib_new P nm); inversion Hcall; subst. discriminate. }
      * unfold raise. intros H; inversion H; subst. discriminate.
    + destruct digest; cbn in Hcl; unfold cache_get, ret in Hcl; discriminate.
Qed.

(** A name whose chain of normal forms ends, within the calls allowed, in a
    name without constructor fails with [UnknownHashError] in a strict
    lookup, and gets a dummy descriptor from a tolerant one. *)
Lemma unknown_forward (P : Platform) (k : nat) :
  forall (d : nat) (s n : string) (st : State),
  normal_chain st k s n ->
  (forall st1, _get_hash_const P n st1 = (Ok None, st1)) ->
  lookup_hash_rec P (S (k + d)) (DName s) false st = (Err (UnknownHashError n), st)
  /\ lookup_hash_rec P (S (k + d)) (DName s) true st
     = (Ok (dummy_info (next_object st) (_get_hash_aliases n)), one_more_object st).
Proof.
  induction k as [|k IH]; intros d s n st (Hmiss & Hne0 & Hk) Hnone.
  - destruct Hk as [Hfix ->].
    cbn [lookup_hash_rec cache_lookup]. unfold bind, cache_get, assert, ret.
    rewrite Hmiss, Hfix.
    destruct (String.eqb_spec s "") as [E|_]; [rewrite E in Hfix; congruence|].
    rewrite String.eqb_refl. cbn [negb]. rewrite Hnone. split; [reflexivity|].
    unfold HashInfo_init, bind, new_object, ret, dummy_info, one_more_object.
    reflexivity.
  - destruct Hk as [Hnv Hrest].
    destruct (IH d _ n st Hrest Hnone) as [Hs Ht].
    change (S k + d)%nat with (S (k + d)).
    remember (S (k + d)) as d1 eqn:Hd1.
    cbn [lookup_hash_rec cache_lookup]. unfold bind at 1, cache_get at 1.
    rewrite Hmiss. unfold bind at 1.
    destruct (String.eqb_spec (nth 0 (_get_hash_aliases s) "") "") as [?|_];
      [contradiction|]. cbn [negb]. unfold assert at 1, ret at 1.
    destruct (String.eqb_spec (nth 0 (_get_hash_aliases s) "") s) as [?|_];
      [contradiction|]. cbn [negb]. unfold bind at 1. rewrite Hs. split; [reflexivity|].
    unfold bind at 1, cache_get at 1. rewrite Hmiss. unfold bind at 1.
    destruct (String.eqb_spec (nth 0 (_get_hash_aliases s) "") "") as [?|_];
      [contradiction|]. cbn [negb]. unfold assert at 1, ret at 1.
    destruct (String.eqb_spec (nth 0 (_get_hash_aliases s) "") s) as [?|_];
      [contradiction|]. cbn [negb]. unfold bind at 1. rewrite Ht.
    cbn [info_const dummy_info]. unfold_monad. reflexivity.
Qed.

(** A strict lookup that ends in [UnknownHashError] has gone down such a
    chain. *)
Lemma unknown_backward (P : Platform) (depth : nat) :
  forall (s : string) (st st0 : State) (n : string),
  lookup_hash_rec P depth (DName s) false st = (Err (UnknownHashError n), st0) ->
  exists k, (k < depth)%nat /\ normal_chain st k s n.
Proof.
  induction depth as [|d IH]; intros s st st0 n; [discriminate|].
  cbn [lookup_hash_rec]. unfold bind at 1. cbn [cache_lookup]. unfold cache_get at 1.
  destruct (cache st !! KName s) as [i|] eqn:Hmiss; [unfold ret; discriminate|].
  unfold bind at 1.
  destruct (String.eqb_spec (nth 0 (_get_hash_aliases s) "") "") as [E0|Hne0];
    cbn [negb]; unfold assert at 1; [unfold raise; discriminate|].
  unfold ret at 1.
  destruct (String.eqb_spec (nth 0 (_get_hash_aliases s) "") s) as [E|Hne]; cbn [negb].
  - unfold bind at 1.
    destruct (_get_hash_const P _ st) as [[[c|]|e] s0] eqn:Hg.
    + intros H. exfalso. exact (create_and_cache_error _ _ _ _ _ _ _ H n eq_refl).
    + unfold raise. intros H; inversion H; subst n. clear H.
      exists 0%nat. split; [lia|]. cbn [normal_chain].
      repeat split; congruence.
    + apply _get_hash_const_cache in Hg. destruct Hg as [_ [oc Hoc]]. discriminate.
  - unfold bind at 1.
    destruct (lookup_hash_rec P d (DName _) false st) as [[i|e] s1] eqn:Hrec.
    + destruct (info_const i); unfold_monad; discriminate.
    + intros H; inversion H; subst e s1. clear H.
      destruct (IH _ _ _ _ Hrec) as (k & Hk & Hchain).
      exists (S k). split; [lia|]. cbn [normal_chain]. auto.
Qed.

(** C8 (as amended).  On a platform that allows at least one call:
    (1) a strict lookup of a name that fails with [UnknownHashError n]
    changes nothing, [n] is a non-empty normalised name for which
    [_get_hash_const] finds nothing, and the tolerant lookup of the same
    name returns a descriptor for [n] without constructor;
    (2) a strict lookup of a name fails with [UnknownHashError n] exactly
    when the name is normalised, within the calls allowed and through names
    that are not cached and have a non-empty normal form, down to a name [n]
    that is its own normal form and for which [_get_hash_const] finds
    nothing;
    (3) in particular a name that is not cached, is its own non-empty normal
    form and has no constructor fails with [UnknownHashError];
    (4) a tolerant lookup never fails with [UnknownHashError];
    (5) a value that is neither a name, a descriptor nor a callable fails
    with [ExpectedTypeError] in both modes;
    (6) a name that is not cached and whose normal form is empty fails with
    [AssertionError] in both modes. *)
Theorem lookup_hash_unknown (P : Platform) :
  recursion_limit P <> 0%nat ->
  (forall s st st0 n,
     lookup_hash P (DName s) false st = (Err (UnknownHashError n), st0) ->
     st0 = st /\ n <> "" /\ nth 0 (_get_hash_aliases n) "" = n
     /\ _get_hash_const P n st = (Ok None, st)
     /\ exists info st1,
          lookup_hash P (DName s) true st = (Ok info, st1)
          /\ info_const info = None /\ name info = n)
  /\ (forall s st st0 n,
        lookup_hash P (DName s) false st = (Err (UnknownHashError n), st0)
        <-> st0 = st
            /\ exists k, (k < recursion_limit P)%nat /\ normal_chain st k s n
                         /\ _get_hash_const P n st = (Ok None, st))
  /\ (forall s st,
        s <> "" -> nth 0 (_get_hash_aliases s) "" = s ->
        cache st !! KName s = None ->
        _get_hash_const P s st = (Ok None, st) ->
        lookup_hash P (DName s) false st = (Err (UnknownHashError s), st))
  /\ (forall digest st e st',
        lookup_hash P digest true st = (Err e, st') ->
        forall n, e <> UnknownHashError n)
  /\ (forall flag st,
        lookup_hash P DOther flag st = (Err (ExpectedTypeError "digest"), st))
  /\ (forall flag s st,
        cache st !! KName s = None -> nth 0 (_get_hash_aliases s) "" = "" ->
        lookup_hash P (DName s) flag st = (Err AssertionError, st)).
Proof.
  intros Hlim. unfold lookup_hash.
  destruct (recursion_limit P) as [|d]; [contradiction|]. clear Hlim.
  split; [|split; [|split; [|split; [|split]]]].
  - intros s st st0 n H.
    destruct (unknown_chain P (S d) s st st0 n H) as (Hn & Hfix & Hnone & Hst).
    destruct (Hst st eq_refl) as [Hs Ht].
    rewrite Hs in H. inversion H; subst st0.
    split; [reflexivity|]. split; [exact Hn|]. split; [exact Hfix|].
    split; [apply Hnone|].
    do 2 eexists. split; [exact Ht|]. split; [reflexivity|].
    cbn [name dummy_info]. exact Hfix.
  - intros s st st0 n. split.
    + intros H.
      destruct (unknown_chain P (S d) s st st0 n H) as (_ & _ & Hnone & Hst).
      destruct (Hst st eq_refl) as [Hs _].
      destruct (unknown_backward P (S d) s st st0 n H) as (k & Hk & Hchain).
      rewrite Hs in H. inversion H; subst st0.
      split; [reflexivity|]. exists k. split; [exact Hk|]. split; [exact Hchain|].
      apply Hnone.
    + intros (-> & k & Hk & Hchain & Hg).
      pose proof (_get_hash_const_none _ _ _ _ Hg) as Hnone.
      replace (S d) with (S (k + (d - k))) by lia.
      exact (proj1 (unknown_forward P k (d - k) s n st Hchain Hnone)).
  - intros s st Hne Hfix Hmiss Hg.
    cbn [lookup_hash_rec cache_lookup]. unfold bind, cache_get, assert, ret.
    rewrite Hmiss, Hfix.
    destruct (String.eqb_spec s "") as [?|_]; [contradiction|].
    rewrite String.eqb_refl. cbn [negb]. rewrite Hg. reflexivity.
  - intros digest st e st' H. eapply tolerant_not_unknown. exact H.
  - intros flag st. reflexivity.
  - intros flag s st Hmiss H0.
    cbn [lookup_hash_rec cache_lookup]. unfold bind, cache_get, assert, ret.
    rewrite Hmiss, H0. reflexivity.
Qed.

Lemma lookup_hash_unknown_witness :
  lookup_hash Toy.py3 (DName "Foo Bar") false initial_state
    = (Err (UnknownHashError "foo_bar"), initial_state)
  /\ lookup_hash Toy.py3 (DName "SHA-999") false initial_state
     = (Err (UnknownHashError "sha999"), initial_state)
  /\ (exists info st1,
        lookup_hash Toy.py3 (DName "Foo Bar") true initial_state = (Ok info, st1)
        /\ info_const info = None /\ name info = "foo_bar")
  /\ lookup_hash Toy.py3 DOther true initial_state
     = (Err (ExpectedTypeError "digest"), initial_state)
  /\ lookup_hash Toy.py3 (DName "scram-") true initial_state
     = (Err AssertionError, initial_state).
Proof.
  destruct (lookup_hash_unknown Toy.py3) as (H1 & H2 & H3 & H4 & H5 & H6);
    [simpl; discriminate|].
  assert (Hchain : forall s n,
            nth 0 (_get_hash_aliases s) "" = n -> n <> s -> n <> ""%string ->
            nth 0 (_get_hash_aliases n) "" = n ->
            _get_hash_const Toy.py3 n initial_state = (Ok None, initial_state) ->
            lookup_hash Toy.py3 (DName s) false initial_state
            = (Err (UnknownHashError n), initial_state)).
  { intros s n Hn Hns Hne Hfix Hg. apply H2. split; [reflexivity|].
    exists 1%nat. split; [simpl; lia|]. split; [|exact Hg].
    cbn [normal_chain]. rewrite Hn, Hfix. repeat split; auto. }
  assert (H : lookup_hash Toy.py3 (DName "Foo Bar") false initial_state
              = (Err (UnknownHashError "foo_bar"), initial_state)).
  { apply Hchain; try (vm_compute; reflexivity); discriminate. }
  split; [exact H|]. split.
  - apply Hchain; try (vm_compute; reflexivity); discriminate.
  - split.
    + destruct (H1 _ _ _ _ H) as (_ & _ & _ & _ & Ht). exact Ht.
    + split; [apply H5|]. apply H6; [reflexivity|vm_compute; reflexivity].
Defined.

(** C8, the claim as stated, fails: for the empty name no constructor can
    be found, yet the strict lookup fails with [AssertionError], not with
    [UnknownHashError], and the tolerant lookup fails as well. *)
Lemma lookup_hash_empty_name :
  (forall st, _get_hash_const Toy.py3 "" st = (Ok None, st))
  /\ lookup_hash Toy.py3 (DName "") false initial_state
     = (Err AssertionError, initial_state)
  /\ lookup_hash Toy.py3 (DName "") true initial_state
     = (Err AssertionError, initial_state).
Proof.
  split; [intros st; reflexivity|]. split; vm_compute; reflexivity.
Qed.

(** C10.  For a name whose strict lookup fails with [UnknownHashError], the
    tolerant lookup returns a descriptor without constructor and leaves the
    cache as it was; a strict lookup afterwards fails as before; a second
    tolerant lookup returns another descriptor without constructor, which is
    a different object. *)
Theorem tolerant_lookup_not_cached (P : Platform) (s : string) (st st0 : State)
    (n : string) :
  lookup_hash P (DName s) false st = (Err (UnknownHashError n), st0) ->
  exists d1 st1 d2 st2,
    lookup_hash P (DName s) true st = (Ok d1, st1)
    /\ info_const d1 = None /\ cache st1 = cache st
    /\ lookup_hash P (DName s) false st1 = (Err (UnknownHashError n), st1)
    /\ lookup_hash P (DName s) true st1 = (Ok d2, st2)
    /\ info_const d2 = None /\ cache st2 = cache st
    /\ oid d1 <> oid d2 /\ d1 <> d2.
Proof.
  unfold lookup_hash. intros H.
  destruct (unknown_chain P _ s st st0 n H) as (_ & _ & _ & Hst).
  destruct (Hst st eq_refl) as [_ Ht].
  destruct (Hst (one_more_object st) eq_refl) as [Hs1 Ht1].
  exists (dummy_info (next_object st) (_get_hash_aliases n)), (one_more_object st),
    (dummy_info (next_object (one_more_object st)) (_get_hash_aliases n)),
    (one_more_object (one_more_object st)).
  split; [exact Ht|]. split; [reflexivity|]. split; [reflexivity|].
  split; [exact Hs1|]. split; [exact Ht1|]. split; [reflexivity|].
  split; [reflexivity|].
  assert (Hoid : oid (dummy_info (next_object st) (_get_hash_aliases n))
                 <> oid (dummy_info (next_object (one_more_object st))
                           (_get_hash_aliases n))).
  { cbn. lia. }
  split; [exact Hoid|]. intros E. apply Hoid. now rewrite E at 1.
Qed.

Lemma tolerant_lookup_not_cached_witness :
  exists d1 st1 d2 st2,
    lookup_hash Toy.py3 (DName "Foo Bar") true initial_state = (Ok d1, st1)
    /\ info_const d1 = None /\ cache st1 = cache initial_state
    /\ lookup_hash Toy.py3 (DName "Foo Bar") false st1
       = (Err (UnknownHashError "foo_bar"), st1)
    /\ lookup_hash Toy.py3 (DName "Foo Bar") true st1 = (Ok d2, st2)
    /\ info_const d2 = None /\ cache st2 = cache initial_state
    /\ oid d1 <> oid d2 /\ d1 <> d2.
Proof.
  apply (tolerant_lookup_not_cached Toy.py3 "Foo Bar" initial_state initial_state).
  vm_compute. reflexivity.
Defined.

(** ** The resolver: identity of descriptors *)

Lemma str_in_In (n : string) (l : list string) : str_in n l = true <-> In n l.
Proof.
  induction l as [|x l IH]; cbn [str_in In].
  - split; [discriminate|contradiction].
  - rewrite orb_true_iff, IH. destruct (String.eqb_spec n x) as [->|Hne].
    + split; auto.
    + split; [intros [H|H]; [discriminate|auto] | intros [H|H]; [congruence|auto]].
Qed.

(** A lookup, strict or tolerant, that returns a descriptor with a
    constructor leaves it in the cache under the value looked up. *)
Lemma lookup_hash_rec_cached_const (P : Platform) (depth : nat) (digest : digest_arg)
    (flag : bool) (st st' : State) (info : HashInfo) (c : const) :
  lookup_hash_rec P depth digest flag st = (Ok info, st') ->
  info_const info = Some c ->
  match digest with
  | DName s => cache st' !! KName s = Some info
  | DConst c0 => cache st' !! KConst c0 = Some info
  | DInfo i => i = info /\ st' = st
  | DOther => False
  end.
Proof.
  destruct depth as [|d]; [discriminate|].
  cbn [lookup_hash_rec]. unfold bind at 1.
  destruct digest as [s|i|c0|]; cbn [cache_lookup].
  - unfold cache_get at 1. destruct (cache st !! KName s) as [i0|] eqn:Hc.
    + unfold ret. intros H; inversion H; subst. intros _. exact Hc.
    + unfold bind at 1.
      destruct (String.eqb_spec (nth 0 (_get_hash_aliases s) "") "") as [E0|Hne0];
        [discriminate|]. cbn [negb]. unfold assert at 1, ret at 1.
      destruct (String.eqb_spec (nth 0 (_get_hash_aliases s) "") s) as [E|Hne];
        cbn [negb].
      * unfold bind at 1.
        destruct (_get_hash_const P _ st) as [[[c1|]|e] s0] eqn:Hg; try discriminate.
        { intros H _. apply create_and_cache_spec in H.
          destruct H as (_ & _ & _ & _ & _ & Hk). rewrite Hk. simpl.
          rewrite <- E at 1. rewrite str_in_hd by exact Hne0.
          rewrite E in Hne0.
          destruct (String.eqb_spec s "") as [?|_]; [contradiction|reflexivity]. }
        { destruct flag; [|unfold raise; discriminate].
          unfold HashInfo_init, bind, new_object, ret.
          intros H; inversion H; subst. discriminate. }
      * unfold bind at 1.
        destruct (lookup_hash_rec P d _ flag st) as [[i1|e] s1]; [|discriminate].
        destruct (info_const i1) eqn:Hi1.
        { unfold_monad. intros H; inversion H; subst. intros _. simpl.
          apply lookup_insert_eq. }
        { unfold_monad. destruct flag; [|discriminate].
          intros H; inversion H; subst. congruence. }
  - unfold ret. intros H; inversion H; subst. intros _. split; reflexivity.
  - unfold cache_get at 1. destruct (cache st !! KConst c0) as [i0|] eqn:Hc.
    + unfold ret. intros H; inversion H; subst. intros _. exact Hc.
    + unfold bind at 1, lift at 1.
      destruct (call_const P c0 []) as [h|e]; [|discriminate].
      unfold bind at 1.
      destruct (_get_hash_const P _ st) as [[oc|e] s0]; [|discriminate].
      intros H _. apply create_and_cache_spec in H.
      destruct H as (_ & _ & _ & _ & Hk & _). rewrite Hk.
      now rewrite bool_decide_eq_true_2.
  - unfold ret, raise. discriminate.
Qed.

Lemma lookup_hash_rec_hit (P : Platform) (depth : nat) (digest : digest_arg)
    (flag : bool) (st : State) (info : HashInfo) :
  match digest with
  | DName s => cache st !! KName s = Some info
  | DConst c0 => cache st !! KConst c0 = Some info
  | DInfo i => i = info
  | DOther => False
  end ->
  lookup_hash_rec P (S depth) digest flag st = (Ok info, st).
Proof.
  cbn [lookup_hash_rec]. unfold bind at 1.
  destruct digest as [s|i|c|]; cbn [cache_lookup]; unfold cache_get, ret.
  - now intros ->.
  - now intros ->.
  - now intros ->.
  - contradiction.
Qed.

(** C6.  When a lookup returns a descriptor with a constructor:
    looking the same value up again, strictly or not, returns the same
    instance and changes nothing; the instance is cached under the value
    looked up.  For a name that was not cached: if the name is its own
    normal form, the instance is also cached under its constructor and under
    every non-empty name of its row; otherwise the instance is the one that
    the lookup of the normal form returns, and nothing is created beyond
    what that lookup creates. *)
Theorem lookup_hash_same_instance (P : Platform) (digest : digest_arg) (flag : bool)
    (st st' : State) (info : HashInfo) (c : const) :
  lookup_hash P digest flag st = (Ok info, st') ->
  info_const info = Some c ->
  (forall flag', lookup_hash P digest flag' st' = (Ok info, st'))
  /\ match digest with
     | DName s =>
         cache st' !! KName s = Some info
         /\ (cache st !! KName s = None ->
             let names := _get_hash_aliases s in
             let nm := nth 0 names "" in
             (nm = s ->
              cache st' !! KConst c = Some info /\ name info = s
              /\ (oid info < next_object st')%nat
              /\ forall n, In n names -> n <> "" -> cache st' !! KName n = Some info)
             /\ (nm <> s ->
                 exists d st1,
                   recursion_limit P = S d
                   /\ lookup_hash_rec P d (DName nm) flag st = (Ok info, st1)
                   /\ cache st' = <[KName s := info]> (cache st1)
                   /\ next_object st' = next_object st1
                   /\ cache st' !! KName nm = Some info))
     | DConst c0 => cache st' !! KConst c0 = Some info
     | DInfo i => i = info /\ st' = st
     | DOther => False
     end.
Proof.
  unfold lookup_hash. intros H Hc.
  pose proof (lookup_hash_rec_cached_const P _ digest flag st st' info c H Hc) as Hcached.
  destruct (recursion_limit P) as [|d] eqn:Hlim; [discriminate|].
  split.
  { intros flag'. apply lookup_hash_rec_hit.
    destruct digest; try exact Hcached. now destruct Hcached. }
  destruct digest as [s|i|c0|]; try exact Hcached.
  split; [exact Hcached|]. intros Hmiss. cbv zeta.
  revert H. cbn [lookup_hash_rec cache_lookup]. unfold bind at 1, cache_get at 1.
  rewrite Hmiss. unfold bind at 1.
  destruct (String.eqb_spec (nth 0 (_get_hash_aliases s) "") "") as [E0|Hne0];
    [discriminate|]. cbn [negb]. unfold assert at 1, ret at 1.
  destruct (String.eqb_spec (nth 0 (_get_hash_aliases s) "") s) as [E|Hne]; cbn [negb].
  - unfold bind at 1.
    destruct (_get_hash_const P _ st) as [[[c1|]|e] s0] eqn:Hg; try discriminate.
    + intros H. apply create_and_cache_spec in H.
      destruct H as (Hic & Hoid & Hnm & Hnext & Hkc & Hkn).
      split; [|intros ?; contradiction]. intros _.
      assert (c1 = c) by congruence. subst c1.
      split; [rewrite Hkc; now rewrite bool_decide_eq_true_2|].
      split; [congruence|]. split; [|].
      { rewrite Hoid, Hnext. lia. }
      intros n Hin Hn. rewrite Hkn. apply str_in_In in Hin. rewrite Hin.
      destruct (String.eqb_spec n "") as [?|_]; [contradiction|reflexivity].
    + destruct flag; [|unfold raise; discriminate].
      unfold HashInfo_init, bind, new_object, ret.
      intros H; inversion H; subst. discriminate.
  - unfold bind at 1.
    destruct (lookup_hash_rec P d _ flag st) as [[i1|e] s1] eqn:Hrec; [|discriminate].
    destruct (info_const i1) as [c1|] eqn:Hi1.
    + unfold_monad. intros H; inversion H; subst.
      split; [intros ?; contradiction|]. intros _.
      exists d, s1. split; [reflexivity|]. split; [exact Hrec|].
      split; [reflexivity|]. split; [reflexivity|]. simpl.
      rewrite lookup_insert_ne by congruence.
      exact (lookup_hash_rec_cached_const P d _ flag st s1 info c1 Hrec Hi1).
    + unfold_monad. destruct flag; [|discriminate].
      intros H; inversion H; subst. congruence.
Qed.

Lemma lookup_hash_same_instance_witness :
  (forall flag',
     lookup_hash Toy.py3 (DName "SHA2-256") flag' (Toy.resolved Toy.py3 "SHA2-256")
     = (Ok Toy.sha256_info, Toy.resolved Toy.py3 "SHA2-256"))
  /\ cache (Toy.resolved Toy.py3 "SHA2-256") !! KName "SHA2-256" = Some Toy.sha256_info
  /\ cache (Toy.resolved Toy.py3 "SHA2-256") !! KName "sha256" = Some Toy.sha256_info.
Proof.
  destruct (lookup_hash_same_instance Toy.py3 (DName "SHA2-256") false initial_state
              (Toy.resolved Toy.py3 "SHA2-256") Toy.sha256_info (StaticConst 1))
    as [H1 [H2 H3]]; [vm_compute; reflexivity | reflexivity |].
  split; [exact H1|]. split; [exact H2|].
  destruct (H3 eq_refl) as [_ H4].
  destruct H4 as (d & st1 & _ & _ & _ & _ & H5); [vm_compute; discriminate|].
  exact H5.
Defined.

(** ** Hash names: spellings *)

Lemma name_char_fixed (c : ascii) :
  name_char c = true -> sub_char (lower_char c) = c.
Proof.
  destruct c as [[] [] [] [] [] [] [] []]; vm_compute; intros H;
    first [reflexivity | discriminate H].
Qed.

Lemma lower_char_idem (c : ascii) : lower_char (lower_char c) = lower_char c.
Proof. destruct c as [[] [] [] [] [] [] [] []]; vm_compute; reflexivity. Qed.

Lemma name_char_lower (c : ascii) :
  name_char (lower_char c) = true -> sub_char (lower_char c) = lower_char c.
Proof.
  destruct c as [[] [] [] [] [] [] [] []]; vm_compute; intros H;
    first [reflexivity | discriminate H].
Qed.

Lemma separator_sub (c : ascii) :
  separator c = true -> sub_char (lower_char c) = "-"%char.
Proof.
  destruct c as [[] [] [] [] [] [] [] []]; vm_compute; intros H;
    first [reflexivity | discriminate H].
Qed.

Lemma char_variant_sub (c c' : ascii) :
  name_char c = true -> char_variant c c' = true -> sub_char (lower_char c') = c.
Proof.
  intros Hn. unfold char_variant. rewrite orb_true_iff, andb_true_iff.
  intros [H|[H Hs]].
  - apply Ascii.eqb_eq in H. subst c. now apply name_char_lower.
  - apply Ascii.eqb_eq in H. subst c. now apply separator_sub.
Qed.

Lemma edge_lower_not_space (c : ascii) :
  edge_char (lower_char c) = true -> isspace c = false.
Proof.
  destruct c as [[] [] [] [] [] [] [] []]; vm_compute; intros H;
    first [reflexivity | discriminate H].
Qed.

Lemma char_variant_not_space (c c' : ascii) :
  edge_char c = true -> char_variant c c' = true -> isspace c' = false.
Proof.
  intros He. unfold char_variant. rewrite orb_true_iff, andb_true_iff.
  intros [H|[H _]]; apply Ascii.eqb_eq in H; subst c.
  - now apply edge_lower_not_space.
  - discriminate He.
Qed.

Lemma spelling_nil (v : string) : spelling "" v = true -> v = ""%string.
Proof. destruct v; [reflexivity|discriminate]. Qed.

Lemma spelling_sub_lower (n v : string) :
  all_name_chars n = true -> spelling n v = true ->
  sub_separators (lower v) = n.
Proof.
  revert v. induction n as [|c n IH]; intros [|c' v]; cbn [spelling all_name_chars];
    try discriminate; [reflexivity|].
  rewrite !andb_true_iff. intros [Hc Hn] [Hv Hs].
  cbn [lower sub_separators map_string]. f_equal.
  - apply (char_variant_sub c c' Hc Hv).
  - apply IH; assumption.
Qed.

Lemma lstrip_spaces (pre s : string) :
  all_space pre = true -> lstrip (pre ++ s) = lstrip s.
Proof.
  induction pre as [|c pre IH]; simpl; [reflexivity|].
  rewrite andb_true_iff. intros [Hc Hp]. rewrite Hc. now apply IH.
Qed.

Lemma rstrip_spaces (post : string) : all_space post = true -> rstrip post = ""%string.
Proof.
  induction post as [|c post IH]; cbn [all_space rstrip]; [reflexivity|].
  rewrite andb_true_iff. intros [Hc Hp]. now rewrite (IH Hp), Hc.
Qed.

Lemma rstrip_app_spaces (s post : string) :
  all_space post = true -> rstrip (s ++ post) = rstrip s.
Proof.
  intros Hp. induction s as [|c s IH]; simpl.
  - now apply rstrip_spaces.
  - now rewrite IH.
Qed.

Lemma rstrip_spelling (n v : string) :
  last_ok n = true -> spelling n v = true -> rstrip v = v /\ v <> ""%string.
Proof.
  revert v. induction n as [|c n IH]; intros [|c' v]; cbn [spelling last_ok];
    try discriminate.
  rewrite andb_true_iff. intros Hl [Hc Hs]. split; [|discriminate].
  cbn [rstrip]. destruct n as [|c2 n].
  - apply spelling_nil in Hs. subst v. cbn [rstrip].
    now rewrite (char_variant_not_space c c' Hl Hc).
  - destruct (IH v Hl Hs) as [Hr Hv]. rewrite Hr.
    destruct v; [contradiction|reflexivity].
Qed.

Lemma lstrip_spelling (n v : string) :
  first_ok n = true -> spelling n v = true -> lstrip v = v.
Proof.
  destruct n as [|c n]; destruct v as [|c' v]; cbn [spelling first_ok];
    try discriminate.
  rewrite andb_true_iff. intros Hf [Hc _]. cbn [lstrip].
  now rewrite (char_variant_not_space c c' Hf Hc).
Qed.

Lemma lstrip_app_spelling (n v post : string) :
  first_ok n = true -> spelling n v = true -> lstrip (v ++ post) = (v ++ post)%string.
Proof.
  destruct n as [|c n]; destruct v as [|c' v]; cbn [spelling first_ok];
    try discriminate.
  rewrite andb_true_iff. intros Hf [Hc _]. simpl.
  now rewrite (char_variant_not_space c c' Hf Hc).
Qed.

(** Cleaning any spelling of a plain name gives the name back. *)
Lemma clean_written (n v : string) :
  plain_name n = true -> startswith "scram-" n = false ->
  written_as n v -> clean_name v = n.
Proof.
  unfold plain_name. rewrite !andb_true_iff. intros [[Ha Hf] Hl] Hscram.
  intros (pre & v0 & post & -> & Hpre & Hpost & Hs).
  unfold clean_name, strip.
  rewrite (lstrip_spaces pre _ Hpre), (lstrip_app_spelling n v0 post Hf Hs).
  rewrite (rstrip_app_spaces v0 post Hpost).
  destruct (rstrip_spelling n v0 Hl Hs) as [-> _].
  rewrite (spelling_sub_lower n v0 Ha Hs). now rewrite Hscram.
Qed.

Lemma known_hash_names_ok : forallb table_row_ok _known_hash_names = true.
Proof. vm_compute. reflexivity. Qed.

Lemma known_name_ok (row : list string) (n : string) :
  In row _known_hash_names -> In n row ->
  plain_name n = true /\ startswith "scram-" n = false /\ aliases_of_clean n = row.
Proof.
  intros Hrow Hn. pose proof known_hash_names_ok as H.
  rewrite forallb_forall in H. specialize (H row Hrow).
  unfold table_row_ok in H. rewrite forallb_forall in H. specialize (H n Hn).
  rewrite !andb_true_iff, negb_true_iff in H. destruct H as [[H1 H2] H3].
  apply bool_decide_eq_true_1 in H3. auto.
Qed.

(** A lookup that succeeds still succeeds, with the same result, when more
    nested calls are allowed. *)
Lemma lookup_hash_rec_more_fuel (P : Platform) (flag : bool) (d : nat) :
  forall (digest : digest_arg) (st st' : State) (info : HashInfo),
  lookup_hash_rec P d digest flag st = (Ok info, st') ->
  lookup_hash_rec P (S d) digest flag st = (Ok info, st').
Proof.
  induction d as [|d IH]; intros digest st st' info H; [discriminate|].
  remember (S d) as d1 eqn:Hd1 in |- *.
  cbn [lookup_hash_rec] in H |- *. revert H. unfold bind.
  destruct (cache_lookup digest st) as [[[i|]|e] s0]; try (intros H; exact H).
  destruct digest as [s|i0|c|]; try (intros H; exact H).
  destruct (assert _ s0) as [[[]|e] s1]; [|intros H; exact H].
  destruct (negb (_ =? s)%string); [|intros H; exact H].
  destruct (lookup_hash_rec P d _ flag s1) as [[i1|e] s2] eqn:Hrec; [|discriminate].
  apply IH in Hrec. rewrite <- Hd1 in Hrec. rewrite Hrec. intros H; exact H.
Qed.

(** The lookup of a name that is not cached and not its own normal form
    returns what the lookup of the normal form returns. *)
Lemma lookup_hash_via_normal_form (P : Platform) (flag : bool) (s : string)
    (st st' : State) (info : HashInfo) :
  cache st !! KName s = None ->
  nth 0 (_get_hash_aliases s) "" <> s ->
  lookup_hash P (DName s) flag st = (Ok info, st') ->
  exists st1, lookup_hash P (DName (nth 0 (_get_hash_aliases s) "")) flag st
              = (Ok info, st1).
Proof.
  unfold lookup_hash. intros Hmiss Hne.
  destruct (recursion_limit P) as [|d]; [discriminate|]. intros H.
  cbn [lookup_hash_rec cache_lookup] in H. unfold bind at 1, cache_get at 1 in H.
  rewrite Hmiss in H. unfold bind at 1 in H.
  destruct (String.eqb_spec (nth 0 (_get_hash_aliases s) "") "") as [E0|Hne0];
    [discriminate|]. cbn [negb] in H. unfold assert at 1, ret at 1 in H.
  destruct (String.eqb_spec (nth 0 (_get_hash_aliases s) "") s) as [?|_];
    [contradiction|]. cbn [negb] in H. unfold bind at 1 in H.
  destruct (lookup_hash_rec P d _ flag st) as [[i1|e] s1] eqn:Hrec; [|discriminate].
  exists s1. apply lookup_hash_rec_more_fuel.
  destruct (info_const i1); unfold_monad.
  - inversion H; subst. exact Hrec.
  - destruct flag; [|discriminate]. inversion H; subst. exact Hrec.
Qed.


(** * Further properties *)

(** ** Strict and tolerant lookups *)

Lemma lookup_hash_rec_strict_tolerant (P : Platform) (depth : nat) :
  forall (digest : digest_arg) (st st' : State) (info : HashInfo),
  lookup_hash_rec P depth digest false st = (Ok info, st') ->
  lookup_hash_rec P depth digest true st = (Ok info, st').
Proof.
  induction depth as [|d IH]; intros digest st st' info; [discriminate|].
  cbn [lookup_hash_rec]. unfold bind.
  destruct (cache_lookup digest st) as [[[i|]|e] s0]; try (intros H; exact H).
  destruct digest as [s|i0|c|]; try (intros H; exact H).
  destruct (assert _ s0) as [[[]|e] s1]; [|intros H; exact H].
  destruct (negb (_ =? s)%string).
  - destruct (lookup_hash_rec P d _ false s1) as [[i1|e] s2] eqn:Hrec; [|discriminate].
    rewrite (IH _ _ _ _ Hrec).
    destruct (info_const i1); [intros H; exact H|].
    unfold assert, raise. discriminate.
  - destruct (_get_hash_const P _ s1) as [[[c|]|e] s2]; try (intros H; exact H).
    unfold raise. discriminate.
Qed.

(** X1.  Whenever the strict lookup of a value succeeds, the tolerant lookup
    of the same value from the same state returns the same instance and
    leaves the same state. *)
Theorem tolerant_extends_strict (P : Platform) (digest : digest_arg)
    (st st' : State) (info : HashInfo) :
  lookup_hash P digest false st = (Ok info, st') ->
  lookup_hash P digest true st = (Ok info, st').
Proof. apply lookup_hash_rec_strict_tolerant. Qed.

Lemma tolerant_extends_strict_witness :
  lookup_hash Toy.py3 (DName "SHA2-256") true initial_state
  = (Ok Toy.sha256_info, Toy.resolved Toy.py3 "SHA2-256").
Proof.
  apply (tolerant_extends_strict Toy.py3 (DName "SHA2-256") initial_state).
  vm_compute. reflexivity.
Defined.

(** ** [norm_hash_name] *)

(** X2.  [norm_hash_name] returns the canonical (or IANA) name of the
    descriptor whenever the strict lookup succeeds; for a name whose strict
    lookup fails with [UnknownHashError n] it returns [n] (or the IANA
    spelling synthesised for [n]) and creates one object; it never fails
    with [UnknownHashError]; and a format other than ["hashlib"] and
    ["iana"] is a [ValueError] raised only after the lookup has been made. *)
Theorem norm_hash_name_spec (P : Platform) (hash : digest_arg) (st : State) :
  (forall info st',
     lookup_hash P hash false st = (Ok info, st') ->
     norm_hash_name P hash "hashlib" st = (Ok (name info), st')
     /\ norm_hash_name P hash "iana" st = (Ok (iana_name info), st'))
  /\ (forall s n st0,
        hash = DName s ->
        lookup_hash P (DName s) false st = (Err (UnknownHashError n), st0) ->
        norm_hash_name P hash "hashlib" st = (Ok n, one_more_object st)
        /\ norm_hash_name P hash "iana" st
           = (Ok (nth 1 (_get_hash_aliases n) ""), one_more_object st))
  /\ (forall format e st',
        norm_hash_name P hash format st = (Err e, st') ->
        forall n, e <> UnknownHashError n)
  /\ (forall format info st',
        format <> "hashlib"%string -> format <> "iana"%string ->
        lookup_hash P hash true st = (Ok info, st') ->
        norm_hash_name P hash format st = (Err (ValueError "unknown format"), st')).
Proof.
  split; [|split; [|split]].
  - intros info st' H. apply lookup_hash_rec_strict_tolerant in H. fold (lookup_hash P hash true st) in H.
    unfold norm_hash_name, bind. rewrite H. split; reflexivity.
  - intros s n st0 -> H. unfold lookup_hash in H.
    destruct (unknown_chain P _ s st st0 n H) as (_ & Hfix & _ & Hst).
    destruct (Hst st eq_refl) as [_ Ht].
    unfold norm_hash_name, bind, lookup_hash. rewrite Ht.
    cbn [String.eqb Ascii.eqb Bool.eqb name iana_name dummy_info]. unfold ret.
    split; [now rewrite Hfix|reflexivity].
  - intros format e st'. unfold norm_hash_name, bind.
    destruct (lookup_hash P hash true st) as [[info|e0] s0] eqn:Hl.
    + destruct (String.eqb format "hashlib"); [unfold ret; discriminate|].
      destruct (String.eqb format "iana"); [unfold ret; discriminate|].
      unfold raise. intros H; inversion H; subst. discriminate.
    + intros H; inversion H; subst.
      eapply tolerant_not_unknown. exact Hl.
  - intros format info st' H1 H2 Hl. unfold norm_hash_name, bind. rewrite Hl.
    destruct (String.eqb_spec format "hashlib") as [?|_]; [contradiction|].
    destruct (String.eqb_spec format "iana") as [?|_]; [contradiction|].
    reflexivity.
Qed.

Lemma norm_hash_name_spec_witness :
  norm_hash_name Toy.py3 (DName "SHA2-256") "iana" initial_state
  = (Ok "sha-256"%string, Toy.resolved Toy.py3 "SHA2-256")
  /\ norm_hash_name Toy.py3 (DName "Foo Bar") "hashlib" initial_state
     = (Ok "foo_bar"%string, one_more_object initial_state)
  /\ norm_hash_name Toy.py3 (DName "sha256") "posix" initial_state
     = (Err (ValueError "unknown format"), Toy.resolved Toy.py3 "sha256").
Proof.
  split; [|split].
  - destruct (norm_hash_name_spec Toy.py3 (DName "SHA2-256") initial_state)
      as (H & _).
    destruct (H Toy.sha256_info (Toy.resolved Toy.py3 "SHA2-256")) as [_ H2];
      [vm_compute; reflexivity|exact H2].
  - destruct (norm_hash_name_spec Toy.py3 (DName "Foo Bar") initial_state)
      as (_ & H & _).
    destruct (H "Foo Bar"%string "foo_bar"%string initial_state eq_refl) as [H1 _];
      [vm_compute; reflexivity|exact H1].
  - destruct (norm_hash_name_spec Toy.py3 (DName "sha256") initial_state)
      as (_ & _ & _ & H).
    apply (H "posix"%string Toy.sha256_info); [discriminate|discriminate|].
    vm_compute. reflexivity.
Defined.

(** ** The cache across lookups *)

Lemma cache_names_entries (names : list string) (info : HashInfo) (st st' : State)
    (r : Result unit) :
  cache_names names info st = (r, st') ->
  forall k i, cache st' !! k = Some i -> cache st !! k = Some i \/ i = info.
Proof.
  revert st. induction names as [|nm rest IH]; intros st; cbn [cache_names].
  - unfold ret. intros H; inversion H; subst. auto.
  - destruct (String.eqb nm ""); [apply IH|].
    unfold_monad. destruct (none_or_same _ _).
    + intros H k i Hk. destruct (IH _ H k i Hk) as [Hold|Hnew]; [|now right].
      simpl in Hold. destruct (decide (KName nm = k)) as [<-|Hne].
      * rewrite lookup_insert_eq in Hold. right. congruence.
      * rewrite lookup_insert_ne in Hold by exact Hne. now left.
    + intros H; inversion H; subst. auto.
Qed.

Lemma create_and_cache_entries (P : Platform) (c : const) (names : list string)
    (by_name : bool) (st st' : State) (r : Result HashInfo) :
  create_and_cache P c names by_name st = (r, st') ->
  forall k i, cache st' !! k = Some i ->
    cache st !! k = Some i \/ info_const i = Some c.
Proof.
  unfold create_and_cache. unfold bind at 1.
  destruct (HashInfo_init P (Some c) names st) as [[i0|e] s0] eqn:Hi.
  - apply HashInfo_init_spec in Hi. destruct Hi as (Hc0 & _ & _ & Hic & _).
    unfold bind at 1, cache_set at 1. unfold bind at 1.
    assert (Hset : forall k i,
               <[KConst c := i0]> (cache s0) !! k = Some i ->
               cache st !! k = Some i \/ info_const i = Some c).
    { intros k i Hk. destruct (decide (KConst c = k)) as [<-|Hne].
      - rewrite lookup_insert_eq in Hk. right. congruence.
      - rewrite lookup_insert_ne in Hk by exact Hne. left. now rewrite <- Hc0. }
    destruct by_name.
    + destruct (cache_names names i0 _) as [[[]|e] s1] eqn:Hcn;
        unfold ret; intros H; inversion H; subst; intros k i Hk;
        (destruct (cache_names_entries _ _ _ _ _ Hcn k i Hk) as [Hold|Hnew];
         [apply Hset; exact Hold | right; congruence]).
    + unfold ret. intros H; inversion H; subst. simpl. exact Hset.
  - apply HashInfo_init_err in Hi. subst s0.
    intros H; inversion H; subst. auto.
Qed.

Lemma create_and_cache_error_state (P : Platform) (c : const) (names : list string)
    (by_name : bool) (st st' : State) (e : exn) :
  create_and_cache P c names by_name st = (Err e, st') ->
  e <> AssertionError -> st' = st.
Proof.
  unfold create_and_cache. unfold bind at 1.
  destruct (HashInfo_init P (Some c) names st) as [[i0|e0] s0] eqn:Hi.
  - unfold bind at 1, cache_set at 1. unfold bind at 1. destruct by_name.
    + destruct (cache_names names i0 _) as [[[]|e1] s1] eqn:Hcn.
      * unfold ret. discriminate.
      * apply cache_names_error in Hcn. subst e1.
        intros H; inversion H; subst. contradiction.
    + unfold ret. discriminate.
  - apply HashInfo_init_err in Hi. subst s0. intros H; inversion H; subst. reflexivity.
Qed.

Lemma lookup_hash_rec_error_cache (P : Platform) (depth : nat) :
  forall (digest : digest_arg) (flag : bool) (st st' : State) (e : exn),
  lookup_hash_rec P depth digest flag st = (Err e, st') ->
  e <> AssertionError -> cache st' = cache st.
Proof.
  induction depth as [|d IH]; intros digest flag st st' e.
  - cbn. unfold raise. intros H; inversion H; subst. reflexivity.
  - cbn [lookup_hash_rec]. unfold bind at 1.
    destruct (cache_lookup digest st) as [[[i|]|e0] s0] eqn:Hcl.
    + unfold ret. discriminate.
    + assert (s0 = st) by
        (destruct digest; cbn in Hcl; unfold cache_get, ret in Hcl; congruence).
      subst s0. destruct digest as [s|i|c|].
      * unfold bind at 1. unfold assert at 1.
        destruct (negb (nth 0 (_get_hash_aliases s) "" =? "")%string);
          [|unfold raise; intros H; inversion H; subst; contradiction].
        unfold ret at 1.
        destruct (negb (nth 0 (_get_hash_aliases s) "" =? s)%string).
        { unfold bind at 1.
          destruct (lookup_hash_rec P d _ flag st) as [[i|e1] s1] eqn:Hrec.
          - destruct (info_const i); unfold_monad; [discriminate|].
            destruct flag; [discriminate|].
            intros H; inversion H; subst. contradiction.
          - intros H; inversion H; subst. eapply IH; eassumption. }
        { unfold bind at 1.
          destruct (_get_hash_const P _ st) as [[[c|]|e1] s1] eqn:Hg;
            pose proof (_get_hash_const_cache _ _ _ _ _ Hg) as [Hc [oc Hoc]];
            try discriminate.
          - intros H Hne.
            rewrite (create_and_cache_error_state _ _ _ _ _ _ _ H Hne). exact Hc.
          - destruct flag.
            + unfold HashInfo_init, bind, new_object, ret. discriminate.
            + unfold raise. intros H; inversion H; subst. intros _. exact Hc. }
      * unfold ret. discriminate.
      * unfold bind at 1, lift at 1.
        destruct (call_const P c []) as [h|e1];
          [|intros H; inversion H; subst; reflexivity].
        unfold bind at 1.
        destruct (_get_hash_const P _ st) as [[oc|e2] s1] eqn:Hg;
          pose proof (_get_hash_const_cache _ _ _ _ _ Hg) as [Hc [oc' Hoc]];
          try discriminate.
        intros H Hne.
        rewrite (create_and_cache_error_state _ _ _ _ _ _ _ H Hne). exact Hc.
      * unfold raise. intros H; inversion H; subst. reflexivity.
    + destruct digest; cbn in Hcl; unfold cache_get, ret in Hcl; discriminate.
Qed.

(** X3.  A lookup that fails with anything but [AssertionError] leaves the
    cache exactly as it was. *)
Theorem failed_lookup_keeps_cache (P : Platform) (digest : digest_arg) (flag : bool)
    (st st' : State) (e : exn) :
  lookup_hash P digest flag st = (Err e, st') ->
  e <> AssertionError -> cache st' = cache st.
Proof. apply lookup_hash_rec_error_cache. Qed.

Lemma failed_lookup_keeps_cache_witness :
  cache (snd (lookup_hash Toy.py3 (DName "Foo Bar") false
                (Toy.resolved Toy.py3 "sha256")))
  = cache (Toy.resolved Toy.py3 "sha256").
Proof.
  apply (failed_lookup_keeps_cache Toy.py3 (DName "Foo Bar") false
           (Toy.resolved Toy.py3 "sha256") _ (UnknownHashError "foo_bar")).
  - vm_compute. reflexivity.
  - discriminate.
Defined.

Lemma cache_grows_refl (st : State) : cache_grows st st.
Proof. repeat split; auto. Qed.

Lemma cache_grows_trans (a b c : State) :
  cache_grows a b -> cache_grows b c -> cache_grows a c.
Proof.
  intros (K1 & E1 & N1) (K2 & E2 & N2). repeat split.
  - auto.
  - intros k i Hk. destruct (E2 k i Hk) as [H|H]; [|now right]. now apply E1.
  - lia.
Qed.

Lemma cache_grows_same_cache (st st' : State) :
  cache st' = cache st -> (next_object st <= next_object st')%nat ->
  cache_grows st st'.
Proof. intros Hc Hn. repeat split; rewrite ?Hc; auto. Qed.

Lemma cache_grows_insert (st : State) (k : key) (i : HashInfo) :
  info_const i <> None ->
  cache_grows st {| cache := <[k := i]> (cache st); next_object := next_object st |}.
Proof.
  intros Hi. repeat split; simpl; [| |lia].
  - intros k0 Hk. apply lookup_insert_is_Some.
    destruct (decide (k = k0)); auto.
  - intros k0 i0 Hk. destruct (decide (k = k0)) as [<-|Hne].
    + rewrite lookup_insert_eq in Hk. right. congruence.
    + rewrite lookup_insert_ne in Hk by exact Hne. now left.
Qed.

Lemma cache_names_grows (names : list string) (info : HashInfo) (st st' : State)
    (r : Result unit) :
  info_const info <> None ->
  cache_names names info st = (r, st') -> cache_grows st st'.
Proof.
  intros Hi. revert st. induction names as [|nm rest IH]; intros st; cbn [cache_names].
  - unfold ret. intros H; inversion H; subst. apply cache_grows_refl.
  - destruct (String.eqb nm ""); [apply IH|].
    unfold_monad. destruct (none_or_same _ _).
    + intros H. eapply cache_grows_trans; [|apply (IH _ H)].
      now apply cache_grows_insert.
    + intros H; inversion H; subst. apply cache_grows_refl.
Qed.

Lemma _get_hash_const_grows (P : Platform) (nm : string) (st st' : State)
    (r : Result (option const)) :
  _get_hash_const P nm st = (r, st') -> cache_grows st st'.
Proof.
  unfold _get_hash_const.
  destruct (negb (startswith "_" nm) && negb (str_in nm ["new"; "algorithms"])%string);
    [destruct (hashlib_getattr P nm) as [id|]|];
    try (unfold ret; intros H; inversion H; subst; apply cache_grows_refl);
    (destruct (hashlib_new P nm);
     [ unfold_monad; intros H; inversion H; subst;
       apply cache_grows_same_cache; simpl; [reflexivity|lia]
     | destruct (String.eqb nm "md4"); unfold ret; intros H; inversion H; subst;
       apply cache_grows_refl ]).
Qed.

Lemma HashInfo_init_grows (P : Platform) (c : option const) (names : list string)
    (st st' : State) (r : Result HashInfo) :
  HashInfo_init P c names st = (r, st') -> cache_grows st st'.
Proof.
  destruct r as [info|e]; intros H.
  - apply HashInfo_init_spec in H. destruct H as (Hc & Hn & _).
    apply cache_grows_same_cache; [exact Hc|lia].
  - apply HashInfo_init_err in H. subst. apply cache_grows_refl.
Qed.

Lemma create_and_cache_grows (P : Platform) (c : const) (names : list string)
    (by_name : bool) (st st' : State) (r : Result HashInfo) :
  create_and_cache P c names by_name st = (r, st') -> cache_grows st st'.
Proof.
  unfold create_and_cache. unfold bind at 1.
  destruct (HashInfo_init P (Some c) names st) as [[i0|e] s0] eqn:Hi.
  - pose proof (HashInfo_init_grows _ _ _ _ _ _ Hi) as G0.
    apply HashInfo_init_spec in Hi. destruct Hi as (_ & _ & _ & Hic & _).
    assert (Hne : info_const i0 <> None) by congruence.
    unfold bind at 1, cache_set at 1. unfold bind at 1.
    pose proof (cache_grows_insert s0 (KConst c) i0 Hne) as G1.
    destruct by_name.
    + destruct (cache_names names i0 _) as [[[]|e] s1] eqn:Hcn;
        pose proof (cache_names_grows _ _ _ _ _ Hne Hcn) as G2;
        unfold ret; intros H; inversion H; subst;
        exact (cache_grows_trans _ _ _ G0 (cache_grows_trans _ _ _ G1 G2)).
    + unfold ret. intros H; inversion H; subst.
      exact (cache_grows_trans _ _ _ G0 G1).
  - pose proof (HashInfo_init_grows _ _ _ _ _ _ Hi) as G0.
    intros H; inversion H; subst. exact G0.
Qed.

Lemma lookup_hash_rec_grows (P : Platform) (depth : nat) :
  forall (digest : digest_arg) (flag : bool) (st st' : State) (r : Result HashInfo),
  lookup_hash_rec P depth digest flag st = (r, st') -> cache_grows st st'.
Proof.
  induction depth as [|d IH]; intros digest flag st st' r.
  - cbn. unfold raise. intros H; inversion H; subst. apply cache_grows_refl.
  - cbn [lookup_hash_rec]. unfold bind at 1.
    destruct (cache_lookup digest st) as [[[i|]|e0] s0] eqn:Hcl;
      assert (s0 = st) by
        (destruct digest; cbn in Hcl; unfold cache_get, ret in Hcl; congruence);
      subst s0.
    + unfold ret. intros H; inversion H; subst. apply cache_grows_refl.
    + destruct digest as [s|i|c|].
      * unfold bind at 1. unfold assert at 1.
        destruct (negb (nth 0 (_get_hash_aliases s) "" =? "")%string);
          [|unfold raise; intros H; inversion H; subst; apply cache_grows_refl].
        unfold ret at 1.
        destruct (negb (nth 0 (_get_hash_aliases s) "" =? s)%string).
        { unfold bind at 1.
          destruct (lookup_hash_rec P d _ flag st) as [[i|e1] s1] eqn:Hrec;
            pose proof (IH _ _ _ _ _ Hrec) as G.
          - destruct (info_const i) eqn:Hi; unfold_monad.
            + intros H; inversion H; subst.
              eapply cache_grows_trans; [exact G|].
              apply cache_grows_insert. congruence.
            + destruct flag; intros H; inversion H; subst; exact G.
          - intros H; inversion H; subst. exact G. }
        { unfold bind at 1.
          destruct (_get_hash_const P _ st) as [[[c|]|e1] s1] eqn:Hg;
            pose proof (_get_hash_const_grows _ _ _ _ _ Hg) as G.
          - intros H. eapply cache_grows_trans; [exact G|].
            eapply create_and_cache_grows. exact H.
          - destruct flag.
            + intros H. eapply cache_grows_trans; [exact G|].
              eapply HashInfo_init_grows. exact H.
            + unfold raise. intros H; inversion H; subst. exact G.
          - intros H; inversion H; subst. exact G. }
      * unfold ret. intros H; inversion H; subst. apply cache_grows_refl.
      * unfold bind at 1, lift at 1.
        destruct (call_const P c []) as [h|e1];
          [|intros H; inversion H; subst; apply cache_grows_refl].
        unfold bind at 1.
        destruct (_get_hash_const P _ st) as [[oc|e2] s1] eqn:Hg;
          pose proof (_get_hash_const_grows _ _ _ _ _ Hg) as G.
        { intros H. eapply cache_grows_trans; [exact G|].
          eapply create_and_cache_grows. exact H. }
        { intros H; inversion H; subst. exact G. }
      * unfold raise. intros H; inversion H; subst. apply cache_grows_refl.
    + destruct digest; cbn in Hcl; unfold cache_get, ret in Hcl; discriminate.
Qed.

(** Case analysis on every value that a computation branches on, leaving the
    state pairs alone. *)
Ltac break_cases :=
  repeat (cbv beta iota;
          match goal with
          | |- context [match ?x with _ => _ end] =>
              lazymatch type of x with
              | prod _ _ => fail
              | _ => destruct x
              end
          end); cbv beta iota.

Lemma compile_hmac_grows (P : Platform) (digest : digest_arg) (key : bytes)
    (mp : bool) (st st' : State) (r : Result compiled_hmac) :
  compile_hmac P digest key mp st = (r, st') -> cache_grows st st'.
Proof.
  unfold compile_hmac. unfold bind at 1.
  destruct (lookup_hash P digest false st) as [[info|e] s0] eqn:Hl;
    pose proof (lookup_hash_rec_grows _ _ _ _ _ _ _ Hl) as G;
    [|intros H; inversion H; subst; exact G].
  unfold_monad. break_cases; intros H; inversion H; subst; exact G.
Qed.

Lemma pbkdf1_grows (P : Platform) (digest : digest_arg) (secret salt : bytes)
    (rounds : Z) (keylen : option Z) (st st' : State) (r : Result bytes) :
  pbkdf1 P digest secret salt rounds keylen st = (r, st') -> cache_grows st st'.
Proof.
  unfold pbkdf1. unfold bind at 1.
  destruct (lookup_hash P digest false st) as [[info|e] s0] eqn:Hl;
    pose proof (lookup_hash_rec_grows _ _ _ _ _ _ _ Hl) as G;
    [|intros H; inversion H; subst; exact G].
  unfold_monad. break_cases; intros H; inversion H; subst; exact G.
Qed.

Lemma norm_hash_name_grows (P : Platform) (hash : digest_arg) (format : string)
    (st st' : State) (r : Result string) :
  norm_hash_name P hash format st = (r, st') -> cache_grows st st'.
Proof.
  unfold norm_hash_name. unfold bind at 1.
  destruct (lookup_hash P hash true st) as [[info|e] s0] eqn:Hl;
    pose proof (lookup_hash_rec_grows _ _ _ _ _ _ _ Hl) as G;
    [|intros H; inversion H; subst; exact G].
  unfold_monad. break_cases; intros H; inversion H; subst; exact G.
Qed.

Lemma pbkdf2_hmac_grows (P : Platform) (digest : digest_arg) (secret salt : bytes)
    (rounds : Z) (keylen : option Z) (st st' : State) (r : Result bytes) :
  pbkdf2_hmac P digest secret salt rounds keylen st = (r, st') -> cache_grows st st'.
Proof.
  unfold pbkdf2_hmac. unfold bind at 1.
  destruct (lookup_hash P digest false st) as [[info|e] s0] eqn:Hl;
    pose proof (lookup_hash_rec_grows _ _ _ _ _ _ _ Hl) as G;
    [|intros H; inversion H; subst; exact G].
  destruct (rounds <? 1); [unfold raise; intros H; inversion H; subst; exact G|].
  unfold bind at 1.
  destruct (match keylen with
            | Some k => if k <? 1 then raise (ValueError "keylen must be at least 1")
                        else ret (Some k)
            | None => ret (digest_size info)
            end s0) as [[kl|e] s1] eqn:Hk.
  2: { intros H; inversion H; subst.
       destruct keylen as [k|]; [destruct (k <? 1)|]; unfold_monad;
         inversion Hk; subst; exact G. }
  assert (s1 = s0) by
    (destruct keylen as [k|]; [destruct (k <? 1)|]; unfold_monad; congruence).
  subst s1. clear Hk.
  unfold bind at 1, lift at 1.
  destruct (block_count_of kl (digest_size info)) as [bc|e];
    [|intros H; inversion H; subst; exact G].
  destruct (bc >? MAX_UINT32); [unfold raise; intros H; inversion H; subst; exact G|].
  unfold bind at 1, lift at 1.
  destruct (supported_by (_fast_pbkdf2_hmac P) info) as [fast|e];
    [|intros H; inversion H; subst; exact G].
  assert (Hrest : forall r st',
    (std <- lift (supported_by (_stdlib_pbkdf2_hmac P) info);;
     match _stdlib_pbkdf2_hmac P, truthy std with
     | Some f, true => lift (f (name info) secret salt rounds kl)
     | _, _ =>
         compiled <- compile_hmac P digest secret false;;
         match compiled, digest_size info with
         | SingleShot keyed_hmac _, Some ds =>
             calc_block <- lift (_get_pbkdf2_looper P ds);;
             joined <- lift (join_blocks calc_block keyed_hmac salt rounds
                               (block_indices bc));;
             ret (match kl with Some k => slice_to joined k | None => joined end)
         | _, _ => raise TypeError
         end
     end) s0 = (r, st') -> cache_grows st st').
  { intros r0 st0. unfold bind at 1, lift at 1.
    destruct (supported_by (_stdlib_pbkdf2_hmac P) info) as [std|e];
      [|intros H; inversion H; subst; exact G].
    assert (Hbuiltin : forall r st',
      (compiled <- compile_hmac P digest secret false;;
       match compiled, digest_size info with
       | SingleShot keyed_hmac _, Some ds =>
           calc_block <- lift (_get_pbkdf2_looper P ds);;
           joined <- lift (join_blocks calc_block keyed_hmac salt rounds
                             (block_indices bc));;
           ret (match kl with Some k => slice_to joined k | None => joined end)
       | _, _ => raise TypeError
       end) s0 = (r, st') -> cache_grows st st').
    { intros r1 st1. unfold bind at 1.
      destruct (compile_hmac P digest secret false s0) as [[cm|e] s2] eqn:Hc;
        pose proof (cache_grows_trans _ _ _ G (compile_hmac_grows _ _ _ _ _ _ _ Hc))
          as G2; [|intros H; inversion H; subst; exact G2].
      unfold_monad. break_cases; intros H; inversion H; subst; exact G2. }
    destruct (_stdlib_pbkdf2_hmac P) as [g|]; [destruct (truthy std)|];
      try apply Hbuiltin.
    unfold lift. intros H; inversion H; subst; exact G. }
  destruct (_fast_pbkdf2_hmac P) as [f|]; [destruct (truthy fast)|];
    try apply Hrest.
  unfold lift. intros H; inversion H; subst; exact G.
Qed.

Lemma step_grows (P : Platform) (st st' : State) :
  step P st st' -> cache_grows st st'.
Proof.
  intros [digest flag s r s' H | hash format s r s' H | digest key mp s r s' H
         | digest secret salt rounds keylen s r s' H
         | digest secret salt rounds keylen s r s' H].
  - eapply lookup_hash_rec_grows. exact H.
  - eapply norm_hash_name_grows. exact H.
  - eapply compile_hmac_grows. exact H.
  - eapply pbkdf1_grows. exact H.
  - eapply pbkdf2_hmac_grows. exact H.
Qed.

(** X4.  In every state that the module can reach from an empty cache,
    whatever was resolved, hashed or derived and whatever failed on the way,
    no descriptor without a constructor is cached. *)
Theorem reachable_no_dummy (P : Platform) (st : State) :
  reachable P st -> no_dummy st.
Proof.
  induction 1 as [|st st' _ IH Hstep].
  - intros k info Hk. cbn in Hk. rewrite lookup_empty in Hk. discriminate.
  - intros k info Hk. destruct (step_grows P st st' Hstep) as (_ & He & _).
    destruct (He k info Hk) as [Hold|Hnew]; [exact (IH k info Hold)|exact Hnew].
Qed.

Lemma reachable_no_dummy_witness :
  no_dummy (snd (lookup_hash Toy.py3 (DName "Foo Bar") true
                   (Toy.resolved Toy.py3 "SHA2-256"))).
Proof.
  apply (reachable_no_dummy Toy.py3).
  eapply reachable_step; [eapply reachable_step; [apply reachable_initial|]|].
  - eapply (step_lookup_hash Toy.py3 (DName "SHA2-256") false initial_state).
    apply surjective_pairing.
  - eapply (step_lookup_hash Toy.py3 (DName "Foo Bar") true).
    apply surjective_pairing.
Defined.

(** X5.  No call of an entry point removes a key from the cache or lowers
    the object counter, and an entry that is new or changed after the call is
    a descriptor with a constructor. *)
Theorem step_keeps_cache (P : Platform) (st st' : State) :
  step P st st' ->
  (forall k, is_Some (cache st !! k) -> is_Some (cache st' !! k))
  /\ (forall k i, cache st' !! k = Some i ->
        cache st !! k = Some i \/ info_const i <> None)
  /\ (next_object st <= next_object st')%nat.
Proof. apply step_grows. Qed.

Lemma step_keeps_cache_witness :
  (forall k, is_Some (cache (Toy.resolved Toy.py3 "sha256") !! k) ->
             is_Some (cache (snd (pbkdf2_hmac Toy.py3 (DName "odd") [x70] [x73] 1 None
                                    (Toy.resolved Toy.py3 "sha256"))) !! k))
  /\ (forall k i,
        cache (snd (pbkdf2_hmac Toy.py3 (DName "odd") [x70] [x73] 1 None
                      (Toy.resolved Toy.py3 "sha256"))) !! k = Some i ->
        cache (Toy.resolved Toy.py3 "sha256") !! k = Some i \/ info_const i <> None)
  /\ (next_object (Toy.resolved Toy.py3 "sha256")
      <= next_object (snd (pbkdf2_hmac Toy.py3 (DName "odd") [x70] [x73] 1 None
                             (Toy.resolved Toy.py3 "sha256"))))%nat.
Proof.
  apply (step_keeps_cache Toy.py3).
  eapply (step_pbkdf2_hmac Toy.py3 (DName "odd") [x70] [x73] 1 None).
  apply surjective_pairing.
Defined.

(** ** Names without constructor, and [md4] *)

Lemma unknown_name_end (P : Platform) (depth : nat) :
  forall (s : string) (st st0 : State) (n : string),
  lookup_hash_rec P depth (DName s) false st = (Err (UnknownHashError n), st0) ->
  (nth 0 (_get_hash_aliases s) "" = s -> n = s)
  /\ (nth 0 (_get_hash_aliases s) "" <> s ->
      exists d st1,
        depth = S d
        /\ lookup_hash_rec P d (DName (nth 0 (_get_hash_aliases s) "")) false st
           = (Err (UnknownHashError n), st1)).
Proof.
  destruct depth as [|d]; intros s st st0 n; [discriminate|].
  cbn [lookup_hash_rec]. unfold bind at 1. cbn [cache_lookup]. unfold cache_get at 1.
  destruct (cache st !! KName s) as [i|]; [unfold ret; discriminate|].
  unfold bind at 1.
  destruct (String.eqb_spec (nth 0 (_get_hash_aliases s) "") "") as [E0|Hne0];
    cbn [negb]; unfold assert at 1; [unfold raise; discriminate|].
  unfold ret at 1.
  destruct (String.eqb_spec (nth 0 (_get_hash_aliases s) "") s) as [E|Hne]; cbn [negb].
  - unfold bind at 1.
    destruct (_get_hash_const P _ st) as [[[c|]|e] s0] eqn:Hg.
    + intros H. exfalso. exact (create_and_cache_error _ _ _ _ _ _ _ H n eq_refl).
    + unfold raise. intros H; inversion H; subst n.
      split; [intros _; exact E|intros ?; contradiction].
    + apply _get_hash_const_cache in Hg. destruct Hg as [_ [oc Hoc]]. discriminate.
  - unfold bind at 1.
    destruct (lookup_hash_rec P d _ false st) as [[i|e] s1] eqn:Hrec.
    + destruct (info_const i); unfold_monad; discriminate.
    + intros H; inversion H; subst e s1.
      split; [intros ?; contradiction|]. intros _. exists d, st0. auto.
Qed.

Lemma _get_hash_const_md4 (P : Platform) (st : State) :
  exists c st', _get_hash_const P "md4" st = (Ok (Some c), st').
Proof.
  unfold _get_hash_const.
  destruct (negb (startswith "_" "md4") && negb (str_in "md4" ["new"; "algorithms"])%string);
    [destruct (hashlib_getattr P "md4") as [id|]|];
    try (unfold ret; eauto; fail);
    (destruct (hashlib_new P "md4"); [unfold_monad; eauto|cbn; unfold ret; eauto]).
Qed.

(** X6.  On every platform and from every state, [_get_hash_const] finds a
    constructor for ["md4"], and the strict lookup of ["md4"], in any
    spelling, never fails with [UnknownHashError]. *)
Theorem md4_always_found (P : Platform) (st : State) :
  (exists c st', _get_hash_const P "md4" st = (Ok (Some c), st'))
  /\ forall v n,
       written_as "md4" v ->
       fst (lookup_hash P (DName v) false st) <> Err (UnknownHashError n).
Proof.
  split; [apply _get_hash_const_md4|].
  intros v n Hv Hl.
  destruct (lookup_hash P (DName v) false st) as [r st'] eqn:Hl'.
  cbn [fst] in Hl. subst r. rename Hl' into Hl. unfold lookup_hash in Hl.
  assert (Hal : _get_hash_aliases v = ["md4"; "md4"]%string).
  { destruct (known_name_ok ["md4"; "md4"]%string "md4"%string) as (Hp & Hs & Ha);
      [simpl; tauto|simpl; tauto|].
    unfold _get_hash_aliases. now rewrite (clean_written "md4" v Hp Hs Hv). }
  destruct (unknown_chain P _ v st st' n Hl) as (_ & _ & Hnone & _).
  assert (Hn : n = "md4"%string).
  { destruct (unknown_name_end P _ v st st' n Hl) as [Hfix Hstep].
    rewrite Hal in Hfix, Hstep. cbn [nth] in Hfix, Hstep.
    destruct (String.eqb_spec "md4" v) as [E|Hne]; [now rewrite Hfix|].
    destruct (Hstep Hne) as (d & st1 & _ & Hrec).
    destruct (unknown_name_end P d "md4"%string st st1 n Hrec) as [Hfix' _].
    apply Hfix'. reflexivity. }
  subst n. destruct (_get_hash_const_md4 P st) as (c & s1 & Hc).
  rewrite Hnone in Hc. discriminate.
Qed.

Lemma md4_always_found_witness :
  written_as "md4" " MD4"
  /\ fst (lookup_hash Toy.py3 (DName " MD4") false initial_state)
     <> Err (UnknownHashError "md4").
Proof.
  assert (Hw : written_as "md4" " MD4").
  { exists " "%string, "MD4"%string, ""%string. repeat split. }
  split; [exact Hw|].
  destruct (md4_always_found Toy.py3 initial_state) as [_ Hmd4].
  apply Hmd4. exact Hw.
Defined.

(** ** Constructors handed in by the caller *)

(** X7.  When a callable that is not cached is resolved, the new descriptor
    carries that callable and the normalised form of the name it reports,
    and is cached under the callable.  If [_get_hash_const] finds another
    constructor for that name, no name of the cache is touched; if it finds
    none, or the callable itself, the descriptor is also cached under every
    non-empty name of its row. *)
Theorem callable_lookup (P : Platform) (c : const) (flag : bool)
    (st st1 st' : State) (h : hashobj) (oc : option const) (info : HashInfo) :
  cache st !! KConst c = None ->
  call_const P c [] = Ok h ->
  let names := _get_hash_aliases (alg_name (ho_alg h)) in
  _get_hash_const P (nth 0 names "") st = (Ok oc, st1) ->
  lookup_hash P (DConst c) flag st = (Ok info, st') ->
  info_const info = Some c /\ name info = nth 0 names ""
  /\ cache st' !! KConst c = Some info
  /\ (forall c', c' <> c -> cache st' !! KConst c' = cache st !! KConst c')
  /\ ((exists oc', oc = Some oc' /\ oc' <> c) ->
      forall n, cache st' !! KName n = cache st !! KName n)
  /\ (oc = None \/ oc = Some c ->
      forall n, In n names -> n <> ""%string -> cache st' !! KName n = Some info).
Proof.
  intros Hmiss Hcall names Hg. unfold lookup_hash.
  destruct (recursion_limit P) as [|d]; [discriminate|].
  cbn [lookup_hash_rec cache_lookup]. unfold bind at 1, cache_get at 1.
  rewrite Hmiss. unfold bind at 1, lift at 1. rewrite Hcall.
  unfold bind at 1. fold names. rewrite Hg.
  pose proof (_get_hash_const_cache _ _ _ _ _ Hg) as [Hc1 _].
  intros H. apply create_and_cache_spec in H.
  destruct H as (Hic & _ & Hnm & _ & Hkc & Hkn).
  split; [exact Hic|]. split; [exact Hnm|].
  split; [rewrite Hkc; now rewrite bool_decide_eq_true_2|].
  split.
  { intros c' Hne. rewrite Hkc, bool_decide_eq_false_2 by exact Hne. now rewrite Hc1. }
  split.
  - intros (oc' & -> & Hne) n. rewrite Hkn.
    rewrite (bool_decide_eq_false_2 _ Hne). cbn [andb]. now rewrite Hc1.
  - intros Hoc n Hin Hn. rewrite Hkn.
    assert (Hby : match oc with Some oc0 => bool_decide (oc0 = c) | None => true end
                  = true).
    { destruct Hoc as [-> | ->]; [reflexivity|]. now rewrite bool_decide_eq_true_2. }
    rewrite Hby. apply str_in_In in Hin. rewrite Hin.
    destruct (String.eqb_spec n "") as [?|_]; [contradiction|reflexivity].
Qed.

Lemma callable_lookup_witness :
  exists info st',
    lookup_hash Toy.mocked (DConst (StaticConst 7)) false
      (Toy.resolved Toy.mocked "sha256") = (Ok info, st')
    /\ info_const info = Some (StaticConst 7) /\ name info = "sha256"%string
    /\ cache st' !! KConst (StaticConst 7) = Some info
    /\ forall n, cache st' !! KName n
                 = cache (Toy.resolved Toy.mocked "sha256") !! KName n.
Proof.
  pose proof (callable_lookup Toy.mocked (StaticConst 7) false
                (Toy.resolved Toy.mocked "sha256")
                (Toy.resolved Toy.mocked "sha256")) as H.
  destruct (lookup_hash Toy.mocked (DConst (StaticConst 7)) false
              (Toy.resolved Toy.mocked "sha256")) as [[info|e] st'] eqn:Hl;
    [|vm_compute in Hl; discriminate].
  specialize (H st' (hash_new Toy.sha256 []) (Some (StaticConst 1)) info).
  destruct H as (H1 & H2 & H3 & _ & H5 & _);
    [vm_compute; reflexivity | reflexivity | reflexivity | reflexivity |].
  exists info, st'. split; [reflexivity|]. split; [exact H1|]. split; [exact H2|].
  split; [exact H3|]. apply H5. exists (StaticConst 1). split; [reflexivity|discriminate].
Defined.

(** ** Accelerated PBKDF2 providers *)

(** X8.  After the arguments have passed validation, a fastpbkdf2 provider
    whose probe call succeeds is handed the descriptor's name and the
    arguments, with an omitted [keylen] replaced by [digest_size], and its
    result or exception is what [pbkdf2_hmac] gives, whatever the [hashlib]
    provider and the builtin helper are; the [hashlib] provider is used in
    the same way when fastpbkdf2 is missing or its probe raises
    [ValueError] or a subclass of it, such as [UnknownHashError]; a probe
    that raises anything else ends the call with that exception. *)
Theorem pbkdf2_hmac_provider (P : Platform) (digest : digest_arg)
    (secret salt : bytes) (rounds : Z) (keylen : option Z)
    (st st1 : State) (info : HashInfo) (ds : Z) :
  lookup_hash P digest false st = (Ok info, st1) ->
  digest_size info = Some ds -> 0 < ds -> 1 <= rounds ->
  let k := match keylen with Some k => k | None => ds end in
  1 <= k -> (k + ds - 1) / ds <= MAX_UINT32 ->
  let probe (f : pbkdf2_fn) := f (name info) [x70] [x73] 1 None in
  let call (f : pbkdf2_fn) := f (name info) secret salt rounds (Some k) in
  let result := pbkdf2_hmac P digest secret salt rounds keylen st in
  (forall f r, _fast_pbkdf2_hmac P = Some f -> probe f = Ok r ->
     result = (call f, st1))
  /\ (forall f e, _fast_pbkdf2_hmac P = Some f -> probe f = Err e ->
        is_ValueError e = false -> result = (Err e, st1))
  /\ (forall g r,
        (_fast_pbkdf2_hmac P = None
         \/ exists f e, _fast_pbkdf2_hmac P = Some f /\ probe f = Err e
                        /\ is_ValueError e = true) ->
        _stdlib_pbkdf2_hmac P = Some g -> probe g = Ok r ->
        result = (call g, st1))
  /\ (forall g e,
        (_fast_pbkdf2_hmac P = None
         \/ exists f e', _fast_pbkdf2_hmac P = Some f /\ probe f = Err e'
                         /\ is_ValueError e' = true) ->
        _stdlib_pbkdf2_hmac P = Some g -> probe g = Err e ->
        is_ValueError e = false -> result = (Err e, st1)).
Proof.
  intros Hl Hds Hpos Hr k Hk Hbc probe call result.
  assert (Hhead : result
    = (fast <- lift (supported_by (_fast_pbkdf2_hmac P) info) ;;
       match _fast_pbkdf2_hmac P, truthy fast with
       | Some f, true => lift (f (name info) secret salt rounds (Some k))
       | _, _ =>
           std <- lift (supported_by (_stdlib_pbkdf2_hmac P) info) ;;
           match _stdlib_pbkdf2_hmac P, truthy std with
           | Some f, true => lift (f (name info) secret salt rounds (Some k))
           | _, _ =>
               compiled <- compile_hmac P digest secret false ;;
               match compiled, Some ds with
               | SingleShot keyed_hmac _, Some ds =>
                   calc_block <- lift (_get_pbkdf2_looper P ds) ;;
                   joined <- lift (join_blocks calc_block keyed_hmac salt rounds
                                     (block_indices ((k + ds - 1) / ds))) ;;
                   ret (slice_to joined k)
               | _, _ => raise TypeError
               end
           end
       end) st1).
  { unfold result, pbkdf2_hmac. unfold bind at 1. rewrite Hl.
    destruct (Z.ltb_spec rounds 1) as [?|_]; [lia|].
    unfold bind at 1. rewrite Hds.
    assert (Hkl : (match keylen with
                   | Some k0 => if k0 <? 1
                                then raise (ValueError "keylen must be at least 1")
                                else ret (Some k0)
                   | None => ret (Some ds)
                   end) st1 = (Ok (Some k), st1)).
    { unfold k in *. destruct keylen as [k0|]; [|reflexivity].
      destruct (Z.ltb_spec k0 1) as [?|_]; [lia|reflexivity]. }
    rewrite Hkl. unfold bind at 1, lift at 1. cbn [block_count_of].
    destruct (Z.eqb_spec ds 0) as [?|_]; [lia|].
    destruct (Z.gtb_spec ((k + ds - 1) / ds) MAX_UINT32) as [?|_]; [lia|].
    reflexivity. }
  split; [|split; [|split]].
  - intros f r Hf Hp. rewrite Hhead, Hf. unfold supported_by. fold (probe f).
    rewrite Hp. reflexivity.
  - intros f e Hf Hp Hne. rewrite Hhead, Hf. unfold supported_by. fold (probe f).
    rewrite Hp, Hne. reflexivity.
  - intros g r Hfast Hg Hp. rewrite Hhead.
    destruct Hfast as [Hn|(f & e & Hf & Hpf & He)].
    + rewrite Hn, Hg. unfold supported_by. fold (probe g). rewrite Hp. reflexivity.
    + rewrite Hf, Hg. unfold supported_by. fold (probe f) (probe g).
      rewrite Hpf, He, Hp. reflexivity.
  - intros g e Hfast Hg Hp Hne. rewrite Hhead.
    destruct Hfast as [Hn|(f & e' & Hf & Hpf & He)].
    + rewrite Hn, Hg. unfold supported_by. fold (probe g). rewrite Hp, Hne.
      reflexivity.
    + rewrite Hf, Hg. unfold supported_by. fold (probe f) (probe g).
      rewrite Hpf, He, Hp, Hne. reflexivity.
Qed.

Lemma pbkdf2_hmac_provider_witness :
  pbkdf2_hmac (with_backends Toy.py3 true None (Some Toy.provider) None)
    (DName "sha256") [x70] [x73] 2 None initial_state
  = (Ok [], Toy.resolved Toy.py3 "sha256")
  /\ pbkdf2_hmac
       (with_backends Toy.py3 true None
          (Some (fun _ _ _ _ _ => Err (UnknownHashError "sha256")))
          (Some (false, Toy.provider)))
       (DName "sha256") [x70] [x73] 2 None initial_state
     = (Ok [], Toy.resolved Toy.py3 "sha256").
Proof.
  split.
  - destruct (pbkdf2_hmac_provider
                (with_backends Toy.py3 true None (Some Toy.provider) None)
                (DName "sha256") [x70] [x73] 2 None initial_state
                (Toy.resolved Toy.py3 "sha256") Toy.sha256_info 32)
      as [H _]; [vm_compute; reflexivity|reflexivity|lia|lia|simpl; lia|
                 vm_compute; discriminate|].
    exact (H Toy.provider [] eq_refl eq_refl).
  - destruct (pbkdf2_hmac_provider
                (with_backends Toy.py3 true None
                   (Some (fun _ _ _ _ _ => Err (UnknownHashError "sha256")))
                   (Some (false, Toy.provider)))
                (DName "sha256") [x70] [x73] 2 None initial_state
                (Toy.resolved Toy.py3 "sha256") Toy.sha256_info 32)
      as (_ & _ & H & _); [vm_compute; reflexivity|reflexivity|lia|lia|simpl; lia|
                           vm_compute; discriminate|].
    refine (H Toy.provider [] _ eq_refl eq_refl).
    right. exists (fun _ _ _ _ _ => Err (UnknownHashError "sha256")),
      (UnknownHashError "sha256"). repeat split.
Defined.

(** ** The builtin backend asked for by name *)

Lemma compile_hmac_with_backends (P : Platform) (py3 : bool) (env : option string)
    (fast : option pbkdf2_fn) (std : option (bool * pbkdf2_fn))
    (digest : digest_arg) (key : bytes) (mp : bool) (st : State) :
  compile_hmac (with_backends P py3 env fast std) digest key mp st
  = compile_hmac P digest key mp st.
Proof. reflexivity. Qed.

Lemma _get_pbkdf2_looper_with_backends (P : Platform) (py3 : bool)
    (env : option string) (fast fast' : option pbkdf2_fn)
    (std std' : option (bool * pbkdf2_fn)) (ds : Z) :
  _get_pbkdf2_looper (with_backends P py3 env fast std) ds
  = _get_pbkdf2_looper (with_backends P py3 env fast' std') ds.
Proof. reflexivity. Qed.

(** X9.  The accelerated providers are dropped exactly when
    [PASSLIB_PBKDF2_BACKEND] names the builtin helper that is selected:
    ["unpack"], ["hexlify"], or ["from-bytes"] under Python 3 (under Python 2
    ["from-bytes"] selects the unpack helper and keeps the providers).  Then
    [PBKDF2_BACKENDS] has that builtin helper as its only entry, and
    [pbkdf2_hmac] gives the same result whichever providers are installed. *)
Theorem forced_builtin_backend (P : Platform) (py3 : bool) (env : option string)
    (fast : option pbkdf2_fn) (std : option (bool * pbkdf2_fn)) :
  let P' := with_backends P py3 env fast std in
  (builtin_forced P' = true
   <-> env = Some "unpack"%string \/ env = Some "hexlify"%string
       \/ (py3 = true /\ env = Some "from-bytes"%string))
  /\ (builtin_forced P' = true ->
      (exists b, env = Some b /\ PBKDF2_BACKENDS P' = Some [String.append "builtin-" b])
      /\ forall digest secret salt rounds keylen st,
           pbkdf2_hmac P' digest secret salt rounds keylen st
           = pbkdf2_hmac (with_backends P py3 env None None)
               digest secret salt rounds keylen st).
Proof.
  intros P'.
  assert (Hiff : builtin_forced P' = true
     <-> env = Some "unpack"%string \/ env = Some "hexlify"%string
         \/ (py3 = true /\ env = Some "from-bytes"%string)).
  { unfold builtin_forced, _builtin_backend, builtin_helper, _force_backend, P'.
    cbn [with_backends PY3 environ_backend].
    destruct env as [s|].
    - destruct (String.eqb_spec s "") as [->|Hne].
      + destruct py3; cbn; split; try discriminate;
          intros [H|[H|[_ H]]]; discriminate.
      + destruct (String.eqb_spec s "any") as [->|Hany].
        { destruct py3; cbn; split; try discriminate;
            intros [H|[H|[_ H]]]; discriminate. }
        destruct (String.eqb_spec s "from-bytes") as [->|Hfb].
        { destruct py3; cbn; split; try discriminate; auto.
          intros [H|[H|[H _]]]; discriminate. }
        destruct (String.eqb_spec s "unpack") as [->|Hun].
        { destruct py3; cbn; split; auto. }
        destruct (String.eqb_spec s "hexlify") as [->|Hhx].
        { destruct py3; cbn; split; auto. }
        assert (Hin : forall l, (forall x, In x l -> x <> s) -> str_in s l = false).
        { induction l as [|x l IH]; intros Hl; [reflexivity|]. cbn [str_in].
          destruct (String.eqb_spec s x) as [->|_].
          - exfalso. apply (Hl x); [now left|reflexivity].
          - apply IH. intros y Hy. apply Hl. now right. }
        rewrite !Hin.
        * rewrite andb_false_r. split; [discriminate|].
          intros [H|[H|[_ H]]]; congruence.
        * intros x [<-|[<-|[]]]; congruence.
        * intros x [<-|[<-|[<-|[]]]]; congruence.
        * intros x [<-|[<-|[]]]; congruence.
    - destruct py3; cbn; split; try discriminate;
        intros [H|[H|[_ H]]]; discriminate. }
  split; [exact Hiff|]. intros Hf.
  assert (Hfast : _fast_pbkdf2_hmac P' = None)
    by (unfold _fast_pbkdf2_hmac; now rewrite Hf).
  assert (Hstd : _stdlib_pbkdf2_hmac P' = None)
    by (unfold _stdlib_pbkdf2_hmac; now rewrite Hf).
  split.
  - unfold PBKDF2_BACKENDS. rewrite Hfast, Hstd.
    apply Hiff in Hf. unfold P'.
    destruct Hf as [->|[->|[-> ->]]]; eexists; (split; [reflexivity|]);
      try (destruct py3; reflexivity); reflexivity.
  - intros digest secret salt rounds keylen st.
    unfold pbkdf2_hmac. rewrite Hfast, Hstd.
    assert (Hf0 : builtin_forced (with_backends P py3 env None None) = true)
      by exact Hf.
    assert (Hfast0 : _fast_pbkdf2_hmac (with_backends P py3 env None None) = None)
      by (unfold _fast_pbkdf2_hmac; now rewrite Hf0).
    assert (Hstd0 : _stdlib_pbkdf2_hmac (with_backends P py3 env None None) = None)
      by (unfold _stdlib_pbkdf2_hmac; now rewrite Hf0).
    rewrite Hfast0, Hstd0. reflexivity.
Qed.

Lemma forced_builtin_backend_witness :
  PBKDF2_BACKENDS (with_backends Toy.py3 true (Some "from-bytes"%string)
                     (Some Toy.provider) None)
  = Some ["builtin-from-bytes"%string]
  /\ pbkdf2_hmac (with_backends Toy.py3 true (Some "from-bytes"%string)
                    (Some Toy.provider) None)
       (DName "sha256") [x70] [x73] 1 (Some 1) initial_state
     = pbkdf2_hmac (with_backends Toy.py3 true (Some "from-bytes"%string) None None)
         (DName "sha256") [x70] [x73] 1 (Some 1) initial_state.
Proof.
  destruct (forced_builtin_backend Toy.py3 true (Some "from-bytes"%string)
              (Some Toy.provider) None) as [_ H].
  destruct (H eq_refl) as [(b & Hb & Hlist) Hsame].
  injection Hb as <-. split; [exact Hlist|apply Hsame].
Defined.

(** ** The lanes of the unpack helper *)

(** For a positive multiple of 4 the unpack branch compiles a helper for a
    format that covers the digest; the format has a single lane exactly for
    a [digest_size] of 4, and of 8 on a 64 bit machine. *)
Lemma _get_pbkdf2_looper_unpack_lanes (P : Platform) (ds : Z) :
  ds mod 4 = 0 -> 0 < ds ->
  exists fmt,
    _get_pbkdf2_looper_unpack P ds = Ok (unpack_helper P fmt)
    /\ struct_size fmt = Z.to_nat ds
    /\ (List.length fmt = 1%nat <-> ds = 4 \/ (_have_64_bit P = true /\ ds = 8)).
Proof.
  intros Hmod Hds. unfold _get_pbkdf2_looper_unpack.
  rewrite land_3_mod_4, land_7_mod_8, Hmod.
  rewrite !Z.shiftr_div_pow2 by lia. change (2 ^ 3) with 8. change (2 ^ 2) with 4.
  pose proof (Z.div_mod ds 8 ltac:(lia)) as D8.
  pose proof (Z.mod_pos_bound ds 8 ltac:(lia)) as B8.
  pose proof (Z.div_mod ds 4 ltac:(lia)) as D4.
  destruct (_have_64_bit P).
  - destruct (Z.eqb_spec (ds mod 8) 0) as [E8|N8]; cbn [andb].
    + exists (lanes_Q (ds / 8)). unfold lanes_Q.
      rewrite repeat_length.
      destruct (Nat.eqb_spec (Z.to_nat (ds / 8)) 0) as [?|_]; [lia|].
      split; [reflexivity|]. split; [rewrite struct_size_repeat; lia|].
      split; [intros H; right; split; [reflexivity|lia]|].
      intros [?|[_ ?]]; lia.
    + exists (lanes_Q (ds / 8) ++ [4%nat]). unfold lanes_Q.
      cbn [Z.eqb]. rewrite length_app, repeat_length. cbn [List.length].
      destruct (Nat.eqb_spec (Z.to_nat (ds / 8) + 1) 0) as [?|_]; [lia|].
      assert (ds mod 8 = 4) by lia.
      split; [reflexivity|]. split.
      * rewrite struct_size_app, struct_size_repeat. cbn. lia.
      * split; [intros H1; left; lia|]. intros [?|[_ ?]]; lia.
  - cbn [andb Z.eqb]. exists (lanes_I (ds / 4)). unfold lanes_I.
    rewrite repeat_length.
    destruct (Nat.eqb_spec (Z.to_nat (ds / 4)) 0) as [?|_]; [lia|].
    split; [reflexivity|]. split; [rewrite struct_size_repeat; lia|].
    split; [intros H; left; lia|]. intros [?|[? _]]; [lia|discriminate].
Qed.

(** X10.  The unpack helper on a digest size that is a multiple of 4, for a
    MAC of that size.  Size 0 has no helper: the generated source does not
    compile.  Where the format has one lane (size 4, and size 8 on a 64 bit
    machine) the helper never returns a block: it raises [TypeError] when
    there is a second round and [struct.error] otherwise.  For every other
    size it returns the octet-wise XOR of the chain of MACs, on either byte
    order. *)
Theorem unpack_helper_lanes (P : Platform) (ds : Z) (mac : bytes -> bytes) :
  0 <= ds -> ds mod 4 = 0 ->
  (forall m, List.length (mac m) = Z.to_nat ds) ->
  let single := (ds =? 4) || (_have_64_bit P && (ds =? 8)) in
  (ds = 0 -> _get_pbkdf2_looper_unpack P ds = Err SyntaxError)
  /\ (0 < ds ->
      exists helper,
        _get_pbkdf2_looper_unpack P ds = Ok helper
        /\ forall d rounds,
             List.length d = Z.to_nat ds ->
             helper mac d rounds
             = if single
               then Err (if 1 <? rounds then TypeError else StructError)
               else Ok (xor_iter mac (Z.to_nat (rounds - 1)) d d)).
Proof.
  intros Hds Hmod Hmac single. split.
  - intros ->. unfold _get_pbkdf2_looper_unpack. cbn.
    destruct (_have_64_bit P); reflexivity.
  - intros Hpos.
    destruct (_get_pbkdf2_looper_unpack_lanes P ds Hmod Hpos) as (fmt & Hf & Hsz & Hone).
    exists (unpack_helper P fmt). split; [exact Hf|]. intros d rounds Hd.
    destruct single eqn:Hs.
    + assert (Hl : List.length fmt = 1%nat).
      { apply Hone. unfold single in Hs. apply orb_true_iff in Hs.
        destruct Hs as [Hs|Hs]; [left; lia|].
        apply andb_true_iff in Hs. right. split; [tauto|lia]. }
      unfold unpack_helper, struct_unpack.
      rewrite Hd, Hsz, Nat.eqb_refl, Hl. cbn [Nat.eqb].
      rewrite Hmac, Nat.eqb_refl. now destruct (1 <? rounds).
    + apply unpack_helper_xor; [intros m; now rewrite Hmac| |congruence].
      intros Hl. apply Hone in Hl. unfold single in Hs.
      apply orb_false_iff in Hs. destruct Hs as [H4 H8].
      destruct Hl as [?|[H64 ?]]; [lia|]. rewrite H64 in H8. cbn in H8. lia.
Qed.

Lemma unpack_helper_lanes_witness :
  exists helper,
    _get_pbkdf2_looper_unpack Toy.unpack 8 = Ok helper
    /\ helper (fun _ => repeat x00 8) (repeat x01 8) 2 = Err TypeError
    /\ helper (fun _ => repeat x00 8) (repeat x01 8) 1 = Err StructError.
Proof.
  destruct (unpack_helper_lanes Toy.unpack 8 (fun _ => repeat x00 8))
    as [_ H]; [lia|reflexivity|reflexivity|].
  destruct (H ltac:(lia)) as (helper & Hh & Hr).
  exists helper. split; [exact Hh|].
  split; [exact (Hr (repeat x01 8) 2 eq_refl)|exact (Hr (repeat x01 8) 1 eq_refl)].
Defined.

(** ** PBKDF2 through any loop helper *)

(** The builtin path of [pbkdf2_hmac], for any helper that returns the
    octet-wise XOR of the chain of MACs. *)
Lemma pbkdf2_hmac_by_looper (P : Platform) (digest : digest_arg)
    (secret salt : bytes) (rounds keylen : Z) (st st1 : State)
    (info : HashInfo) (alg : HashAlg) (calc_block : looper) :
  lookup_hash P digest false st = (Ok info, st1) ->
  describes P info alg -> digest_len_ok alg ->
  16 <= alg_block_size alg ->
  0 < alg_digest_size alg ->
  1 <= rounds -> 1 <= keylen ->
  (keylen + alg_digest_size alg - 1) / alg_digest_size alg <= MAX_UINT32 ->
  builtin_path P info ->
  _get_pbkdf2_looper P (alg_digest_size alg) = Ok calc_block ->
  (forall d,
     List.length d = Z.to_nat (alg_digest_size alg) ->
     calc_block (HMAC_spec alg secret) d rounds
     = Ok (xor_iter (HMAC_spec alg secret) (Z.to_nat (rounds - 1)) d d)) ->
  pbkdf2_hmac P digest secret salt rounds (Some keylen) st
  = (Ok (PBKDF2_spec (HMAC_spec alg secret) salt rounds keylen
           ((keylen + alg_digest_size alg - 1) / alg_digest_size alg)), st1).
Proof.
  intros Hl Hd Hlen H16 Hds Hr Hk Hbc ((a & Ha & Hta) & (b & Hb & Htb)) Hcalc Hxor.
  pose proof (lookup_hash_again P digest false st st1 info Hl) as Hl1.
  pose proof (compile_hmac_describes P digest secret false st1 st1 info alg
                Hl1 Hd Hlen H16) as Hc. cbv zeta in Hc.
  destruct Hd as (c & Hc1 & Hcons & Hds1 & Hbs1).
  unfold pbkdf2_hmac. unfold bind at 1. rewrite Hl.
  destruct (Z.ltb_spec rounds 1) as [?|_]; [lia|].
  unfold bind at 1. destruct (Z.ltb_spec keylen 1) as [?|_]; [lia|].
  unfold ret at 1. unfold bind at 1, lift at 1. rewrite Hds1. cbn [block_count_of].
  destruct (Z.eqb_spec (alg_digest_size alg) 0) as [?|_]; [lia|].
  destruct (Z.gtb_spec ((keylen + alg_digest_size alg - 1) / alg_digest_size alg)
              MAX_UINT32) as [?|_]; [lia|].
  unfold bind at 1, lift at 1. rewrite Ha.
  set (k := hmac_key_schedule alg secret) in *.
  set (mac := hmac_single (hash_new alg (map (bxor ipad) k))
                (hash_new alg (map (bxor opad) k))) in *.
  change (HMAC_spec alg secret) with mac in Hxor |- *.
  assert (Hmac : forall m, List.length (mac m) = Z.to_nat (alg_digest_size alg))
    by (intros m; apply hmac_single_length; [exact Hlen|lia]).
  destruct (_fast_pbkdf2_hmac P) as [f|]; try rewrite Hta;
    unfold bind at 1, lift at 1; rewrite Hb;
    destruct (_stdlib_pbkdf2_hmac P) as [g|]; try rewrite Htb;
    unfold bind at 1; rewrite Hc; rewrite Hcalc;
    unfold bind at 1, lift at 1; unfold bind at 1, lift at 1.
  all: rewrite (join_blocks_map _ mac salt rounds
                  (fun i => pbkdf2_T mac salt i (Z.to_nat (rounds - 1))));
    [ unfold ret, slice_to, PBKDF2_spec;
      destruct (Z.ltb_spec keylen 0) as [?|_]; [lia|reflexivity]
    | intros i Hi; apply block_indices_range in Hi;
      change MAX_UINT32 with 4294967295 in Hbc;
      change (2 ^ 32) with 4294967296; lia
    | intros i; rewrite pbkdf2_T_xor_iter; apply Hxor; apply Hmac ].
Qed.

(** ** The hexlify helper *)

Section Hexlify.

Variable P : Platform.
Variable prf : bytes -> bytes.
Variable len : nat.
Hypothesis prf_len : forall m, List.length (prf m) = len.
Hypothesis len_pos : (0 < len)%nat.

Lemma hexlify_loop_xor (n : nat) (d acc : bytes) :
  List.length acc = len ->
  hexlify_loop prf n d (from_bytes_big acc)
  = Ok (iter_prf prf n d, from_bytes_big (xor_iter prf n d acc)).
Proof using prf_len len_pos.
  revert d acc. induction n as [|n IH]; intros d acc H; [reflexivity|].
  cbn [hexlify_loop xor_iter]. rewrite iter_prf_shift.
  pose proof (prf_len d) as Hp.
  destruct (prf d) as [|b r] eqn:E; [simpl in Hp; lia|]. rewrite <- E.
  rewrite from_bytes_big_xor by (now rewrite prf_len).
  apply IH. rewrite xor_bytes_length; [exact H|]. now rewrite prf_len.
Qed.

Lemma iter_prf_length (n : nat) (d : bytes) :
  List.length d = len -> List.length (iter_prf prf n d) = len.
Proof using prf_len. destruct n; [trivial|]. intros _. apply prf_len. Qed.

Lemma _pbkdf2_looper_hexlify_xor (d : bytes) (rounds : Z) :
  (forall v n, 0 <= n -> 0 <= v < 2 ^ (8 * n) ->
     int_to_bytes P v n = to_bytes_big v n) ->
  List.length d = len ->
  _pbkdf2_looper_hexlify P prf d rounds
  = Ok (xor_iter prf (Z.to_nat (rounds - 1)) d d).
Proof using prf_len len_pos.
  intros Hint H. unfold _pbkdf2_looper_hexlify.
  destruct d as [|b r] eqn:E; [simpl in H; lia|]. rewrite <- E in *.
  rewrite hexlify_loop_xor by exact H.
  rewrite iter_prf_length by exact H.
  set (x := xor_iter prf (Z.to_nat (rounds - 1)) d d).
  assert (Hx : List.length x = len) by (apply xor_iter_length; assumption).
  rewrite Hint.
  - apply to_bytes_big_from. now rewrite Hx.
  - lia.
  - rewrite from_bytes_big_le.
    pose proof (le_value_nonneg (rev x)).
    pose proof (le_value_bound (rev x)) as Hb. rewrite length_rev, Hx in Hb. lia.
Qed.

End Hexlify.

(** X11.  With [PASSLIB_PBKDF2_BACKEND=hexlify] the accelerated providers are
    not consulted, and, provided [int_to_bytes] writes an integer that fits
    as [count] octets, most significant first, [pbkdf2_hmac] returns the
    standard PBKDF2 result for the standard HMAC keyed with [secret]; the
    helper itself raises [ValueError] on an empty digest. *)
Theorem pbkdf2_hmac_hexlify (P : Platform) (digest : digest_arg)
    (secret salt : bytes) (rounds keylen : Z) (st st1 : State)
    (info : HashInfo) (alg : HashAlg) :
  environ_backend P = Some "hexlify"%string ->
  (forall v n, 0 <= n -> 0 <= v < 2 ^ (8 * n) ->
     int_to_bytes P v n = to_bytes_big v n) ->
  lookup_hash P digest false st = (Ok info, st1) ->
  describes P info alg -> digest_len_ok alg ->
  16 <= alg_block_size alg ->
  0 < alg_digest_size alg ->
  1 <= rounds -> 1 <= keylen ->
  (keylen + alg_digest_size alg - 1) / alg_digest_size alg <= MAX_UINT32 ->
  pbkdf2_hmac P digest secret salt rounds (Some keylen) st
  = (Ok (PBKDF2_spec (HMAC_spec alg secret) salt rounds keylen
           ((keylen + alg_digest_size alg - 1) / alg_digest_size alg)), st1)
  /\ exists helper,
       _get_pbkdf2_looper P (alg_digest_size alg) = Ok helper
       /\ forall mac r, exists m, helper mac [] r = Err (ValueError m).
Proof.
  intros Henv Hint Hl Hd Hlen H16 Hds Hr Hk Hbc.
  assert (Hh : builtin_helper P = Some Hexlify).
  { unfold builtin_helper, _force_backend. rewrite Henv. cbn.
    now rewrite andb_false_r. }
  assert (Hf : builtin_forced P = true).
  { unfold builtin_forced, _builtin_backend. rewrite Hh.
    unfold _force_backend. rewrite Henv. reflexivity. }
  assert (Hg : _get_pbkdf2_looper P (alg_digest_size alg)
               = Ok (_pbkdf2_looper_hexlify P))
    by (unfold _get_pbkdf2_looper; now rewrite Hh).
  split.
  - apply (pbkdf2_hmac_by_looper P digest secret salt rounds keylen st st1 info alg
             (_pbkdf2_looper_hexlify P)); try assumption.
    + unfold builtin_path, _fast_pbkdf2_hmac, _stdlib_pbkdf2_hmac. rewrite Hf.
      split; exists None; split; reflexivity.
    + intros d Hdl.
      apply (_pbkdf2_looper_hexlify_xor P (HMAC_spec alg secret)
               (Z.to_nat (alg_digest_size alg))).
      * intros m. apply (hmac_single_length alg); [exact Hlen|lia].
      * lia.
      * exact Hint.
      * exact Hdl.
  - exists (_pbkdf2_looper_hexlify P). split; [exact Hg|].
    intros mac r. eexists. reflexivity.
Qed.

Lemma pbkdf2_hmac_hexlify_witness :
  pbkdf2_hmac (with_backends Toy.py3 true (Some "hexlify"%string) None None)
    (DName "sha256") [x70] [x73] 2 (Some 40) initial_state
  = (Ok (PBKDF2_spec (HMAC_spec Toy.sha256 [x70]) [x73] 2 40 ((40 + 32 - 1) / 32)),
     Toy.resolved Toy.py3 "sha256").
Proof.
  apply (pbkdf2_hmac_hexlify
           (with_backends Toy.py3 true (Some "hexlify"%string) None None)
           (DName "sha256") [x70] [x73] 2 40 initial_state
           (Toy.resolved Toy.py3 "sha256") Toy.sha256_info Toy.sha256).
  - reflexivity.
  - intros v n _ _. reflexivity.
  - vm_compute. reflexivity.
  - exists (StaticConst 1). repeat split.
  - apply toy_digest_len_ok. lia.
  - simpl. lia.
  - simpl. lia.
  - lia.
  - lia.
  - vm_compute. discriminate.
Defined.

(** ** PBKDF2: the builtin path *)

(** Each builtin helper that is selected returns the octet-wise XOR of the
    chain of MACs: the from-bytes helper for every size, the unpack helper
    for every multiple of 4 whose format has two lanes or more, the hexlify
    helper when [int_to_bytes] writes big-endian octets. *)
Lemma every_looper_xor (P : Platform) (ds : Z) (mac : bytes -> bytes) :
  builtin_helper P = Some FromBytes
  \/ (builtin_helper P = Some Unpack
      /\ ds mod 4 = 0 /\ ds <> 4 /\ (_have_64_bit P = true -> ds <> 8))
  \/ (builtin_helper P = Some Hexlify
      /\ forall v n, 0 <= n -> 0 <= v < 2 ^ (8 * n) ->
           int_to_bytes P v n = to_bytes_big v n) ->
  0 < ds ->
  (forall m, List.length (mac m) = Z.to_nat ds) ->
  exists calc_block,
    _get_pbkdf2_looper P ds = Ok calc_block
    /\ forall d rounds,
         List.length d = Z.to_nat ds ->
         calc_block mac d rounds = Ok (xor_iter mac (Z.to_nat (rounds - 1)) d d).
Proof.
  intros [Hbh|[(Hbh & Hmod & H4 & H8)|(Hbh & Hint)]] Hds Hmac;
    unfold _get_pbkdf2_looper; rewrite Hbh.
  - exists (_pbkdf2_looper ds). split; [reflexivity|]. intros d rounds Hd.
    rewrite <- (Z2Nat.id ds) at 1 by lia.
    now apply _pbkdf2_looper_xor.
  - destruct (_get_pbkdf2_looper_unpack_lanes P ds Hmod Hds) as (fmt & Hf & Hsz & Hone).
    exists (unpack_helper P fmt). split; [exact Hf|]. intros d rounds Hd.
    apply unpack_helper_xor; [intros m; now rewrite Hmac| |congruence].
    intros Hl. apply Hone in Hl. destruct Hl as [?|[H64 ?]]; [contradiction|].
    now apply H8.
  - exists (_pbkdf2_looper_hexlify P). split; [reflexivity|]. intros d rounds Hd.
    apply (_pbkdf2_looper_hexlify_xor P mac (Z.to_nat ds)); [exact Hmac|lia|exact Hint|exact Hd].
Qed.

(** C1 (as amended).  For a descriptor of an algorithm whose digests have the
    declared size and whose [block_size] is at least 16, for [rounds >= 1],
    [keylen >= 1] and [block_count = ceil(keylen / digest_size) <= 2^32 - 1],
    when no accelerated provider takes the descriptor and the builtin helper
    is the from-bytes one, or the unpack one with a [digest_size] that is a
    multiple of 4 and whose format has more than one lane (any multiple of 4
    but 4, and but 8 on a 64 bit machine), or the hexlify one with an
    [int_to_bytes] that writes big-endian octets: [pbkdf2_hmac] returns the
    standard PBKDF2 result computed with
    [mac = compile_hmac(descriptor, secret)], which is the standard HMAC
    keyed with [secret]. *)
Theorem pbkdf2_hmac_builtin (P : Platform) (digest : digest_arg)
    (secret salt : bytes) (rounds keylen : Z) (st st1 : State)
    (info : HashInfo) (alg : HashAlg) :
  lookup_hash P digest false st = (Ok info, st1) ->
  describes P info alg -> digest_len_ok alg ->
  16 <= alg_block_size alg ->
  0 < alg_digest_size alg ->
  1 <= rounds -> 1 <= keylen ->
  (keylen + alg_digest_size alg - 1) / alg_digest_size alg <= MAX_UINT32 ->
  builtin_path P info ->
  builtin_helper P = Some FromBytes
  \/ (builtin_helper P = Some Unpack
      /\ alg_digest_size alg mod 4 = 0 /\ alg_digest_size alg <> 4
      /\ (_have_64_bit P = true -> alg_digest_size alg <> 8))
  \/ (builtin_helper P = Some Hexlify
      /\ forall v n, 0 <= n -> 0 <= v < 2 ^ (8 * n) ->
           int_to_bytes P v n = to_bytes_big v n) ->
  exists mac,
    compile_hmac P digest secret false st1 = (Ok (SingleShot mac info), st1)
    /\ (forall m, mac m = HMAC_spec alg secret m)
    /\ pbkdf2_hmac P digest secret salt rounds (Some keylen) st
       = (Ok (PBKDF2_spec mac salt rounds keylen
                ((keylen + alg_digest_size alg - 1) / alg_digest_size alg)), st1).
Proof.
  intros Hl Hd Hlen H16 Hds Hr Hk Hbc Hpath Hbh.
  pose proof (lookup_hash_again P digest false st st1 info Hl) as Hl1.
  pose proof (compile_hmac_describes P digest secret false st1 st1 info alg
                Hl1 Hd Hlen H16) as Hc. cbv zeta in Hc.
  eexists. split; [exact Hc|]. split; [intros m; reflexivity|].
  assert (Hmac : forall m, List.length (HMAC_spec alg secret m)
                           = Z.to_nat (alg_digest_size alg))
    by (intros m; apply (hmac_single_length alg); [exact Hlen|lia]).
  destruct (every_looper_xor P (alg_digest_size alg) (HMAC_spec alg secret)
              Hbh Hds Hmac) as (calc_block & Hcalc & Hxor).
  apply (pbkdf2_hmac_by_looper P digest secret salt rounds keylen st st1 info alg
           calc_block); try assumption.
  intros d Hdl. now apply Hxor.
Qed.

Lemma pbkdf2_hmac_builtin_witness :
  (exists mac,
     compile_hmac Toy.py3 (DName "sha256") [x70] false
       (snd (lookup_hash Toy.py3 (DName "sha256") false initial_state))
     = (Ok (SingleShot mac
              {| oid := 0; name := "sha256"; iana_name := "sha-256";
                 aliases := ["sha2-256"]; info_const := Some (StaticConst 1);
                 digest_size := Some 32; block_size := Some 64 |}),
        snd (lookup_hash Toy.py3 (DName "sha256") false initial_state))
     /\ (forall m, mac m = HMAC_spec Toy.sha256 [x70] m)
     /\ pbkdf2_hmac Toy.py3 (DName "sha256") [x70] [x73] 2 (Some 40) initial_state
        = (Ok (PBKDF2_spec mac [x73] 2 40 ((40 + 32 - 1) / 32)),
           snd (lookup_hash Toy.py3 (DName "sha256") false initial_state)))
  /\ (exists mac,
        (forall m, mac m = HMAC_spec Toy.eight [x70] m)
        /\ fst (pbkdf2_hmac toy_unpack32 (DName "eight") [x70] [x73] 2 (Some 20)
                  initial_state)
           = Ok (PBKDF2_spec mac [x73] 2 20 ((20 + 8 - 1) / 8))).
Proof.
  split.
  - apply (pbkdf2_hmac_builtin Toy.py3 (DName "sha256") [x70] [x73] 2 40
             initial_state _ _ Toy.sha256).
    + vm_compute. reflexivity.
    + exists (StaticConst 1). repeat split.
    + apply toy_digest_len_ok. lia.
    + simpl. lia.
    + simpl. lia.
    + lia.
    + lia.
    + vm_compute. discriminate.
    + split; exists None; split; reflexivity.
    + left. reflexivity.
  - destruct (pbkdf2_hmac_builtin toy_unpack32 (DName "eight") [x70] [x73] 2 20
                initial_state
                (snd (lookup_hash toy_unpack32 (DName "eight") false initial_state))
                {| oid := 0; name := "eight"; iana_name := "eight"; aliases := [];
                   info_const := Some (StaticConst 5); digest_size := Some 8;
                   block_size := Some 16 |} Toy.eight)
      as (mac & _ & Hm & Hp).
    + vm_compute. reflexivity.
    + exists (StaticConst 5). repeat split.
    + apply toy_digest_len_ok. lia.
    + simpl. lia.
    + simpl. lia.
    + lia.
    + lia.
    + vm_compute. discriminate.
    + split; exists None; split; reflexivity.
    + right. left. split; [reflexivity|]. split; [reflexivity|].
      split; [simpl; lia|]. intros H. discriminate H.
    + exists mac. split; [exact Hm|]. rewrite Hp. reflexivity.
Defined.

(** ** Length and prefixes of the derived key *)

Lemma pbkdf2_T_length (prf : bytes -> bytes) (len : nat) (salt : bytes) (i : Z)
    (n : nat) :
  (forall m, List.length (prf m) = len) ->
  List.length (pbkdf2_T prf salt i n) = len.
Proof.
  intros H. rewrite pbkdf2_T_xor_iter. apply (xor_iter_length prf len H). apply H.
Qed.

Lemma concat_blocks_length (f : Z -> bytes) (len : nat) (l : list Z) :
  (forall i, List.length (f i) = len) ->
  List.length (concat (map f l)) = (List.length l * len)%nat.
Proof.
  intros H. induction l as [|i l IH]; [reflexivity|].
  cbn [map concat List.length]. rewrite length_app, H, IH. lia.
Qed.

Lemma block_indices_length (bc : Z) : List.length (block_indices bc) = Z.to_nat bc.
Proof. unfold block_indices. now rewrite length_map, length_seq. Qed.

Lemma block_indices_app (a b : Z) :
  0 <= a <= b ->
  exists rest, block_indices b = block_indices a ++ rest.
Proof.
  intros H. unfold block_indices.
  replace (Z.to_nat b) with (Z.to_nat a + Z.to_nat (b - a))%nat by lia.
  rewrite seq_app, map_app. eexists. reflexivity.
Qed.

Lemma PBKDF2_spec_length (prf : bytes -> bytes) (ds : Z) (salt : bytes)
    (rounds keylen : Z) :
  0 < ds -> 0 <= keylen ->
  (forall m, List.length (prf m) = Z.to_nat ds) ->
  List.length (PBKDF2_spec prf salt rounds keylen ((keylen + ds - 1) / ds))
  = Z.to_nat keylen.
Proof.
  intros Hds Hk H. unfold PBKDF2_spec. rewrite length_firstn.
  rewrite (concat_blocks_length _ (Z.to_nat ds))
    by (intros i; now apply pbkdf2_T_length).
  rewrite block_indices_length.
  pose proof (block_count_ceiling keylen ds Hds) as Hc. cbv zeta in Hc.
  assert (0 <= (keylen + ds - 1) / ds) by (apply Z.div_pos; lia).
  nia.
Qed.

Lemma PBKDF2_spec_prefix (prf : bytes -> bytes) (ds : Z) (salt : bytes)
    (rounds k1 k2 : Z) :
  0 < ds -> 0 <= k1 <= k2 ->
  (forall m, List.length (prf m) = Z.to_nat ds) ->
  PBKDF2_spec prf salt rounds k1 ((k1 + ds - 1) / ds)
  = firstn (Z.to_nat k1) (PBKDF2_spec prf salt rounds k2 ((k2 + ds - 1) / ds)).
Proof.
  intros Hds Hk H. unfold PBKDF2_spec.
  rewrite firstn_firstn. replace (Init.Nat.min (Z.to_nat k1) (Z.to_nat k2))
    with (Z.to_nat k1) by lia.
  pose proof (block_count_ceiling k1 ds Hds) as Hc. cbv zeta in Hc.
  assert (H0 : 0 <= (k1 + ds - 1) / ds) by (apply Z.div_pos; lia).
  assert (Hle : (k1 + ds - 1) / ds <= (k2 + ds - 1) / ds)
    by (apply Z.div_le_mono; lia).
  destruct (block_indices_app _ _ (conj H0 Hle)) as (rest & ->).
  rewrite map_app, concat_app.
  rewrite firstn_app.
  rewrite (concat_blocks_length _ (Z.to_nat ds))
    by (intros i; now apply pbkdf2_T_length).
  rewrite block_indices_length.
  replace (Z.to_nat k1 - Z.to_nat ((k1 + ds - 1) / ds) * Z.to_nat ds)%nat
    with 0%nat by nia.
  cbn [firstn]. now rewrite app_nil_r.
Qed.

(** X12.  On the builtin path (from-bytes helper, or unpack helper with a
    [digest_size] that is a multiple of 4 and at least 16), the key that
    [pbkdf2_hmac] derives has exactly [keylen] octets, and the key for a
    shorter [keylen] is the beginning of the key for a longer one. *)
Theorem pbkdf2_hmac_prefix (P : Platform) (digest : digest_arg)
    (secret salt : bytes) (rounds k1 k2 : Z) (st st1 : State)
    (info : HashInfo) (alg : HashAlg) :
  lookup_hash P digest false st = (Ok info, st1) ->
  describes P info alg -> digest_len_ok alg ->
  16 <= alg_block_size alg ->
  0 < alg_digest_size alg ->
  1 <= rounds -> 1 <= k1 <= k2 ->
  (k2 + alg_digest_size alg - 1) / alg_digest_size alg <= MAX_UINT32 ->
  builtin_path P info ->
  builtin_helper P = Some FromBytes
  \/ (builtin_helper P = Some Unpack
      /\ alg_digest_size alg mod 4 = 0 /\ 16 <= alg_digest_size alg) ->
  exists key1 key2,
    pbkdf2_hmac P digest secret salt rounds (Some k1) st = (Ok key1, st1)
    /\ pbkdf2_hmac P digest secret salt rounds (Some k2) st = (Ok key2, st1)
    /\ Z.of_nat (List.length key1) = k1 /\ Z.of_nat (List.length key2) = k2
    /\ key1 = firstn (Z.to_nat k1) key2.
Proof.
  intros Hl Hd Hlen H16 Hds Hr Hk Hbc Hpath Hbh.
  assert (Hmac : forall m, List.length (HMAC_spec alg secret m)
                           = Z.to_nat (alg_digest_size alg))
    by (intros m; apply (hmac_single_length alg); [exact Hlen|lia]).
  destruct (builtin_looper_xor P (alg_digest_size alg) (HMAC_spec alg secret)
              Hbh ltac:(lia) Hmac) as (calc_block & Hcalc & Hxor).
  assert (Hbc1 : (k1 + alg_digest_size alg - 1) / alg_digest_size alg <= MAX_UINT32).
  { etransitivity; [|exact Hbc]. apply Z.div_le_mono; lia. }
  do 2 eexists.
  split; [apply (pbkdf2_hmac_by_looper P digest secret salt rounds k1 st st1 info alg
                   calc_block); try assumption; try lia;
          intros d Hdl; now apply Hxor|].
  split; [apply (pbkdf2_hmac_by_looper P digest secret salt rounds k2 st st1 info alg
                   calc_block); try assumption; try lia;
          intros d Hdl; now apply Hxor|].
  split; [rewrite (PBKDF2_spec_length _ (alg_digest_size alg)) by (assumption || lia); lia|].
  split; [rewrite (PBKDF2_spec_length _ (alg_digest_size alg)) by (assumption || lia); lia|].
  apply (PBKDF2_spec_prefix _ (alg_digest_size alg)); assumption || lia.
Qed.

Lemma pbkdf2_hmac_prefix_witness :
  exists key1 key2,
    pbkdf2_hmac Toy.py3 (DName "sha256") [x70] [x73] 2 (Some 5) initial_state
    = (Ok key1, Toy.resolved Toy.py3 "sha256")
    /\ pbkdf2_hmac Toy.py3 (DName "sha256") [x70] [x73] 2 (Some 40) initial_state
       = (Ok key2, Toy.resolved Toy.py3 "sha256")
    /\ Z.of_nat (List.length key1) = 5 /\ Z.of_nat (List.length key2) = 40
    /\ key1 = firstn (Z.to_nat 5) key2.
Proof.
  apply (pbkdf2_hmac_prefix Toy.py3 (DName "sha256") [x70] [x73] 2 5 40
           initial_state _ Toy.sha256_info Toy.sha256).
  - vm_compute. reflexivity.
  - exists (StaticConst 1). repeat split.
  - apply toy_digest_len_ok. lia.
  - simpl. lia.
  - simpl. lia.
  - lia.
  - lia.
  - vm_compute. discriminate.
  - split; exists None; split; reflexivity.
  - left. reflexivity.
Defined.

(** ** The shape of the rows returned by [_get_hash_aliases] *)

Lemma string_forall_app (p : ascii -> bool) (a b : string) :
  string_forall p (a ++ b) = string_forall p a && string_forall p b.
Proof.
  induction a as [|c a IH]; [reflexivity|].
  simpl. rewrite IH. now rewrite andb_assoc.
Qed.

Lemma string_forall_impl (p q : ascii -> bool) (s : string) :
  (forall c, p c = true -> q c = true) ->
  string_forall p s = true -> string_forall q s = true.
Proof.
  intros H. induction s as [|c s IH]; [reflexivity|].
  cbn [string_forall]. rewrite !andb_true_iff. intros [Hc Hs].
  split; [now apply H|now apply IH].
Qed.

Lemma string_forall_map (p : ascii -> bool) (f : ascii -> ascii) (s : string) :
  (forall c, p (f c) = true) -> string_forall p (map_string f s) = true.
Proof.
  intros H. induction s as [|c s IH]; [reflexivity|].
  cbn [map_string string_forall]. now rewrite H, IH.
Qed.

Lemma string_forall_map_impl (p q : ascii -> bool) (f : ascii -> ascii) (s : string) :
  (forall c, p c = true -> q (f c) = true) ->
  string_forall p s = true -> string_forall q (map_string f s) = true.
Proof.
  intros H. induction s as [|c s IH]; [reflexivity|].
  cbn [map_string string_forall]. rewrite !andb_true_iff. intros [Hc Hs].
  split; [now apply H|now apply IH].
Qed.

Lemma string_forall_drop (p : ascii -> bool) (n : nat) (s : string) :
  string_forall p s = true -> string_forall p (drop_chars n s) = true.
Proof.
  revert s. induction n as [|n IH]; intros s H; [exact H|].
  destruct s as [|c s]; [reflexivity|]. cbn [drop_chars].
  cbn [string_forall] in H. apply andb_true_iff in H. now apply IH.
Qed.

Lemma string_forall_take (p : ascii -> bool) (n : nat) (s : string) :
  string_forall p s = true -> string_forall p (take_chars n s) = true.
Proof.
  revert s. induction n as [|n IH]; intros s H; [reflexivity|].
  destruct s as [|c s]; [reflexivity|]. cbn [take_chars string_forall].
  cbn [string_forall] in H. apply andb_true_iff in H. destruct H as [Hc Hs].
  now rewrite Hc, IH.
Qed.

Lemma all_digits_forall (s : string) : all_digits s = string_forall is_digit s.
Proof. induction s as [|c s IH]; [reflexivity|]. cbn. now rewrite IH. Qed.

Lemma span_letters_forall (s : string) :
  string_forall is_letter (fst (span_letters s)) = true.
Proof.
  induction s as [|c s IH]; [reflexivity|]. cbn [span_letters].
  destruct (is_letter c) eqn:E; [|reflexivity].
  destruct (span_letters s) as [l r]. cbn [fst string_forall] in *.
  now rewrite E, IH.
Qed.

Lemma or_else_some {A : Type} (x y : option A) (a : A) :
  or_else x y = Some a -> x = Some a \/ y = Some a.
Proof. destruct x; simpl; auto. Qed.

Lemma opt_hyphen_some {A : Type} (k : string -> option A) (s : string) (a : A) :
  opt_hyphen k s = Some a -> exists t, k t = Some a.
Proof.
  unfold opt_hyphen. destruct s as [|c s]; [eauto|].
  destruct (Ascii.eqb_spec c "-") as [->|Hne].
  - intros H. apply or_else_some in H. destruct H; eauto.
  - destruct c as [[] [] [] [] [] [] [] []]; eauto.
    intros H. apply or_else_some in H. destruct H; eauto.
Qed.

Lemma opt_digit_some {A : Type} (k : option string -> string -> option A)
    (s : string) (a : A) :
  opt_digit k s = Some a ->
  exists rev t, k rev t = Some a
    /\ match rev with Some r => string_forall is_digit r = true | None => True end.
Proof.
  unfold opt_digit. destruct s as [|c s]; [intros H; exists None; eauto|].
  destruct (is_digit c) eqn:E; [|intros H; exists None; eauto].
  intros H. apply or_else_some in H. destruct H as [H|H].
  - exists (Some (String c "")). eexists. split; [exact H|]. cbn. now rewrite E.
  - exists None. eauto.
Qed.

Lemma digits_then_end_some (n : nat) (s : string) (size : option string) :
  digits_then_end n s = Some size ->
  match size with Some sz => string_forall is_digit sz = true | None => True end.
Proof.
  unfold digits_then_end.
  destruct (_ && _ && _) eqn:E; [|discriminate].
  intros H. injection H as <-.
  apply andb_true_iff in E. destruct E as [E _].
  apply andb_true_iff in E. destruct E as [_ E].
  now rewrite <- all_digits_forall.
Qed.

Lemma match_size_some (s : string) (size : option string) :
  match_size s = Some size ->
  match size with Some sz => string_forall is_digit sz = true | None => True end.
Proof.
  unfold match_size. intros H. apply or_else_some in H. destruct H as [H|H].
  - now apply digits_then_end_some in H.
  - apply or_else_some in H. destruct H as [H|H].
    + now apply digits_then_end_some in H.
    + destruct (at_end s); [|discriminate]. now injection H as <-.
Qed.

Lemma re_match_name_groups (s : string) (g : string * option string * option string) :
  re_match_name s = Some g -> groups_ok g.
Proof.
  unfold re_match_name. pose proof (span_letters_forall s) as Hl.
  destruct (span_letters s) as [letters rest]. cbn [fst] in Hl.
  destruct (String.eqb letters ""); [discriminate|].
  intros H. apply opt_hyphen_some in H. destruct H as (t & H).
  apply opt_digit_some in H. destruct H as (rev & t' & H & Hrev).
  apply opt_hyphen_some in H. destruct H as (t'' & H).
  destruct (match_size t'') as [size|] eqn:E; [|discriminate].
  injection H as <-. apply match_size_some in E. repeat split; assumption.
Qed.

Lemma check_table_in_In (table : list (list string)) (n : string) (row : list string) :
  check_table_in table n = Some row -> In row table.
Proof.
  induction table as [|r table IH]; [discriminate|]. cbn [check_table_in].
  destruct (str_in n r).
  - intros H. injection H as <-. now left.
  - intros H. right. now apply IH.
Qed.

Lemma table_rows_shape (row : list string) :
  In row _known_hash_names -> row_shape row = true.
Proof.
  assert (H : forallb row_shape _known_hash_names = true) by (vm_compute; reflexivity).
  rewrite forallb_forall in H. apply H.
Qed.

Lemma letter_plain (c : ascii) :
  is_letter c = true ->
  negb (existsb (Ascii.eqb c) ["-"; " "; "/"; "_"]%char) = true.
Proof. destruct c as [[] [] [] [] [] [] [] []]; vm_compute; congruence. Qed.

Lemma digit_plain (c : ascii) :
  is_digit c = true ->
  negb (existsb (Ascii.eqb c) ["-"; " "; "/"; "_"]%char) = true.
Proof. destruct c as [[] [] [] [] [] [] [] []]; vm_compute; congruence. Qed.

Lemma plain_sub (cs : list ascii) (c : ascii) :
  (forall x, In x cs -> In x ["-"; " "; "/"; "_"]%char) ->
  negb (existsb (Ascii.eqb c) ["-"; " "; "/"; "_"]%char) = true ->
  negb (existsb (Ascii.eqb c) cs) = true.
Proof.
  intros Hsub H. apply negb_true_iff. apply negb_true_iff in H.
  destruct (existsb (Ascii.eqb c) cs) eqn:E; [|reflexivity].
  apply existsb_exists in E. destruct E as (x & Hx & Hcx).
  rewrite <- H. symmetry. apply existsb_exists. exists x. split; [now apply Hsub|exact Hcx].
Qed.

Lemma clean_name_chars (name : string) :
  no_char_of ["_"; " "; "/"]%char (clean_name name) = true.
Proof.
  unfold clean_name, no_char_of.
  set (p := fun c => negb (existsb (Ascii.eqb c) ["_"; " "; "/"]%char)).
  assert (H : string_forall p (sub_separators (lower (strip name))) = true).
  { apply string_forall_map. intros c. unfold p.
    destruct c as [[] [] [] [] [] [] [] []]; reflexivity. }
  destruct (startswith _ _); [|exact H].
  destruct (endswith _ _).
  - apply string_forall_take. now apply string_forall_drop.
  - now apply string_forall_drop.
Qed.

(** X13.  Whatever it is given, [_get_hash_aliases] returns either a row of
    [_known_hash_names] or a pair of names, hence always the two names that
    [HashInfo] reads; the first (hashlib) name holds no hyphen, space or
    slash, the second (IANA) name no underscore, space or slash. *)
Theorem _get_hash_aliases_shape (name : string) :
  let names := _get_hash_aliases name in
  (In names _known_hash_names \/ List.length names = 2%nat)
  /\ (2 <= List.length names)%nat
  /\ no_char_of ["-"; " "; "/"]%char (nth 0 names "") = true
  /\ no_char_of ["_"; " "; "/"]%char (nth 1 names "") = true.
Proof.
  cbv zeta. unfold _get_hash_aliases.
  pose proof (clean_name_chars name) as Hclean.
  set (n := clean_name name) in *.
  assert (Hrow : forall row, In row _known_hash_names ->
            (In row _known_hash_names \/ List.length row = 2%nat)
            /\ (2 <= List.length row)%nat
            /\ no_char_of ["-"; " "; "/"]%char (nth 0 row "") = true
            /\ no_char_of ["_"; " "; "/"]%char (nth 1 row "") = true).
  { intros row Hin. pose proof (table_rows_shape row Hin) as H.
    unfold row_shape in H. rewrite !andb_true_iff in H.
    destruct H as [[H1 H2] H3]. apply Nat.leb_le in H1. auto. }
  unfold aliases_of_clean.
  destruct (check_table n) as [row|] eqn:Et.
  { apply Hrow. now apply check_table_in_In in Et. }
  destruct (re_match_name n) as [[[letters rev] size]|] eqn:Er.
  - apply re_match_name_groups in Er. destruct Er as (Hl & Hrev & Hsize).
    set (p4 := fun c => negb (existsb (Ascii.eqb c) ["-"; " "; "/"; "_"]%char)).
    assert (Pl : string_forall p4 letters = true)
      by (revert Hl; apply string_forall_impl, letter_plain).
    assert (Pd : forall s, string_forall is_digit s = true -> string_forall p4 s = true)
      by (intros s; apply string_forall_impl, digit_plain).
    assert (W1 : forall s, string_forall p4 s = true ->
                           no_char_of ["-"; " "; "/"]%char s = true).
    { intros s. apply string_forall_impl. intros c. apply plain_sub.
      simpl. tauto. }
    assert (W2 : forall s, string_forall p4 s = true ->
                           no_char_of ["_"; " "; "/"]%char s = true).
    { intros s. apply string_forall_impl. intros c. apply plain_sub.
      simpl. tauto. }
    destruct rev as [r|], size as [sz|];
      match goal with
      | |- context [check_table ?x] =>
          destruct (check_table x) as [row|] eqn:Et2;
            [apply Hrow; now apply check_table_in_In in Et2|]
      end;
      (split; [now right|]); (split; [simpl; lia|]); cbn [nth]; split.
    all: unfold no_char_of in *; rewrite ?string_forall_app;
      rewrite ?(W1 _ Pl), ?(W2 _ Pl);
      try rewrite (W1 _ (Pd _ Hrev)); try rewrite (W2 _ (Pd _ Hrev));
      try rewrite (W1 _ (Pd _ Hsize)); try rewrite (W2 _ (Pd _ Hsize));
      reflexivity.
  - split; [now right|]. split; [simpl; lia|]. cbn [nth]. split; [|exact Hclean].
    unfold replace_hyphens, no_char_of.
    revert Hclean. unfold no_char_of. apply string_forall_map_impl.
    intros c. destruct c as [[] [] [] [] [] [] [] []]; vm_compute; congruence.
Qed.

(** ** The SCRAM prefix and suffix *)

(** Trimming, lowering and replacing the separators of any spelling of a
    plain name gives the name back. *)
Lemma normal_written (m v : string) :
  plain_name m = true -> written_as m v -> sub_separators (lower (strip v)) = m.
Proof.
  unfold plain_name. rewrite !andb_true_iff. intros [[Ha Hf] Hl].
  intros (pre & v0 & post & -> & Hpre & Hpost & Hs).
  unfold strip.
  rewrite (lstrip_spaces pre _ Hpre), (lstrip_app_spelling m v0 post Hf Hs).
  rewrite (rstrip_app_spaces v0 post Hpost).
  destruct (rstrip_spelling m v0 Hl Hs) as [-> _].
  apply (spelling_sub_lower m v0 Ha Hs).
Qed.

Lemma all_name_chars_app (a b : string) :
  all_name_chars (a ++ b) = all_name_chars a && all_name_chars b.
Proof.
  induction a as [|c a IH]; [reflexivity|]. simpl. rewrite IH.
  now rewrite andb_assoc.
Qed.

Lemma last_ok_app (a b : string) :
  b <> ""%string -> last_ok (a ++ b) = last_ok b.
Proof.
  intros Hb. induction a as [|c a IH]; [reflexivity|]. simpl.
  destruct (a ++ b)%string eqn:E; [|exact IH].
  destruct a; [simpl in E; contradiction|discriminate].
Qed.

Lemma drop_chars_app (a b : string) : drop_chars (String.length a) (a ++ b) = b.
Proof. induction a as [|c a IH]; [reflexivity|]. simpl. exact IH. Qed.

Lemma take_chars_app (a b : string) : take_chars (String.length a) (a ++ b) = a.
Proof. induction a as [|c a IH]; [reflexivity|]. simpl. now rewrite IH. Qed.

Lemma string_length_app (a b : string) :
  String.length (a ++ b) = (String.length a + String.length b)%nat.
Proof. induction a as [|c a IH]; [reflexivity|]. simpl. now rewrite IH. Qed.

Lemma string_app_nil_r (s : string) : (s ++ "")%string = s.
Proof.
  induction s as [|c s IH]; [reflexivity|].
  change (String c s ++ "")%string with (String c (s ++ "")). now rewrite IH.
Qed.

Lemma char_variant_refl (c : ascii) : name_char c = true -> char_variant c c = true.
Proof.
  destruct c as [[] [] [] [] [] [] [] []]; vm_compute; intros H;
    first [reflexivity | discriminate H].
Qed.

Lemma spelling_refl (n : string) : all_name_chars n = true -> spelling n n = true.
Proof.
  induction n as [|c n IH]; [reflexivity|]. cbn [spelling all_name_chars].
  rewrite andb_true_iff. intros [Hc Hn]. now rewrite (char_variant_refl c Hc), IH.
Qed.

(** X14.  The helper for the SCRAM protocol: for a plain name [n] that has
    itself neither the prefix nor the suffix, any spelling of ["scram-" n]
    and of ["scram-" n "-plus"] is normalised exactly as [n] is. *)
Theorem scram_names (n v v' : string) :
  plain_name n = true ->
  startswith "scram-" n = false -> endswith "-plus" n = false ->
  written_as ("scram-" ++ n) v -> written_as ("scram-" ++ n ++ "-plus") v' ->
  clean_name v = n /\ clean_name v' = n
  /\ _get_hash_aliases v = _get_hash_aliases n
  /\ _get_hash_aliases v' = _get_hash_aliases n.
Proof.
  intros Hp Hscram Hplus Hv Hv'.
  pose proof Hp as Hp0. unfold plain_name in Hp0. rewrite !andb_true_iff in Hp0.
  destruct Hp0 as [[Ha Hf] Hl].
  assert (Hne : n <> ""%string) by (destruct n; [discriminate|discriminate]).
  assert (Hn : clean_name n = n).
  { apply clean_written; [exact Hp|exact Hscram|].
    exists ""%string, n, ""%string.
    split; [simpl; now rewrite string_app_nil_r|].
    repeat split. now apply spelling_refl. }
  assert (H1 : clean_name v = n).
  { unfold clean_name. rewrite (normal_written ("scram-" ++ n) v); [| |exact Hv].
    - change (startswith "scram-" ("scram-" ++ n)) with (startswith "" n).
      cbn [startswith].
      change (drop_chars 6 ("scram-" ++ n)) with n. now rewrite Hplus.
    - unfold plain_name. rewrite all_name_chars_app, Ha.
      rewrite (last_ok_app "scram-" n Hne), Hl. reflexivity. }
  assert (H2 : clean_name v' = n).
  { unfold clean_name.
    rewrite (normal_written ("scram-" ++ n ++ "-plus") v'); [| |exact Hv'].
    - change (startswith "scram-" ("scram-" ++ n ++ "-plus")) with (startswith "" n).
      cbn [startswith].
      change (drop_chars 6 ("scram-" ++ n ++ "-plus")) with (n ++ "-plus")%string.
      assert (He : endswith "-plus" (n ++ "-plus") = true).
      { unfold endswith. rewrite string_length_app.
        replace (String.length n + String.length "-plus" - String.length "-plus")%nat
          with (String.length n) by lia.
        rewrite drop_chars_app. rewrite String.eqb_refl.
        rewrite andb_true_r. apply Nat.leb_le. lia. }
      rewrite He. rewrite string_length_app.
      replace (String.length n + String.length "-plus" - 5)%nat
        with (String.length n) by (simpl; lia).
      apply take_chars_app.
    - unfold plain_name.
      change ("scram-" ++ n ++ "-plus")%string
        with ("scram-" ++ (n ++ "-plus"))%string.
      rewrite all_name_chars_app, all_name_chars_app, Ha.
      rewrite (last_ok_app "scram-" (n ++ "-plus")), (last_ok_app n "-plus");
        [reflexivity|discriminate|].
      destruct n; discriminate. }
  split; [exact H1|]. split; [exact H2|].
  unfold _get_hash_aliases. now rewrite H1, H2, Hn.
Qed.

Lemma scram_names_witness :
  _get_hash_aliases "SCRAM-SHA-1" = _get_hash_aliases "sha-1"
  /\ _get_hash_aliases " scram_sha_1_plus " = _get_hash_aliases "sha-1".
Proof.
  destruct (scram_names "sha-1" "SCRAM-SHA-1" " scram_sha_1_plus ")
    as (_ & _ & H1 & H2); try reflexivity.
  - exists ""%string, "SCRAM-SHA-1"%string, ""%string. repeat split.
  - exists " "%string, "scram_sha_1_plus"%string, " "%string. repeat split.
  - split; assumption.
Defined.

(** ** PBKDF1: chaining *)

Lemma pbkdf1_full (P : Platform) (digest : digest_arg) (secret salt : bytes)
    (rounds : Z) (st st1 : State) (info : HashInfo) (alg : HashAlg) :
  lookup_hash P digest false st = (Ok info, st1) ->
  describes P info alg -> digest_len_ok alg -> 1 <= rounds ->
  pbkdf1 P digest secret salt rounds None st
  = (Ok (iter_digest alg (Z.to_nat rounds) (secret ++ salt)), st1)
  /\ Z.of_nat (List.length (iter_digest alg (Z.to_nat rounds) (secret ++ salt)))
     = alg_digest_size alg.
Proof.
  intros Hl (c & Hc & Hcons & Hds & _) Hlen Hr.
  assert (Hn : Z.of_nat (List.length (iter_digest alg (Z.to_nat rounds) (secret ++ salt)))
               = alg_digest_size alg).
  { destruct (Z.to_nat rounds) as [|n] eqn:E; [lia|]. cbn [iter_digest]. apply Hlen. }
  split; [|exact Hn].
  unfold pbkdf1, bind. rewrite Hl.
  destruct (Z.ltb_spec rounds 1) as [?|_]; [lia|]. rewrite Hds.
  unfold ret at 1. rewrite Hc. unfold lift.
  rewrite (pbkdf1_loop_iter P c alg _ _ Hcons). unfold ret, slice_to.
  pose proof (Hlen []) as H0.
  destruct (Z.ltb_spec (alg_digest_size alg) 0) as [?|_]; [lia|].
  rewrite <- Hn, Nat2Z.id, firstn_all. reflexivity.
Qed.

Lemma iter_digest_add (alg : HashAlg) (a b : nat) (block : bytes) :
  iter_digest alg (a + b) block = iter_digest alg b (iter_digest alg a block).
Proof.
  induction b as [|b IH]; [now rewrite Nat.add_0_r|].
  rewrite Nat.add_succ_r. cbn [iter_digest]. now rewrite IH.
Qed.

(** X15.  [pbkdf1] with the digest's full output chains: the key for
    [r1 + r2] rounds is the key that [r2] more rounds derive from the key for
    [r1] rounds used as the secret with an empty salt; every such key has
    [digest_size] octets; and the result depends on [secret] and [salt] only
    through their concatenation. *)
Theorem pbkdf1_chain (P : Platform) (digest : digest_arg) (secret salt : bytes)
    (r1 r2 : Z) (st st1 : State) (info : HashInfo) (alg : HashAlg) :
  lookup_hash P digest false st = (Ok info, st1) ->
  describes P info alg -> digest_len_ok alg ->
  1 <= r1 -> 1 <= r2 ->
  exists key1 key2,
    pbkdf1 P digest secret salt r1 None st = (Ok key1, st1)
    /\ pbkdf1 P digest secret salt (r1 + r2) None st = (Ok key2, st1)
    /\ pbkdf1 P digest key1 [] r2 None st = (Ok key2, st1)
    /\ Z.of_nat (List.length key1) = alg_digest_size alg
    /\ Z.of_nat (List.length key2) = alg_digest_size alg
    /\ forall secret' salt' rounds keylen,
         secret' ++ salt' = secret ++ salt ->
         pbkdf1 P digest secret' salt' rounds keylen st
         = pbkdf1 P digest secret salt rounds keylen st.
Proof.
  intros Hl Hd Hlen H1 H2.
  destruct (pbkdf1_full P digest secret salt r1 st st1 info alg Hl Hd Hlen H1)
    as [Ha La].
  destruct (pbkdf1_full P digest secret salt (r1 + r2) st st1 info alg Hl Hd Hlen
              ltac:(lia)) as [Hb Lb].
  destruct (pbkdf1_full P digest (iter_digest alg (Z.to_nat r1) (secret ++ salt)) []
              r2 st st1 info alg Hl Hd Hlen H2) as [Hc _].
  do 2 eexists. split; [exact Ha|]. split; [exact Hb|].
  split.
  { rewrite Hc. rewrite app_nil_r, <- iter_digest_add.
    replace (Z.to_nat r1 + Z.to_nat r2)%nat with (Z.to_nat (r1 + r2)) by lia.
    reflexivity. }
  split; [exact La|]. split; [exact Lb|].
  intros secret' salt' rounds keylen E. unfold pbkdf1. now rewrite E.
Qed.

Lemma pbkdf1_chain_witness :
  exists key1 key2,
    pbkdf1 Toy.py3 (DName "sha256") [x70] [x73] 2 None initial_state
    = (Ok key1, Toy.resolved Toy.py3 "sha256")
    /\ pbkdf1 Toy.py3 (DName "sha256") [x70] [x73] (2 + 3) None initial_state
       = (Ok key2, Toy.resolved Toy.py3 "sha256")
    /\ pbkdf1 Toy.py3 (DName "sha256") key1 [] 3 None initial_state
       = (Ok key2, Toy.resolved Toy.py3 "sha256")
    /\ Z.of_nat (List.length key1) = 32
    /\ Z.of_nat (List.length key2) = 32.
Proof.
  destruct (pbkdf1_chain Toy.py3 (DName "sha256") [x70] [x73] 2 3 initial_state
              (Toy.resolved Toy.py3 "sha256") Toy.sha256_info Toy.sha256)
    as (key1 & key2 & H1 & H2 & H3 & H4 & H5 & _).
  - vm_compute. reflexivity.
  - exists (StaticConst 1). repeat split.
  - apply toy_digest_len_ok. lia.
  - lia.
  - lia.
  - exists key1, key2. repeat split; assumption.
Defined.

(** ** HMAC: keys that give the same MAC *)

Lemma hmac_key_schedule_long (alg : HashAlg) (key : bytes) :
  digest_len_ok alg -> alg_digest_size alg <= alg_block_size alg ->
  alg_block_size alg < Z.of_nat (List.length key) ->
  hmac_key_schedule alg (alg_H alg key) = hmac_key_schedule alg key.
Proof.
  intros Hlen Hle Hk. unfold hmac_key_schedule.
  destruct (Z.gtb_spec (Z.of_nat (List.length key)) (alg_block_size alg)) as [_|?];
    [|lia].
  rewrite (Hlen key).
  destruct (Z.gtb_spec (alg_digest_size alg) (alg_block_size alg)) as [?|_]; [lia|].
  now rewrite (Hlen key).
Qed.

Lemma hmac_key_schedule_zeros (alg : HashAlg) (key : bytes) (n : Z) :
  0 <= n -> Z.of_nat (List.length key) + n <= alg_block_size alg ->
  hmac_key_schedule alg (key ++ zeros n) = hmac_key_schedule alg key.
Proof.
  intros Hn Hk. unfold hmac_key_schedule, zeros. cbv zeta.
  assert (Hl : Z.of_nat (List.length (key ++ repeat x00 (Z.to_nat n)))
               = Z.of_nat (List.length key) + n)
    by (rewrite length_app, repeat_length; lia).
  destruct (Z.gtb_spec (Z.of_nat (List.length (key ++ repeat x00 (Z.to_nat n))))
              (alg_block_size alg)) as [?|_]; [lia|].
  destruct (Z.gtb_spec (Z.of_nat (List.length key)) (alg_block_size alg))
    as [?|_]; [lia|].
  rewrite Hl, <- app_assoc, <- repeat_app.
  replace (Z.to_nat n + Z.to_nat (alg_block_size alg - (Z.of_nat (List.length key) + n)))%nat
    with (Z.to_nat (alg_block_size alg - Z.of_nat (List.length key))) by lia.
  reflexivity.
Qed.

(** X16.  For a descriptor with [16 <= block_size] and
    [digest_size <= block_size], the function that [compile_hmac] returns
    for a key longer than [block_size] is the one it returns for the digest
    of that key, and zero octets added to the end of a key, up to
    [block_size] in all, do not change the function. *)
Theorem compile_hmac_equivalent_keys (P : Platform) (digest : digest_arg)
    (key : bytes) (st st1 : State) (info : HashInfo) (alg : HashAlg) :
  lookup_hash P digest false st = (Ok info, st1) ->
  describes P info alg -> digest_len_ok alg ->
  16 <= alg_block_size alg -> alg_digest_size alg <= alg_block_size alg ->
  exists mac,
    compile_hmac P digest key false st = (Ok (SingleShot mac info), st1)
    /\ (alg_block_size alg < Z.of_nat (List.length key) ->
        exists mac',
          compile_hmac P digest (alg_H alg key) false st
          = (Ok (SingleShot mac' info), st1)
          /\ forall msg, mac' msg = mac msg)
    /\ (forall n,
          0 <= n -> Z.of_nat (List.length key) + n <= alg_block_size alg ->
          exists mac',
            compile_hmac P digest (key ++ zeros n) false st
            = (Ok (SingleShot mac' info), st1)
            /\ forall msg, mac' msg = mac msg).
Proof.
  intros Hl Hd Hlen H16 Hle.
  pose proof (fun k => compile_hmac_describes P digest k false st st1 info alg
                         Hl Hd Hlen H16) as Hc. cbv zeta in Hc.
  eexists. split; [apply Hc|]. split.
  - intros Hk. eexists. split; [apply Hc|]. intros msg.
    now rewrite (hmac_key_schedule_long alg key Hlen Hle Hk).
  - intros n Hn Hk. eexists. split; [apply Hc|]. intros msg.
    now rewrite (hmac_key_schedule_zeros alg key n Hn Hk).
Qed.

Lemma compile_hmac_equivalent_keys_witness :
  exists mac mac',
    compile_hmac Toy.py3 (DName "sha256") [x6b] false initial_state
    = (Ok (SingleShot mac Toy.sha256_info), Toy.resolved Toy.py3 "sha256")
    /\ compile_hmac Toy.py3 (DName "sha256") ([x6b] ++ zeros 3) false initial_state
       = (Ok (SingleShot mac' Toy.sha256_info), Toy.resolved Toy.py3 "sha256")
    /\ forall msg, mac' msg = mac msg.
Proof.
  destruct (compile_hmac_equivalent_keys Toy.py3 (DName "sha256") [x6b] initial_state
              (Toy.resolved Toy.py3 "sha256") Toy.sha256_info Toy.sha256)
    as (mac & H1 & _ & H3).
  - vm_compute. reflexivity.
  - exists (StaticConst 1). repeat split.
  - apply toy_digest_len_ok. lia.
  - simpl. lia.
  - simpl. lia.
  - destruct (H3 3) as (mac' & H4 & H5); [lia|simpl; lia|].
    exists mac, mac'. split; [exact H1|]. split; [exact H4|exact H5].
Defined.

(** * The registry *)

(** ** Handler names *)

Lemma at_end_cases (s : string) :
  at_end s = true <-> s = ""%string \/ s = Registry.newline.
Proof.
  unfold at_end. rewrite orb_true_iff, !String.eqb_eq. reflexivity.
Qed.

Lemma string_app_cons (c : ascii) (a b : string) :
  (String c a ++ b)%string = String c (a ++ b).
Proof. reflexivity. Qed.

Lemma string_app_assoc (a b c : string) :
  ((a ++ b) ++ c)%string = (a ++ (b ++ c))%string.
Proof.
  induction a as [|x a IH]; [reflexivity|].
  rewrite !string_app_cons. now rewrite IH.
Qed.

Lemma name_re_tail_sound (s : string) (one : bool) :
  Registry.name_re_tail one s = true ->
  exists mid c tail,
    s = (mid ++ String c tail)%string
    /\ string_forall Registry.word_char mid = true
    /\ Registry.last_char c = true /\ at_end tail = true
    /\ (one = false -> mid <> ""%string).
Proof.
  revert one. induction s as [|x s IH]; intros one; [discriminate|].
  cbn [Registry.name_re_tail]. rewrite orb_true_iff, !andb_true_iff.
  intros [[Hx Ht]|[[Ho Hx] He]].
  - destruct (IH true Ht) as (mid & c & tail & -> & Hm & Hc & Hend & _).
    exists (String x mid), c, tail. repeat split; try assumption.
    + cbn [string_forall]. now rewrite Hx, Hm.
    + discriminate.
  - exists ""%string, x, s. repeat split; try assumption.
    intros ->. discriminate.
Qed.

Lemma name_re_tail_complete (mid : string) (c : ascii) (tail : string) (one : bool) :
  string_forall Registry.word_char mid = true ->
  Registry.last_char c = true -> at_end tail = true ->
  one = true \/ mid <> ""%string ->
  Registry.name_re_tail one (mid ++ String c tail) = true.
Proof.
  revert one. induction mid as [|x mid IH]; intros one Hm Hc He Ho.
  - destruct Ho as [->|Ho]; [|contradiction].
    change (Registry.name_re_tail true (String c tail) = true).
    cbn [Registry.name_re_tail]. rewrite Hc, He. cbn. apply orb_true_r.
  - rewrite string_app_cons. cbn [Registry.name_re_tail].
    cbn [string_forall] in Hm. apply andb_true_iff in Hm. destruct Hm as [Hx Hm].
    rewrite Hx, (IH true Hm Hc He (or_introl eq_refl)). reflexivity.
Qed.

Lemma last_is_app (p : ascii -> bool) (a : string) (c : ascii) :
  Registry.last_is p (a ++ String c "") = p c.
Proof.
  induction a as [|x a IH]; [reflexivity|].
  rewrite string_app_cons. cbn [Registry.last_is].
  destruct (a ++ String c "")%string eqn:E; [|exact IH].
  destruct a; discriminate.
Qed.

Lemma last_is_split (p : ascii -> bool) (s : string) :
  Registry.last_is p s = true ->
  exists a c, s = (a ++ String c "")%string /\ p c = true.
Proof.
  induction s as [|x s IH]; [discriminate|]. cbn [Registry.last_is].
  destruct s as [|y s].
  - intros H. exists ""%string, x. split; [reflexivity|exact H].
  - intros H. destruct (IH H) as (a & c & E & Hc).
    exists (String x a), c. rewrite string_app_cons, <- E. split; [reflexivity|exact Hc].
Qed.

Lemma word_char_lower (c : ascii) :
  Registry.word_char c = true \/ c = ascii_of_nat 10 -> lower_char c = c.
Proof.
  intros [H| ->]; [|reflexivity]. revert H.
  destruct c as [[] [] [] [] [] [] [] []]; vm_compute; intros H;
    first [reflexivity | discriminate H].
Qed.

Lemma lower_word (s : string) :
  string_forall Registry.word_char s = true -> lower s = s.
Proof.
  induction s as [|c s IH]; [reflexivity|]. cbn [string_forall].
  rewrite andb_true_iff. intros [Hc Hs]. unfold lower in *. cbn [map_string].
  now rewrite (word_char_lower c (or_introl Hc)), IH.
Qed.

Lemma lower_app (a b : string) : lower (a ++ b) = (lower a ++ lower b)%string.
Proof.
  unfold lower. induction a as [|c a IH]; [reflexivity|].
  rewrite string_app_cons. cbn [map_string]. now rewrite IH.
Qed.

Lemma last_char_word (c : ascii) :
  Registry.last_char c = true -> Registry.word_char c = true.
Proof. unfold Registry.word_char. now intros ->. Qed.

Lemma lower_letter_word (c : ascii) :
  Registry.lower_letter c = true -> Registry.word_char c = true.
Proof. unfold Registry.word_char, Registry.last_char. now intros ->. Qed.

Lemma str_in_iff (x : string) (l : list string) : str_in x l = true <-> In x l.
Proof.
  induction l as [|y l IH]; cbn [str_in In]; [split; [discriminate|tauto]|].
  rewrite orb_true_iff, String.eqb_eq, IH. split; intros [H|H]; auto.
Qed.

(** The pattern [_name_re], read as a set of strings. *)
Lemma _name_re_match_iff (name : string) :
  Registry._name_re_match name = true
  <-> exists core,
        (name = core \/ name = (core ++ Registry.newline)%string)
        /\ (3 <= String.length core)%nat
        /\ Registry.first_is Registry.lower_letter core = true
        /\ string_forall Registry.word_char core = true
        /\ Registry.last_is Registry.last_char core = true.
Proof.
  split.
  - destruct name as [|f s]; [discriminate|]. cbn [Registry._name_re_match].
    rewrite andb_true_iff. intros [Hf Ht].
    destruct (name_re_tail_sound s false Ht) as (mid & c & tail & -> & Hm & Hc & He & Hne).
    exists (String f (mid ++ String c "")). split; [|split; [|split; [|split]]].
    + apply at_end_cases in He. destruct He as [->| ->]; [now left|right].
      rewrite string_app_cons, string_app_assoc. reflexivity.
    + cbn [String.length]. rewrite string_length_app. cbn [String.length].
      destruct mid; [now destruct Hne|]. cbn [String.length]. lia.
    + exact Hf.
    + cbn [string_forall]. rewrite string_forall_app. cbn [string_forall].
      now rewrite (lower_letter_word f Hf), Hm, (last_char_word c Hc).
    + change (String f (mid ++ String c "")) with (String f mid ++ String c "")%string.
      now rewrite last_is_app.
  - intros (core & Hname & Hlen & Hf & Hw & Hl).
    destruct core as [|f rest]; [discriminate|]. cbn [Registry.first_is] in Hf.
    cbn [string_forall] in Hw. apply andb_true_iff in Hw. destruct Hw as [_ Hw].
    assert (Hrest : rest <> ""%string) by (intros ->; simpl in Hlen; lia).
    assert (Hl' : Registry.last_is Registry.last_char rest = true).
    { cbn [Registry.last_is] in Hl. destruct rest; [contradiction|exact Hl]. }
    destruct (last_is_split _ _ Hl') as (mid & c & -> & Hc).
    rewrite string_forall_app in Hw. apply andb_true_iff in Hw. destruct Hw as [Hm _].
    assert (Hmid : mid <> ""%string).
    { intros ->. cbn [String.length] in Hlen. rewrite string_length_app in Hlen.
      cbn [String.length] in Hlen. lia. }
    destruct Hname as [-> | ->].
    + cbn [Registry._name_re_match]. rewrite Hf.
      now rewrite (name_re_tail_complete mid c "" false Hm Hc eq_refl (or_intror Hmid)).
    + rewrite string_app_cons. cbn [Registry._name_re_match]. rewrite Hf.
      rewrite string_app_assoc.
      change (String c "" ++ Registry.newline)%string with (String c Registry.newline).
      now rewrite (name_re_tail_complete mid c Registry.newline false Hm Hc eq_refl
                     (or_intror Hmid)).
Qed.

Lemma _validate_handler_name_ok_iff (name : string) :
  Registry._validate_handler_name name = Registry.Ok true
  <-> Registry.valid_handler_name name.
Proof.
  unfold Registry._validate_handler_name, Registry.valid_handler_name. split.
  - destruct (String.eqb name ""); [discriminate|].
    destruct (String.eqb (lower name) name); [|discriminate]. cbn [negb].
    destruct (Registry._name_re_match name) eqn:Er; [|discriminate]. cbn [negb].
    destruct (Registry.contains "__" name) eqn:Ec; [discriminate|].
    destruct (str_in name Registry._forbidden_names) eqn:Ef; [discriminate|].
    intros _. apply _name_re_match_iff in Er.
    destruct Er as (core & H1 & H2 & H3 & H4 & H5).
    exists core. repeat split; try assumption.
    intros Hin. apply str_in_iff in Hin. congruence.
  - intros (core & Hname & Hlen & Hf & Hw & Hl & Hc & Hin).
    assert (Hr : Registry._name_re_match name = true).
    { apply _name_re_match_iff. exists core. auto. }
    assert (Hlow : lower name = name).
    { destruct Hname as [-> | ->]; [now apply lower_word|].
      rewrite lower_app, (lower_word core Hw). reflexivity. }
    assert (Hne : String.eqb name "" = false).
    { apply String.eqb_neq. intros ->. discriminate Hr. }
    rewrite Hne, Hlow, String.eqb_refl, Hr, Hc. cbn [negb].
    destruct (str_in name Registry._forbidden_names) eqn:Ef; [|reflexivity].
    apply str_in_iff in Ef. contradiction.
Qed.

Lemma _validate_handler_name_cases (name : string) :
  Registry._validate_handler_name name = Registry.Ok true
  \/ exists msg, Registry._validate_handler_name name
                 = Registry.Err (Registry.ValueError msg).
Proof.
  unfold Registry._validate_handler_name.
  destruct (String.eqb name ""); [eauto|].
  destruct (negb (String.eqb (lower name) name)); [eauto|].
  destruct (negb (Registry._name_re_match name)); [eauto|].
  destruct (Registry.contains "__" name); [eauto|].
  destruct (str_in name Registry._forbidden_names); eauto.
Qed.

(** X17.  [_validate_handler_name] returns [True] exactly for the names of
    three characters or more that begin with a letter a-z, go on with
    letters, digits and underscores, end with a letter or digit, hold no
    double underscore and are not reserved, and for such a name followed by
    one newline, which the [$] of the pattern lets through (so that a
    reserved word followed by a newline is accepted); it never returns
    [False], and every other name raises [ValueError]. *)
Theorem _validate_handler_name_spec (name : string) :
  (Registry._validate_handler_name name = Registry.Ok true
   <-> Registry.valid_handler_name name)
  /\ (~ Registry.valid_handler_name name ->
      exists msg, Registry._validate_handler_name name
                  = Registry.Err (Registry.ValueError msg))
  /\ Registry._validate_handler_name (String.append "all" Registry.newline)
     = Registry.Ok true
  /\ (exists msg, Registry._validate_handler_name "all"
                  = Registry.Err (Registry.ValueError msg)).
Proof.
  split; [apply _validate_handler_name_ok_iff|]. split.
  - intros Hn. destruct (_validate_handler_name_cases name) as [H|H]; [|exact H].
    apply _validate_handler_name_ok_iff in H. contradiction.
  - split; [reflexivity|]. eexists. reflexivity.
Qed.

(** ** Registering a path *)

Ltac registry_unfold :=
  unfold Registry.bind, Registry.ret, Registry.raise, Registry.lift,
    Registry.get_handler, Registry.set_handler, Registry.get_location,
    Registry.set_location, Registry.warn, Registry.or_default.

Lemma contains_char_count (c : ascii) (s : string) :
  Registry.contains (String c "") s = Nat.ltb 0 (Registry.count_char c s).
Proof.
  induction s as [|x s IH]; [reflexivity|].
  cbn [Registry.contains Registry.count_char startswith]. rewrite IH.
  rewrite (Ascii.eqb_sym x c).
  destruct (Ascii.eqb c x); cbn; [reflexivity|].
  now destruct (Registry.count_char c s).
Qed.

Lemma from_first_none (c : ascii) (s : string) :
  Registry.count_char c s = 0%nat -> Registry.from_first c s = ""%string.
Proof.
  induction s as [|x s IH]; [reflexivity|]. cbn [Registry.count_char Registry.from_first].
  destruct (Ascii.eqb x c); [discriminate|]. exact IH.
Qed.

(** X18.  [register_crypt_handler_path] stores the path under the name, and
    changes nothing else, exactly when the name is a valid handler name and
    the path has no leading dot, at most one colon and no dot from the colon
    on; otherwise it raises [ValueError] and leaves the registry as it was.
    After a successful call the name is known to [_has_crypt_handler], but
    not as a loaded handler unless it was one before. *)
Theorem register_crypt_handler_path_spec (name path : string) (st : Registry.State) :
  (Registry.valid_handler_name name /\ Registry.path_ok path = true ->
   Registry.register_crypt_handler_path name path st
   = (Registry.Ok tt, Registry.with_location st name path)
   /\ Registry._has_crypt_handler name false (Registry.with_location st name path)
      = (Registry.Ok true, Registry.with_location st name path)
   /\ Registry._has_crypt_handler name true (Registry.with_location st name path)
      = (fst (Registry._has_crypt_handler name true st),
         Registry.with_location st name path))
  /\ (~ (Registry.valid_handler_name name /\ Registry.path_ok path = true) ->
      exists msg,
        Registry.register_crypt_handler_path name path st
        = (Registry.Err (Registry.ValueError msg), st)).
Proof.
  assert (Hrun : Registry.register_crypt_handler_path name path st
    = match Registry._validate_handler_name name with
      | Registry.Ok _ =>
          if Registry.path_ok path
          then (Registry.Ok tt, Registry.with_location st name path)
          else ((if startswith "." path
                 then Registry.Err (Registry.ValueError "path cannot start with '.'")
                 else if Nat.ltb 1 (Registry.count_char ":" path)
                 then Registry.Err
                        (Registry.ValueError "path cannot have more than one ':'")
                 else Registry.Err
                        (Registry.ValueError "path cannot have '.' to right of ':'")),
                st)
      | Registry.Err e => (Registry.Err e, st)
      end).
  { unfold Registry.register_crypt_handler_path, Registry.path_ok. registry_unfold.
    destruct (Registry._validate_handler_name name) as [b|e]; [|reflexivity].
    destruct (startswith "." path); [reflexivity|]. cbn [negb andb].
    rewrite (contains_char_count ":" path).
    destruct (Registry.count_char ":" path) as [|[|n]] eqn:E; cbn.
    - rewrite (from_first_none _ _ E). reflexivity.
    - destruct (Registry.contains "." (Registry.from_first ":" path)); reflexivity.
    - reflexivity. }
  split.
  - intros [Hv Hp]. apply _validate_handler_name_ok_iff in Hv.
    rewrite Hrun, Hv, Hp. split; [reflexivity|].
    unfold Registry._has_crypt_handler, Registry.with_location. cbn.
    rewrite lookup_insert_eq. split.
    + rewrite (bool_decide_eq_true_2 (is_Some (Some path))) by eauto.
      now rewrite orb_true_r.
    + now rewrite !orb_false_r.
  - intros Hn. rewrite Hrun.
    destruct (_validate_handler_name_cases name) as [Hv|(msg & Hv)]; rewrite Hv.
    + destruct (Registry.path_ok path) eqn:Hp.
      * exfalso. apply Hn. split; [now apply _validate_handler_name_ok_iff|reflexivity].
      * destruct (startswith "." path); [eauto|]. destruct (Nat.ltb _ _); eauto.
    + eauto.
Qed.

Lemma register_crypt_handler_path_spec_witness :
  Registry.register_crypt_handler_path "myhash" "myapp.helpers:MyHash"
    Registry.initial_state
  = (Registry.Ok tt,
     Registry.with_location Registry.initial_state "myhash" "myapp.helpers:MyHash").
Proof.
  destruct (register_crypt_handler_path_spec "myhash" "myapp.helpers:MyHash"
              Registry.initial_state) as [H _].
  apply H. split; [apply _validate_handler_name_ok_iff|]; reflexivity.
Defined.

(** ** The built-in handlers *)

Lemma distinct_NoDup (names : list string) :
  Registry.distinct names = true -> NoDup names.
Proof.
  induction names as [|n rest IH]; [constructor|]. cbn [Registry.distinct].
  rewrite andb_true_iff, negb_true_iff. intros [Hn Hr].
  constructor; [|now apply IH].
  intros Hin. apply list_elem_of_In, str_in_iff in Hin. congruence.
Qed.

(** X19.  The table of built-in handlers names no handler twice, and every
    entry would pass [register_crypt_handler_path]: the name is a valid
    handler name and the path is a non-empty module path without colon.
    The initial [_locations] holds exactly the entries of the table, and
    registering any of them again changes nothing. *)
Theorem builtin_locations_valid (name path : string) :
  NoDup (map fst Registry.builtin_locations)
  /\ (Registry._locations Registry.initial_state !! name = Some path
      <-> In (name, path) Registry.builtin_locations)
  /\ (In (name, path) Registry.builtin_locations ->
      Registry.valid_handler_name name
      /\ Registry.path_ok path = true
      /\ Registry.contains ":" path = false /\ path <> ""%string
      /\ Registry.register_crypt_handler_path name path Registry.initial_state
         = (Registry.Ok tt, Registry.initial_state)).
Proof.
  assert (Hnd : NoDup (map fst Registry.builtin_locations)).
  { apply distinct_NoDup. vm_compute. reflexivity. }
  assert (Hlk : Registry._locations Registry.initial_state !! name = Some path
                <-> In (name, path) Registry.builtin_locations).
  { unfold Registry.initial_state. cbn [Registry._locations].
    rewrite <- list_elem_of_In. symmetry. apply elem_of_list_to_map.
    apply distinct_NoDup. vm_compute. reflexivity. }
  split; [exact Hnd|]. split; [exact Hlk|]. intros Hin.
  assert (Hall : forallb Registry.builtin_entry_ok Registry.builtin_locations = true)
    by (vm_compute; reflexivity).
  rewrite forallb_forall in Hall. specialize (Hall _ Hin).
  unfold Registry.builtin_entry_ok in Hall. cbn [fst snd] in Hall.
  rewrite !andb_true_iff, !negb_true_iff in Hall.
  destruct Hall as [[[Hv Hp] Hc] He].
  assert (Hv' : Registry._validate_handler_name name = Registry.Ok true).
  { destruct (Registry._validate_handler_name name) as [[|]|]; congruence. }
  split; [now apply _validate_handler_name_ok_iff|].
  split; [exact Hp|]. split; [exact Hc|].
  split; [intros ->; discriminate He|].
  unfold Registry.register_crypt_handler_path. registry_unfold.
  rewrite Hv', Hc.
  assert (Hs : startswith "." path = false).
  { unfold Registry.path_ok in Hp. rewrite !andb_true_iff, negb_true_iff in Hp. tauto. }
  rewrite Hs. f_equal.
  apply Hlk in Hin.
  destruct Registry.initial_state as [h l w] eqn:E. cbn [Registry._locations] in *.
  f_equal. now apply insert_id.
Qed.

Lemma builtin_locations_valid_witness :
  Registry.register_crypt_handler_path "md5_crypt" "passlib.handlers.md5_crypt"
    Registry.initial_state
  = (Registry.Ok tt, Registry.initial_state).
Proof.
  destruct (builtin_locations_valid "md5_crypt" "passlib.handlers.md5_crypt")
    as (_ & _ & H).
  apply H. vm_compute. tauto.
Defined.

(** ** Registering a handler *)

Lemma valid_not_private (n : string) :
  Registry.valid_handler_name n -> startswith "_" n = false.
Proof.
  intros (core & Hn & _ & Hf & _).
  destruct core as [|f rest]; [discriminate|]. cbn [Registry.first_is] in Hf.
  assert (Hc : Ascii.eqb "_" f = false).
  { revert Hf. destruct f as [[] [] [] [] [] [] [] []]; vm_compute; congruence. }
  destruct Hn as [-> | ->]; [|rewrite string_app_cons]; cbn [startswith];
    now rewrite Hc.
Qed.

(** What [register_crypt_handler] does, check by check. *)
Lemma register_crypt_handler_run (h : Registry.object) (force : bool)
    (attr : option string) (st : Registry.State) :
  Registry.register_crypt_handler h force attr st
  = if negb (Registry.is_crypt_handler h)
    then (Registry.Err (Registry.ExpectedTypeError "handler"), st)
    else if negb (Registry.truth h) then (Registry.Err Registry.AssertionError, st)
    else
      match Registry._validate_handler_name (Registry.name h) with
      | Registry.Err e => (Registry.Err e, st)
      | Registry.Ok _ =>
          if match attr with
             | Some a => negb (String.eqb a "") && negb (String.eqb a (Registry.name h))
             | None => false
             end
          then (Registry.Err
                  (Registry.ValueError
                     "handlers must be stored only under their own name"), st)
          else
            match Registry._handlers st !! Registry.name h with
            | Some o =>
                if Registry.truth o then
                  if bool_decide (o = h) then (Registry.Ok tt, st)
                  else if force
                  then (Registry.Ok tt, Registry.with_handler st (Registry.name h) h)
                  else (Registry.Err
                          (Registry.KeyError
                             "another handler has already been registered"), st)
                else (Registry.Ok tt, Registry.with_handler st (Registry.name h) h)
            | None => (Registry.Ok tt, Registry.with_handler st (Registry.name h) h)
            end
      end.
Proof.
  unfold Registry.register_crypt_handler.
  destruct (negb (Registry.is_crypt_handler h)); [reflexivity|].
  destruct (negb (Registry.truth h)); [reflexivity|].
  registry_unfold.
  destruct (Registry._validate_handler_name (Registry.name h)); [|reflexivity].
  destruct (match attr with Some _ => _ | None => _ end); [reflexivity|].
  destruct (Registry._handlers st !! Registry.name h) as [o|]; [|reflexivity].
  destruct (Registry.truth o); [|reflexivity].
  destruct (bool_decide (o = h)); [reflexivity|]. destruct force; reflexivity.
Qed.

(** What a successful [register_crypt_handler] leaves behind. *)
Lemma register_crypt_handler_ok (h : Registry.object) (force : bool)
    (attr : option string) (st st' : Registry.State) :
  Registry.register_crypt_handler h force attr st = (Registry.Ok tt, st') ->
  Registry.is_crypt_handler h = true /\ Registry.truth h = true
  /\ Registry.valid_handler_name (Registry.name h)
  /\ (st' = st \/ st' = Registry.with_handler st (Registry.name h) h)
  /\ Registry._handlers st' !! Registry.name h = Some h.
Proof.
  rewrite register_crypt_handler_run.
  destruct (Registry.is_crypt_handler h); [|discriminate].
  destruct (Registry.truth h); [|discriminate]. cbn [negb].
  destruct (_validate_handler_name_cases (Registry.name h)) as [Hv|(m & Hv)];
    rewrite Hv; [|discriminate].
  destruct (match attr with Some _ => _ | None => _ end); [discriminate|].
  assert (Hnew : Registry._handlers
                   (Registry.with_handler st (Registry.name h) h) !! Registry.name h
                 = Some h) by (cbn; apply lookup_insert_eq).
  apply _validate_handler_name_ok_iff in Hv.
  destruct (Registry._handlers st !! Registry.name h) as [o|] eqn:Eo.
  - destruct (Registry.truth o).
    + destruct (bool_decide_reflect (o = h)) as [->|_].
      * intros H; injection H as <-. auto 10.
      * destruct force; [|discriminate]. intros H; injection H as <-. auto 10.
    + intros H; injection H as <-. auto 10.
  - intros H; injection H as <-. auto 10.
Qed.

(** X20.  After [register_crypt_handler] has returned, the handler passed
    the checks, it is the entry of [_handlers] under its own name, no other
    entry, no path and no warning has changed, and [get_crypt_handler], the
    proxy attribute and [_has_crypt_handler] find it under that name without
    importing anything and without changing the registry. *)
Theorem register_then_get (E : Registry.Env) (h : Registry.object) (force : bool)
    (attr : option string) (st st' : Registry.State) :
  Registry.register_crypt_handler h force attr st = (Registry.Ok tt, st') ->
  Registry.is_crypt_handler h = true /\ Registry.truth h = true
  /\ Registry.valid_handler_name (Registry.name h)
  /\ Registry._handlers st' !! Registry.name h = Some h
  /\ (forall n, n <> Registry.name h ->
        Registry._handlers st' !! n = Registry._handlers st !! n)
  /\ Registry._locations st' = Registry._locations st
  /\ Registry.warnings st' = Registry.warnings st
  /\ (forall default,
        Registry.get_crypt_handler E (Registry.name h) default st'
        = (Registry.Ok h, st'))
  /\ Registry.proxy_getattr E (Registry.name h) st' = (Registry.Ok h, st')
  /\ Registry._has_crypt_handler (Registry.name h) true st' = (Registry.Ok true, st').
Proof.
  intros H. destruct (register_crypt_handler_ok h force attr st st' H)
    as (Hc & Ht & Hv & Hst & Hl).
  pose proof (valid_not_private _ Hv) as Hp.
  assert (Hget : forall default,
            Registry.get_crypt_handler E (Registry.name h) default st'
            = (Registry.Ok h, st')).
  { intros default. unfold Registry.get_crypt_handler. rewrite Hp.
    registry_unfold. now rewrite Hl. }
  split; [exact Hc|]. split; [exact Ht|]. split; [exact Hv|]. split; [exact Hl|].
  split; [|split; [|split; [|split; [exact Hget|split]]]].
  - intros n Hn. destruct Hst as [->| ->]; [reflexivity|].
    cbn. now apply lookup_insert_ne.
  - destruct Hst as [->| ->]; reflexivity.
  - destruct Hst as [->| ->]; reflexivity.
  - unfold Registry.proxy_getattr. rewrite Hp. unfold Registry.bind.
    rewrite Hget, Ht. reflexivity.
  - unfold Registry._has_crypt_handler. rewrite Hl.
    rewrite (bool_decide_eq_true_2 (is_Some (Some h))) by eauto. reflexivity.
Qed.

Lemma register_then_get_witness :
  Registry.get_crypt_handler {| Registry.import_ := fun _ st => (Registry.Err (Registry.Raised "ImportError"), st) |}
    "myhash" None
    (Registry.with_handler Registry.initial_state "myhash"
       {| Registry.oid := 1; Registry.is_crypt_handler := true;
          Registry.truth := true; Registry.name := "myhash" |})
  = (Registry.Ok {| Registry.oid := 1; Registry.is_crypt_handler := true;
                    Registry.truth := true; Registry.name := "myhash" |},
     Registry.with_handler Registry.initial_state "myhash"
       {| Registry.oid := 1; Registry.is_crypt_handler := true;
          Registry.truth := true; Registry.name := "myhash" |}).
Proof.
  destruct (register_then_get
              {| Registry.import_ :=
                   fun _ st => (Registry.Err (Registry.Raised "ImportError"), st) |}
              {| Registry.oid := 1; Registry.is_crypt_handler := true;
                 Registry.truth := true; Registry.name := "myhash" |}
              false None Registry.initial_state
              (Registry.with_handler Registry.initial_state "myhash"
                 {| Registry.oid := 1; Registry.is_crypt_handler := true;
                    Registry.truth := true; Registry.name := "myhash" |}))
    as (_ & _ & _ & _ & _ & _ & _ & H & _).
  - rewrite register_crypt_handler_run. reflexivity.
  - apply H.
Defined.

(** X21.  A failed [register_crypt_handler] leaves the registry as it was,
    and each exception has one cause: [ExpectedTypeError] for an object that
    is not a handler, [AssertionError] for a handler that is false,
    [ValueError] for a handler whose name is not valid or differs from the
    attribute it is stored under, and [KeyError] for a name under which
    another true object is registered while [force] is not set. *)
Theorem register_crypt_handler_errors (h : Registry.object) (force : bool)
    (attr : option string) (st st' : Registry.State) (e : Registry.exn) :
  Registry.register_crypt_handler h force attr st = (Registry.Err e, st') ->
  st' = st
  /\ match e with
     | Registry.ExpectedTypeError _ => Registry.is_crypt_handler h = false
     | Registry.AssertionError =>
         Registry.is_crypt_handler h = true /\ Registry.truth h = false
     | Registry.ValueError _ =>
         Registry.is_crypt_handler h = true /\ Registry.truth h = true
         /\ (~ Registry.valid_handler_name (Registry.name h)
             \/ exists a, attr = Some a /\ a <> ""%string /\ a <> Registry.name h)
     | Registry.KeyError _ =>
         Registry.is_crypt_handler h = true /\ Registry.truth h = true
         /\ Registry.valid_handler_name (Registry.name h)
         /\ force = false
         /\ exists other,
              Registry._handlers st !! Registry.name h = Some other
              /\ Registry.truth other = true /\ other <> h
     | _ => False
     end.
Proof.
  rewrite register_crypt_handler_run.
  destruct (Registry.is_crypt_handler h); cbn [negb];
    [|intros H; injection H as <- <-; auto].
  destruct (Registry.truth h); cbn [negb];
    [|intros H; injection H as <- <-; auto].
  destruct (_validate_handler_name_cases (Registry.name h)) as [Hv|(m & Hv)];
    rewrite Hv.
  2:{ intros H; injection H as <- <-. split; [reflexivity|].
      split; [reflexivity|]. split; [reflexivity|]. left.
      intros Hn. apply _validate_handler_name_ok_iff in Hn. congruence. }
  apply _validate_handler_name_ok_iff in Hv.
  destruct attr as [a|].
  - destruct (String.eqb_spec a "") as [->|Ha]; cbn [negb andb].
    + destruct (Registry._handlers st !! Registry.name h) as [o|] eqn:Eo;
        [|discriminate].
      destruct (Registry.truth o) eqn:To; [|discriminate].
      destruct (bool_decide_reflect (o = h)) as [->|Hne]; [discriminate|].
      destruct force; [discriminate|]. intros H; injection H as <- <-.
      split; [reflexivity|]. repeat split; try assumption. eauto.
    + destruct (String.eqb_spec a (Registry.name h)) as [->|Hn]; cbn [negb].
      * destruct (Registry._handlers st !! Registry.name h) as [o|] eqn:Eo;
          [|discriminate].
        destruct (Registry.truth o) eqn:To; [|discriminate].
        destruct (bool_decide_reflect (o = h)) as [->|Hne]; [discriminate|].
        destruct force; [discriminate|]. intros H; injection H as <- <-.
        split; [reflexivity|]. repeat split; try assumption. eauto.
      * intros H; injection H as <- <-. split; [reflexivity|].
        split; [reflexivity|]. split; [reflexivity|]. right. eauto.
  - destruct (Registry._handlers st !! Registry.name h) as [o|] eqn:Eo;
      [|discriminate].
    destruct (Registry.truth o) eqn:To; [|discriminate].
    destruct (bool_decide_reflect (o = h)) as [->|Hne]; [discriminate|].
    destruct force; [discriminate|]. intros H; injection H as <- <-.
    split; [reflexivity|]. repeat split; try assumption. eauto.
Qed.

Lemma register_crypt_handler_errors_witness :
  exists other,
    Registry._handlers
      (Registry.with_handler Registry.initial_state "myhash"
         {| Registry.oid := 1; Registry.is_crypt_handler := true;
            Registry.truth := true; Registry.name := "myhash" |}) !! "myhash"
    = Some other
    /\ Registry.truth other = true
    /\ other <> {| Registry.oid := 2; Registry.is_crypt_handler := true;
                   Registry.truth := true; Registry.name := "myhash" |}.
Proof.
  destruct (register_crypt_handler_errors
              {| Registry.oid := 2; Registry.is_crypt_handler := true;
                 Registry.truth := true; Registry.name := "myhash" |}
              false None
              (Registry.with_handler Registry.initial_state "myhash"
                 {| Registry.oid := 1; Registry.is_crypt_handler := true;
                    Registry.truth := true; Registry.name := "myhash" |})
              (Registry.with_handler Registry.initial_state "myhash"
                 {| Registry.oid := 1; Registry.is_crypt_handler := true;
                    Registry.truth := true; Registry.name := "myhash" |})
              (Registry.KeyError "another handler has already been registered"))
    as (_ & _ & _ & _ & _ & H).
  - rewrite register_crypt_handler_run. reflexivity.
  - exact H.
Defined.

(** ** Looking a handler up *)

Lemma normal_char_idem (c : ascii) :
  lower_char (if Ascii.eqb (lower_char (if Ascii.eqb c "-" then "_"%char else c)) "-"
              then "_"%char
              else lower_char (if Ascii.eqb c "-" then "_"%char else c))
  = lower_char (if Ascii.eqb c "-" then "_"%char else c).
Proof. destruct c as [[] [] [] [] [] [] [] []]; vm_compute; reflexivity. Qed.

Lemma normal_form_idem (s : string) :
  Registry.normal_form (Registry.normal_form s) = Registry.normal_form s.
Proof.
  unfold Registry.normal_form, lower, replace_hyphens.
  induction s as [|c s IH]; [reflexivity|]. cbn [map_string].
  now rewrite normal_char_idem, IH.
Qed.

(** [get_crypt_handler] for a public name that is not loaded. *)
Lemma get_crypt_handler_unloaded (E : Registry.Env) (name : string)
    (default : option Registry.object) (st : Registry.State) :
  startswith "_" name = false ->
  Registry._handlers st !! name = None ->
  Registry.get_crypt_handler E name default st
  = let alt := Registry.normal_form name in
    let st1 := if String.eqb alt name then st else Registry.with_warning st name alt in
    match (if String.eqb alt name then None else Registry._handlers st !! alt) with
    | Some o => (Registry.Ok o, st1)
    | None =>
        match Registry._locations st !! alt with
        | Some p =>
            if String.eqb p ""
            then Registry.or_default "no crypt handler found for algorithm" default st1
            else Registry.load_handler E alt p st1
        | None => Registry.or_default "no crypt handler found for algorithm" default st1
        end
    end.
Proof.
  intros Hp Hl. unfold Registry.get_crypt_handler. rewrite Hp.
  unfold Registry.bind at 1, Registry.get_handler at 1. rewrite Hl.
  fold (Registry.normal_form name). cbv zeta.
  destruct (String.eqb_spec (Registry.normal_form name) name) as [->|Hne]; cbn [negb].
  - unfold Registry.bind at 1, Registry.ret at 1.
    unfold Registry.bind at 1, Registry.get_location at 1.
    destruct (Registry._locations st !! name) as [p|];
      [destruct (String.eqb p "")|]; reflexivity.
  - unfold Registry.bind at 1. unfold Registry.bind at 1, Registry.warn at 1.
    unfold Registry.bind at 1, Registry.get_handler at 1.
    cbn [Registry._handlers Registry.ret].
    destruct (Registry._handlers st !! Registry.normal_form name) as [o|];
      [reflexivity|].
    unfold Registry.bind at 1, Registry.get_location at 1.
    cbn [Registry._locations].
    fold (Registry.with_warning st name (Registry.normal_form name)).
    destruct (Registry._locations st !! Registry.normal_form name) as [p|];
      [destruct (String.eqb p "")|]; reflexivity.
Qed.

(** X22.  A public name that is not loaded and not in normal form (lower
    case, underscores for hyphens) is looked up exactly as its normal form
    is, after one warning; the normal form is not normalised again.  A name
    in normal form that is neither loaded nor given a path ends in
    [KeyError], or in the default when there is one, and nothing changes. *)
Theorem get_crypt_handler_normal_form (E : Registry.Env) (name : string)
    (default : option Registry.object) (st : Registry.State) :
  startswith "_" name = false ->
  Registry._handlers st !! name = None ->
  let alt := Registry.normal_form name in
  Registry.normal_form alt = alt
  /\ (alt <> name -> startswith "_" alt = false ->
      Registry.get_crypt_handler E name default st
      = Registry.get_crypt_handler E alt default (Registry.with_warning st name alt))
  /\ (alt = name ->
      Registry._locations st !! name = None
      \/ Registry._locations st !! name = Some ""%string ->
      Registry.get_crypt_handler E name default st
      = (match default with
         | Some d => Registry.Ok d
         | None => Registry.Err
                     (Registry.KeyError "no crypt handler found for algorithm")
         end, st)).
Proof.
  intros Hp Hl alt. split; [apply normal_form_idem|]. split.
  - intros Hne Hpa.
    rewrite (get_crypt_handler_unloaded E name default st Hp Hl). cbv zeta.
    fold alt. destruct (String.eqb_spec alt name) as [?|_]; [contradiction|].
    destruct (Registry._handlers st !! alt) as [o|] eqn:Eo.
    + unfold Registry.get_crypt_handler. rewrite Hpa. registry_unfold.
      cbn [Registry._handlers Registry.with_warning]. now rewrite Eo.
    + rewrite (get_crypt_handler_unloaded E alt default
                 (Registry.with_warning st name alt) Hpa Eo). cbv zeta.
      pose proof (normal_form_idem name) as Hid. fold alt in Hid.
      rewrite Hid, String.eqb_refl. reflexivity.
  - intros Ha Hloc.
    rewrite (get_crypt_handler_unloaded E name default st Hp Hl). cbv zeta.
    fold alt. rewrite Ha, String.eqb_refl.
    destruct Hloc as [-> | ->]; destruct default; reflexivity.
Qed.

Lemma get_crypt_handler_normal_form_witness :
  Registry.get_crypt_handler Registry.no_import "MD5-Crypt" None Registry.initial_state
  = Registry.get_crypt_handler Registry.no_import "md5_crypt" None
      (Registry.with_warning Registry.initial_state "MD5-Crypt" "md5_crypt").
Proof.
  destruct (get_crypt_handler_normal_form Registry.no_import "MD5-Crypt" None
              Registry.initial_state) as (_ & H & _); [reflexivity|reflexivity|].
  apply H; [discriminate|reflexivity].
Defined.

(** ** Loading a handler on demand *)

(** The lazy load, step by step, for a path with at most one colon. *)
Lemma load_handler_run (E : Registry.Env) (name path : string) (st : Registry.State) :
  (Registry.count_char ":" path <= 1)%nat ->
  let modname := if Registry.contains ":" path
                 then Registry.before_first ":" path else path in
  let modattr := if Registry.contains ":" path
                 then Registry.after_first ":" path else name in
  Registry.load_handler E name path st
  = match Registry.import_ E modname st with
    | (Registry.Err e, st1) => (Registry.Err e, st1)
    | (Registry.Ok m, st1) =>
        let register :=
          match m modattr with
          | None => (Registry.Err (Registry.AttributeError modattr), st1)
          | Some h =>
              match Registry.register_crypt_handler h false (Some name) st1 with
              | (Registry.Ok _, st2) => (Registry.Ok h, st2)
              | (Registry.Err e, st2) => (Registry.Err e, st2)
              end
          end in
        match Registry._handlers st1 !! name with
        | Some o =>
            if Registry.truth o
            then (if Registry.is_crypt_handler o then Registry.Ok o
                  else Registry.Err Registry.AssertionError, st1)
            else register
        | None => register
        end
    end.
Proof.
  intros Hc. cbv zeta. unfold Registry.load_handler.
  rewrite (contains_char_count ":" path).
  assert (Hparts :
    (if Nat.ltb 0 (Registry.count_char ":" path)
     then if Nat.eqb (Registry.count_char ":" path) 1
          then Registry.ret (Registry.before_first ":" path,
                             Registry.after_first ":" path)
          else Registry.raise (Registry.ValueError "too many values to unpack")
     else Registry.ret (path, name)) st
    = (Registry.Ok
         (if Nat.ltb 0 (Registry.count_char ":" path)
          then Registry.before_first ":" path else path,
          if Nat.ltb 0 (Registry.count_char ":" path)
          then Registry.after_first ":" path else name), st)).
  { destruct (Registry.count_char ":" path) as [|[|n]]; [reflexivity|reflexivity|lia]. }
  unfold Registry.bind at 1. rewrite Hparts.
  unfold Registry.bind at 1.
  destruct (Registry.import_ E _ st) as [[m|e] st1]; [|reflexivity].
  unfold Registry.bind at 1, Registry.get_handler at 1.
  assert (Hreg : forall h,
    (Registry.bind (Registry.register_crypt_handler h false (Some name))
       (fun _ => Registry.ret h)) st1
    = match Registry.register_crypt_handler h false (Some name) st1 with
      | (Registry.Ok _, st2) => (Registry.Ok h, st2)
      | (Registry.Err e, st2) => (Registry.Err e, st2)
      end).
  { intros h. unfold Registry.bind.
    destruct (Registry.register_crypt_handler h false (Some name) st1) as [[u|e] st2];
      reflexivity. }
  destruct (Registry._handlers st1 !! name) as [o|].
  - destruct (Registry.truth o).
    + destruct (Registry.is_crypt_handler o); reflexivity.
    + destruct (m _) as [h|]; [apply Hreg|reflexivity].
  - destruct (m _) as [h|]; [apply Hreg|reflexivity].
Qed.

(** X23.  The lazy load of [get_crypt_handler], for a public name in normal
    form that is not loaded and has a non-empty path with at most one colon.
    The module named before the colon (the whole path without colon) is
    imported, and a failing import ends the call with its exception.  If
    the import itself has left a true object under the name, that object is
    returned, or [AssertionError] raised when it is no handler.  Otherwise
    the attribute named after the colon (the handler name without colon) is
    read from the module: a missing attribute is an [AttributeError]; a
    handler that carries the requested name is registered and returned,
    and the next call returns it without importing again. *)
Theorem get_crypt_handler_lazy_load (E : Registry.Env) (name path : string)
    (default : option Registry.object) (st : Registry.State) :
  startswith "_" name = false -> Registry.normal_form name = name ->
  Registry._handlers st !! name = None ->
  Registry._locations st !! name = Some path -> path <> ""%string ->
  (Registry.count_char ":" path <= 1)%nat ->
  let modname := if Registry.contains ":" path
                 then Registry.before_first ":" path else path in
  let modattr := if Registry.contains ":" path
                 then Registry.after_first ":" path else name in
  let result := Registry.get_crypt_handler E name default st in
  (forall e st1,
     Registry.import_ E modname st = (Registry.Err e, st1) ->
     result = (Registry.Err e, st1))
  /\ (forall m st1,
        Registry.import_ E modname st = (Registry.Ok m, st1) ->
        (forall o,
           Registry._handlers st1 !! name = Some o -> Registry.truth o = true ->
           result = (if Registry.is_crypt_handler o then Registry.Ok o
                     else Registry.Err Registry.AssertionError, st1))
        /\ (Registry._handlers st1 !! name = None
            \/ (exists o, Registry._handlers st1 !! name = Some o
                          /\ Registry.truth o = false) ->
            (m modattr = None ->
             result = (Registry.Err (Registry.AttributeError modattr), st1))
            /\ (forall h,
                  m modattr = Some h ->
                  Registry.is_crypt_handler h = true -> Registry.truth h = true ->
                  Registry.name h = name -> Registry.valid_handler_name name ->
                  result = (Registry.Ok h, Registry.with_handler st1 name h)
                  /\ forall default',
                       Registry.get_crypt_handler E name default'
                         (Registry.with_handler st1 name h)
                       = (Registry.Ok h, Registry.with_handler st1 name h)))).
Proof.
  intros Hp Hn Hl Hloc Hne Hc modname modattr result.
  assert (Hres : result = Registry.load_handler E name path st).
  { unfold result. rewrite (get_crypt_handler_unloaded E name default st Hp Hl).
    cbv zeta. rewrite Hn, String.eqb_refl, Hloc.
    destruct (String.eqb_spec path "") as [?|_]; [contradiction|reflexivity]. }
  rewrite Hres, (load_handler_run E name path st Hc). cbv zeta.
  fold modname modattr. split.
  - intros e st1 Hi. now rewrite Hi.
  - intros m st1 Hi. rewrite Hi. split.
    + intros o Ho Ht. now rewrite Ho, Ht.
    + intros Hnone.
      assert (Hreg : forall h,
                Registry.truth h = true -> Registry.is_crypt_handler h = true ->
                Registry.name h = name -> Registry.valid_handler_name name ->
                Registry.register_crypt_handler h false (Some name) st1
                = (Registry.Ok tt, Registry.with_handler st1 name h)).
      { intros h Hth Hch Hnm Hv.
        rewrite register_crypt_handler_run, Hch, Hth. cbn [negb].
        rewrite Hnm. apply _validate_handler_name_ok_iff in Hv. rewrite Hv.
        rewrite String.eqb_refl. cbn [negb andb]. rewrite andb_false_r.
        destruct Hnone as [->|(o & -> & ->)]; reflexivity. }
      split.
      * intros Hm. rewrite Hm.
        destruct Hnone as [->|(o & -> & ->)]; reflexivity.
      * intros h Hm Hch Hth Hnm Hv. rewrite Hm, (Hreg h Hth Hch Hnm Hv).
        split; [destruct Hnone as [->|(o & -> & ->)]; reflexivity|].
        intros default'. unfold Registry.get_crypt_handler. rewrite Hp.
        registry_unfold. cbn [Registry._handlers Registry.with_handler].
        now rewrite lookup_insert_eq.
Qed.

Lemma get_crypt_handler_lazy_load_witness :
  Registry.get_crypt_handler
    (Registry.one_module "passlib.handlers.md5_crypt" "md5_crypt"
       (Registry.handler_ 1 "md5_crypt"))
    "md5_crypt" None Registry.initial_state
  = (Registry.Ok (Registry.handler_ 1 "md5_crypt"),
     Registry.with_handler Registry.initial_state "md5_crypt"
       (Registry.handler_ 1 "md5_crypt")).
Proof.
  destruct (get_crypt_handler_lazy_load
              (Registry.one_module "passlib.handlers.md5_crypt" "md5_crypt"
                 (Registry.handler_ 1 "md5_crypt"))
              "md5_crypt" "passlib.handlers.md5_crypt" None Registry.initial_state)
    as [_ H];
    [reflexivity|reflexivity|reflexivity|vm_compute; reflexivity|discriminate
    |vm_compute; lia|].
  destruct (H _ Registry.initial_state eq_refl) as [_ H2].
  destruct (H2 (or_introl eq_refl)) as [_ H3].
  apply (H3 (Registry.handler_ 1 "md5_crypt")); try reflexivity.
  apply _validate_handler_name_ok_iff. reflexivity.
Defined.

(** ** Unloading *)

Lemma state_eq (a b : Registry.State) :
  Registry._handlers a = Registry._handlers b ->
  Registry._locations a = Registry._locations b ->
  Registry.warnings a = Registry.warnings b -> a = b.
Proof. destruct a, b. cbn. now intros -> -> ->. Qed.

(** X24.  [_unload_handler_name] removes the handler loaded under the name
    and, unless told not to, the path registered for it, and touches no
    other name; afterwards [_has_crypt_handler] does not know the name as a
    loaded handler, nor at all when the path was removed too.  Unloading a
    name that is not there changes nothing, so unloading twice is unloading
    once, and unloading undoes [register_crypt_handler_path] for a name that
    was unknown before. *)
Theorem _unload_handler_name_spec (name : string) (locations : bool)
    (st : Registry.State) :
  let st' := snd (Registry._unload_handler_name name locations st) in
  Registry._unload_handler_name name locations st = (Registry.Ok tt, st')
  /\ Registry._handlers st' !! name = None
  /\ (locations = true -> Registry._locations st' !! name = None)
  /\ (locations = false -> Registry._locations st' = Registry._locations st)
  /\ (forall n, n <> name ->
        Registry._handlers st' !! n = Registry._handlers st !! n
        /\ Registry._locations st' !! n = Registry._locations st !! n)
  /\ Registry._has_crypt_handler name true st' = (Registry.Ok false, st')
  /\ (locations = true ->
      Registry._has_crypt_handler name false st' = (Registry.Ok false, st'))
  /\ (Registry._handlers st !! name = None ->
      locations = false \/ Registry._locations st !! name = None ->
      st' = st)
  /\ Registry._unload_handler_name name locations st' = (Registry.Ok tt, st')
  /\ (forall path st1,
        Registry._handlers st !! name = None ->
        Registry._locations st !! name = None ->
        Registry.register_crypt_handler_path name path st = (Registry.Ok tt, st1) ->
        Registry._unload_handler_name name true st1 = (Registry.Ok tt, st)).
Proof.
  cbv zeta. unfold Registry._unload_handler_name. cbn [snd].
  split; [reflexivity|].
  split; [cbn; apply lookup_delete_eq|].
  split; [intros ->; cbn; apply lookup_delete_eq|].
  split; [intros ->; reflexivity|].
  split.
  { intros n Hn. cbn. split; [now apply lookup_delete_ne|].
    destruct locations; [now apply lookup_delete_ne|reflexivity]. }
  split.
  { unfold Registry._has_crypt_handler. cbn. rewrite lookup_delete_eq.
    rewrite (bool_decide_eq_false_2 (is_Some None)) by (intros [? ?]; discriminate).
    reflexivity. }
  split.
  { intros ->. unfold Registry._has_crypt_handler. cbn. rewrite !lookup_delete_eq.
    rewrite (bool_decide_eq_false_2 (is_Some None)) by (intros [? ?]; discriminate).
    reflexivity. }
  split.
  { intros Hh Hl. apply state_eq; cbn; [now apply delete_id| |reflexivity].
    destruct Hl as [->|Hl]; [reflexivity|].
    destruct locations; [now apply delete_id|reflexivity]. }
  split.
  { f_equal. apply state_eq; cbn; [apply delete_delete_eq| |reflexivity].
    destruct locations; [apply delete_delete_eq|reflexivity]. }
  intros path st1 Hh Hl Hreg. f_equal.
  assert (Hst1 : st1 = Registry.with_location st name path).
  { revert Hreg. unfold Registry.register_crypt_handler_path. registry_unfold.
    destruct (Registry._validate_handler_name name); [|discriminate].
    destruct (startswith "." path); [discriminate|].
    destruct (Registry.contains ":" path).
    - destruct (Nat.ltb 1 (Registry.count_char ":" path)); [discriminate|].
      destruct (Registry.contains "." (Registry.from_first ":" path)); [discriminate|].
      now intros H; injection H as <-.
    - now intros H; injection H as <-. }
  subst st1. apply state_eq; cbn; [now apply delete_id| |reflexivity].
  rewrite delete_insert_eq. now apply delete_id.
Qed.

Lemma _unload_handler_name_spec_witness :
  Registry._unload_handler_name "myhash" true
    (Registry.with_location Registry.initial_state "myhash" "myapp.helpers")
  = (Registry.Ok tt, Registry.initial_state).
Proof.
  destruct (_unload_handler_name_spec "myhash" true Registry.initial_state)
    as (_ & _ & _ & _ & _ & _ & _ & _ & _ & H).
  apply (H "myapp.helpers"%string); [reflexivity|vm_compute; reflexivity|].
  unfold Registry.register_crypt_handler_path. registry_unfold. reflexivity.
Defined.

(** ** Listing *)

Lemma code_inj (a b : ascii) : code a = code b -> a = b.
Proof.
  unfold code. intros H. rewrite <- (ascii_nat_embedding a), <- (ascii_nat_embedding b).
  now rewrite H.
Qed.

Lemma string_leb_refl (a : string) : Registry.string_leb a a = true.
Proof.
  induction a as [|x a IH]; [reflexivity|]. cbn [Registry.string_leb].
  rewrite Nat.eqb_refl, IH. apply orb_true_r.
Qed.

Lemma string_leb_total (a b : string) :
  Registry.string_leb a b = true \/ Registry.string_leb b a = true.
Proof.
  revert b. induction a as [|x a IH]; intros [|y b]; cbn [Registry.string_leb]; auto.
  destruct (Nat.ltb_spec (code x) (code y)); [now left|].
  destruct (Nat.ltb_spec (code y) (code x)); [now right|].
  assert (E : code x = code y) by lia.
  rewrite E, Nat.eqb_refl. cbn. apply IH.
Qed.

Lemma string_leb_trans (a b c : string) :
  Registry.string_leb a b = true -> Registry.string_leb b c = true ->
  Registry.string_leb a c = true.
Proof.
  revert b c. induction a as [|x a IH]; intros [|y b] [|z c];
    cbn [Registry.string_leb]; try discriminate; auto.
  rewrite !orb_true_iff, !andb_true_iff, !Nat.ltb_lt, !Nat.eqb_eq.
  intros [H1|[H1 H1']] [H2|[H2 H2']].
  - left. lia.
  - left. lia.
  - left. lia.
  - right. split; [lia|]. now apply (IH b c).
Qed.

Lemma string_leb_antisym (a b : string) :
  Registry.string_leb a b = true -> Registry.string_leb b a = true -> a = b.
Proof.
  revert b. induction a as [|x a IH]; intros [|y b];
    cbn [Registry.string_leb]; try discriminate; auto.
  rewrite !orb_true_iff, !andb_true_iff, !Nat.ltb_lt, !Nat.eqb_eq.
  intros [H1|[H1 H1']] [H2|[H2 H2']]; try lia.
  f_equal; [now apply code_inj|now apply IH].
Qed.

#[local] Instance string_le_total : Total Registry.string_le.
Proof. intros a b. apply string_leb_total. Qed.

#[local] Instance string_le_trans : Transitive Registry.string_le.
Proof. intros a b c. apply string_leb_trans. Qed.

#[local] Instance string_le_antisym : AntiSymm (=) Registry.string_le.
Proof. intros a b. apply string_leb_antisym. Qed.

(** X25.  [list_crypt_handlers] leaves the registry unchanged and returns
    the names that do not start with an underscore and are loaded, or,
    unless [loaded_only] is set, loaded or given a path: each such name
    once, in increasing order of [str]; these are the public names for
    which [_has_crypt_handler] answers [True], and no other list in
    increasing order holds the same names. *)
Theorem list_crypt_handlers_spec (loaded_only : bool) (st : Registry.State) :
  exists names,
    Registry.list_crypt_handlers loaded_only st = (Registry.Ok names, st)
    /\ StronglySorted Registry.string_le names
    /\ NoDup names
    /\ (forall n,
          In n names
          <-> startswith "_" n = false
              /\ (is_Some (Registry._handlers st !! n)
                  \/ (loaded_only = false /\ is_Some (Registry._locations st !! n))))
    /\ (forall n,
          In n names
          <-> startswith "_" n = false
              /\ Registry._has_crypt_handler n loaded_only st = (Registry.Ok true, st))
    /\ (forall other,
          StronglySorted Registry.string_le other -> NoDup other ->
          (forall n, In n other <-> In n names) -> other = names).
Proof.
  unfold Registry.list_crypt_handlers, Registry.sorted.
  set (all := if loaded_only then dom (Registry._handlers st)
              else dom (Registry._handlers st) ∪ dom (Registry._locations st)).
  set (public := filter (fun name => startswith "_" name = false) all).
  eexists. split; [reflexivity|].
  assert (Hperm : merge_sort Registry.string_le (elements public) ≡ₚ elements public)
    by apply merge_sort_Permutation.
  assert (Hnd : NoDup (merge_sort Registry.string_le (elements public))).
  { rewrite Hperm. apply NoDup_elements. }
  assert (Hin : forall n,
            In n (merge_sort Registry.string_le (elements public))
            <-> startswith "_" n = false
                /\ (is_Some (Registry._handlers st !! n)
                    \/ (loaded_only = false
                        /\ is_Some (Registry._locations st !! n)))).
  { intros n. rewrite <- list_elem_of_In, Hperm, elem_of_elements.
    unfold public. rewrite elem_of_filter. unfold all.
    destruct loaded_only.
    - rewrite elem_of_dom. split; [intros [? ?]; auto|].
      intros [? [?|[? _]]]; [auto|discriminate].
    - rewrite elem_of_union, !elem_of_dom. split; [intros [? [?|?]]; auto|].
      intros [? [?|[_ ?]]]; auto. }
  split; [apply StronglySorted_merge_sort; apply _|].
  split; [exact Hnd|]. split; [exact Hin|]. split.
  - intros n. rewrite Hin. unfold Registry._has_crypt_handler.
    split; intros [Hp H]; (split; [exact Hp|]).
    + f_equal. f_equal. apply orb_true_iff. destruct H as [H|[-> H]].
      * left. now apply bool_decide_eq_true_2.
      * right. cbn. now apply bool_decide_eq_true_2.
    + injection H as H. apply orb_true_iff in H. destruct H as [H|H].
      * left. now apply bool_decide_eq_true_1 in H.
      * apply andb_true_iff in H. destruct H as [Hl H].
        right. split; [now destruct loaded_only|].
        now apply bool_decide_eq_true_1 in H.
  - intros other Hs Hn Hsame.
    apply (StronglySorted_unique Registry.string_le); [exact Hs| |].
    + apply StronglySorted_merge_sort; apply _.
    + apply NoDup_Permutation; [exact Hn|exact Hnd|].
      intros n. rewrite !list_elem_of_In. apply Hsame.
Qed.

(** ** An invariant of the registry *)

Lemma registry_ok_warning (st : Registry.State) (n a : string) :
  Registry.registry_ok st -> Registry.registry_ok (Registry.with_warning st n a).
Proof. intros H. exact H. Qed.

Lemma registry_ok_location (st : Registry.State) (n p : string) :
  Registry.registry_ok st -> Registry.valid_handler_name n ->
  Registry.path_ok p = true ->
  Registry.registry_ok (Registry.with_location st n p).
Proof.
  intros [Hh Hl] Hv Hp. split; [exact Hh|]. intros k q. cbn.
  destruct (decide (k = n)) as [->|Hne].
  - rewrite lookup_insert_eq. intros H; injection H as <-. auto.
  - rewrite lookup_insert_ne by congruence. apply Hl.
Qed.

Lemma registry_ok_handler (st : Registry.State) (h : Registry.object) :
  Registry.registry_ok st ->
  Registry.is_crypt_handler h = true -> Registry.truth h = true ->
  Registry.valid_handler_name (Registry.name h) ->
  Registry.registry_ok (Registry.with_handler st (Registry.name h) h).
Proof.
  intros [Hh Hl] Hc Ht Hv. split; [|exact Hl]. intros k o. cbn.
  destruct (decide (k = Registry.name h)) as [->|Hne].
  - rewrite lookup_insert_eq. intros H; injection H as <-. auto.
  - rewrite lookup_insert_ne by congruence. apply Hh.
Qed.

Lemma register_crypt_handler_err_state (h : Registry.object) (force : bool)
    (attr : option string) (st st' : Registry.State) (e : Registry.exn) :
  Registry.register_crypt_handler h force attr st = (Registry.Err e, st') -> st' = st.
Proof.
  rewrite register_crypt_handler_run.
  destruct (negb (Registry.is_crypt_handler h)); [now intros H; injection H|].
  destruct (negb (Registry.truth h)); [now intros H; injection H|].
  destruct (Registry._validate_handler_name (Registry.name h));
    [|now intros H; injection H].
  destruct (match attr with Some _ => _ | None => _ end); [now intros H; injection H|].
  destruct (Registry._handlers st !! Registry.name h) as [o|]; [|discriminate].
  destruct (Registry.truth o); [|discriminate].
  destruct (bool_decide (o = h)); [discriminate|].
  destruct force; [discriminate|]. now intros H; injection H.
Qed.

Lemma register_crypt_handler_keeps (h : Registry.object) (force : bool)
    (attr : option string) (st st' : Registry.State) (r : Registry.Result unit) :
  Registry.registry_ok st ->
  Registry.register_crypt_handler h force attr st = (r, st') ->
  Registry.registry_ok st'.
Proof.
  intros Hok H. destruct r as [[]|e].
  - destruct (register_crypt_handler_ok h force attr st st' H)
      as (Hc & Ht & Hv & [->| ->] & _); [exact Hok|].
    now apply registry_ok_handler.
  - now rewrite (register_crypt_handler_err_state h force attr st st' e H).
Qed.

Lemma register_crypt_handler_path_keeps (name path : string)
    (st st' : Registry.State) (r : Registry.Result unit) :
  Registry.registry_ok st ->
  Registry.register_crypt_handler_path name path st = (r, st') ->
  Registry.registry_ok st'.
Proof.
  intros Hok. unfold Registry.register_crypt_handler_path, Registry.path_ok.
  registry_unfold.
  destruct (_validate_handler_name_cases name) as [Hv|(m & Hv)]; rewrite Hv;
    [|now intros H; injection H as <- <-].
  apply _validate_handler_name_ok_iff in Hv.
  destruct (startswith "." path) eqn:Es; [now intros H; injection H as <- <-|].
  rewrite (contains_char_count ":" path).
  destruct (Registry.count_char ":" path) as [|[|n]] eqn:Ec; cbn.
  - intros H; injection H as <- <-.
    apply (registry_ok_location st name path Hok Hv).
    unfold Registry.path_ok. rewrite Es, Ec, (from_first_none _ _ Ec). reflexivity.
  - destruct (Registry.contains "." (Registry.from_first ":" path)) eqn:Ed;
      intros H; injection H as <- <-; [exact Hok|].
    apply (registry_ok_location st name path Hok Hv).
    unfold Registry.path_ok. now rewrite Es, Ec, Ed.
  - now intros H; injection H as <- <-.
Qed.

Lemma or_default_state (msg : string) (default : option Registry.object)
    (st st' : Registry.State) (r : Registry.Result Registry.object) :
  Registry.or_default msg default st = (r, st') -> st' = st.
Proof. unfold Registry.or_default. destruct default; now intros H; injection H. Qed.

Lemma path_ok_colons (p : string) :
  Registry.path_ok p = true -> (Registry.count_char ":" p <= 1)%nat.
Proof.
  unfold Registry.path_ok. rewrite !andb_true_iff. intros [[_ H] _].
  now apply Nat.leb_le.
Qed.

(** What the lazy load returns is a true handler stored under the name. *)
Lemma load_handler_keeps (E : Registry.Env) (name path : string)
    (st st' : Registry.State) (r : Registry.Result Registry.object) :
  Registry.import_ok E -> Registry.registry_ok st ->
  startswith "_" name = false -> name <> ""%string ->
  Registry.path_ok path = true ->
  Registry.load_handler E name path st = (r, st') ->
  Registry.registry_ok st'
  /\ forall o, r = Registry.Ok o ->
       Registry.is_crypt_handler o = true /\ Registry.truth o = true
       /\ Registry.name o = name.
Proof.
  intros HE Hok Hp Hne Hpath.
  rewrite (load_handler_run E name path st (path_ok_colons path Hpath)). cbv zeta.
  destruct (Registry.import_ E _ st) as [[m|e] st1] eqn:Ei.
  2:{ intros H; injection H as <- <-. split; [|discriminate].
      exact (HE _ _ _ _ Hok Ei). }
  pose proof (HE _ _ _ _ Hok Ei) as Hok1.
  assert (Hreg :
    match m (if Registry.contains ":" path
             then Registry.after_first ":" path else name) with
    | Some h =>
        match Registry.register_crypt_handler h false (Some name) st1 with
        | (Registry.Ok _, st2) => (Registry.Ok h, st2)
        | (Registry.Err e, st2) => (Registry.Err e, st2)
        end
    | None =>
        (Registry.Err
           (Registry.AttributeError
              (if Registry.contains ":" path
               then Registry.after_first ":" path else name)), st1)
    end = (r, st') ->
    Registry.registry_ok st'
    /\ forall o, r = Registry.Ok o ->
         Registry.is_crypt_handler o = true /\ Registry.truth o = true
         /\ Registry.name o = name).
  { destruct (m _) as [h|].
    2:{ intros H; injection H as <- <-. split; [exact Hok1|discriminate]. }
    destruct (Registry.register_crypt_handler h false (Some name) st1)
      as [[u|e] st2] eqn:Er; intros H; injection H as <- <-.
    - split; [exact (register_crypt_handler_keeps _ _ _ _ _ _ Hok1 Er)|].
      intros o Ho. injection Ho as <-. destruct u.
      destruct (register_crypt_handler_ok h false (Some name) st1 st2 Er)
        as (Hc & Ht & _).
      split; [exact Hc|]. split; [exact Ht|].
      revert Er. rewrite register_crypt_handler_run, Hc, Ht. cbn [negb].
      destruct (Registry._validate_handler_name (Registry.name h)); [|discriminate].
      destruct (String.eqb_spec name "") as [?|_]; [contradiction|]. cbn [negb andb].
      destruct (String.eqb_spec name (Registry.name h)) as [->|_]; [reflexivity|].
      discriminate.
    - split; [exact (register_crypt_handler_keeps _ _ _ _ _ _ Hok1 Er)|discriminate]. }
  destruct (Registry._handlers st1 !! name) as [o|] eqn:Eo; [|exact Hreg].
  destruct (Registry.truth o) eqn:Et; [|exact Hreg].
  intros H; injection H as <- <-. split; [exact Hok1|].
  destruct Hok1 as [Hh _]. destruct (Hh name o Eo Hp) as (Hc & _ & Hn & _).
  rewrite Hc. intros o' Ho'. injection Ho' as <-. auto.
Qed.

Lemma valid_normal_form (n : string) :
  Registry.valid_handler_name n -> Registry.normal_form n = n.
Proof.
  intros (core & Hn & _ & _ & Hw & _).
  assert (Hc : forall s, string_forall Registry.word_char s = true ->
                         Registry.normal_form s = s).
  { intros s. unfold Registry.normal_form, lower, replace_hyphens.
    induction s as [|c s IH]; [reflexivity|]. cbn [string_forall map_string].
    rewrite andb_true_iff. intros [Hc Hs]. rewrite (IH Hs). f_equal.
    revert Hc. destruct c as [[] [] [] [] [] [] [] []]; vm_compute; congruence. }
  destruct Hn as [-> | ->]; [now apply Hc|].
  unfold Registry.normal_form. unfold replace_hyphens.
  assert (Hm : forall f a b, map_string f (a ++ b) = (map_string f a ++ map_string f b)%string).
  { intros f a b. induction a as [|c a IH]; [reflexivity|].
    rewrite string_app_cons. cbn [map_string]. now rewrite IH. }
  rewrite Hm. unfold lower. rewrite Hm.
  fold (replace_hyphens core). fold (lower (replace_hyphens core)).
  fold (Registry.normal_form core). rewrite (Hc core Hw). reflexivity.
Qed.

(** [get_crypt_handler] keeps the invariant, and what it finds under a
    public normal form is a true handler of that name. *)
Lemma get_crypt_handler_keeps (E : Registry.Env) (name : string)
    (default : option Registry.object) (st st' : Registry.State)
    (r : Registry.Result Registry.object) :
  Registry.import_ok E -> Registry.registry_ok st ->
  Registry.get_crypt_handler E name default st = (r, st') ->
  Registry.registry_ok st'
  /\ (default = None -> startswith "_" (Registry.normal_form name) = false ->
      forall o, r = Registry.Ok o ->
        Registry.is_crypt_handler o = true /\ Registry.truth o = true
        /\ Registry.name o = Registry.normal_form name).
Proof.
  intros HE Hok.
  destruct (startswith "_" name) eqn:Hp.
  { unfold Registry.get_crypt_handler. rewrite Hp. intros H.
    pose proof (or_default_state _ _ _ _ _ H) as ->. split; [exact Hok|].
    intros -> _ o ->. discriminate H. }
  destruct (Registry._handlers st !! name) as [o|] eqn:Eo.
  { unfold Registry.get_crypt_handler. rewrite Hp. registry_unfold. rewrite Eo.
    intros H; injection H as <- <-. split; [exact Hok|].
    intros _ _ o' Ho'. injection Ho' as <-.
    destruct Hok as [Hh _]. destruct (Hh name o Eo Hp) as (Hc & Ht & Hn & Hv).
    rewrite (valid_normal_form name Hv). auto. }
  rewrite (get_crypt_handler_unloaded E name default st Hp Eo). cbv zeta.
  set (alt := Registry.normal_form name).
  set (st1 := if String.eqb alt name then st else Registry.with_warning st name alt).
  assert (Hok1 : Registry.registry_ok st1).
  { unfold st1. destruct (String.eqb alt name); [exact Hok|].
    now apply registry_ok_warning. }
  assert (Hh1 : Registry._handlers st1 = Registry._handlers st)
    by (unfold st1; destruct (String.eqb alt name); reflexivity).
  destruct (if String.eqb alt name then None else Registry._handlers st !! alt)
    as [o|] eqn:Ea.
  { intros H; injection H as <- <-. split; [exact Hok1|].
    intros _ Hpa o' Ho'. injection Ho' as <-.
    destruct (String.eqb alt name); [discriminate|].
    destruct Hok as [Hh _]. destruct (Hh alt o Ea Hpa) as (Hc & Ht & Hn & _). auto. }
  assert (Hdef : forall msg,
            Registry.or_default msg default st1 = (r, st') ->
            Registry.registry_ok st'
            /\ (default = None -> startswith "_" alt = false ->
                forall o, r = Registry.Ok o ->
                  Registry.is_crypt_handler o = true /\ Registry.truth o = true
                  /\ Registry.name o = alt)).
  { intros msg H. pose proof (or_default_state _ _ _ _ _ H) as ->.
    split; [exact Hok1|]. intros -> _ o ->. discriminate H. }
  destruct (Registry._locations st !! alt) as [p|] eqn:El; [|apply Hdef].
  destruct (String.eqb p ""); [apply Hdef|].
  intros H.
  destruct Hok as [Hh Hl]. destruct (Hl alt p El) as [Hv Hpath].
  pose proof (valid_not_private alt Hv) as Hpa.
  assert (Hne : alt <> ""%string).
  { destruct Hv as (core & Hn & Hlen & _).
    destruct core; [simpl in Hlen; lia|]. destruct Hn as [-> | ->]; discriminate. }
  destruct (load_handler_keeps E alt p st1 st' r HE Hok1 Hpa Hne Hpath H) as [Hok' Hr].
  split; [exact Hok'|]. intros _ _. exact Hr.
Qed.

Lemma initial_state_ok : Registry.registry_ok Registry.initial_state.
Proof.
  split.
  - intros k o. unfold Registry.initial_state. cbn. now rewrite lookup_empty.
  - intros k p Hl.
    assert (Hin : In (k, p) Registry.builtin_locations).
    { apply list_elem_of_In. unfold Registry.initial_state in Hl.
      cbn [Registry._locations] in Hl. now apply elem_of_list_to_map_2 in Hl. }
    assert (Hall : forallb Registry.builtin_entry_ok Registry.builtin_locations = true)
      by (vm_compute; reflexivity).
    rewrite forallb_forall in Hall. specialize (Hall _ Hin).
    unfold Registry.builtin_entry_ok in Hall. cbn [fst snd] in Hall.
    rewrite !andb_true_iff in Hall. destruct Hall as [[[Hv Hp] _] _].
    split; [|exact Hp]. apply _validate_handler_name_ok_iff.
    destruct (Registry._validate_handler_name k) as [[|]|]; congruence.
Qed.

Lemma step_keeps (E : Registry.Env) (st st' : Registry.State) :
  Registry.import_ok E -> Registry.registry_ok st -> Registry.step E st st' ->
  Registry.registry_ok st'.
Proof.
  intros HE Hok Hstep. destruct Hstep as
    [name path st r st' H | h force attr st r st' H | name default st r st' H
    | lo st r st' H | name lo st r st' H | name loc st r st' H
    | attr st r st' H | attr value st r st' H].
  - exact (register_crypt_handler_path_keeps _ _ _ _ _ Hok H).
  - exact (register_crypt_handler_keeps _ _ _ _ _ _ Hok H).
  - exact (proj1 (get_crypt_handler_keeps E _ _ _ _ _ HE Hok H)).
  - unfold Registry.list_crypt_handlers in H. now injection H as _ <-.
  - unfold Registry._has_crypt_handler in H. now injection H as _ <-.
  - unfold Registry._unload_handler_name in H. injection H as _ <-.
    destruct Hok as [Hh Hl]. split.
    + intros k o. cbn. intros Hk. apply lookup_delete_Some in Hk.
      destruct Hk as [_ Hk]. now apply Hh.
    + intros k p. cbn. destruct loc; [|apply Hl].
      intros Hk. apply lookup_delete_Some in Hk. destruct Hk as [_ Hk]. now apply Hl.
  - unfold Registry.proxy_getattr in H.
    destruct (startswith "_" attr); [now injection H as _ <-|].
    unfold Registry.bind in H.
    destruct (Registry.get_crypt_handler E attr (Some Registry.None_) st)
      as [[o|e] s1] eqn:Eg.
    + pose proof (proj1 (get_crypt_handler_keeps E _ _ _ _ _ HE Hok Eg)) as Hok1.
      destruct (Registry.truth o); now injection H as _ <-.
    + pose proof (proj1 (get_crypt_handler_keeps E _ _ _ _ _ HE Hok Eg)) as Hok1.
      now injection H as _ <-.
  - unfold Registry.proxy_setattr in H. destruct (startswith "_" attr) eqn:Ep.
    + unfold Registry.set_handler in H. injection H as _ <-.
      destruct Hok as [Hh Hl]. split; [|exact Hl]. intros k o.
      cbn [Registry._handlers].
      destruct (decide (k = attr)) as [->|Hne]; [intros _ Hk; congruence|].
      rewrite lookup_insert_ne by congruence. apply Hh.
    + exact (register_crypt_handler_keeps _ _ _ _ _ _ Hok H).
Qed.

(** X26.  When importing a module uses the registry through its functions
    only, every state that calls of the module's functions and accesses to
    the proxy can reach from the initial one keeps the registry well formed:
    what is loaded under a public name is a true handler that carries that
    name, and every path is registered under a valid name and has at most
    one colon.  In such a state [get_crypt_handler] without default, for a
    name whose normal form does not start with an underscore, returns
    nothing but a true handler whose [name] is that normal form, and what
    the proxy hands out is such a handler as well. *)
Theorem reachable_registry_ok (E : Registry.Env) (st : Registry.State) :
  Registry.import_ok E -> Registry.reachable E st ->
  Registry.registry_ok st
  /\ (forall k p, Registry._locations st !! k = Some p ->
        (Registry.count_char ":" p <= 1)%nat)
  /\ (forall name o st',
        startswith "_" (Registry.normal_form name) = false ->
        Registry.get_crypt_handler E name None st = (Registry.Ok o, st') ->
        Registry.is_crypt_handler o = true /\ Registry.truth o = true
        /\ Registry.name o = Registry.normal_form name)
  /\ (forall attr o st',
        Registry.proxy_getattr E attr st = (Registry.Ok o, st') ->
        Registry.truth o = true).
Proof.
  intros HE Hr.
  assert (Hok : Registry.registry_ok st).
  { induction Hr as [|st st' _ IH Hs]; [apply initial_state_ok|].
    exact (step_keeps E st st' HE IH Hs). }
  split; [exact Hok|]. split.
  - intros k p Hl. destruct Hok as [_ Hloc]. apply path_ok_colons.
    now destruct (Hloc k p Hl).
  - split.
    + intros name o st' Hp Hg.
      destruct (get_crypt_handler_keeps E name None st st' _ HE Hok Hg) as [_ H].
      now apply H.
    + intros attr o st'. unfold Registry.proxy_getattr.
      destruct (startswith "_" attr); [discriminate|]. unfold Registry.bind.
      destruct (Registry.get_crypt_handler E attr (Some Registry.None_) st)
        as [[h|e] s1]; [|discriminate].
      destruct (Registry.truth h) eqn:Et; [|discriminate].
      intros H; injection H as <- _. exact Et.
Qed.

Lemma reachable_registry_ok_witness :
  Registry.registry_ok
    (Registry.with_handler Registry.initial_state "md5_crypt"
       (Registry.handler_ 1 "md5_crypt")).
Proof.
  apply (reachable_registry_ok
           (Registry.one_module "passlib.handlers.md5_crypt" "md5_crypt"
              (Registry.handler_ 1 "md5_crypt"))).
  - intros modname st r st' Hok. cbn.
    destruct (String.eqb modname "passlib.handlers.md5_crypt");
      intros H; injection H as _ <-; exact Hok.
  - apply (Registry.reachable_step _ Registry.initial_state);
      [apply Registry.reachable_initial|].
    apply (Registry.step_get_crypt_handler _ "md5_crypt" None _
             (Registry.Ok (Registry.handler_ 1 "md5_crypt"))).
    vm_compute. reflexivity.
Defined.

(** ** Hash names: resolution of the spellings *)

(** The lookup of a name that is its own normal form makes no nested call. *)
Lemma lookup_hash_rec_fixed (P : Platform) (flag : bool) (s : string) (d d' : nat)
    (st : State) :
  nth 0 (_get_hash_aliases s) "" = s ->
  lookup_hash_rec P (S d) (DName s) flag st
  = lookup_hash_rec P (S d') (DName s) flag st.
Proof.
  intros Hfix. cbn [lookup_hash_rec]. rewrite Hfix, String.eqb_refl. reflexivity.
Qed.

(** When the normal form of a name resolves, the name resolves to the same
    descriptor, provided two nested calls are allowed. *)
Lemma lookup_hash_from_normal_form (P : Platform) (flag : bool) (v : string)
    (st st1 : State) (info : HashInfo) :
  (2 <= recursion_limit P)%nat ->
  cache st !! KName v = None ->
  nth 0 (_get_hash_aliases v) "" <> ""%string ->
  nth 0 (_get_hash_aliases (nth 0 (_get_hash_aliases v) "")) ""
  = nth 0 (_get_hash_aliases v) "" ->
  info_const info <> None \/ flag = true ->
  lookup_hash P (DName (nth 0 (_get_hash_aliases v) "")) flag st = (Ok info, st1) ->
  exists st', lookup_hash P (DName v) flag st = (Ok info, st').
Proof.
  intros Hlim Hmiss Hne Hfix Hc Hl.
  destruct (String.eqb_spec (nth 0 (_get_hash_aliases v) "") v) as [E|Hnv].
  { rewrite E in Hl. eauto. }
  unfold lookup_hash in *.
  destruct (recursion_limit P) as [|[|d]]; [lia|lia|].
  rewrite (lookup_hash_rec_fixed P flag _ (S d) d st Hfix) in Hl.
  remember (S d) as d1 eqn:Hd1.
  cbn [lookup_hash_rec cache_lookup]. unfold bind at 1, cache_get at 1.
  rewrite Hmiss. unfold bind at 1.
  destruct (String.eqb_spec (nth 0 (_get_hash_aliases v) "") "") as [?|_];
    [contradiction|]. cbn [negb]. unfold assert at 1, ret at 1.
  destruct (String.eqb_spec (nth 0 (_get_hash_aliases v) "") v) as [?|_];
    [contradiction|]. cbn [negb]. unfold bind at 1. rewrite Hl.
  destruct (info_const info) as [c|].
  - unfold_monad. eauto.
  - destruct Hc as [Hc| ->]; [contradiction|]. unfold_monad. eauto.
Qed.

(** *** The structural parse *)

Lemma span_letters_app (l rest : string) :
  string_forall is_letter l = true ->
  match rest with String x _ => is_letter x = false | EmptyString => True end ->
  span_letters (l ++ rest) = (l, rest).
Proof.
  intros Hl Hr. induction l as [|c l IH].
  - change (""%string ++ rest)%string with rest.
    destruct rest as [|x rest]; [reflexivity|]. cbn [span_letters]. now rewrite Hr.
  - rewrite string_app_cons. cbn [span_letters].
    cbn [string_forall] in Hl. apply andb_true_iff in Hl. destruct Hl as [Hc Hl].
    now rewrite Hc, (IH Hl).
Qed.

Lemma opt_hyphen_other {A : Type} (k : string -> option A) (c : ascii) (s : string) :
  Ascii.eqb c "-" = false -> opt_hyphen k (String c s) = k (String c s).
Proof.
  destruct c as [[] [] [] [] [] [] [] []]; try reflexivity. discriminate.
Qed.

Lemma opt_hyphen_taken {A : Type} (k : string -> option A) (s : string) (a : A) :
  k s = Some a -> opt_hyphen k (String "-" s) = Some a.
Proof. intros H. cbn [opt_hyphen]. now rewrite H. Qed.

Lemma digit_not_hyphen (c : ascii) : is_digit c = true -> Ascii.eqb c "-" = false.
Proof. destruct c as [[] [] [] [] [] [] [] []]; vm_compute; congruence. Qed.

Lemma digit_not_letter (c : ascii) : is_digit c = true -> is_letter c = false.
Proof. destruct c as [[] [] [] [] [] [] [] []]; vm_compute; congruence. Qed.

Lemma take_chars_all (s : string) : take_chars (String.length s) s = s.
Proof. induction s as [|c s IH]; [reflexivity|]. cbn. now rewrite IH. Qed.

Lemma drop_chars_all (s : string) : drop_chars (String.length s) s = ""%string.
Proof. induction s as [|c s IH]; [reflexivity|]. cbn. exact IH. Qed.

Lemma match_size_digits (sz : string) :
  all_digits sz = true ->
  String.length sz = 3%nat \/ String.length sz = 4%nat ->
  match_size sz = Some (Some sz).
Proof.
  intros Hd Hlen.
  destruct sz as [|a [|b [|c [|e [|f sz]]]]];
    try (destruct Hlen; discriminate);
    unfold match_size, digits_then_end;
    cbn [take_chars drop_chars String.length Nat.eqb andb];
    rewrite Hd; reflexivity.
Qed.

(** A name made of letters, a revision digit and a size of three or four
    digits, with or without hyphens between them, is parsed into these
    three groups. *)
Lemma re_match_name_structured (l sz h1 h2 : string) (c : ascii) :
  l <> ""%string -> string_forall is_letter l = true -> is_digit c = true ->
  all_digits sz = true ->
  String.length sz = 3%nat \/ String.length sz = 4%nat ->
  h1 = ""%string \/ h1 = "-"%string -> h2 = ""%string \/ h2 = "-"%string ->
  re_match_name (l ++ h1 ++ String c "" ++ h2 ++ sz)
  = Some (l, Some (String c ""), Some sz).
Proof.
  intros Hne Hl Hc Hd Hlen Hh1 Hh2. unfold re_match_name.
  assert (Hsz : exists x sz', sz = String x sz' /\ is_digit x = true).
  { destruct sz as [|x sz']; [destruct Hlen; discriminate|].
    exists x, sz'. split; [reflexivity|]. cbn in Hd. now apply andb_true_iff in Hd. }
  destruct Hsz as (x & sz' & Esz & Hx).
  assert (Hinner :
    opt_hyphen (fun t => match match_size t with
                         | Some size => Some (l, Some (String c ""), size)
                         | None => None
                         end) (h2 ++ sz)
    = Some (l, Some (String c ""), Some sz)).
  { destruct Hh2 as [-> | ->].
    - change (""%string ++ sz)%string with sz. rewrite Esz at 1.
      rewrite (opt_hyphen_other _ x sz' (digit_not_hyphen x Hx)).
      rewrite <- Esz. now rewrite (match_size_digits sz Hd Hlen).
    - change ("-" ++ sz)%string with (String "-" sz).
      apply opt_hyphen_taken. now rewrite (match_size_digits sz Hd Hlen). }
  assert (Hdigit :
    opt_digit (fun rev =>
       opt_hyphen (fun t => match match_size t with
                            | Some size => Some (l, rev, size)
                            | None => None
                            end)) (String c (h2 ++ sz))
    = Some (l, Some (String c ""), Some sz)).
  { cbn [opt_digit]. rewrite Hc, Hinner. reflexivity. }
  assert (Hrest : match (h1 ++ String c "" ++ h2 ++ sz)%string with
                  | String y _ => is_letter y = false
                  | EmptyString => True
                  end).
  { destruct Hh1 as [-> | ->].
    - change (""%string ++ String c "" ++ h2 ++ sz)%string
        with (String c (h2 ++ sz)). now apply digit_not_letter.
    - reflexivity. }
  rewrite (span_letters_app l _ Hl Hrest).
  destruct (String.eqb_spec l "") as [?|_]; [contradiction|].
  destruct Hh1 as [-> | ->].
  - change (""%string ++ String c "" ++ h2 ++ sz)%string with (String c (h2 ++ sz)).
    rewrite (opt_hyphen_other _ c _ (digit_not_hyphen c Hc)). exact Hdigit.
  - change ("-" ++ String c "" ++ h2 ++ sz)%string
      with (String "-" (String c (h2 ++ sz))).
    apply opt_hyphen_taken. exact Hdigit.
Qed.

Lemma last_ok_digits (sz : string) :
  sz <> ""%string -> all_digits sz = true -> last_ok sz = true.
Proof.
  induction sz as [|x sz IH]; [contradiction|]. intros _ Hd.
  cbn [all_digits] in Hd. apply andb_true_iff in Hd. destruct Hd as [Hx Hd].
  cbn [last_ok]. destruct sz as [|y sz].
  - unfold edge_char. rewrite Hx. apply orb_true_r.
  - apply IH; [discriminate|exact Hd].
Qed.

Lemma all_name_chars_digits (sz : string) :
  all_digits sz = true -> all_name_chars sz = true.
Proof.
  induction sz as [|x sz IH]; [reflexivity|]. cbn [all_digits all_name_chars].
  rewrite !andb_true_iff. intros [Hx Hd]. split; [|now apply IH].
  unfold name_char, edge_char. rewrite Hx. now rewrite orb_true_r.
Qed.

Lemma all_name_chars_lower (l : string) :
  string_forall (fun x => between 97 122 (code x)) l = true ->
  all_name_chars l = true /\ string_forall is_letter l = true.
Proof.
  induction l as [|x l IH]; [split; reflexivity|]. cbn [string_forall all_name_chars].
  rewrite !andb_true_iff. intros [Hx Hl]. destruct (IH Hl) as [H1 H2].
  split; (split; [|assumption]).
  - unfold name_char, edge_char. now rewrite Hx.
  - unfold is_letter. now rewrite Hx.
Qed.

(** The names that the structural parse is made for are plain names. *)
Lemma structured_plain (l sz h1 h2 : string) (c : ascii) :
  l <> ""%string -> string_forall (fun x => between 97 122 (code x)) l = true ->
  is_digit c = true -> all_digits sz = true ->
  String.length sz = 3%nat \/ String.length sz = 4%nat ->
  h1 = ""%string \/ h1 = "-"%string -> h2 = ""%string \/ h2 = "-"%string ->
  plain_name (l ++ h1 ++ String c "" ++ h2 ++ sz) = true.
Proof.
  intros Hne Hl Hc Hd Hlen Hh1 Hh2.
  destruct (all_name_chars_lower l Hl) as [Hln _].
  assert (Hsz : sz <> ""%string) by (intros ->; destruct Hlen; discriminate).
  unfold plain_name. rewrite !andb_true_iff. split; [split|].
  - rewrite !all_name_chars_app, Hln, (all_name_chars_digits sz Hd).
    assert (Hcn : all_name_chars (String c "") = true).
    { cbn. unfold name_char, edge_char. rewrite Hc. now rewrite orb_true_r. }
    rewrite Hcn. destruct Hh1 as [-> | ->], Hh2 as [-> | ->]; reflexivity.
  - destruct l as [|x l]; [contradiction|]. rewrite string_app_cons.
    cbn [first_ok]. cbn [string_forall] in Hl. apply andb_true_iff in Hl.
    unfold edge_char. now rewrite (proj1 Hl).
  - rewrite <- !string_app_assoc.
    rewrite (last_ok_app _ sz Hsz). now apply last_ok_digits.
Qed.

(** Any spelling of a plain name resolves as the first name of its row
    does. *)
Lemma spelling_resolves (s v n0 : string) :
  plain_name s = true -> startswith "scram-" s = false -> written_as s v ->
  nth 0 (aliases_of_clean s) "" = n0 -> n0 <> ""%string ->
  nth 0 (_get_hash_aliases n0) "" = n0 ->
  _get_hash_aliases v = aliases_of_clean s
  /\ (forall P flag st st' info,
        cache st !! KName v = None ->
        lookup_hash P (DName v) flag st = (Ok info, st') ->
        exists st1, lookup_hash P (DName n0) flag st = (Ok info, st1))
  /\ (forall P flag st st1 info,
        (2 <= recursion_limit P)%nat -> cache st !! KName v = None ->
        info_const info <> None \/ flag = true ->
        lookup_hash P (DName n0) flag st = (Ok info, st1) ->
        exists st', lookup_hash P (DName v) flag st = (Ok info, st')).
Proof.
  intros Hp Hs Hv Hn Hne Hfix.
  assert (Hal : _get_hash_aliases v = aliases_of_clean s).
  { unfold _get_hash_aliases. now rewrite (clean_written s v Hp Hs Hv). }
  split; [exact Hal|]. split.
  - intros P flag st st' info Hmiss Hl.
    destruct (String.eqb_spec n0 v) as [E|Hnv].
    + exists st'. now rewrite E.
    + rewrite <- Hn, <- Hal.
      apply (lookup_hash_via_normal_form P flag v st st' info Hmiss); [|exact Hl].
      now rewrite Hal, Hn.
  - intros P flag st st1 info Hlim Hmiss Hc Hl.
    apply (lookup_hash_from_normal_form P flag v st st1 info Hlim Hmiss);
      rewrite ?Hal, ?Hn; assumption.
Qed.

Lemma table_first_names (row : list string) :
  In row _known_hash_names ->
  In (nth 0 row "") row /\ nth 0 row "" <> ""%string
  /\ nth 0 (_get_hash_aliases (nth 0 row "")) "" = nth 0 row "".
Proof.
  intros Hrow.
  assert (Hin : In (nth 0 row "") row).
  { simpl in Hrow.
    repeat (destruct Hrow as [<-|Hrow]; [simpl; tauto|]). contradiction. }
  destruct (known_name_ok row _ Hrow Hin) as (Hp & Hs & Ha).
  assert (Hne : nth 0 row "" <> ""%string).
  { intros E. rewrite E in Hp. discriminate Hp. }
  split; [exact Hin|]. split; [exact Hne|].
  unfold _get_hash_aliases. rewrite (clean_written _ _ Hp Hs); [now rewrite Ha|].
  exists ""%string, (nth 0 row ""), ""%string.
  split; [simpl; now rewrite string_app_nil_r|].
  repeat split. apply spelling_refl.
  unfold plain_name in Hp. rewrite !andb_true_iff in Hp. tauto.
Qed.

(** C5.  Every name of the table, in whatever case it is written, with
    any of [_], space, [/] or [-] for its hyphens and with white space
    around it, is normalised to the row it stands in.  When such a spelling
    is not cached, its lookup returns a descriptor exactly when the lookup
    of the first name of the row does, and the same one: what the spelling
    resolves to is what the first name resolves to, and, two nested calls
    being allowed, whenever the first name resolves the spelling does.  A
    name made of letters, a revision digit and a size of three or four
    digits, with or without hyphens between them, that is not itself in the
    table is parsed into these groups, and is normalised to the row of
    [letters revision "-" size] when the table has it, else to the names
    synthesised from the groups.  So every spelling of ["sha2-256"],
    ["sha-2-256"], ["sha2256"] or ["sha-2256"], and likewise for the sizes
    224, 384 and 512, resolves to the descriptor of ["sha256"]:
    ["SHA2-256"] is found in the table as an alias, ["SHA-2-256"] reaches
    the same row through the structural parse. *)
Theorem hash_name_spellings :
  (forall row n v,
     In row _known_hash_names -> In n row -> written_as n v ->
     _get_hash_aliases v = row
     /\ (forall P flag st st' info,
           cache st !! KName v = None ->
           lookup_hash P (DName v) flag st = (Ok info, st') ->
           exists st1, lookup_hash P (DName (nth 0 row "")) flag st = (Ok info, st1))
     /\ (forall P flag st st1 info,
           (2 <= recursion_limit P)%nat -> cache st !! KName v = None ->
           info_const info <> None \/ flag = true ->
           lookup_hash P (DName (nth 0 row "")) flag st = (Ok info, st1) ->
           exists st', lookup_hash P (DName v) flag st = (Ok info, st')))
  /\ (forall l c sz h1 h2 v,
        l <> ""%string ->
        string_forall (fun x => between 97 122 (code x)) l = true ->
        is_digit c = true -> all_digits sz = true ->
        String.length sz = 3%nat \/ String.length sz = 4%nat ->
        h1 = ""%string \/ h1 = "-"%string -> h2 = ""%string \/ h2 = "-"%string ->
        let s := (l ++ h1 ++ String c "" ++ h2 ++ sz)%string in
        let iana_name := (l ++ String c "" ++ "-" ++ sz)%string in
        let hashlib_name := ((l ++ String c "") ++ "_" ++ sz)%string in
        startswith "scram-" s = false -> check_table s = None ->
        written_as s v ->
        re_match_name (clean_name v) = Some (l, Some (String c ""), Some sz)
        /\ _get_hash_aliases v
           = match check_table iana_name with
             | Some row => row
             | None => [hashlib_name; iana_name]
             end)
  /\ (forall sz h1 h2 v,
        In sz ["224"; "256"; "384"; "512"]%string ->
        h1 = ""%string \/ h1 = "-"%string -> h2 = ""%string \/ h2 = "-"%string ->
        written_as ("sha" ++ h1 ++ "2" ++ h2 ++ sz) v ->
        _get_hash_aliases v = _get_hash_aliases ("sha" ++ sz)
        /\ nth 0 (_get_hash_aliases v) "" = ("sha" ++ sz)%string
        /\ (forall P flag st st' info,
              cache st !! KName v = None ->
              lookup_hash P (DName v) flag st = (Ok info, st') ->
              exists st1,
                lookup_hash P (DName ("sha" ++ sz)) flag st = (Ok info, st1))
        /\ (forall P flag st st1 info,
              (2 <= recursion_limit P)%nat -> cache st !! KName v = None ->
              info_const info <> None \/ flag = true ->
              lookup_hash P (DName ("sha" ++ sz)) flag st = (Ok info, st1) ->
              exists st', lookup_hash P (DName v) flag st = (Ok info, st')))
  /\ check_table (clean_name "SHA2-256") = Some ["sha256"; "sha-256"; "sha2-256"]%string
  /\ _get_hash_aliases "SHA2-256" = _get_hash_aliases "sha256"
  /\ nth 0 (_get_hash_aliases "SHA2-256") "" = "sha256"
  /\ check_table (clean_name "SHA-2-256") = None
  /\ re_match_name (clean_name "SHA-2-256") = Some ("sha", Some "2", Some "256")%string
  /\ _get_hash_aliases "SHA-2-256" = _get_hash_aliases "sha256".
Proof.
  split; [|split; [|split; [|do 5 (split; [vm_compute; reflexivity|]);
                             vm_compute; reflexivity]]].
  - intros row n v Hrow Hn Hv.
    destruct (known_name_ok row n Hrow Hn) as (Hp & Hs & Ha).
    destruct (table_first_names row Hrow) as (_ & Hne & Hfix).
    destruct (spelling_resolves n v (nth 0 row "") Hp Hs Hv) as (H1 & H2 & H3);
      [now rewrite Ha|exact Hne|exact Hfix|].
    rewrite Ha in H1. auto.
  - intros l c sz h1 h2 v Hne Hl Hc Hd Hlen Hh1 Hh2 s iana_name hashlib_name
      Hs Ht Hv.
    pose proof (structured_plain l sz h1 h2 c Hne Hl Hc Hd Hlen Hh1 Hh2) as Hp.
    fold s in Hp.
    pose proof (clean_written s v Hp Hs Hv) as Hclean.
    destruct (all_name_chars_lower l Hl) as [_ Hll].
    assert (Hre : re_match_name s = Some (l, Some (String c ""), Some sz))
      by (apply re_match_name_structured; assumption).
    split; [now rewrite Hclean|].
    unfold _get_hash_aliases, aliases_of_clean. rewrite Hclean, Ht, Hre.
    unfold iana_name, hashlib_name. rewrite !string_app_assoc. reflexivity.
  - intros sz h1 h2 v Hsz Hh1 Hh2 Hv.
    assert (Hcase : plain_name ("sha" ++ h1 ++ "2" ++ h2 ++ sz) = true
                    /\ startswith "scram-" ("sha" ++ h1 ++ "2" ++ h2 ++ sz) = false
                    /\ aliases_of_clean ("sha" ++ h1 ++ "2" ++ h2 ++ sz)
                       = _get_hash_aliases ("sha" ++ sz)
                    /\ nth 0 (_get_hash_aliases ("sha" ++ sz)) "" = ("sha" ++ sz)%string
                    /\ ("sha" ++ sz)%string <> ""%string).
    { simpl in Hsz.
      destruct Hsz as [<-|[<-|[<-|[<-|[]]]]];
        destruct Hh1 as [-> | ->], Hh2 as [-> | ->];
        (split; [vm_compute; reflexivity|]); (split; [vm_compute; reflexivity|]);
        (split; [vm_compute; reflexivity|]); (split; [vm_compute; reflexivity|]);
        discriminate. }
    destruct Hcase as (Hp & Hs & Ha & Hn & Hne).
    destruct (spelling_resolves _ v ("sha" ++ sz) Hp Hs Hv) as (H1 & H2 & H3);
      [now rewrite Ha|exact Hne|exact Hn|].
    rewrite Ha in H1. split; [exact H1|]. split; [now rewrite H1|]. auto.
Qed.

Lemma hash_name_spellings_witness :
  _get_hash_aliases "  Sha_512 " = ["sha512"; "sha-512"; "sha2-512"]%string
  /\ (exists st',
        lookup_hash Toy.py3 (DName "SHA-2-256") false initial_state
        = (Ok Toy.sha256_info, st'))
  /\ exists st1,
       lookup_hash Toy.py3 (DName "SHA2-256") false initial_state
       = (Ok Toy.sha256_info, Toy.resolved Toy.py3 "SHA2-256")
       /\ lookup_hash Toy.py3 (DName "sha256") false initial_state
          = (Ok Toy.sha256_info, st1).
Proof.
  destruct hash_name_spellings as (H1 & _ & H2 & _).
  split; [|split].
  - refine (proj1 (H1 ["sha512"; "sha-512"; "sha2-512"]%string "sha-512"%string
                     "  Sha_512 "%string _ _ _)).
    + simpl. tauto.
    + simpl. tauto.
    + exists "  "%string, "Sha_512"%string, " "%string. repeat split.
  - destruct (H2 "256"%string "-"%string "-"%string "SHA-2-256"%string)
      as (_ & _ & _ & Hfw).
    + simpl. tauto.
    + now right.
    + now right.
    + exists ""%string, "SHA-2-256"%string, ""%string. repeat split.
    + apply (Hfw Toy.py3 false initial_state (Toy.resolved Toy.py3 "sha256")
               Toy.sha256_info).
      * simpl. lia.
      * reflexivity.
      * left. discriminate.
      * vm_compute. reflexivity.
  - assert (Hl : lookup_hash Toy.py3 (DName "SHA2-256") false initial_state
                 = (Ok Toy.sha256_info, Toy.resolved Toy.py3 "SHA2-256"))
      by (vm_compute; reflexivity).
    destruct (H2 "256"%string ""%string "-"%string "SHA2-256"%string)
      as (_ & _ & Hbw & _).
    + simpl. tauto.
    + now left.
    + now right.
    + exists ""%string, "SHA2-256"%string, ""%string. repeat split.
    + destruct (Hbw Toy.py3 false initial_state _ _ eq_refl Hl) as [st1 Hst1].
      exists st1. split; [exact Hl|exact Hst1].
Defined.

(** Without room for the nested call, the canonical name resolves and its
    alias does not. *)
Example lookup_hash_one_call :
  fst (lookup_hash toy_one_call (DName "sha256") false initial_state)
  = Ok Toy.sha256_info
  /\ fst (lookup_hash toy_one_call (DName "SHA2-256") false initial_state)
     = Err RecursionError.
Proof. split; vm_compute; reflexivity. Qed.
